(* ===== verification/_CoqProject ===== *)
-Q . S2P
Prelude.v
GoLib.v
Regex.v
Sha1.v
Codec.v
GoTime.v
Iso8601.v
Transport.v
Protocol.v
IndexingService.v
Persistence.v
Sql.v
Keyset.v
TorrentTables.v
Sqlite3.v
Sqlite3Laws.v
Sqlite3Props.v
Sqlite3Model.v
Encoding.v
HttpLib.v
Postgres.v
PostgresProps.v
Engines.v
Outputs.v
Dispatch.v
Xml.v
Templates.v
Credentials.v
Web.v
WebProps.v
FeedProps.v
Client.v
Live.v
StatsPage.v
StatsPlot.v
Dom.v
FileTree.v
Humanise.v
TorrentPage.v
Leech.v
LeechProps.v
Sink.v
Daemon.v
Process.v
Main.v
System.v
WebModel.v
PageModel.v
MainModel.v
