(* ===== verification/Prelude.v ===== *)
(** * Verification of magnetico

    magnetico crawls the BitTorrent DHT for info hashes, downloads the metadata
    of the torrents it finds from their peers, stores it in a database, and
    serves the database over HTTP. This library is a model of the crawler
    ([cmd/magneticod]), of the engines of [pkg/persistence] and of the web
    interface ([cmd/magneticow]), with the theorems that make them correct.
    File names below are relative to the repository.

    ** The program and the files that model it

    An indexing service ([cmd/magneticod/dht/mainline]) sends KRPC queries over
    UDP and handles the responses. Packets pass through [transport.go] (sockets
    and bencode), [protocol.go] (validation and dispatch) and
    [indexingService.go] (routing table, sampling of info hashes, get_peers).
    Its results go through the bounded channel of [dht/managers.go] to the event
    loop of [main.go], which asks the database whether the torrent is known and
    hands it to the metadata sink ([bittorrent/metadata/sink.go]). The sink runs
    one leech ([leech.go]) per info hash, each of which fetches the metadata
    from one peer; verified metadata comes back over a channel and is stored by
    AddNewTorrent of the engine the URL names. The web interface answers
    queries from the same database, as JSON ([api.go]), as pages and as a feed
    ([handlers.go], [data/templates]), behind Basic authentication
    ([cmd/magneticow/main.go]); scripts list the torrents page by page
    ([torrents.js]), show one torrent with a tree of its files ([torrent.js],
    [vanillatree-v0.0.3.js]) and plot statistics ([statistics.js]).

    - Prelude.v (this file): panics and errors as [go] and [res] with the
      notations [let!] and [let?], bytes, machine integers, slices, copy and
      lists changed at an index.
    - GoLib.v: encoding/binary, net.IP.To4, decimal formatting and parsing.
    - Regex.v: regexp, a leftmost-first backtracking matcher with captures, and
      the relation [takes] that says what a pattern matches.
    - Sha1.v: crypto/sha1, executable, with test vectors.
    - GoTime.v: time.Date and AddDate in UTC as Unix seconds.
    - Encoding.v: unicode/utf8, encoding/hex and the strings of encoding/json.
    - HttpLib.v: base64, query parameters, Basic authentication, response
      writers.
    - Codec.v: codec.go. Messages, and every compact and bencode marshaller.
    - Protocol.v: protocol.go. Validators, [onMessage], message constructors,
      token secrets; [guarantee] is the specification of the dispatch.
    - Transport.v: transport.go. [readMessages] over the results of recvfrom,
      [WriteMessages]; [deliveries] is the specification of the read loop.
    - IndexingService.v: indexingService.go. Handlers as functions on the
      record [IndexingService]; the routing table stores pointers into an
      explicit [heap] because the code stores the address of a loop variable;
      the index loop ([index_step]) and message handling are interleaved by
      [step].
    - Leech.v: leech.go. Each method is a function of the monad [M] (state,
      error, panic, non-termination) over the record [Leech], which holds the
      bytes the peer will send and logs of what was written, allocated and
      reported. LeechProps.v: its properties and peers of all kinds.
    - Sink.v: sink.go. The operations on the record [Sink], and [sink_step], the
      sink with its goroutines and its channel.
    - Daemon.v: managers.go, the flags and the event loop of main.go.
    - Process.v: all the goroutines of magneticod, with the services that
      NewManager starts and their read loops, interleaved by [process_step],
      whose label says who steps and what the world answers.
    - Main.v: the main functions of both programs, with construction and closing
      of ApiReadmeHandler. [prog] is a list of effects and a value or the way
      main ends; [defer] runs its effects unless the process exits;
      [execution] also lets a signal kill the process between two effects.
      MainModel.v: closed runs of both, and the witnesses.
    - Iso8601.v: iso8601.go, with [isoDate], [print] and the calendar of ISO 8601
      ([on_calendar], [last_second]) as specification.
    - Persistence.v: interface.go. The class [Database] has the methods of the
      interface, the class [DatabaseLaws] the contract the daemon relies on.
    - Sql.v: database/sql and text/template. The monad [DB] has the state of a
      connection: the tables, those of an open transaction, and a script of
      the failures to come; arguments are converted as database/sql does.
    - TorrentTables.v: rows of torrents and files, and the map they stand for;
      [abstract_add] is the specification of AddNewTorrent. Keyset.v: pages of
      an ordered list by the key of the last row seen.
    - Sqlite3.v: sqlite3.go, every method with its SQL texts. Sqlite3Laws.v: what
      SQLite documents about these statements. Sqlite3Props.v: theorems over
      any driver that follows the laws. Sqlite3Model.v: such a driver, and the
      witnesses.
    - Postgres.v and PostgresProps.v: the same for postgres.go. Engines.v: what
      the two engines have in common, as the class [Shelf] with an instance for
      each.
    - Outputs.v: stdout.go, beanstalkd.go, the JSON forms and the choice of the
      engine. Dispatch.v: MakeDatabase with the constructors; a value of the
      interface type is the sum [interface] of the four engines' states, and
      [anyDatabase] dispatches its methods.
    - Credentials.v: flags, credentials file, SIGHUP and Basic authentication of
      cmd/magneticow/main.go; [server_step] interleaves the goroutine of
      SIGHUP with signals.
    - Xml.v: a reader of XML documents after the recommendation, as
      specification.
    - Templates.v: html/template's escapers, the functions of the templates, and
      feed.xml and homepage.html; [readChannel] reads a feed with the reader of
      Xml.v, as specification.
    - Web.v: api.go, handlers.go, util.go and the routes of main.go. WebProps.v:
      access control, and what the API answers over SQLite. FeedProps.v: the
      feed.
    - Client.v: torrents.js with encodeQueryData of common.js, and the theorem
      that pages add up to the whole list. Live.v: the same script while the
      database grows.
    - StatsPage.v: the request of statistics.js with getWeek of common.js, over
      JavaScript's dates in a time zone ([Zone]). StatsPlot.v: its answer and
      the data of the plots, over objects with JavaScript's order of keys.
    - Dom.v: the document of a page as a tree of nodes; a reference to a node is
      its position. FileTree.v: vanillatree-v0.0.3.js over such documents, and
      the forest of entries that it implements ([insert_entry]).
    - Humanise.v: fileSize and humaniseDate of common.js, and the items of the
      list of torrents.
    - TorrentPage.v: torrent.js with myFetch of common.js, on its own and as a
      client of the router, over SQLite.
    - System.v: daemon, SQLite engine and web interface together.
    - WebModel.v: concrete functions for what the web interface calls outside
      the repository, and the witnesses. PageModel.v: a concrete browser, and
      the witnesses of the pages.

    ** What the theorems show

    - System.v: what the API lists from a database the daemon has filled is
      authentic; a peer can end the daemon with metadata whose sizes overflow.
    - Process.v: the process is simulated by the daemon of Daemon.v, so that it
      adds authentic entries only; an interrupt closes every socket once; what
      can end the process. Main.v: what each program has acquired and given
      back on each way it ends, being killed included.
    - Client.v: the listing script shows every fitting torrent exactly once, in
      order, through URL, handler, statement and JSON. Live.v: and it does so
      while torrents are added between its requests.
    - TorrentPage.v: the page of a torrent shows what AddNewTorrent stored, with
      one leaf for each file under one leaf for each directory, through
      database, router, password check, JSON, script and tree; a name that
      ends the tree. FileTree.v: add refines the insertion into a forest.
      Humanise.v: which unit and which number fileSize shows, up to 2^53 bytes.
    - StatsPage.v: when getWeek is the week of ISO 8601. StatsPlot.v: hours and
      days of the statistics page, from the clock of the browser to the points
      of the plots.
    - FeedProps.v: a feed reader gets the recent torrents back if XML can hold
      their names, and no document otherwise.
    - Engines.v: SQLite and PostgreSQL give the same answers to the same calls
      while neither runs out of row numbers. Dispatch.v: the engine opened is
      the one that the scheme of the URL names; the file of SQLite, of any
      version, is opened with its content.
    - WebProps.v: with authentication only listed users reach a handler, except
      that of readmes, and others get a 401 or the redirect of an unclean path;
      what is stored is served; which files are served as
      readmes; which requests panic. Credentials.v: what is read from the file,
      and the lock that SIGHUP leaves without authentication.
    - Sqlite3Props.v, PostgresProps.v: AddNewTorrent refines [abstract_add]
      whatever calls fail; exact cases; placeholders match arguments; upgrades
      keep the content; and errors that are lost or become panics. Outputs.v:
      the lines written to stdout can be read back.
    - Codec.v: the decoders are total and inverse to the encoders; in-place
      buffer filling equals the concatenation of encodings; KRPC errors survive
      a round trip unless their message is empty.
    - Protocol.v: a handler runs exactly when the message satisfies the
      guarantee of its kind; constructed messages satisfy it; secrets rotate.
    - Transport.v: the read loop hands over exactly the decodable datagrams, a
      written message arrives unchanged, a read congestion panics.
    - IndexingService.v: an invariant of all reachable states (bounded tables,
      valid pointers, well-formed queries and results), progress without
      panics (the ticks need a positive interval), exact effects of responses, correlation of get_peers, and two
      defects: shared loop variables and the offset of samples.
    - LeechProps.v: integrity of reported metadata, termination with exactly one
      report and one close for any peer, a memory bound, the only cause of a
      panic and a peer that triggers it, and success with a peer that sends all
      pieces in order.
    - Sink.v: at most one leech per info hash and at most the configured number,
      peers tried in order, no panic before termination and a race after it.
    - Daemon.v: every database entry the daemon adds is authentic, whatever the
      interleaving; bounded channels; panics only on database errors.
    - Iso8601.v: which strings are accepted, and how far the instant returned is
      from the end of the period on the calendar.

    ** Parameters, bounds and fuel

    Code outside the repository is a parameter: bencode (classes [Bencode],
    [MessageCodec], [LeechLib] with their laws), go-sockaddr ([SockaddrNet]),
    sockets and connections ([recv], [Net]), the random source, address
    resolution, the order in which Go ranges over a map ([snapshot]), database
    drivers ([Driver] with [SqliteLaws] and [PgLaws]; [outcome] scripts which
    calls fail), and for the web interface the class [Outside] (gorilla/schema
    and gorilla/mux with its redirects, bcrypt, embedded files, go-humanize, the BitTorrent client,
    error texts; [MuxLaws] is the order in which routes are tried), and of the
    browser its numbers and time zone ([Js], [JsLaws], [Zone]) and its
    selectors and parser of HTML ([Browser], [BrowserLaws]). The outcomes of go-flags, of url.Parse, of temporary directories and of the
    parser of templates are arguments of the main functions. Each
    class has a concrete instance that the witnesses use. The SQL statements
    are the texts of the source; their meaning is a law about the driver.

    [int] and [uint] are 64 bits wide. A float64 is the rational it denotes. The
    read loops of the leech carry fuel one above the number of bytes left, of
    which every round consumes at least four; [writeAll] carries fuel one above
    the bytes to write; [randomID_loop] runs 14 tests of a counter that starts
    at 12; [loadLines] carries fuel one above the bytes of the file; the loop of
    [fileSize] carries the logarithm of the size, and is proved to end before
    that. The readers of JSON and XML carry the number of bytes left. Out of
    fuel is the outcome [Diverge] of the leech, and [Do] is proved never to
    have it. The number of pieces, which the code computes in floating point,
    is the integer ceiling: sizes are below 10 MiB, where float64 is exact.

    ** Not modelled

    Logging, and deadlines other than as the end of the peer's bytes. The two
    Bloom filter fields of ResponseValues, which no function reads. The limits
    of the connection pool. The texts of errors
    where they come from libraries. The rendering of the scripts' templates and
    the drawing of the plots, which are minified libraries: the model ends with
    the data they are given. Of the tree library the menus and operations that
    the page does not use, and the clicks that open, close and select leaves.
    The pages that are served as they are. Of the signals, those that neither
    program handles are the fate [Killed] of [execution]. In Live.v requests and additions alternate;
    transactions that overlap within SQLite are the driver's. *)

From Stdlib Require Import ZArith Lia.
From Stdlib Require Strings.Byte Strings.String.
From stdpp Require Import base countable gmap list strings.
Export String.StringSyntax.


Declare Scope go_scope.
Delimit Scope go_scope with go.
Local Open Scope Z_scope.

Create HintDb go.
Create Rewrite HintDb go.

(** ** Control: values, panics and errors

    [go A] is a Go expression that either returns or panics (index out of
    range, nil function call, [panic], a zap [Panic]/[Fatal] log call).
    [res E A] is the Go idiom [(A, error)]: a value or an error of type [E]. *)

Inductive go (A : Type) : Type :=
  | Ret (a : A)
  | Panic.
Arguments Ret {A} a.
Arguments Panic {A}.

#[global] Instance go_ret : MRet go := @Ret.
#[global] Instance go_bind : MBind go := fun A B f m =>
  match m with Ret a => f a | Panic => Panic end.

Inductive res (E A : Type) : Type :=
  | Ok (a : A)
  | Err (e : E).
Arguments Ok {E A} a.
Arguments Err {E A} e.

#[global] Instance res_ret E : MRet (res E) := @Ok E.
#[global] Instance res_bind E : MBind (res E) := fun A B f m =>
  match m with Ok a => f a | Err e => Err e end.

(** [let! x := m in k] propagates a panic of [m]; [let? x := m in k] also
    returns early with [m]'s error, the [if err != nil { return err }] idiom. *)
Notation "'let!' x ':=' m 'in' k" :=
  (match m with Ret x => k | Panic => Panic end)
  (at level 10, x pattern, m at level 200, k at level 200) : go_scope.
Notation "'let?' x ':=' m 'in' k" :=
  (match m with Ret (Ok x) => k | Ret (Err e) => Ret (Err e) | Panic => Panic end)
  (at level 10, x pattern, m at level 200, k at level 200) : go_scope.
Open Scope go_scope.

Definition is_ret {A} (m : go A) : bool := match m with Ret _ => true | Panic => false end.
Definition is_ok {E A} (m : res E A) : bool := match m with Ok _ => true | Err _ => false end.

#[global] Instance go_eq_dec A `{EqDecision A} : EqDecision (go A).
Proof. solve_decision. Defined.
#[global] Instance res_eq_dec E A `{EqDecision E, EqDecision A} : EqDecision (res E A).
Proof. solve_decision. Defined.

(** ** Bytes *)

Abbreviation byte := Corelib.Init.Byte.byte.
Abbreviation bytes := (list byte).

Definition byte_val (b : byte) : Z := Z.of_N (Byte.to_N b).

(** Go's conversion [byte(i)]: the low eight bits. *)
Definition byte_of (z : Z) : byte :=
  default Byte.x00 (Byte.of_N (Z.to_N (z mod 256))).

(** A Go string literal as its bytes. *)
Definition str (s : String.string) : bytes := String.list_byte_of_string s.
Arguments str s%_string_scope.

#[global] Instance byte_eq_dec : EqDecision byte := Byte.byte_eq_dec.
#[global] Program Instance byte_countable : Countable byte :=
  inj_countable Byte.to_N Byte.of_N _.
Next Obligation. exact Byte.of_to_N. Qed.

Lemma byte_val_range (b : byte) : 0 <= byte_val b < 256.
Proof.
  unfold byte_val. pose proof (Byte.to_N_bounded b). lia.
Qed.

Lemma byte_of_N_lt (n : N) : (n < 256)%N -> exists b, Byte.of_N n = Some b.
Proof.
  intros Hn. destruct (Byte.of_N n) eqn:E; [eauto|].
  apply Byte.of_N_None_iff in E. lia.
Qed.

Lemma byte_val_of (z : Z) : byte_val (byte_of z) = z mod 256.
Proof.
  unfold byte_of. pose proof (Z.mod_pos_bound z 256 ltac:(lia)) as Hz.
  destruct (byte_of_N_lt (Z.to_N (z mod 256))) as [b Hb]; [lia|].
  rewrite Hb. simpl. unfold byte_val. apply Byte.to_of_N in Hb. rewrite Hb. lia.
Qed.

Lemma byte_val_inj (b c : byte) : byte_val b = byte_val c -> b = c.
Proof.
  unfold byte_val. intros H. apply N2Z.inj in H.
  pose proof (Byte.of_to_N b) as Hb. rewrite H, Byte.of_to_N in Hb. congruence.
Qed.

Lemma byte_of_val (b : byte) : byte_of (byte_val b) = b.
Proof.
  apply byte_val_inj. rewrite byte_val_of.
  apply Z.mod_small, byte_val_range.
Qed.

Lemma byte_of_mod (z w : Z) : z mod 256 = w mod 256 -> byte_of z = byte_of w.
Proof. unfold byte_of. by intros ->. Qed.

#[global] Hint Rewrite byte_of_val byte_val_of : go.

(** ** Machine integers

    Go's [int], [int64], [uint] and [uint64] are 64 bits wide on the
    platforms the repository builds for. *)

Definition maxInt64 : Z := 2 ^ 63 - 1.
Definition to_u16 (z : Z) : Z := z mod 2 ^ 16.
Definition to_u32 (z : Z) : Z := z mod 2 ^ 32.
Definition to_u64 (z : Z) : Z := z mod 2 ^ 64.
Definition to_i64 (z : Z) : Z := (z + 2 ^ 63) mod 2 ^ 64 - 2 ^ 63.

Lemma to_u64_range z : 0 <= to_u64 z < 2 ^ 64.
Proof. apply Z.mod_pos_bound. lia. Qed.

Lemma to_u64_id z : 0 <= z < 2 ^ 64 -> to_u64 z = z.
Proof. apply Z.mod_small. Qed.

Lemma to_i64_id z : - 2 ^ 63 <= z < 2 ^ 63 -> to_i64 z = z.
Proof. intros H. unfold to_i64. rewrite Z.mod_small; lia. Qed.

Lemma to_u64_add_l a b : to_u64 (to_u64 a + b) = to_u64 (a + b).
Proof. unfold to_u64. by rewrite Zplus_mod_idemp_l. Qed.

(** ** Slices *)

Definition len {A} (l : list A) : Z := Z.of_nat (length l).

Lemma len_nonneg {A} (l : list A) : 0 <= len l.
Proof. unfold len. lia. Qed.

Lemma len_app {A} (l k : list A) : len (l ++ k) = len l + len k.
Proof. unfold len. rewrite length_app. lia. Qed.

Lemma len_cons {A} (x : A) l : len (x :: l) = 1 + len l.
Proof. unfold len. simpl length. lia. Qed.

Lemma len_nil_iff {A} (l : list A) : len l = 0 <-> l = [].
Proof. unfold len. rewrite <- (length_zero_iff_nil l). lia. Qed.

#[global] Hint Rewrite @len_app @len_cons : go.
#[global] Hint Resolve len_nonneg : go.

(** [b[i:j]] on a slice whose capacity is its length, and [b[i:]]. *)
Definition slice {A} (b : list A) (i j : Z) : go (list A) :=
  if (0 <=? i) && (i <=? j) && (j <=? len b)
  then Ret (take (Z.to_nat (j - i)) (drop (Z.to_nat i) b))
  else Panic.

Definition slice_from {A} (b : list A) (i : Z) : go (list A) := slice b i (len b).

(** [copy(dst, src)]: the new contents of [dst]. *)
Definition copy {A} (dst src : list A) : list A :=
  take (length dst) src ++ drop (length src) dst.

(** [copy(dst[i:], src)] for an in-range [i]. *)
Definition copy_at {A} (dst : list A) (i : nat) (src : list A) : list A :=
  take i dst ++ copy (drop i dst) src.

(** [make([]byte, n)]. *)
Definition make_bytes (n : nat) : bytes := replicate n Byte.x00.

Lemma copy_length {A} (dst src : list A) : length (copy dst src) = length dst.
Proof. unfold copy. rewrite length_app, length_take, length_drop. lia. Qed.

Lemma copy_full {A} (dst src : list A) : length dst = length src -> copy dst src = src.
Proof.
  intros H. unfold copy. rewrite take_ge by lia. rewrite drop_ge by lia.
  apply app_nil_r.
Qed.

Lemma copy_trunc {A} (dst src : list A) :
  (length dst <= length src)%nat -> copy dst src = take (length dst) src.
Proof. intros H. unfold copy. rewrite drop_ge by lia. apply app_nil_r. Qed.

Lemma copy_prefix {A} (d1 d2 src : list A) :
  length d1 = length src -> copy (d1 ++ d2) src = src ++ d2.
Proof.
  intros H. unfold copy. rewrite take_ge by (rewrite length_app; lia).
  by rewrite drop_app_length'.
Qed.

Lemma copy_at_app {A} (pre d1 d2 src : list A) (i : nat) :
  length pre = i -> length d1 = length src ->
  copy_at (pre ++ d1 ++ d2) i src = pre ++ src ++ d2.
Proof.
  intros Hi Hd. unfold copy_at.
  rewrite take_app_length' by done. rewrite drop_app_length' by done.
  by rewrite copy_prefix.
Qed.

Lemma copy_at_length {A} (dst src : list A) i :
  (i <= length dst)%nat -> length (copy_at dst i src) = length dst.
Proof.
  intros H. unfold copy_at. rewrite length_app, copy_length, length_take, length_drop. lia.
Qed.

Lemma slice_full {A} (b : list A) : slice b 0 (len b) = Ret b.
Proof.
  unfold slice. rewrite (proj2 (Z.leb_le 0 (len b))) by apply len_nonneg.
  rewrite !Z.leb_refl. simpl. f_equal. rewrite drop_0. apply take_ge. unfold len. lia.
Qed.

Lemma slice_from_nat {A} (b : list A) (n : nat) :
  (n <= length b)%nat -> slice_from b (Z.of_nat n) = Ret (drop n b).
Proof.
  intros H. unfold slice_from, slice, len.
  rewrite !(proj2 (Z.leb_le _ _)) by lia. simpl. f_equal.
  rewrite Nat2Z.id. apply take_ge. rewrite length_drop. lia.
Qed.

Lemma slice_nat {A} (b : list A) (i n : nat) :
  (i + n <= length b)%nat ->
  slice b (Z.of_nat i) (Z.of_nat (i + n)) = Ret (take n (drop i b)).
Proof.
  intros H. unfold slice, len. rewrite !(proj2 (Z.leb_le _ _)) by lia.
  simpl. repeat f_equal; lia.
Qed.

Lemma slice_Ret {A} (b r : list A) i j :
  slice b i j = Ret r -> 0 <= i <= j /\ j <= len b /\ len r = j - i.
Proof.
  unfold slice. destruct (_ && _) eqn:E; [|done]. intros [= <-].
  apply andb_true_iff in E as [[E1 E2]%andb_true_iff E3].
  apply Z.leb_le in E1, E2, E3. unfold len in *.
  rewrite length_take, length_drop. lia.
Qed.

Lemma take_drop_app_eq {A} (a b c : list A) (i n : nat) :
  length a = i -> length b = n -> take n (drop i (a ++ b ++ c)) = b.
Proof.
  intros Ha Hb. rewrite drop_app_length' by done. by rewrite take_app_length'.
Qed.

Lemma take_plus {A} (l : list A) (a b : nat) :
  take (a + b) l = take a l ++ take b (drop a l).
Proof.
  revert l. induction a as [|a IH]; intros l; [done|].
  destruct l as [|x l]; simpl; [by rewrite take_nil|]. by rewrite IH.
Qed.

(** The part after the first occurrence of a separator is the longest part
    after any occurrence. *)
Lemma sep_suffix_le {A} (x : A) (p r u v : list A) :
  x ∉ p -> p ++ x :: r = u ++ x :: v -> (length v <= length r)%nat.
Proof.
  revert u. induction p as [|y p IH]; intros u Hp H.
  - destruct u as [|z u]; simplify_eq/=; [done|].
    rewrite length_app. simpl. lia.
  - destruct u as [|z u]; simplify_eq/=.
    + exfalso. apply Hp. left.
    + apply (IH u); [|done]. intros Hx. apply Hp. by right.
Qed.

(** ** Lists changed at an index *)

Lemma map_alter_at {A B} (f : A -> B) (g : A -> A) (h : B -> B) (i : nat) l e :
  l !! i = Some e -> f (g e) = h (f e) -> map f (alter g i l) = alter h i (map f l).
Proof.
  intros Hi H. revert i Hi. induction l as [|x l IH]; intros [|i] Hi; [done..| |]; cbn.
  - injection Hi as ->. by rewrite H.
  - f_equal. by apply IH.
Qed.

Lemma concat_map_alter {A B} (f : A -> list B) (g : A -> A) (i : nat) l e z :
  l !! i = Some e -> f (g e) ≡ₚ f e ++ z -> concat (map f (alter g i l)) ≡ₚ concat (map f l) ++ z.
Proof.
  intros Hi H. revert i Hi. induction l as [|x l IH]; intros [|i] Hi; [done..| |]; cbn.
  - injection Hi as ->. rewrite H, <- !app_assoc. apply Permutation_app_head, Permutation_app_comm.
  - rewrite <- app_assoc. apply Permutation_app_head. by apply IH.
Qed.

Lemma elem_of_concat_map {A B} (f : A -> list B) l y : y ∈ concat (map f l) <-> exists x, x ∈ l /\ y ∈ f x.
Proof.
  rewrite list_elem_of_In, in_concat. split.
  - intros (r & (x & <- & Hx)%in_map_iff & Hy). exists x. by rewrite !list_elem_of_In.
  - intros (x & Hx & Hy). exists (f x). rewrite <- !list_elem_of_In. split; [|done]. by apply list_elem_of_fmap_2.
Qed.
