(* ===== verification/GoLib.v ===== *)
(** The fragments of the Go standard library the program computes with:
    [encoding/binary] big-endian integers, decimal printing ([fmt]'s [%d]) and
    parsing ([strconv.ParseInt] in base 10), [encoding/hex], [bytes] and
    [strings] helpers, and [net.IP.To4]. *)

From S2P Require Import Prelude.
From Stdlib Require Import ZArith Lia.
From stdpp Require Import base list.
Local Open Scope Z_scope.

(** ** encoding/binary: BigEndian *)

Definition PutUint16 (b : bytes) (v : Z) : go bytes :=
  match b with
  | _ :: _ :: r => Ret (byte_of (Z.shiftr v 8) :: byte_of v :: r)
  | _ => Panic
  end.

Definition Uint16 (b : bytes) : go Z :=
  match b with
  | x :: y :: _ => Ret (Z.lor (byte_val y) (Z.shiftl (byte_val x) 8))
  | _ => Panic
  end.

Definition PutUint32 (b : bytes) (v : Z) : go bytes :=
  match b with
  | _ :: _ :: _ :: _ :: r =>
      Ret (byte_of (Z.shiftr v 24) :: byte_of (Z.shiftr v 16) ::
           byte_of (Z.shiftr v 8) :: byte_of v :: r)
  | _ => Panic
  end.

Definition Uint32 (b : bytes) : go Z :=
  match b with
  | x :: y :: z :: w :: _ =>
      Ret (Z.lor (Z.lor (byte_val w) (Z.shiftl (byte_val z) 8))
                 (Z.lor (Z.shiftl (byte_val y) 16) (Z.shiftl (byte_val x) 24)))
  | _ => Panic
  end.

(** Disjoint bit ranges: [lor] is addition. *)
Lemma lor_shiftl_add (a b n : Z) :
  0 <= n -> 0 <= a < 2 ^ n -> 0 <= b -> Z.lor a (Z.shiftl b n) = a + b * 2 ^ n.
Proof.
  intros Hn Ha Hb. rewrite <- Z.shiftl_mul_pow2 by lia.
  rewrite <- Z.add_lor_land.
  replace (Z.land a (Z.shiftl b n)) with 0; [lia|].
  symmetry. apply Z.bits_inj'. intros i Hi.
  rewrite Z.land_spec, Z.shiftl_spec, Z.bits_0 by lia.
  destruct (Z.lt_ge_cases i n) as [Hlt|Hge].
  - rewrite (Z.testbit_neg_r b) by lia. apply andb_false_r.
  - replace (Z.testbit a i) with false; [done|]. symmetry.
    destruct (decide (a = 0)) as [->|Hnz]; [apply Z.bits_0|].
    apply Z.bits_above_log2; [lia|].
    apply Z.lt_le_trans with n; [|done]. apply Z.log2_lt_pow2; lia.
Qed.

Lemma Uint16_spec x y r : Uint16 (x :: y :: r) = Ret (byte_val x * 256 + byte_val y).
Proof.
  simpl. rewrite lor_shiftl_add; [f_equal; lia|lia| |apply byte_val_range].
  apply (byte_val_range y).
Qed.

Lemma Uint32_spec x y z w r :
  Uint32 (x :: y :: z :: w :: r) =
  Ret (byte_val x * 2 ^ 24 + byte_val y * 2 ^ 16 + byte_val z * 2 ^ 8 + byte_val w).
Proof.
  pose proof (byte_val_range x). pose proof (byte_val_range y).
  pose proof (byte_val_range z). pose proof (byte_val_range w).
  unfold Uint32. rewrite (lor_shiftl_add (byte_val w) (byte_val z) 8) by lia.
  replace (Z.shiftl (byte_val x) 24) with (Z.shiftl (Z.shiftl (byte_val x) 8) 16)
    by (rewrite Z.shiftl_shiftl by lia; done).
  rewrite <- Z.shiftl_lor, (lor_shiftl_add (byte_val y) (byte_val x) 8) by lia.
  rewrite lor_shiftl_add by lia. f_equal. lia.
Qed.

Lemma Uint16_range b v : Uint16 b = Ret v -> 0 <= v < 65536.
Proof.
  destruct b as [|x [|y r]]; [done|done|]. rewrite Uint16_spec. intros [= <-].
  pose proof (byte_val_range x). pose proof (byte_val_range y). lia.
Qed.

Lemma Uint32_range b v : Uint32 b = Ret v -> 0 <= v < 2 ^ 32.
Proof.
  destruct b as [|x [|y [|z [|w r]]]]; try done. rewrite Uint32_spec. intros [= <-].
  pose proof (byte_val_range x). pose proof (byte_val_range y).
  pose proof (byte_val_range z). pose proof (byte_val_range w). lia.
Qed.

(** The bytes of a 16-bit and of a 32-bit integer. *)
Definition be16 (v : Z) : bytes := [byte_of (Z.shiftr v 8); byte_of v].
Definition be32 (v : Z) : bytes :=
  [byte_of (Z.shiftr v 24); byte_of (Z.shiftr v 16); byte_of (Z.shiftr v 8); byte_of v].

Lemma PutUint16_make v : PutUint16 (make_bytes 2) v = Ret (be16 v).
Proof. done. Qed.

Lemma PutUint32_make v : PutUint32 (make_bytes 4) v = Ret (be32 v).
Proof. done. Qed.

Lemma Uint16_be16 v r : Uint16 (be16 v ++ r) = Ret (to_u16 v).
Proof.
  unfold be16. simpl app. rewrite Uint16_spec, !byte_val_of, Z.shiftr_div_pow2 by lia.
  f_equal. unfold to_u16. change (2 ^ 16) with (2 ^ 8 * 256). change (2 ^ 8) with 256.
  rewrite Z.rem_mul_r by lia. lia.
Qed.

Lemma be16_of_Uint16 x y r v :
  Uint16 (x :: y :: r) = Ret v -> be16 v = [x; y].
Proof.
  rewrite Uint16_spec. intros [= <-].
  pose proof (byte_val_range x). pose proof (byte_val_range y).
  unfold be16. rewrite Z.shiftr_div_pow2 by lia. change (2 ^ 8) with 256.
  rewrite Z.div_add_l, (Z.div_small (byte_val y)), Z.add_0_r by lia.
  rewrite byte_of_val. repeat f_equal. apply byte_val_inj.
  rewrite byte_val_of, Z.add_comm, Z_mod_plus_full. by apply Z.mod_small.
Qed.

Lemma be16_to_u16 v : be16 (to_u16 v) = be16 v.
Proof.
  pose proof (Uint16_be16 v []) as H. rewrite app_nil_r in H. unfold be16 in H at 1.
  by apply be16_of_Uint16 in H.
Qed.

Lemma be16_inj a b : be16 a = be16 b -> to_u16 a = to_u16 b.
Proof.
  intros H. pose proof (Uint16_be16 a []) as Ha. rewrite H, Uint16_be16 in Ha. congruence.
Qed.

Lemma Uint32_be32 v r : 0 <= v < 2 ^ 32 -> Uint32 (be32 v ++ r) = Ret v.
Proof.
  intros Hv. unfold be32. simpl app.
  rewrite Uint32_spec, !byte_val_of, !Z.shiftr_div_pow2 by lia. f_equal.
  change (2 ^ 8) with 256. change (2 ^ 16) with 65536. change (2 ^ 24) with 16777216 in *.
  change (2 ^ 32) with 4294967296 in Hv.
  pose proof (Z.div_mod v 256 ltac:(lia)).
  pose proof (Z.div_mod (v / 256) 256 ltac:(lia)).
  pose proof (Z.div_mod (v / 65536) 256 ltac:(lia)).
  replace (v / 256 / 256) with (v / 65536) in * by (rewrite Z.div_div by lia; done).
  replace (v / 65536 / 256) with (v / 16777216) in * by (rewrite Z.div_div by lia; done).
  rewrite (Z.mod_small (v / 16777216)).
  - lia.
  - split; [apply Z.div_pos; lia|]. apply Z.div_lt_upper_bound; lia.
Qed.

Lemma be16_length v : length (be16 v) = 2%nat.
Proof. done. Qed.

Lemma be32_length v : length (be32 v) = 4%nat.
Proof. done. Qed.

(** ** net.IP.To4 *)

Definition v4InV6Prefix : bytes := make_bytes 10 ++ [Byte.xff; Byte.xff].

Definition To4 (ip : bytes) : option bytes :=
  if decide (length ip = 4%nat) then Some ip
  else if decide (length ip = 16%nat /\ take 12 ip = v4InV6Prefix) then Some (drop 12 ip)
  else None.

#[global] Arguments To4 : simpl never.

Lemma To4_length ip ip4 : To4 ip = Some ip4 -> length ip4 = 4%nat.
Proof.
  unfold To4. repeat case_decide; intros [= <-]; [done|].
  rewrite length_drop. lia.
Qed.

Lemma To4_v4 ip : length ip = 4%nat -> To4 ip = Some ip.
Proof. intros H. unfold To4. by rewrite decide_True. Qed.

(** ** Decimal integers *)

Definition digit (d : Z) : byte := byte_of (48 + d).
Definition is_digit (b : byte) : bool := (48 <=? byte_val b) && (byte_val b <=? 57).

Fixpoint dec_aux (fuel : nat) (n : Z) : bytes :=
  match fuel with
  | O => []
  | S f => if n <? 10 then [digit n] else dec_aux f (n / 10) ++ [digit (n mod 10)]
  end.

(** The decimal digits of a non-negative integer. Its bit length bounds the
    number of divisions by ten. *)
Definition dec (n : Z) : bytes := dec_aux (S (Z.to_nat (Z.log2 n))) n.

(** [fmt]'s [%d]. *)
Definition fmt_d (n : Z) : bytes := if n <? 0 then Byte.x2d :: dec (- n) else dec n.

Definition digits_val_from (acc : Z) (s : bytes) : Z :=
  foldl (fun a b => a * 10 + (byte_val b - 48)) acc s.
Definition digits_val : bytes -> Z := digits_val_from 0.

Lemma digit_val_spec d : 0 <= d < 10 -> byte_val (digit d) = 48 + d.
Proof. intros H. unfold digit. rewrite byte_val_of. apply Z.mod_small. lia. Qed.

Lemma digit_is_digit d : 0 <= d < 10 -> is_digit (digit d) = true.
Proof. intros H. unfold is_digit. rewrite digit_val_spec by done. lia. Qed.

Lemma log2_div10 n : 10 <= n -> (Z.to_nat (Z.log2 (n / 10)) < Z.to_nat (Z.log2 n))%nat.
Proof.
  intros Hn. assert (Z.log2 (n / 10) < Z.log2 n); [|pose proof (Z.log2_nonneg (n / 10)); lia].
  assert (1 <= n / 10) by (apply Z.div_le_lower_bound; lia).
  rewrite <- Z.le_succ_l, <- Z.log2_double by lia. apply Z.log2_le_mono.
  pose proof (Z.mul_div_le n 10). lia.
Qed.

Lemma dec_aux_spec fuel n :
  0 <= n -> (Z.to_nat (Z.log2 n) < fuel)%nat ->
  digits_val (dec_aux fuel n) = n /\
  Forall (fun b => is_digit b = true) (dec_aux fuel n) /\ dec_aux fuel n <> [].
Proof.
  revert n. induction fuel as [|f IH]; intros n Hn Hf; [lia|]. simpl.
  destruct (Z.ltb_spec n 10).
  - split_and!; [| |done].
    + cbv [digits_val digits_val_from foldl]. rewrite digit_val_spec; lia.
    + constructor; [apply digit_is_digit; lia|constructor].
  - pose proof (log2_div10 n ltac:(lia)) as Hlog.
    pose proof (Z.mod_pos_bound n 10 ltac:(lia)) as Hm.
    destruct (IH (n / 10)) as (Hv & Hd & Hne); [apply Z.div_pos; lia|lia|].
    split_and!.
    + unfold digits_val, digits_val_from in *. rewrite foldl_app, Hv. simpl.
      rewrite digit_val_spec by lia. pose proof (Z.div_mod n 10 ltac:(lia)). lia.
    + apply Forall_app; split; [done|]. constructor; [by apply digit_is_digit|constructor].
    + intros [? ?]%app_eq_nil. done.
Qed.

Lemma digits_val_dec n : 0 <= n -> digits_val (dec n) = n.
Proof. intros. apply dec_aux_spec; lia. Qed.

Lemma dec_digits n : 0 <= n -> Forall (fun b => is_digit b = true) (dec n).
Proof. intros. apply dec_aux_spec; lia. Qed.

Lemma dec_nonempty n : 0 <= n -> dec n <> [].
Proof. intros. apply dec_aux_spec; lia. Qed.

Lemma is_digit_range b : is_digit b = true -> 0 <= byte_val b - 48 <= 9.
Proof. unfold is_digit. lia. Qed.

Lemma digits_val_from_bound acc s :
  0 <= acc -> Forall (fun b => is_digit b = true) s ->
  acc * 10 ^ len s <= digits_val_from acc s < (acc + 1) * 10 ^ len s.
Proof.
  intros Hacc Hs. revert acc Hacc.
  induction Hs as [|b s Hb Hs IH]; intros acc Hacc.
  - change (len []) with 0. unfold digits_val_from. simpl. lia.
  - rewrite len_cons, Z.pow_add_r by (pose proof (len_nonneg s); lia).
    apply is_digit_range in Hb.
    assert (0 <= acc * 10 + (byte_val b - 48)) as Hnn by lia.
    specialize (IH _ Hnn). unfold digits_val_from in *. simpl.
    assert (0 < 10 ^ len s) by (apply Z.pow_pos_nonneg; [lia|apply len_nonneg]). nia.
Qed.

Lemma digits_val_bound s :
  Forall (fun b => is_digit b = true) s -> 0 <= digits_val s < 10 ^ len s.
Proof. intros Hs. pose proof (digits_val_from_bound 0 s ltac:(lia) Hs). unfold digits_val. lia. Qed.

(** [strconv.ParseInt(s, 10, bits)]. *)
Inductive numError : Type := ErrSyntax | ErrRange.

Definition ParseInt10 (s : bytes) (bits : Z) : res numError Z :=
  let '(neg, body) :=
    match s with
    | b :: r => if decide (b = Byte.x2d) then (true, r)
                else if decide (b = Byte.x2b) then (false, r) else (false, s)
    | [] => (false, [])
    end in
  if bool_decide (body = []) || negb (forallb is_digit body) then Err ErrSyntax
  else
    let v := digits_val body in
    if neg then if v <=? 2 ^ (bits - 1) then Ok (- v) else Err ErrRange
    else if v <? 2 ^ (bits - 1) then Ok v else Err ErrRange.

Lemma is_digit_not_sign b : is_digit b = true -> b <> Byte.x2d /\ b <> Byte.x2b.
Proof. intros H. split; intros ->; vm_compute in H; done. Qed.

Lemma ParseInt10_digits s :
  s <> [] -> Forall (fun b => is_digit b = true) s -> digits_val s < 2 ^ 63 ->
  ParseInt10 s 64 = Ok (digits_val s).
Proof.
  intros Hne Hs Hr. unfold ParseInt10. destruct Hs as [|b s Hb Hs]; [done|].
  destruct (is_digit_not_sign b Hb). rewrite !decide_False by done.
  rewrite bool_decide_eq_false_2 by done. cbn [forallb]. rewrite Hb.
  replace (forallb is_digit s) with true.
  - cbn [andb negb orb]. change (64 - 1) with 63. apply Z.ltb_lt in Hr. by rewrite Hr.
  - symmetry. apply forallb_forall. intros x Hx%list_elem_of_In.
    rewrite Forall_forall in Hs. by apply Hs.
Qed.

(** strconv.ParseUint(s, 10, bits): no sign. *)
Definition ParseUint10 (s : bytes) (bits : Z) : res numError Z :=
  if bool_decide (s = []) || negb (forallb is_digit s) then Err ErrSyntax
  else if digits_val s <? 2 ^ bits then Ok (digits_val s) else Err ErrRange.
