(* ===== verification/Regex.v ===== *)
(** Go's [regexp] package, as far as the program's patterns use it: byte
    classes, concatenation, alternation, greedy repetition, numbered groups
    and the anchors [^] and [$] (text begin and end: the program never sets
    the multi-line flag). [rmatch] explores the alternatives in the order
    that defines Go's leftmost-first result, so the first success is the one
    [FindSubmatch] reports. *)

From S2P Require Import Prelude GoLib.
From Stdlib Require Import ZArith Lia.
From stdpp Require Import base list.
Local Open Scope Z_scope.

Inductive re : Type :=
  | Eps
  | Chr (p : byte -> bool)
  | Seq (a b : re)
  | Alt (a b : re)
  | Star (a : re)
  | Cap (i : nat) (a : re)
  | Bol
  | Eol.

(** Groups matched so far, latest first. *)
Abbreviation caps := (list (nat * bytes)).

Section StarLoop.
Context {A : Type}.
Context (body : bytes -> caps -> (bytes -> caps -> option A) -> option A).
Context (k : bytes -> caps -> option A).

(** Greedy repetition: one more iteration if it makes progress, else leave
    the loop. An iteration consumes a byte, so the length of the input is
    enough fuel. *)
Fixpoint star_loop (fuel : nat) (s : bytes) (c : caps) : option A :=
  match fuel with
  | O => k s c
  | S f =>
      match body s c (fun s' c' =>
              if (length s' <? length s)%nat then star_loop f s' c' else None) with
      | Some x => Some x
      | None => k s c
      end
  end.
End StarLoop.

(** [n0] is the length of the whole text, which tells where [^] holds. *)
Fixpoint rmatch {A} (r : re) (n0 : nat) (s : bytes) (c : caps)
    (k : bytes -> caps -> option A) : option A :=
  match r with
  | Eps => k s c
  | Chr p => match s with b :: s' => if p b then k s' c else None | [] => None end
  | Seq a b => rmatch a n0 s c (fun s' c' => rmatch b n0 s' c' k)
  | Alt a b => match rmatch a n0 s c k with Some x => Some x | None => rmatch b n0 s c k end
  | Star a => star_loop (fun s' c' k' => rmatch a n0 s' c' k') k (length s) s c
  | Cap i a => rmatch a n0 s c (fun s' c' => k s' ((i, take (length s - length s') s) :: c'))
  | Bol => if (length s =? n0)%nat then k s c else None
  | Eol => match s with [] => k s c | _ :: _ => None end
  end.

Definition whole (s : bytes) (s' : bytes) (c : caps) : option caps :=
  Some ((0%nat, take (length s - length s') s) :: c).

Fixpoint find_from (r : re) (n0 : nat) (s : bytes) : option caps :=
  match rmatch r n0 s [] (whole s) with
  | Some c => Some c
  | None => match s with [] => None | _ :: s' => find_from r n0 s' end
  end.

(** [FindSubmatch]: the leftmost match and its groups, if any. *)
Definition FindSubmatch (r : re) (s : bytes) : option caps := find_from r (length s) s.

(** [Match]. *)
Definition Match (r : re) (s : bytes) : bool :=
  match FindSubmatch r s with Some _ => true | None => false end.

(** The text of group [i]; a group that took no part is empty. *)
Fixpoint group (i : nat) (c : caps) : bytes :=
  match c with
  | [] => []
  | (j, s) :: c' => if (i =? j)%nat then s else group i c'
  end.

(** Derived forms. *)
Definition byte_eqb (b x : byte) : bool := bool_decide (b = x).
Definition chr (b : byte) : re := Chr (byte_eqb b).
Definition lit (s : bytes) : re := foldr (fun b r => Seq (chr b) r) Eps s.
Definition Opt (r : re) : re := Alt r Eps.
Definition Plus (r : re) : re := Seq r (Star r).
Fixpoint Rep (n : nat) (r : re) : re :=
  match n with O => Eps | S m => Seq r (Rep m r) end.
Definition between (lo hi : Z) (b : byte) : bool := (lo <=? byte_val b) && (byte_val b <=? hi).
(** [.] without the dot-all flag. *)
Definition dot (b : byte) : bool := negb (byte_eqb Byte.x0a b).

(** ** Reasoning about matches *)

Lemma find_from_Bol r n0 s :
  (length s < n0)%nat -> find_from (Seq Bol r) n0 s = None.
Proof.
  revert n0. induction s as [|b s IH]; intros n0 Hn; cbn [find_from rmatch].
  - destruct n0; [simpl in Hn; lia|done].
  - rewrite (proj2 (Nat.eqb_neq (length (b :: s)) n0)) by lia.
    apply IH. simpl in Hn. lia.
Qed.

(** A pattern that starts with [^] can only match at the start. *)
Lemma FindSubmatch_Bol r s :
  FindSubmatch (Seq Bol r) s = rmatch r (length s) s [] (whole s).
Proof.
  unfold FindSubmatch. destruct s as [|b s].
  - simpl. by destruct (rmatch r 0 [] [] (whole [])).
  - cbn [find_from rmatch]. rewrite Nat.eqb_refl.
    destruct (rmatch r (length (b :: s)) (b :: s) [] (whole (b :: s))); [done|].
    apply find_from_Bol. simpl. lia.
Qed.

Lemma FindSubmatch_first r s c :
  rmatch r (length s) s [] (whole s) = Some c -> FindSubmatch r s = Some c.
Proof. intros H. unfold FindSubmatch. destruct s; simpl in *; by rewrite H. Qed.

Lemma rmatch_lit {A} l n0 s c (k : bytes -> caps -> option A) :
  rmatch (lit l) n0 (l ++ s) c k = k s c.
Proof.
  induction l as [|b l IH]; [done|]. simpl. unfold byte_eqb.
  by rewrite bool_decide_eq_true_2.
Qed.

(** [n] copies of a byte class consume exactly [n] bytes of the class. *)
Lemma rmatch_Rep_Chr {A} p n n0 s c (k : bytes -> caps -> option A) :
  rmatch (Rep n (Chr p)) n0 s c k =
  if decide ((n <= length s)%nat /\ Forall (fun b => p b = true) (take n s))
  then k (drop n s) c else None.
Proof.
  revert s. induction n as [|n IH]; intros s; cbn [Rep rmatch].
  - rewrite decide_True; [done|]. split; [lia|constructor].
  - destruct s as [|b s]; [rewrite decide_False; [done|simpl; lia]|].
    destruct (p b) eqn:Hp; [rewrite IH; clear IH|].
    + apply decide_ext. cbn [length take]. rewrite Forall_cons.
      split; [intros [H1 H2]|intros (H1 & _ & H2)]; (split; [lia|done]).
    + rewrite decide_False; [done|]. intros [_ H]. cbn [take] in H.
      inversion H. congruence.
Qed.

(** Greedy repetition of a byte class: the continuation is tried at the end
    of the longest run first, then at shorter prefixes. *)
Fixpoint span (p : byte -> bool) (s : bytes) : nat :=
  match s with b :: s' => if p b then S (span p s') else O | [] => O end.

Fixpoint first_down {A} (n : nat) (f : nat -> option A) : option A :=
  match f n with
  | Some x => Some x
  | None => match n with O => None | S m => first_down m f end
  end.

Lemma first_down_shift {A} n (f : nat -> option A) :
  first_down (S n) f =
  match first_down n (fun i => f (S i)) with Some x => Some x | None => f 0%nat end.
Proof.
  induction n as [|n IH].
  - simpl. destruct (f 1%nat); [done|]. by destruct (f 0%nat).
  - cbn [first_down]. destruct (f (S (S n))); [done|]. exact IH.
Qed.

Lemma star_loop_Chr {A} p n0 fuel s c (k : bytes -> caps -> option A) :
  (length s <= fuel)%nat ->
  star_loop (fun s' c' k' => rmatch (Chr p) n0 s' c' k') k fuel s c =
  first_down (span p s) (fun i => k (drop i s) c).
Proof.
  revert s. induction fuel as [|f IH]; intros s Hf; simpl.
  - destruct s; [simpl; by destruct (k [] c)|simpl in Hf; lia].
  - destruct s as [|b s]; [simpl; by destruct (k [] c)|]. simpl in Hf.
    cbn [span]. destruct (p b); [|simpl; by destruct (k (b :: s) c)].
    cbn [length]. rewrite (proj2 (Nat.ltb_lt (length s) (S (length s)))) by lia.
    rewrite IH by lia. rewrite first_down_shift. done.
Qed.

Lemma rmatch_Star_Chr {A} p n0 s c (k : bytes -> caps -> option A) :
  rmatch (Star (Chr p)) n0 s c k = first_down (span p s) (fun i => k (drop i s) c).
Proof. apply star_loop_Chr. lia. Qed.

Lemma first_down_top {A} n (f : nat -> option A) x : f n = Some x -> first_down n f = Some x.
Proof. intros H. destruct n; simpl; by rewrite H. Qed.

Lemma first_down_next {A} n (f : nat -> option A) x :
  f (S n) = None -> f n = Some x -> first_down (S n) f = Some x.
Proof. intros H1 H2. cbn [first_down]. rewrite H1. by apply first_down_top. Qed.

Lemma span_app_stop p a b s :
  Forall (fun x => p x = true) a -> p b = false -> span p (a ++ b :: s) = length a.
Proof. intros Ha Hb. induction Ha as [|x a Hx Ha IH]; simpl; [by rewrite Hb|]. by rewrite Hx, IH. Qed.

Lemma span_all p a : Forall (fun x => p x = true) a -> span p a = length a.
Proof. intros Ha. induction Ha as [|x a Hx Ha IH]; simpl; [done|]. by rewrite Hx, IH. Qed.

(** A non-empty run of a class followed by a byte outside it, captured as
    group [i], when the rest of the pattern accepts what follows. *)
Lemma rmatch_Cap_Plus {A} p i n0 a b s c (k : bytes -> caps -> option A) x :
  a <> [] -> Forall (fun x => p x = true) a -> p b = false ->
  k (b :: s) ((i, a) :: c) = Some x ->
  rmatch (Cap i (Plus (Chr p))) n0 (a ++ b :: s) c k = Some x.
Proof.
  intros Hne Ha Hb Hk. destruct Ha as [|y a Hy Ha]; [done|].
  cbn [rmatch Plus app]. rewrite Hy. fold (rmatch (A := A)).
  change (star_loop _ ?kk (length (a ++ b :: s)) (a ++ b :: s) c)
    with (rmatch (Star (Chr p)) n0 (a ++ b :: s) c kk).
  rewrite rmatch_Star_Chr, span_app_stop by done. apply first_down_top.
  rewrite drop_app_length. rewrite <- Hk. repeat f_equal.
  change (y :: a ++ b :: s) with ((y :: a) ++ b :: s).
  rewrite length_app, Nat.add_sub, take_app_length. done.
Qed.

(** Every match leaves a suffix of the text to its continuation. *)
Lemma rmatch_suffix {A} r n0 s c (k : bytes -> caps -> option A) x :
  rmatch r n0 s c k = Some x -> exists w s' c', s = w ++ s' /\ k s' c' = Some x.
Proof.
  revert s c k. induction r as [|p|a IHa b IHb|a IHa b IHb|a IHa|i a IHa| |]; intros s c k H; simpl in H.
  - by exists [], s, c.
  - destruct s as [|b s]; [done|]. destruct (p b); [|done]. by exists [b], s, c.
  - apply IHa in H as (w & s' & c' & -> & H). apply IHb in H as (w' & s'' & c'' & -> & H).
    exists (w ++ w'), s'', c''. by rewrite app_assoc.
  - destruct (rmatch a n0 s c k) eqn:E.
    + injection H as ->. by apply IHa in E.
    + by apply IHb in H.
  - revert H. generalize (length s) as fuel. intros fuel. revert s c.
    induction fuel as [|f IHf]; intros s c H; simpl in H; [by exists [], s, c|].
    destruct (rmatch a n0 s c _) as [y|] eqn:E; [|by exists [], s, c].
    injection H as ->. apply IHa in E as (w & s' & c' & -> & E).
    destruct (_ <? _)%nat; [|done]. apply IHf in E as (w' & s'' & c'' & -> & E).
    exists (w ++ w'), s'', c''. by rewrite app_assoc.
  - apply IHa in H as (w & s' & c' & -> & H). eauto.
  - destruct (_ =? _)%nat; [|done]. by exists [], s, c.
  - destruct s; [|done]. by exists [], [], c.
Qed.

Lemma rmatch_Seq_inv {A} a b n0 s c (k : bytes -> caps -> option A) x :
  rmatch (Seq a b) n0 s c k = Some x ->
  exists w s' c', s = w ++ s' /\ rmatch b n0 s' c' k = Some x.
Proof. intros H. by apply (rmatch_suffix a) in H. Qed.

Lemma rmatch_Chr_inv {A} p n0 s c (k : bytes -> caps -> option A) x :
  rmatch (Chr p) n0 s c k = Some x -> exists b s', s = b :: s' /\ p b = true /\ k s' c = Some x.
Proof. destruct s as [|b s]; simpl; [done|]. destruct (p b) eqn:E; [eauto|done]. Qed.

Lemma rmatch_lit_inv {A} l n0 s c (k : bytes -> caps -> option A) x :
  rmatch (lit l) n0 s c k = Some x -> exists s', s = l ++ s' /\ k s' c = Some x.
Proof.
  revert s. induction l as [|b l IH]; intros s H; [by exists s|].
  apply (rmatch_Chr_inv (byte_eqb b) n0) in H as (b' & s' & -> & Hb & H).
  apply bool_decide_eq_true in Hb as <-. apply IH in H as (s'' & -> & H). by exists s''.
Qed.

Lemma rmatch_Seq {A} a b n0 s c (k : bytes -> caps -> option A) :
  rmatch (Seq a b) n0 s c k = rmatch a n0 s c (fun s' c' => rmatch b n0 s' c' k).
Proof. done. Qed.

(** A run of a class that reaches the end of the text and gives its last byte
    back, because the rest of the pattern needs it. *)
Lemma rmatch_Cap_Plus_back {A} p i n0 a b c (k : bytes -> caps -> option A) x :
  a <> [] -> Forall (fun x => p x = true) (a ++ [b]) ->
  (forall c', k [] c' = None) -> k [b] ((i, a) :: c) = Some x ->
  rmatch (Cap i (Plus (Chr p))) n0 (a ++ [b]) c k = Some x.
Proof.
  intros Hne Ha Hnil Hk. destruct a as [|y a]; [done|].
  cbn [app] in Ha. apply Forall_cons in Ha as [Hy Ha].
  cbn [rmatch Plus app]. rewrite Hy.
  change (star_loop _ ?kk (length (a ++ [b])) (a ++ [b]) c)
    with (rmatch (Star (Chr p)) n0 (a ++ [b]) c kk).
  rewrite rmatch_Star_Chr, span_all by done.
  rewrite length_app, Nat.add_1_r. apply first_down_next.
  - rewrite drop_ge by (rewrite length_app; simpl; lia). apply Hnil.
  - rewrite drop_app_length. rewrite <- Hk. repeat f_equal.
    change (y :: a ++ [b]) with ((y :: a) ++ [b]).
    rewrite length_app, Nat.add_sub, take_app_length. done.
Qed.

(** ** What a pattern accepts

    [takes n0 r s s']: [r] can match at [s] and leave [s']. *)
Inductive takes (n0 : nat) : re -> bytes -> bytes -> Prop :=
  | takes_Eps s : takes n0 Eps s s
  | takes_Chr p b s : p b = true -> takes n0 (Chr p) (b :: s) s
  | takes_Seq a b s s1 s2 : takes n0 a s s1 -> takes n0 b s1 s2 -> takes n0 (Seq a b) s s2
  | takes_Alt_l a b s s' : takes n0 a s s' -> takes n0 (Alt a b) s s'
  | takes_Alt_r a b s s' : takes n0 b s s' -> takes n0 (Alt a b) s s'
  | takes_Star_nil a s : takes n0 (Star a) s s
  | takes_Star_cons a s s1 s2 :
      takes n0 a s s1 -> takes n0 (Star a) s1 s2 -> takes n0 (Star a) s s2
  | takes_Cap i a s s' : takes n0 a s s' -> takes n0 (Cap i a) s s'
  | takes_Bol s : length s = n0 -> takes n0 Bol s s
  | takes_Eol : takes n0 Eol [] [].

#[local] Hint Constructors takes : core.

Lemma takes_suffix n0 r s s' : takes n0 r s s' -> exists u, s = u ++ s'.
Proof.
  induction 1 as [| | ? ? ? ? ? _ [u ->] _ [v ->] | | | | ? ? ? ? _ [u ->] _ [v ->] | | |];
    try done; try (by exists []).
  - by eexists [_].
  - exists (u ++ v). by rewrite app_assoc.
  - exists (u ++ v). by rewrite app_assoc.
Qed.

(** A match that is found exists. *)
Lemma rmatch_sound {A} r n0 s c (k : bytes -> caps -> option A) x :
  rmatch r n0 s c k = Some x -> exists s' c', takes n0 r s s' /\ k s' c' = Some x.
Proof.
  revert s c k. induction r as [|p|a IHa b IHb|a IHa b IHb|a IHa|i a IHa| |]; intros s c k H; simpl in H.
  - eauto.
  - destruct s as [|b s]; [done|]. destruct (p b) eqn:Hp; [|done]. eauto.
  - apply IHa in H as (s' & c' & H1 & H). apply IHb in H as (s'' & c'' & H2 & H). eauto.
  - destruct (rmatch a n0 s c k) eqn:E; [injection H as ->; apply IHa in E as (? & ? & ? & ?)|apply IHb in H as (? & ? & ? & ?)]; eauto.
  - revert H. generalize (length s) as fuel. intros fuel. revert s c.
    induction fuel as [|f IHf]; intros s c H; simpl in H; [eauto|].
    destruct (rmatch a n0 s c _) as [y|] eqn:E; [|eauto].
    injection H as ->. apply IHa in E as (s' & c' & H1 & E).
    destruct (_ <? _)%nat; [|done]. apply IHf in E as (s'' & c'' & H2 & E). eauto.
  - apply IHa in H as (s' & c' & H1 & H). eauto.
  - destruct (Nat.eqb_spec (length s) n0); [eauto|done].
  - destruct s; [eauto|done].
Qed.

Lemma star_complete {A} a n0 s s' fuel c (k : bytes -> caps -> option A) :
  (forall s s' c (k : bytes -> caps -> option A), takes n0 a s s' ->
    (forall c', k s' c' <> None) -> rmatch a n0 s c k <> None) ->
  takes n0 (Star a) s s' -> (length s <= fuel)%nat -> (forall c', k s' c' <> None) ->
  star_loop (fun s' c' k' => rmatch a n0 s' c' k') k fuel s c <> None.
Proof.
  intros IHa H. remember (Star a) as r eqn:Er. revert fuel c Er.
  induction H as [| | | | |? s|? s s1 s2 H1 _ H2 IH| | |]; intros fuel c Er Hf Hk; try done.
  - destruct fuel; simpl; [apply Hk|]. destruct (rmatch _ _ _ _ _); [done|apply Hk].
  - injection Er as ->. destruct (takes_suffix _ _ _ _ H1) as [[|b u] ->]; [by apply IH|].
    destruct fuel as [|f]; [simpl in Hf; lia|]. cbn [star_loop].
    destruct (rmatch a n0 _ c _) eqn:E; [done|]. exfalso. revert E.
    apply (IHa _ s1); [done|]. intros c'.
    rewrite (proj2 (Nat.ltb_lt _ _)) by (simpl; rewrite length_app; lia).
    apply IH; [done| |done]. simpl in Hf. rewrite length_app in Hf. lia.
Qed.

(** A match that exists is found, provided the rest accepts what it leaves. *)
Lemma rmatch_complete {A} r n0 s s' c (k : bytes -> caps -> option A) :
  takes n0 r s s' -> (forall c', k s' c' <> None) -> rmatch r n0 s c k <> None.
Proof.
  revert s s' c k. induction r as [|p|a IHa b IHb|a IHa b IHb|a IHa|i a IHa| |]; intros s s' c k H Hk; simpl.
  - inversion H; subst. apply Hk.
  - inversion H as [|? ? ? Hp| | | | | | | |]; subst. rewrite Hp. apply Hk.
  - inversion H; subst. eapply IHa; [done|]. intros c'. by eapply IHb.
  - destruct (rmatch a n0 s c k) eqn:E; [done|]. inversion H; subst; [|by eapply IHb].
    exfalso. by eapply IHa.
  - by eapply star_complete.
  - inversion H; subst. by eapply IHa.
  - inversion H; subst. rewrite Nat.eqb_refl. apply Hk.
  - inversion H; subst. apply Hk.
Qed.

(** A pattern anchored at the start matches a text iff it takes a prefix of it. *)
Lemma Match_Bol r s : Match (Seq Bol r) s = true <-> exists s', takes (length s) r s s'.
Proof.
  unfold Match. rewrite FindSubmatch_Bol. split.
  - destruct (rmatch r (length s) s [] (whole s)) eqn:E; [|done]. intros _.
    apply rmatch_sound in E as (s' & c' & H & _). eauto.
  - intros [s' H]. destruct (rmatch r (length s) s [] (whole s)) eqn:E; [done|].
    exfalso. revert E. by eapply rmatch_complete.
Qed.

(** Inversion and construction for the derived forms. *)
Section Takes.
Variable n0 : nat.

Lemma takes_Seq_iff a b s s' :
  takes n0 (Seq a b) s s' <-> exists s1, takes n0 a s s1 /\ takes n0 b s1 s'.
Proof. split; [intros H; inversion H; subst; eauto|intros (? & ? & ?); eauto]. Qed.

Lemma takes_Chr_iff p s s' : takes n0 (Chr p) s s' <-> exists b, s = b :: s' /\ p b = true.
Proof. split; [intros H; inversion H; subst; eauto|intros (b & -> & H); eauto]. Qed.

Lemma takes_chr_iff b s s' : takes n0 (chr b) s s' <-> s = b :: s'.
Proof.
  unfold chr. rewrite takes_Chr_iff. unfold byte_eqb. split.
  - intros (b' & -> & <-%bool_decide_eq_true). done.
  - intros ->. exists b. by rewrite bool_decide_eq_true_2.
Qed.

Lemma takes_Opt_iff r s s' : takes n0 (Opt r) s s' <-> takes n0 r s s' \/ s = s'.
Proof.
  split; [|intros [H| ->]; unfold Opt; eauto]. intros H. inversion H as [| | |? ? ? ? Ha|? ? ? ? Hb| | | | |]; subst;
    [by left|]. inversion Hb; subst. by right.
Qed.

Lemma takes_lit_iff l s s' : takes n0 (lit l) s s' <-> s = l ++ s'.
Proof.
  revert s. induction l as [|b l IH]; intros s.
  - split; [by inversion 1|intros ->; constructor].
  - change (lit (b :: l)) with (Seq (chr b) (lit l)). rewrite takes_Seq_iff. split.
    + intros (s1 & ->%takes_chr_iff & H%IH). by subst.
    + intros ->. exists (l ++ s'). by rewrite takes_chr_iff, IH.
Qed.

Lemma takes_Rep_iff n p s s' :
  takes n0 (Rep n (Chr p)) s s' <->
  exists u, s = u ++ s' /\ length u = n /\ Forall (fun b => p b = true) u.
Proof.
  revert s. induction n as [|n IH]; intros s; cbn [Rep].
  - split; [inversion 1; subst; by exists []|]. intros (u & -> & ->%nil_length_inv & _). constructor.
  - rewrite takes_Seq_iff. split.
    + intros (s1 & (b & -> & Hb)%takes_Chr_iff & (u & -> & <- & Hu)%IH). exists (b :: u). auto.
    + intros ([|b u] & -> & Hl & Hu); [done|]. apply Forall_cons in Hu as [Hb Hu].
      exists (u ++ s'). rewrite takes_Chr_iff, IH. split; [by exists b|]. exists u. by injection Hl.
Qed.

Lemma takes_Eol_iff s s' : takes n0 Eol s s' <-> s = [] /\ s' = [].
Proof. split; [by inversion 1|intros [-> ->]; constructor]. Qed.
End Takes.
