(* ===== verification/Sha1.v ===== *)
(** [crypto/sha1]: FIPS 180-4 SHA-1 over 32-bit words kept in [Z]. The leech
    compares [sha1.Sum] of the metadata with the info hash, and the DHT
    protocol derives tokens with it. *)

From S2P Require Import Prelude GoLib.
From Stdlib Require Import ZArith Lia.
From stdpp Require Import base list.
Local Open Scope Z_scope.

Definition rotl32 (n x : Z) : Z :=
  Z.lor (to_u32 (Z.shiftl x n)) (Z.shiftr x (32 - n)).

Definition not32 (x : Z) : Z := 2 ^ 32 - 1 - x.

(** Padding: a one bit, zeros up to 56 modulo 64, the bit length in 64 bits. *)
Definition sha1_pad (m : bytes) : bytes :=
  let n := len m in
  m ++ [Byte.x80] ++ make_bytes (Z.to_nat ((55 - n) mod 64)) ++
  be32 (Z.shiftr (n * 8) 32) ++ be32 (to_u32 (n * 8)).

Fixpoint words (b : bytes) : list Z :=
  match b with
  | x :: y :: z :: w :: r =>
      (byte_val x * 2 ^ 24 + byte_val y * 2 ^ 16 + byte_val z * 2 ^ 8 + byte_val w) :: words r
  | _ => []
  end.

(** The message schedule. [w] holds the last sixteen words, oldest first. *)
Fixpoint schedule (n : nat) (w : list Z) : list Z :=
  match n with
  | O => []
  | S m =>
      match w with
      | w0 :: r =>
          let nxt := rotl32 1 (Z.lxor (Z.lxor (nth 12 r 0) (nth 7 r 0)) (Z.lxor (nth 1 r 0) w0)) in
          w0 :: schedule m (r ++ [nxt])
      | [] => []
      end
  end.

Record sha1_state := Sha1State { h0 : Z; h1 : Z; h2 : Z; h3 : Z; h4 : Z }.

Definition sha1_f (t : Z) (b c d : Z) : Z * Z :=
  if t <? 20 then (Z.lor (Z.land b c) (Z.land (not32 b) d), 1518500249)
  else if t <? 40 then (Z.lxor (Z.lxor b c) d, 1859775393)
  else if t <? 60 then (Z.lor (Z.lor (Z.land b c) (Z.land b d)) (Z.land c d), 2400959708)
  else (Z.lxor (Z.lxor b c) d, 3395469782).

Fixpoint rounds (t : Z) (w : list Z) (s : sha1_state) : sha1_state :=
  match w with
  | [] => s
  | wt :: r =>
      let '(f, k) := sha1_f t (h1 s) (h2 s) (h3 s) in
      let tmp := to_u32 (rotl32 5 (h0 s) + f + h4 s + k + wt) in
      rounds (t + 1) r (Sha1State tmp (h0 s) (rotl32 30 (h1 s)) (h2 s) (h3 s))
  end.

Definition sha1_block (s : sha1_state) (block : list Z) : sha1_state :=
  let s' := rounds 0 (schedule 80 block) s in
  Sha1State (to_u32 (h0 s + h0 s')) (to_u32 (h1 s + h1 s')) (to_u32 (h2 s + h2 s'))
            (to_u32 (h3 s + h3 s')) (to_u32 (h4 s + h4 s')).

Fixpoint sha1_blocks (fuel : nat) (w : list Z) (s : sha1_state) : sha1_state :=
  match fuel with
  | O => s
  | S f => match w with
           | [] => s
           | _ => sha1_blocks f (drop 16 w) (sha1_block s (take 16 w))
           end
  end.

Definition sha1_init : sha1_state :=
  Sha1State 1732584193 4023233417 2562383102 271733878 3285377520.

Definition sha1_sum (m : bytes) : bytes :=
  let w := words (sha1_pad m) in
  let s := sha1_blocks (length w) w sha1_init in
  be32 (h0 s) ++ be32 (h1 s) ++ be32 (h2 s) ++ be32 (h3 s) ++ be32 (h4 s).

Lemma sha1_sum_length m : length (sha1_sum m) = 20%nat.
Proof. done. Qed.

(** Published test vectors. *)
Definition hexval (b : byte) : Z := if is_digit b then byte_val b - 48 else byte_val b - 87.
Fixpoint unhex (s : bytes) : bytes :=
  match s with
  | x :: y :: r => byte_of (hexval x * 16 + hexval y) :: unhex r
  | _ => []
  end.

Example sha1_empty : sha1_sum [] = unhex (str "da39a3ee5e6b4b0d3255bfef95601890afd80709").
Proof. vm_compute. reflexivity. Qed.

Example sha1_abc : sha1_sum (str "abc") = unhex (str "a9993e364706816aba3e25717850c26c9cd0d89d").
Proof. vm_compute. reflexivity. Qed.

Example sha1_two_blocks :
  sha1_sum (str "abcdbcdecdefdefgefghfghighijhijkijkljklmklmnlmnomnopnopq") =
  unhex (str "84983e441c3bd26ebaae4aa1f95129e5e54670f1").
Proof. vm_compute. reflexivity. Qed.
