(* ===== verification/Codec.v ===== *)
(** cmd/magneticod/dht/mainline/codec.go: KRPC messages and the compact
    encodings of peers, nodes and errors.

    The bencode library (github.com/anacrolix/torrent/bencode) is not part of
    the repository: [Bencode] is the part of it this file calls, [BencodeLaws]
    the documented behaviour the round trips rely on. *)

From S2P Require Import Prelude GoLib Regex.
From Stdlib Require Import ZArith Lia.
From stdpp Require Import base list.
Local Open Scope Z_scope.
Local Open Scope go_scope.

(** ** Data *)

Record UDPAddr := { udp_IP : bytes; udp_Port : Z; udp_Zone : bytes }.

Record CompactPeer := { cp_IP : bytes; cp_Port : Z }.

Record CompactNodeInfo := { cni_ID : bytes; cni_Addr : UDPAddr }.

Record KError := { e_Code : Z; e_Message : bytes }.

Record QueryArguments := {
  a_ID : bytes; a_InfoHash : bytes; a_Target : bytes; a_Token : bytes;
  a_Port : Z; a_ImpliedPort : Z; a_Seed : Z; a_NoSeed : Z; a_Scrape : Z }.

(** The Bloom filter fields [BFsd] and [BFpe] are left out: no function of
    the repository reads or writes them. *)
Record ResponseValues := {
  r_ID : bytes; r_Nodes : list CompactNodeInfo; r_Token : bytes;
  r_Values : list CompactPeer; r_Interval : Z; r_Num : Z; r_Samples : bytes }.

Record Message := {
  m_Q : bytes; m_A : QueryArguments; m_T : bytes; m_Y : bytes;
  m_R : ResponseValues; m_E : KError }.

#[global] Instance UDPAddr_eq_dec : EqDecision UDPAddr.
Proof. solve_decision. Defined.
#[global] Instance CompactPeer_eq_dec : EqDecision CompactPeer.
Proof. solve_decision. Defined.
#[global] Instance CompactNodeInfo_eq_dec : EqDecision CompactNodeInfo.
Proof. solve_decision. Defined.

(** Go zero values. *)
Definition zeroA : QueryArguments := Build_QueryArguments [] [] [] [] 0 0 0 0 0.
Definition zeroR : ResponseValues := Build_ResponseValues [] [] [] [] 0 0 [].
Definition zeroE : KError := Build_KError 0 [].

Inductive codec_error : Type :=
  | ErrBencode
  | ErrBadCompactPeer
  | ErrNotMultipleOf26
  | ErrErrorList
  | ErrErrorCode
  | ErrErrorMsgLen
  | ErrErrorLengths.

(** ** bencode, as this file uses it: byte strings *)

Class Bencode := {
  bencode_Marshal : bytes -> bytes;
  bencode_Unmarshal : bytes -> option bytes }.

Class BencodeLaws (B : Bencode) := {
  bencode_roundtrip : forall b, bencode_Unmarshal (bencode_Marshal b) = Some b;
  bencode_empty : bencode_Unmarshal (str "0:") = Some [] }.

(** ** Operations *)

Definition CompactPeer_UnmarshalBinary (b : bytes) : go (res codec_error CompactPeer) :=
  if decide (length b = 18%nat \/ length b = 6%nat) then
    let ip := copy (make_bytes (if decide (length b = 18%nat) then 16 else 4)) b in
    let! b' := slice_from b (len ip) in
    let! port := Uint16 b' in
    Ret (Ok {| cp_IP := ip; cp_Port := port |})
  else Ret (Err ErrBadCompactPeer).

(** The loop both decoders run: element [i] is decoded from
    [b[i*sz : i*sz+sz]], the first error ends it. *)
Fixpoint unmarshal_loop {A} (sz : nat) (dec : bytes -> go (res codec_error A))
    (b : bytes) (i n : nat) : go (res codec_error (list A)) :=
  match n with
  | O => Ret (Ok [])
  | S n' =>
      let off := (i * sz)%nat in
      let! chunk := slice b (Z.of_nat off) (Z.of_nat (off + sz)) in
      let? x := dec chunk in
      let? rest := unmarshal_loop sz dec b (S i) n' in
      Ret (Ok (x :: rest))
  end.

Definition UnmarshalCompactPeers (b : bytes) : go (res codec_error (list CompactPeer)) :=
  unmarshal_loop 6 CompactPeer_UnmarshalBinary b 0 (length b / 6).

(** The body of the loop of [CompactPeers.MarshalBinary]: both writes go
    through sub-slices of the one buffer [ret]. *)
Fixpoint marshal_peers_loop (ret : bytes) (i : nat) (cps : list CompactPeer) : go bytes :=
  match cps with
  | [] => Ret ret
  | cp :: rest =>
      let! dst := slice_from ret (Z.of_nat (6 * i)) in
      let ret1 := take (6 * i) ret ++ copy dst (default [] (To4 (cp_IP cp))) in
      let! dst2 := slice_from ret1 (Z.of_nat (6 * i + 4)) in
      let! dst2' := PutUint16 dst2 (to_u16 (cp_Port cp)) in
      marshal_peers_loop (take (6 * i + 4) ret1 ++ dst2') (S i) rest
  end.

Definition CompactPeers_MarshalBinary (cps : list CompactPeer) : go bytes :=
  marshal_peers_loop (make_bytes (length cps * 6)) 0 cps.

Definition CompactNodeInfo_MarshalBinary (cni : CompactNodeInfo) : bytes :=
  let ret := copy (make_bytes 20) (cni_ID cni) in
  let ret := ret ++ default [] (To4 (udp_IP (cni_Addr cni))) in
  ret ++ be16 (to_u16 (udp_Port (cni_Addr cni))).

(** [id] is the pre-allocated [cni.ID] slice. *)
Definition CompactNodeInfo_UnmarshalBinary (id b : bytes)
    : go (res codec_error CompactNodeInfo) :=
  let id' := copy id b in
  let! b1 := slice_from b (len id') in
  let ip := copy (make_bytes 4) b1 in
  let! b2 := slice_from b1 (len ip) in
  let! port := Uint16 b2 in
  Ret (Ok {| cni_ID := id'; cni_Addr := {| udp_IP := ip; udp_Port := port; udp_Zone := [] |} |}).

Definition UnmarshalCompactNodeInfos (b : bytes) : go (res codec_error (list CompactNodeInfo)) :=
  if negb (Nat.eqb (length b mod 26) 0) then Ret (Err ErrNotMultipleOf26)
  else unmarshal_loop 26 (CompactNodeInfo_UnmarshalBinary (make_bytes 20)) b 0 (length b / 26).

Section WithBencode.
Context {B : Bencode}.

(** [bencode.Unmarshal(b, &bb)] followed by [dec]. *)
Definition unmarshal_then {A} (dec : bytes -> go (res codec_error A)) (b : bytes)
    : go (res codec_error A) :=
  match bencode_Unmarshal b with
  | None => Ret (Err ErrBencode)
  | Some bb => dec bb
  end.

Definition CompactPeers_UnmarshalBencode : bytes -> go (res codec_error (list CompactPeer)) :=
  unmarshal_then UnmarshalCompactPeers.

Definition CompactPeer_UnmarshalBencode : bytes -> go (res codec_error CompactPeer) :=
  unmarshal_then CompactPeer_UnmarshalBinary.

Definition CompactNodeInfos_UnmarshalBencode
    : bytes -> go (res codec_error (list CompactNodeInfo)) :=
  unmarshal_then UnmarshalCompactNodeInfos.

Definition CompactPeer_MarshalBencode (cp : CompactPeer) : go bytes :=
  let ip := default (cp_IP cp) (To4 (cp_IP cp)) in
  let ret := copy (make_bytes (length ip + 2)) ip in
  let! tail := slice_from ret (len ip) in
  let! tail' := PutUint16 tail (to_u16 (cp_Port cp)) in
  Ret (bencode_Marshal (take (length ip) ret ++ tail')).

Definition CompactNodeInfos_MarshalBencode (cnis : list CompactNodeInfo) : bytes :=
  match cnis with
  | [] => str "0:"
  | _ => bencode_Marshal (foldl (fun ret cni => ret ++ CompactNodeInfo_MarshalBinary cni) [] cnis)
  end.
End WithBencode.

(** [fmt.Sprintf("li%de%d:%se", ...)]. *)
Definition Error_MarshalBencode (e : KError) : bytes :=
  str "li" ++ fmt_d (e_Code e) ++ str "e" ++ fmt_d (len (e_Message e)) ++ str ":" ++
  e_Message e ++ str "e".

(** [li([0-9]+)e([0-9]+):(.+)e] *)
Definition errorRE : re :=
  Seq (lit (str "li")) (Seq (Cap 1 (Plus (Chr is_digit)))
  (Seq (lit (str "e")) (Seq (Cap 2 (Plus (Chr is_digit)))
  (Seq (lit (str ":")) (Seq (Cap 3 (Plus (Chr dot))) (lit (str "e"))))))).

Definition Error_UnmarshalBencode (b : bytes) : res codec_error KError :=
  match FindSubmatch errorRE b with
  | None => Err ErrErrorList
  | Some c =>
      match ParseInt10 (group 1 c) 64 with
      | Err _ => Err ErrErrorCode
      | Ok code =>
          match ParseInt10 (group 2 c) 64 with
          | Err _ => Err ErrErrorMsgLen
          | Ok msgLen =>
              if negb (len (group 3 c) =? msgLen) then Err ErrErrorLengths
              else Ok {| e_Code := code; e_Message := group 3 c |}
          end
      end
  end.

(** ** Reference encodings *)

(** What one peer contributes to the compact peer string. *)
Definition peer_bytes (cp : CompactPeer) : bytes :=
  default (make_bytes 4) (To4 (cp_IP cp)) ++ be16 (cp_Port cp).

Definition wf_port (p : Z) : Prop := 0 <= p < 65536.
Definition wf_peer (cp : CompactPeer) : Prop := length (cp_IP cp) = 4%nat /\ wf_port (cp_Port cp).
Definition wf_node (n : CompactNodeInfo) : Prop :=
  length (cni_ID n) = 20%nat /\ length (udp_IP (cni_Addr n)) = 4%nat /\
  wf_port (udp_Port (cni_Addr n)) /\ udp_Zone (cni_Addr n) = [].

Lemma peer_bytes_length cp : length (peer_bytes cp) = 6%nat.
Proof.
  unfold peer_bytes. rewrite length_app, be16_length.
  destruct (To4 (cp_IP cp)) eqn:E; [|done]. simpl. rewrite (To4_length _ _ E). lia.
Qed.

Lemma flat_map_length_const {A} (f : A -> bytes) k l :
  (forall x, length (f x) = k) -> length (flat_map f l) = (k * length l)%nat.
Proof. intros Hf. induction l as [|x l IH]; simpl; [lia|]. rewrite length_app, Hf, IH. lia. Qed.

Lemma copy_ip4 (ip rest : bytes) :
  copy (make_bytes 4 ++ rest) (default [] (To4 ip)) = default (make_bytes 4) (To4 ip) ++ rest.
Proof.
  destruct (To4 ip) eqn:E; simpl default; [|done].
  apply copy_prefix. by rewrite (To4_length _ _ E).
Qed.

Lemma marshal_peers_loop_spec pre cps :
  marshal_peers_loop (flat_map peer_bytes pre ++ make_bytes (length cps * 6)) (length pre) cps
  = Ret (flat_map peer_bytes (pre ++ cps)).
Proof.
  revert pre. induction cps as [|cp cps IH]; intros pre; cbn [marshal_peers_loop].
  { by rewrite !app_nil_r. }
  pose proof (flat_map_length_const peer_bytes 6 pre peer_bytes_length) as Hd.
  rewrite slice_from_nat by (rewrite length_app, Hd; lia).
  rewrite drop_app_length' by done. rewrite take_app_length' by done.
  change (make_bytes (length (cp :: cps) * 6))
    with (make_bytes 4 ++ (make_bytes 2 ++ make_bytes (length cps * 6))).
  rewrite copy_ip4.
  set (ip := default (make_bytes 4) (To4 (cp_IP cp))).
  assert (length ip = 4%nat) as Hip.
  { unfold ip. destruct (To4 (cp_IP cp)) eqn:E; [|done]. simpl. by apply To4_length in E. }
  rewrite app_assoc.
  assert (length (flat_map peer_bytes pre ++ ip) = (6 * length pre + 4)%nat) as Hl
    by (rewrite length_app, Hd, Hip; lia).
  rewrite slice_from_nat by (rewrite length_app, Hl; lia).
  rewrite drop_app_length', take_app_length' by done.
  change (make_bytes 2 ++ ?r) with (Byte.x00 :: Byte.x00 :: r). cbn [PutUint16].
  specialize (IH (pre ++ [cp])).
  rewrite flat_map_app, length_app, <- (app_assoc pre) in IH. simpl in IH.
  rewrite app_nil_r, Nat.add_1_r in IH. rewrite <- IH. f_equal.
  change (peer_bytes cp) with (ip ++ be16 (cp_Port cp)). rewrite <- (be16_to_u16 (cp_Port cp)).
  unfold be16. rewrite <- !app_assoc. done.
Qed.

Lemma CompactPeers_MarshalBinary_bytes cps :
  CompactPeers_MarshalBinary cps = Ret (flat_map peer_bytes cps).
Proof. apply (marshal_peers_loop_spec [] cps). Qed.

(** ** Decoding one element *)

Lemma peer_unmarshal_spec (ip : bytes) (x y : byte) :
  length ip = 4%nat \/ length ip = 16%nat ->
  CompactPeer_UnmarshalBinary (ip ++ [x; y]) =
  Ret (Ok {| cp_IP := ip; cp_Port := byte_val x * 256 + byte_val y |}).
Proof.
  intros Hip. unfold CompactPeer_UnmarshalBinary.
  rewrite decide_True by (rewrite length_app; simpl; lia).
  set (n := if decide (length (ip ++ [x; y]) = 18%nat) then 16%nat else 4%nat).
  assert (length ip = n) as Hn.
  { unfold n. case_decide as H; rewrite length_app in H; simpl in H; lia. }
  assert (copy (make_bytes n) (ip ++ [x; y]) = ip) as Hc.
  { rewrite copy_trunc; unfold make_bytes; rewrite length_replicate.
    - rewrite <- Hn. apply take_app_length.
    - rewrite length_app. lia. }
  cbv zeta. rewrite Hc. unfold len at 1. rewrite slice_from_nat by (rewrite length_app; lia).
  rewrite drop_app_length. rewrite Uint16_spec. done.
Qed.

Lemma split_last2 (b : bytes) (n : nat) :
  length b = (n + 2)%nat -> exists ip x y, b = ip ++ [x; y] /\ length ip = n.
Proof.
  intros H. exists (take n b).
  destruct (drop n b) as [|x [|y [|z r]]] eqn:E;
    apply (f_equal length) in E as E'; rewrite length_drop in E'; simpl in E'; try lia.
  exists x, y. rewrite <- E, take_drop. split; [done|]. rewrite length_take. lia.
Qed.

Lemma node_unmarshal_spec (id ip : bytes) (x y : byte) :
  length id = 20%nat -> length ip = 4%nat ->
  CompactNodeInfo_UnmarshalBinary (make_bytes 20) (id ++ ip ++ [x; y]) =
  Ret (Ok {| cni_ID := id; cni_Addr :=
    {| udp_IP := ip; udp_Port := byte_val x * 256 + byte_val y; udp_Zone := [] |} |}).
Proof.
  intros Hid Hip. unfold CompactNodeInfo_UnmarshalBinary.
  assert (copy (make_bytes 20) (id ++ ip ++ [x; y]) = id) as Hc1.
  { rewrite copy_trunc by (rewrite !length_app; simpl; lia). by apply take_app_length'. }
  cbv zeta. rewrite Hc1. unfold len at 1. rewrite slice_from_nat by (rewrite length_app; lia).
  rewrite drop_app_length.
  assert (copy (make_bytes 4) (ip ++ [x; y]) = ip) as Hc2.
  { rewrite copy_trunc by (rewrite !length_app; simpl; lia). by apply take_app_length'. }
  rewrite Hc2. unfold len at 1. rewrite slice_from_nat by (rewrite length_app; lia).
  rewrite drop_app_length, Uint16_spec. done.
Qed.

Lemma split_node (b : bytes) :
  length b = 26%nat ->
  exists id ip x y, b = id ++ ip ++ [x; y] /\ length id = 20%nat /\ length ip = 4%nat.
Proof.
  intros H. destruct (split_last2 (drop 20 b) 4) as (ip & x & y & E & Hip);
    [rewrite length_drop; lia|].
  exists (take 20 b), ip, x, y. rewrite <- E, take_drop. split_and!; [done| |done].
  rewrite length_take. lia.
Qed.

Lemma port_range (x y : byte) : wf_port (byte_val x * 256 + byte_val y).
Proof. unfold wf_port. pose proof (byte_val_range x). pose proof (byte_val_range y). lia. Qed.

Lemma be16_port (x y : byte) : be16 (byte_val x * 256 + byte_val y) = [x; y].
Proof. apply (be16_of_Uint16 x y []). apply Uint16_spec. Qed.

Lemma be16_port_val p :
  wf_port p -> byte_val (byte_of (Z.shiftr p 8)) * 256 + byte_val (byte_of p) = p.
Proof.
  intros Hp. pose proof (Uint16_be16 p []) as H. unfold be16 in H. simpl app in H.
  rewrite Uint16_spec in H. injection H as ->. by apply Z.mod_small.
Qed.

(** ** Decoding a sequence *)

Section UnmarshalLoop.
Context {A : Type} (sz : nat) (dec : bytes -> go (res codec_error A)).
Context (enc : A -> bytes) (wf : A -> Prop).
Context (dec_total : forall c, length c = sz ->
           exists x, dec c = Ret (Ok x) /\ wf x /\ enc x = c).
Context (dec_enc : forall x, wf x -> dec (enc x) = Ret (Ok x)).
Context (enc_length : forall x, wf x -> length (enc x) = sz).

Lemma unmarshal_loop_total b n i :
  ((i + n) * sz <= length b)%nat ->
  exists l, unmarshal_loop sz dec b i n = Ret (Ok l) /\ length l = n /\ Forall wf l /\
            flat_map enc l = take (n * sz) (drop (i * sz) b).
Proof.
  clear dec_enc enc_length. revert i. induction n as [|n IH]; intros i Hb; cbn [unmarshal_loop].
  { exists []. done. }
  rewrite slice_nat by nia.
  destruct (dec_total (take sz (drop (i * sz) b))) as (x & Hx & Hwf & Henc).
  { rewrite length_take, length_drop. nia. }
  destruct (IH (S i)) as (l & Hl & Hlen & Hall & Hflat); [nia|].
  exists (x :: l). rewrite Hx, Hl. split_and!; [done|simpl; lia|by constructor|].
  simpl. rewrite Henc, Hflat, take_plus, drop_drop.
  by rewrite (Nat.add_comm (i * sz) sz).
Qed.

Lemma unmarshal_loop_roundtrip pre l :
  Forall wf pre -> Forall wf l ->
  unmarshal_loop sz dec (flat_map enc (pre ++ l)) (length pre) (length l) = Ret (Ok l).
Proof.
  intros Hpre Hl. revert pre Hpre.
  induction Hl as [|x l Hx Hl IH]; intros pre Hpre; cbn [unmarshal_loop length]; [done|].
  assert (length (flat_map enc pre) = (length pre * sz)%nat) as Hlen.
  { clear -Hpre enc_length. induction Hpre; simpl; [done|].
    rewrite length_app, IHHpre, enc_length by done. lia. }
  rewrite flat_map_app. simpl flat_map.
  rewrite slice_nat by (rewrite !length_app, Hlen, (enc_length x Hx); lia).
  rewrite take_drop_app_eq by auto. rewrite dec_enc by done.
  specialize (IH (pre ++ [x])). rewrite <- app_assoc, length_app, Nat.add_1_r in IH.
  simpl in IH. rewrite flat_map_app in IH. simpl in IH. rewrite IH; [done|].
  apply Forall_app. split; [done|]. by constructor.
Qed.
End UnmarshalLoop.

(** ** Peers *)

Lemma peer_dec_total c :
  length c = 6%nat ->
  exists cp, CompactPeer_UnmarshalBinary c = Ret (Ok cp) /\ wf_peer cp /\ peer_bytes cp = c.
Proof.
  intros (ip & x & y & -> & Hip)%(split_last2 c 4).
  eexists. split; [apply peer_unmarshal_spec; auto|]. split; [split; [done|apply port_range]|].
  unfold peer_bytes. simpl. by rewrite To4_v4, be16_port.
Qed.

Lemma peer_dec_enc cp : wf_peer cp -> CompactPeer_UnmarshalBinary (peer_bytes cp) = Ret (Ok cp).
Proof.
  destruct cp as [ip p]. intros [Hip Hp]. unfold peer_bytes. simpl in *.
  rewrite To4_v4 by done. simpl. unfold be16. rewrite peer_unmarshal_spec by auto.
  by rewrite be16_port_val.
Qed.

(** ** Nodes *)

Lemma node_bytes_eq id ip p :
  length id = 20%nat -> length ip = 4%nat ->
  CompactNodeInfo_MarshalBinary
    {| cni_ID := id; cni_Addr := {| udp_IP := ip; udp_Port := p; udp_Zone := [] |} |} =
  id ++ ip ++ be16 p.
Proof.
  intros Hid Hip. unfold CompactNodeInfo_MarshalBinary. simpl.
  rewrite To4_v4 by done. rewrite copy_full by done. rewrite be16_to_u16.
  simpl. by rewrite <- app_assoc.
Qed.

Lemma node_dec_total c :
  length c = 26%nat ->
  exists n, CompactNodeInfo_UnmarshalBinary (make_bytes 20) c = Ret (Ok n) /\ wf_node n /\
            CompactNodeInfo_MarshalBinary n = c.
Proof.
  intros (id & ip & x & y & -> & Hid & Hip)%split_node.
  eexists. split; [by apply node_unmarshal_spec|]. split.
  - unfold wf_node. simpl. auto using port_range.
  - by rewrite node_bytes_eq, be16_port.
Qed.

Lemma node_dec_enc n :
  wf_node n ->
  CompactNodeInfo_UnmarshalBinary (make_bytes 20) (CompactNodeInfo_MarshalBinary n) = Ret (Ok n).
Proof.
  destruct n as [id [ip p z]]. intros (Hid & Hip & Hp & Hz). simpl in *. subst z.
  rewrite node_bytes_eq by done. unfold be16. rewrite node_unmarshal_spec by done.
  by rewrite be16_port_val.
Qed.

Lemma node_enc_length n : wf_node n -> length (CompactNodeInfo_MarshalBinary n) = 26%nat.
Proof.
  destruct n as [id [ip p z]]. intros (Hid & Hip & Hp & Hz). simpl in *. subst z.
  rewrite node_bytes_eq by done. rewrite !length_app, be16_length. lia.
Qed.

Lemma foldl_app_flat_map {A} (f : A -> bytes) l acc :
  foldl (fun ret x => ret ++ f x) acc l = acc ++ flat_map f l.
Proof.
  revert acc. induction l as [|x l IH]; intros acc; simpl; [by rewrite app_nil_r|].
  by rewrite IH, app_assoc.
Qed.

Lemma UnmarshalCompactNodeInfos_enc l :
  Forall wf_node l ->
  UnmarshalCompactNodeInfos (flat_map CompactNodeInfo_MarshalBinary l) = Ret (Ok l).
Proof.
  intros Hl.
  assert (length (flat_map CompactNodeInfo_MarshalBinary l) = length l * 26)%nat as Hlen.
  { induction Hl; simpl; [done|]. rewrite length_app, IHHl, node_enc_length by done. lia. }
  unfold UnmarshalCompactNodeInfos. rewrite Hlen, Nat.Div0.mod_mul, Nat.div_mul by lia. simpl.
  apply (unmarshal_loop_roundtrip 26 _ _ wf_node node_dec_enc node_enc_length []); done.
Qed.

(** ** Errors *)

(** A text the error pattern matches has a colon with two more bytes after it. *)
Lemma errorRE_prefix {A} n0 s c (k : bytes -> caps -> option A) x :
  rmatch errorRE n0 s c k = Some x ->
  exists u v, s = u ++ Byte.x3a :: v /\ (2 <= length v)%nat.
Proof.
  intros E. unfold errorRE in E.
  apply rmatch_Seq_inv in E as (u1 & ? & ? & -> & E).
  apply rmatch_Seq_inv in E as (u2 & ? & ? & -> & E).
  apply rmatch_Seq_inv in E as (u3 & ? & ? & -> & E).
  apply rmatch_Seq_inv in E as (u4 & ? & ? & -> & E).
  apply (rmatch_lit_inv (str ":") n0) in E as (s5 & -> & E).
  apply (rmatch_Chr_inv dot n0) in E as (b5 & s6 & -> & _ & E).
  apply (rmatch_suffix (Star (Chr dot)) n0) in E as (w & s7 & ? & -> & E).
  apply (rmatch_lit_inv (str "e") n0) in E as (s8 & -> & _).
  exists (u1 ++ u2 ++ u3 ++ u4), (b5 :: w ++ str "e" ++ s8).
  rewrite <- !app_assoc. split; [done|]. simpl. rewrite length_app. simpl. lia.
Qed.

Lemma errorRE_needs_message s :
  FindSubmatch errorRE s <> None ->
  exists u v, s = u ++ Byte.x3a :: v /\ (2 <= length v)%nat.
Proof.
  unfold FindSubmatch. generalize (length s) as n0. intros n0.
  induction s as [|b s IH]; intros H.
  - cbn [find_from] in H. destruct (rmatch errorRE n0 _ [] _) as [x|] eqn:E; [|done].
    by apply errorRE_prefix in E.
  - cbn [find_from] in H. destruct (rmatch errorRE n0 _ [] _) as [x|] eqn:E.
    + by apply errorRE_prefix in E.
    + destruct (IH H) as (u & v & -> & Hv). by exists (b :: u), v.
Qed.

(** A KRPC error the pattern can express: a non-negative code that fits an
    [int] and a non-empty message without a newline. *)
Definition wf_error (e : KError) : Prop :=
  0 <= e_Code e < 2 ^ 63 /\ e_Message e <> [] /\ len (e_Message e) < 2 ^ 63 /\
  Forall (fun b => dot b = true) (e_Message e).

Lemma fmt_d_nonneg n : 0 <= n -> fmt_d n = dec n.
Proof. intros H. unfold fmt_d. by rewrite (proj2 (Z.ltb_ge n 0)). Qed.

Lemma fmt_d_no_colon n : Byte.x3a ∉ fmt_d n.
Proof.
  assert (forall m, 0 <= m -> Byte.x3a ∉ dec m) as Hdec.
  { intros m Hm Hin. pose proof (dec_digits m Hm) as Hd. rewrite Forall_forall in Hd.
    by apply Hd in Hin. }
  unfold fmt_d. destruct (Z.ltb_spec n 0); [|by apply Hdec].
  rewrite elem_of_cons. intros [?|Hin]; [done|]. apply (Hdec (- n)); [lia|done].
Qed.

Lemma errorRE_match e :
  wf_error e ->
  FindSubmatch errorRE (Error_MarshalBencode e) =
  Some [(0%nat, Error_MarshalBencode e); (3%nat, e_Message e);
        (2%nat, dec (len (e_Message e))); (1%nat, dec (e_Code e))].
Proof.
  intros (Hc & Hne & _ & Hdot). pose proof (len_nonneg (e_Message e)) as Hl.
  apply FindSubmatch_first. unfold errorRE, Error_MarshalBencode.
  rewrite !fmt_d_nonneg by lia. set (t := str "li" ++ _).
  rewrite rmatch_Seq. unfold t at 2. rewrite rmatch_lit.
  rewrite rmatch_Seq. apply rmatch_Cap_Plus; [apply dec_nonempty; lia|apply dec_digits; lia|done|].
  rewrite rmatch_Seq. etransitivity; [apply (rmatch_lit (str "e"))|]. cbv beta.
  rewrite rmatch_Seq. apply rmatch_Cap_Plus; [apply dec_nonempty; lia|apply dec_digits; lia|done|].
  rewrite rmatch_Seq. etransitivity; [apply (rmatch_lit (str ":"))|]. cbv beta.
  rewrite rmatch_Seq. apply rmatch_Cap_Plus_back; [done| |done|].
  - apply Forall_app. split; [done|]. repeat constructor.
  - simpl. unfold whole. simpl. by rewrite take_ge by lia.
Qed.

(** ** A concrete byte-string encoder for the witnesses: [<length>:<bytes>] *)

Definition model_Unmarshal (s : bytes) : option bytes :=
  let n := span is_digit s in
  match drop n s with
  | Byte.x3a :: body =>
      if (0 <? n)%nat && (len body =? digits_val (take n s)) then Some body else None
  | _ => None
  end.

Definition bencode_model : Bencode := {|
  bencode_Marshal b := dec (len b) ++ Byte.x3a :: b;
  bencode_Unmarshal := model_Unmarshal |}.

#[global] Instance bencode_model_laws : BencodeLaws bencode_model.
Proof.
  split; [|vm_compute; reflexivity]. intros b. simpl. unfold model_Unmarshal.
  pose proof (len_nonneg b) as Hb.
  rewrite span_app_stop by (done || by apply dec_digits).
  rewrite drop_app_length, take_app_length, digits_val_dec, Z.eqb_refl by done.
  destruct (dec (len b)) eqn:E; [by apply dec_nonempty in E|]. done.
Qed.

(** ** Properties *)

(** [CompactPeers.MarshalBinary] never panics and the buffer it fills
    through sub-slices is the concatenation of the six-byte encodings of the
    peers; a peer without an IPv4 address contributes four zero bytes. *)
Theorem CompactPeers_MarshalBinary_correct (cps : list CompactPeer) :
  CompactPeers_MarshalBinary cps = Ret (flat_map peer_bytes cps) /\
  length (flat_map peer_bytes cps) = (6 * length cps)%nat.
Proof.
  split; [apply CompactPeers_MarshalBinary_bytes|].
  apply flat_map_length_const, peer_bytes_length.
Qed.

(** Decoding a compact peer string never panics and never fails: it
    yields one well-formed IPv4 peer per complete six-byte group, re-encoding
    them gives the groups back, and a trailing incomplete group is ignored. *)
Theorem UnmarshalCompactPeers_total (b : bytes) :
  exists l, UnmarshalCompactPeers b = Ret (Ok l) /\ length l = (length b / 6)%nat /\
            Forall wf_peer l /\ flat_map peer_bytes l = take (length b / 6 * 6) b.
Proof.
  unfold UnmarshalCompactPeers.
  destruct (unmarshal_loop_total 6 _ _ wf_peer peer_dec_total b (length b / 6) 0)
    as (l & H & Hlen & Hwf & Hf); [|eauto].
  pose proof (Nat.Div0.mul_div_le (length b) 6). lia.
Qed.

(** Round trip of peer lists: what [MarshalBinary] writes for IPv4 peers
    with 16-bit ports, [UnmarshalCompactPeers] reads back. *)
Theorem compact_peers_roundtrip (cps : list CompactPeer) :
  Forall wf_peer cps ->
  exists b, CompactPeers_MarshalBinary cps = Ret b /\ UnmarshalCompactPeers b = Ret (Ok cps).
Proof.
  intros H. exists (flat_map peer_bytes cps). split; [apply CompactPeers_MarshalBinary_bytes|].
  unfold UnmarshalCompactPeers.
  rewrite (flat_map_length_const _ 6) by apply peer_bytes_length.
  rewrite Nat.mul_comm, Nat.div_mul by done.
  apply (unmarshal_loop_roundtrip 6 _ peer_bytes wf_peer peer_dec_enc (fun x _ => peer_bytes_length x) []); done.
Qed.

Definition wit_peers : list CompactPeer :=
  [ {| cp_IP := str "axje"; cp_Port := 11893 |}; {| cp_IP := str "idht"; cp_Port := 28269 |} ].

Lemma wit_peers_wf : Forall wf_peer wit_peers.
Proof. repeat constructor; vm_compute; done. Qed.

Lemma compact_peers_roundtrip_witness :
  CompactPeers_MarshalBinary wit_peers = Ret (str "axje.uidhtnm") /\
  exists b, CompactPeers_MarshalBinary wit_peers = Ret b /\ UnmarshalCompactPeers b = Ret (Ok wit_peers).
Proof.
  split; [vm_compute; reflexivity|].
  apply (compact_peers_roundtrip wit_peers). apply wit_peers_wf.
Defined.

(** [UnmarshalCompactNodeInfos] fails exactly on inputs whose length is
    not a multiple of 26; otherwise it decodes every 26-byte group to a
    well-formed node and re-encoding the nodes gives the input back. *)
Theorem UnmarshalCompactNodeInfos_total (b : bytes) :
  if decide (length b mod 26 = 0)%nat
  then exists l, UnmarshalCompactNodeInfos b = Ret (Ok l) /\ Forall wf_node l /\
                 flat_map CompactNodeInfo_MarshalBinary l = b
  else UnmarshalCompactNodeInfos b = Ret (Err ErrNotMultipleOf26).
Proof.
  unfold UnmarshalCompactNodeInfos. case_decide as H.
  - rewrite H. cbn [Nat.eqb negb].
    pose proof (Nat.div_mod_eq (length b) 26) as Hd. rewrite H in Hd.
    destruct (unmarshal_loop_total 26 _ _ wf_node node_dec_total b (length b / 26) 0)
      as (l & Hl & _ & Hwf & Hf); [lia|].
    exists l. rewrite Hl, Hf, drop_0. split_and!; [done|done|]. apply take_ge. lia.
  - by rewrite (proj2 (Nat.eqb_neq _ 0) H).
Qed.

(** C28. Round trip of node lists through bencode: [MarshalBencode] (with its
    special case for the empty list) followed by [UnmarshalBencode] is the
    identity on nodes with 20-byte ids, IPv4 addresses and 16-bit ports. *)
Theorem compact_nodes_bencode_roundtrip (B : Bencode) (L : BencodeLaws B)
    (l : list CompactNodeInfo) :
  Forall wf_node l ->
  CompactNodeInfos_UnmarshalBencode (CompactNodeInfos_MarshalBencode l) = Ret (Ok l).
Proof.
  intros Hl. unfold CompactNodeInfos_UnmarshalBencode, unmarshal_then, CompactNodeInfos_MarshalBencode.
  destruct l as [|n l]; [by rewrite bencode_empty|].
  rewrite bencode_roundtrip, foldl_app_flat_map. by apply UnmarshalCompactNodeInfos_enc.
Qed.

Definition wit_node : CompactNodeInfo :=
  {| cni_ID := str "abcdefghijklmnopqrst";
     cni_Addr := {| udp_IP := [Byte.x8b; Byte.x82; Byte.x8e; Byte.xf5]; udp_Port := 3169; udp_Zone := [] |} |}.

Lemma compact_nodes_bencode_roundtrip_witness :
  Forall wf_node [wit_node] /\
  CompactNodeInfos_UnmarshalBencode (B := bencode_model)
    (CompactNodeInfos_MarshalBencode (B := bencode_model) [wit_node]) = Ret (Ok [wit_node]).
Proof.
  assert (Forall wf_node [wit_node]) as H by (repeat constructor; vm_compute; done).
  split; [exact H|].
  apply (compact_nodes_bencode_roundtrip bencode_model bencode_model_laws [wit_node] H).
Defined.

(** Round trip of one peer through bencode: an IPv4 or IPv6 peer comes
    back with the same port and with its address, in four-byte form when it
    is IPv4 or an IPv4-mapped IPv6 address. *)
Theorem compact_peer_bencode_roundtrip (B : Bencode) (L : BencodeLaws B) (cp : CompactPeer) :
  length (cp_IP cp) = 4%nat \/ length (cp_IP cp) = 16%nat -> wf_port (cp_Port cp) ->
  exists b, CompactPeer_MarshalBencode cp = Ret b /\
    CompactPeer_UnmarshalBencode b =
      Ret (Ok {| cp_IP := default (cp_IP cp) (To4 (cp_IP cp)); cp_Port := cp_Port cp |}).
Proof.
  intros Hip Hp. unfold CompactPeer_MarshalBencode, CompactPeer_UnmarshalBencode, unmarshal_then.
  set (ip := default (cp_IP cp) (To4 (cp_IP cp))).
  assert (length ip = 4%nat \/ length ip = 16%nat) as Hl.
  { unfold ip. destruct (To4 (cp_IP cp)) eqn:E; [|done]. left. by apply To4_length in E. }
  assert (copy (make_bytes (length ip + 2)) ip = ip ++ make_bytes 2) as Hc.
  { unfold make_bytes. rewrite replicate_add. apply copy_prefix. apply length_replicate. }
  cbv zeta. rewrite Hc. unfold len at 1. rewrite slice_from_nat by (rewrite length_app; lia).
  rewrite drop_app_length, take_app_length, PutUint16_make.
  eexists. split; [reflexivity|]. rewrite bencode_roundtrip, be16_to_u16.
  unfold be16. rewrite peer_unmarshal_spec by done. by rewrite be16_port_val.
Qed.

Lemma compact_peer_bencode_roundtrip_witness :
  exists b, CompactPeer_MarshalBencode (B := bencode_model)
              {| cp_IP := v4InV6Prefix ++ str "axje"; cp_Port := 6881 |} = Ret b /\
    CompactPeer_UnmarshalBencode (B := bencode_model) b =
      Ret (Ok {| cp_IP := str "axje"; cp_Port := 6881 |}).
Proof.
  apply (compact_peer_bencode_roundtrip bencode_model bencode_model_laws
           {| cp_IP := v4InV6Prefix ++ str "axje"; cp_Port := 6881 |}).
  - right. reflexivity.
  - vm_compute. done.
Defined.

(** Round trip of KRPC errors: [UnmarshalBencode] applied to what
    [MarshalBencode] prints restores the code and the message, for every
    non-negative code and every non-empty message without a newline. *)
Theorem error_roundtrip (e : KError) :
  wf_error e -> Error_UnmarshalBencode (Error_MarshalBencode e) = Ok e.
Proof.
  intros Hwf. unfold Error_UnmarshalBencode. rewrite errorRE_match by done.
  destruct Hwf as (Hc & Hne & Hlen & _). pose proof (len_nonneg (e_Message e)) as Hl.
  cbn [group Nat.eqb].
  rewrite !ParseInt10_digits by
    (try apply dec_nonempty; try apply dec_digits; rewrite ?digits_val_dec by lia; lia).
  rewrite !digits_val_dec, Z.eqb_refl by lia. by destruct e.
Qed.

Lemma error_roundtrip_witness :
  Error_MarshalBencode {| e_Code := 201; e_Message := str "A Generic Error Ocurred" |} =
    str "li201e23:A Generic Error Ocurrede" /\
  Error_UnmarshalBencode
    (Error_MarshalBencode {| e_Code := 201; e_Message := str "A Generic Error Ocurred" |}) =
  Ok {| e_Code := 201; e_Message := str "A Generic Error Ocurred" |}.
Proof.
  split; [vm_compute; reflexivity|]. apply error_roundtrip.
  split; [simpl; lia|]. split; [done|]. split; [vm_compute; done|]. repeat constructor.
Defined.

(** An error with an empty message does not survive the wire: whatever
    the code, [UnmarshalBencode] rejects what [MarshalBencode] prints. *)
Theorem error_empty_message_rejected (code : Z) :
  Error_UnmarshalBencode (Error_MarshalBencode {| e_Code := code; e_Message := [] |}) =
  Err ErrErrorList.
Proof.
  unfold Error_UnmarshalBencode.
  destruct (FindSubmatch errorRE _) eqn:E; [exfalso|done].
  destruct (errorRE_needs_message (Error_MarshalBencode {| e_Code := code; e_Message := [] |}))
    as (u & v & H & Hv); [by rewrite E|].
  replace (Error_MarshalBencode _) with ((str "li" ++ fmt_d code ++ str "e0") ++ Byte.x3a :: str "e")
    in H by (unfold Error_MarshalBencode; rewrite <- !app_assoc; done).
  apply (sep_suffix_le Byte.x3a (str "li" ++ fmt_d code ++ str "e0") (str "e")) in H;
    [simpl in H; lia|].
  rewrite !elem_of_app. intros [Hin|[Hin|Hin]];
    [apply list_elem_of_In in Hin; simpl in Hin; intuition discriminate| |
     apply list_elem_of_In in Hin; simpl in Hin; intuition discriminate].
  by apply fmt_d_no_colon in Hin.
Qed.
