(* ===== verification/GoTime.v ===== *)
(** Go's [time] package in UTC, as far as the program uses it: [time.Date]
    with its normalisation of out-of-range fields, [Time.Unix], [Time.Date],
    [AddDate] and [Add]. A [time.Time] is its number of seconds since the Unix
    epoch; the program never looks below a second. *)

From S2P Require Import Prelude.
From Stdlib Require Import ZArith Lia.
From stdpp Require Import base list.
Local Open Scope Z_scope.

Definition leap (y : Z) : bool :=
  (y mod 4 =? 0) && (negb (y mod 100 =? 0) || (y mod 400 =? 0)).

(** Days from 0001-01-01 to the first day of year [y] (proleptic Gregorian). *)
Definition days_before_year (y : Z) : Z :=
  let y1 := y - 1 in 365 * y1 + y1 / 4 - y1 / 100 + y1 / 400.

(** Days from January 1 to the first of month [m], for [m] in 0..11. *)
Definition days_before_month (y m : Z) : Z :=
  nth (Z.to_nat m) [0; 31; 59; 90; 120; 151; 181; 212; 243; 273; 304; 334; 365] 0 +
  (if leap y && (2 <=? m) then 1 else 0).

(** Days since 1970-01-01; the month may be out of 1..12 and the day out of
    the month, as in [time.Date]. *)
Definition date_days (y m d : Z) : Z :=
  let y' := y + (m - 1) / 12 in
  days_before_year y' + days_before_month y' ((m - 1) mod 12) + (d - 1) - 719162.

(** [time.Date(y, m, d, h, mi, s, 0, time.UTC).Unix()]. *)
Definition Date (y m d h mi s : Z) : Z := date_days y m d * 86400 + h * 3600 + mi * 60 + s.

(** [daysIn]: the length of a month. *)
Definition days_in (y m : Z) : Z := date_days y (m + 1) 1 - date_days y m 1.

Lemma date_days_day y m d : date_days y m d = date_days y m 1 + (d - 1).
Proof. unfold date_days. lia. Qed.

(** Fields beyond the range carry over into the next unit. *)
Lemma Date_day_overflow y m d h mi s :
  Date y m (d + days_in y m) h mi s = Date y (m + 1) d h mi s.
Proof.
  unfold Date. rewrite (date_days_day y m), (date_days_day y (m + 1)). unfold days_in. lia.
Qed.

Lemma Date_hour_overflow y m d h mi s : Date y m d (h + 24) mi s = Date y m (d + 1) h mi s.
Proof. unfold Date. rewrite (date_days_day y m d), (date_days_day y m (d + 1)). lia. Qed.

Lemma Date_month_overflow y m d h mi s : Date y (m + 12) d h mi s = Date (y + 1) m d h mi s.
Proof.
  unfold Date, date_days. replace (m + 12 - 1) with (m - 1 + 1 * 12) by lia.
  rewrite Z.div_add, Z_mod_plus_full by lia.
  replace (y + ((m - 1) / 12 + 1)) with (y + 1 + (m - 1) / 12) by lia. done.
Qed.

Lemma Date_monotone_day y m d d' h mi s :
  d < d' -> Date y m d h mi s < Date y m d' h mi s.
Proof. intros H. unfold Date. rewrite (date_days_day y m d), (date_days_day y m d'). lia. Qed.

(** The year of 366 days is the leap year. *)
Lemma leap_spec y :
  days_before_year (y + 1) - days_before_year y = if leap y then 366 else 365.
Proof.
  unfold days_before_year, leap. replace (y + 1 - 1) with y by lia.
  destruct (Z.eqb_spec (y mod 4) 0), (Z.eqb_spec (y mod 100) 0), (Z.eqb_spec (y mod 400) 0);
    simpl; Z.to_euclidean_division_equations; lia.
Qed.

Lemma month_cases m :
  1 <= m <= 12 ->
  m = 1 \/ m = 2 \/ m = 3 \/ m = 4 \/ m = 5 \/ m = 6 \/
  m = 7 \/ m = 8 \/ m = 9 \/ m = 10 \/ m = 11 \/ m = 12.
Proof. lia. Qed.

(** Evaluates the month arithmetic of a goal about a concrete month. *)
Ltac eval_month :=
  repeat match goal with
  | |- context [?a / 12] => let v := eval vm_compute in (a / 12) in change (a / 12) with v
  | |- context [?a mod 12] => let v := eval vm_compute in (a mod 12) in change (a mod 12) with v
  | |- context [Z.to_nat ?a] => let v := eval vm_compute in (Z.to_nat a) in change (Z.to_nat a) with v
  | |- context [2 <=? ?a] => let v := eval vm_compute in (2 <=? a) in change (2 <=? a) with v
  end; cbn [nth].

Lemma days_in_table y m :
  1 <= m <= 12 ->
  days_in y m =
  nth (Z.to_nat (m - 1)) [31; if leap y then 29 else 28; 31; 30; 31; 30; 31; 31; 30; 31; 30; 31] 0.
Proof.
  intros Hm. pose proof (leap_spec y) as Hl.
  destruct (month_cases m Hm) as [->|[->|[->|[->|[->|[->|[->|[->|[->|[->|[->| ->]]]]]]]]]]];
    unfold days_in, date_days, days_before_month; eval_month;
    rewrite ?Z.add_0_r, ?andb_true_r, ?andb_false_r; destruct (leap y); lia.
Qed.

(** ** [Time.Date], [Time.AddDate] and [Time.Add] *)

(** The year, and the day in it from 0, of a number of days since 0001-01-01:
    whole cycles of 400, 100, 4 and 1 years. *)
Definition year_day (d : Z) : Z * Z :=
  let n400 := d / 146097 in
  let d := d - 146097 * n400 in
  let n100 := Z.min 3 (d / 36524) in
  let d := d - 36524 * n100 in
  let n4 := d / 1461 in
  let d := d - 1461 * n4 in
  let n1 := Z.min 3 (d / 365) in
  (400 * n400 + 100 * n100 + 4 * n4 + n1 + 1, d - 365 * n1).

(** The last month, from 0 and at most [k], that begins by day [yday]. *)
Fixpoint month_of (y yday : Z) (k : nat) : Z :=
  match k with
  | O => 0
  | S k' => if days_before_month y (Z.of_nat k) <=? yday then Z.of_nat k else month_of y yday k'
  end.

(** [t.Date()] *)
Definition civil (t : Z) : Z * Z * Z :=
  let '(y, yday) := year_day (t / 86400 + 719162) in
  let m := month_of y yday 11 in
  (y, m + 1, yday - days_before_month y m + 1).

Definition AddDate (t years months days : Z) : Z :=
  let '(y, m, d) := civil t in Date (y + years) (m + months) (d + days) 0 0 (t mod 86400).

(** time.Duration is an int64 of nanoseconds; [Hours n] is
    [time.Duration(n) * time.Hour] with its wrap-around, [Time_Add] the seconds
    after a time that has no fraction of a second. *)
Definition Hours (n : Z) : Z := to_i64 (to_i64 n * 3600000000000).
Definition Time_Add (t duration : Z) : Z := t + duration / 1000000000.

Lemma year_day_spec d :
  let '(y, yday) := year_day d in
  d = days_before_year y + yday /\ 0 <= yday < (if leap y then 366 else 365).
Proof.
  unfold year_day. set (a := d / 146097). set (r := d - 146097 * a).
  assert (0 <= r < 146097) as Hr by (unfold r, a; Z.to_euclidean_division_equations; lia).
  set (b := Z.min 3 (r / 36524)). set (r2 := r - 36524 * b).
  assert (0 <= b <= 3 /\ 0 <= r2 <= 36524 /\ (r2 = 36524 -> b = 3)) as (Hb & Hr2 & Hb3)
    by (unfold r2, b; Z.to_euclidean_division_equations; lia).
  set (c := r2 / 1461). set (r3 := r2 - 1461 * c).
  assert (0 <= c <= 24 /\ 0 <= r3 < 1461) as [Hc Hr3]
    by (unfold r3, c; Z.to_euclidean_division_equations; lia).
  set (e := Z.min 3 (r3 / 365)).
  assert (0 <= e <= 3 /\ 0 <= r3 - 365 * e <= 365 /\ (r3 - 365 * e = 365 -> e = 3 /\ r3 = 1460))
    as (He & Hy & He3) by (unfold e; Z.to_euclidean_division_equations; lia).
  set (y := 400 * a + 100 * b + 4 * c + e + 1).
  assert (days_before_year y = d - (r3 - 365 * e)) as Hd.
  { unfold days_before_year, y.
    replace (400 * a + 100 * b + 4 * c + e + 1 - 1) with (400 * a + 100 * b + 4 * c + e) by lia.
    replace ((400 * a + 100 * b + 4 * c + e) / 4) with (100 * a + 25 * b + c)
      by (Z.to_euclidean_division_equations; lia).
    replace ((400 * a + 100 * b + 4 * c + e) / 100) with (4 * a + b)
      by (Z.to_euclidean_division_equations; lia).
    replace ((400 * a + 100 * b + 4 * c + e) / 400) with a
      by (Z.to_euclidean_division_equations; lia).
    unfold r3, r2, r. lia. }
  split; [lia|]. split; [lia|]. destruct (leap y) eqn:El; [lia|].
  destruct (Z.eq_dec (r3 - 365 * e) 365) as [E|E]; [|lia]. exfalso.
  destruct (He3 E) as [-> H1460]. unfold leap in El.
  assert (y mod 4 = 0) as E4 by (unfold y; Z.to_euclidean_division_equations; lia).
  rewrite E4 in El. simpl in El.
  destruct (Z.eqb_spec (y mod 100) 0) as [E100|]; [|done].
  assert (c = 24) by (unfold y in E100; Z.to_euclidean_division_equations; lia).
  assert (b = 3) by (apply Hb3; unfold r3 in H1460; lia).
  assert (y mod 400 = 0) as E400 by (unfold y; Z.to_euclidean_division_equations; lia).
  by rewrite E400 in El.
Qed.

Lemma days_before_month_0 y : days_before_month y 0 = 0.
Proof. unfold days_before_month. by rewrite andb_false_r. Qed.

Lemma month_of_spec y yday k :
  0 <= yday -> (k <= 11)%nat ->
  let m := month_of y yday k in
  0 <= m <= Z.of_nat k /\ days_before_month y m <= yday /\
  (m < Z.of_nat k -> yday < days_before_month y (m + 1)).
Proof.
  intros Hy. induction k as [|k IH]; intros Hk.
  - cbn [month_of]. cbv zeta. rewrite days_before_month_0. lia.
  - cbn [month_of]. destruct (Z.leb_spec (days_before_month y (Z.of_nat (S k))) yday) as [H|H].
    + cbv zeta. lia.
    + destruct IH as (H1 & H2 & H3); [lia|]. cbv zeta. split_and!; [lia|lia|done|].
      intros _. destruct (Z.eq_dec (month_of y yday k) (Z.of_nat k)) as [->|]; [|lia].
      by replace (Z.of_nat k + 1) with (Z.of_nat (S k)) by lia.
Qed.

(** [t.Date()] gives the date of the calendar. *)
Lemma civil_spec t :
  let '(y, m, d) := civil t in
  1 <= m <= 12 /\ 1 <= d <= days_in y m /\ Date y m d 0 0 (t mod 86400) = t.
Proof.
  unfold civil. pose proof (year_day_spec (t / 86400 + 719162)) as Hs.
  destruct (year_day _) as [y yday]. destruct Hs as [Hd Hy].
  destruct (month_of_spec y yday 11) as (Hm & Hlo & Hhi); [apply Hy|lia|].
  set (m := month_of y yday 11) in *.
  assert (forall i, 0 <= i <= 11 -> date_days y (i + 1) 1 =
    days_before_year y + days_before_month y i - 719162) as Hdd.
  { intros i Hi. unfold date_days. replace (i + 1 - 1) with i by lia.
    rewrite Z.div_small, Z.mod_small by lia. by rewrite !Z.add_0_r. }
  split_and!; [lia|lia|lia| |].
  - unfold days_in. rewrite (Hdd m) by lia. destruct (Z.eq_dec m 11) as [E|E].
    + rewrite E. change (11 + 1 + 1) with (1 + 12).
      assert (date_days y (1 + 12) 1 = days_before_year (y + 1) - 719162) as ->.
      { unfold date_days. change ((1 + 12 - 1) / 12) with 1. change ((1 + 12 - 1) mod 12) with 0.
        rewrite days_before_month_0. lia. }
      pose proof (leap_spec y) as Hl. rewrite E in *. lia.
    + rewrite (Hdd (m + 1)) by lia. specialize (Hhi ltac:(lia)). lia.
  - unfold Date. rewrite date_days_day, Hdd by lia.
    pose proof (Z.div_mod t 86400 ltac:(lia)). lia.
Qed.

(** Whole days are added exactly. *)
Lemma AddDate_days t n : AddDate t 0 0 n = t + n * 86400.
Proof.
  unfold AddDate. pose proof (civil_spec t) as H. destruct (civil t) as [[y m] d].
  destruct H as (_ & _ & H). unfold Date in *. rewrite !Z.add_0_r.
  rewrite (date_days_day y m d) in H. rewrite (date_days_day y m (d + n)). lia.
Qed.

Lemma Hours_exact n : 0 <= n <= 2562047 -> Hours n = n * 3600000000000.
Proof. intros H. unfold Hours. rewrite (to_i64_id n), to_i64_id; lia. Qed.

(** Known dates. *)
Example date_epoch : Date 1970 1 1 0 0 0 = 0.
Proof. reflexivity. Qed.
Example date_2018 : Date 2018 4 20 15 59 59 = 1524239999.
Proof. reflexivity. Qed.
Example date_leap_day : Date 2000 2 29 0 0 0 = 951782400.
Proof. reflexivity. Qed.
Example civil_2018 : civil 1524239999 = (2018, 4, 20).
Proof. reflexivity. Qed.
