(* ===== verification/Iso8601.v ===== *)
(** pkg/persistence/iso8601.go: the date parser of the statistics API.

    [ParseISO8601] is translated with its five patterns, the order of its
    checks and its panics. [isoDate] is the abstract syntax of the dates it is
    meant for, [on_calendar] and [last_second] say which of them exist and when
    they end, and the main theorem compares the parser with the calendar. *)

From S2P Require Import Prelude GoLib Regex GoTime.
From Stdlib Require Import ZArith Lia.
From stdpp Require Import base list.
Local Open Scope Z_scope.
Local Open Scope go_scope.

Inductive Granularity : Type := Year | Month | Week | Day | Hour.

#[global] Instance Granularity_eq_dec : EqDecision Granularity.
Proof. solve_decision. Defined.

Inductive iso_error : Type :=
  | ErrYear | ErrMonth | ErrWeek | ErrDay | ErrHour | ErrFormat.

(** ** Patterns: captured digit runs of fixed width and literal separators *)

Inductive item : Type := Dig (n : nat) | Lit (b : bytes).

(** [items_re i its] is the part of the pattern after [^], with groups
    numbered from [i] and the final [$]. *)
Fixpoint items_re (i : nat) (its : list item) : re :=
  match its with
  | [] => Eol
  | Dig n :: r => Seq (Cap i (Rep n (Chr is_digit))) (items_re (S i) r)
  | Lit b :: r => Seq (lit b) (items_re i r)
  end.

Definition yearItems : list item := [Dig 4].
Definition monthItems : list item := [Dig 4; Lit (str "-"); Dig 2].
Definition weekItems : list item := [Dig 4; Lit (str "-W"); Dig 2].
Definition dayItems : list item := [Dig 4; Lit (str "-"); Dig 2; Lit (str "-"); Dig 2].
Definition hourItems : list item :=
  [Dig 4; Lit (str "-"); Dig 2; Lit (str "-"); Dig 2; Lit (str "T"); Dig 2].

(** [^(\d{4})$] *)
Definition yearRE : re := Seq Bol (items_re 1 yearItems).
(** [^(\d{4})-(\d{2})$] *)
Definition monthRE : re := Seq Bol (items_re 1 monthItems).
(** [^(\d{4})-W(\d{2})$] *)
Definition weekRE : re := Seq Bol (items_re 1 weekItems).
(** [^(\d{4})-(\d{2})-(\d{2})$] *)
Definition dayRE : re := Seq Bol (items_re 1 dayItems).
(** [^(\d{4})-(\d{2})-(\d{2})T(\d{2})$] *)
Definition hourRE : re := Seq Bol (items_re 1 hourItems).

(** ** Field parsers *)

Definition isLeap (year : Z) : bool :=
  if negb (Z.rem year 4 =? 0) then false
  else if negb (Z.rem year 100 =? 0) then true
  else if negb (Z.rem year 400 =? 0) then false
  else true.

Definition daysOfMonth (month year : Z) : go Z :=
  match month with
  | 1 => Ret 31
  | 2 => if isLeap year then Ret 29 else Ret 28
  | 3 => Ret 31
  | 4 => Ret 30
  | 5 => Ret 31
  | 6 => Ret 30
  | 7 => Ret 31
  | 8 => Ret 31
  | 9 => Ret 30
  | 10 => Ret 31
  | 11 => Ret 30
  | 12 => Ret 31
  | _ => Panic
  end.

Definition atoi (s : bytes) : go Z :=
  match ParseInt10 s 64 with Ok i => Ret i | Err _ => Panic end.

Definition parseYear (s : bytes) : go (res iso_error Z) :=
  let! year := atoi s in
  if year <=? 1583 then Ret (Err ErrYear) else Ret (Ok year).

Definition parseMonth (s : bytes) : go (res iso_error Z) :=
  let! month := atoi s in
  if (month <=? 0) || (13 <=? month) then Ret (Err ErrMonth) else Ret (Ok month).

Definition parseWeek (s : bytes) : go (res iso_error Z) :=
  let! week := atoi s in
  if (week <=? 0) || (54 <=? week) then Ret (Err ErrWeek) else Ret (Ok week).

Definition parseDay (s : bytes) (max : Z) : go (res iso_error Z) :=
  let! day := atoi s in
  if (day <=? 0) || (max <? day) then Ret (Err ErrDay) else Ret (Ok day).

Definition parseHour (s : bytes) : go (res iso_error Z) :=
  let! hour := atoi s in
  if (hour <=? -1) || (25 <=? hour) then Ret (Err ErrHour) else Ret (Ok hour).

Definition ParseISO8601 (s : bytes) : go (res iso_error (Z * Granularity)) :=
  match FindSubmatch yearRE s with
  | Some m =>
      let? year := parseYear (group 1 m) in
      let! last := daysOfMonth 12 year in
      Ret (Ok (Date year 12 last 23 59 59, Year))
  | None =>
  match FindSubmatch monthRE s with
  | Some m =>
      let? month := parseMonth (group 2 m) in
      let? year := parseYear (group 1 m) in
      Ret (Ok (Date year month 31 23 59 59, Month))
  | None =>
  match FindSubmatch weekRE s with
  | Some m =>
      let? week := parseWeek (group 2 m) in
      let? year := parseYear (group 1 m) in
      Ret (Ok (Date year 1 (week * 7) 23 59 59, Week))
  | None =>
  match FindSubmatch dayRE s with
  | Some m =>
      let? month := parseMonth (group 2 m) in
      let? year := parseYear (group 1 m) in
      let! max := daysOfMonth month year in
      let? day := parseDay (group 3 m) max in
      Ret (Ok (Date year month day 23 59 59, Day))
  | None =>
  match FindSubmatch hourRE s with
  | Some m =>
      let? month := parseMonth (group 2 m) in
      let? year := parseYear (group 1 m) in
      let? hour := parseHour (group 4 m) in
      let! max := daysOfMonth month year in
      let? day := parseDay (group 3 m) max in
      Ret (Ok (Date year month day hour 59 59, Hour))
  | None => Ret (Err ErrFormat)
  end end end end end.

(** The repository's own test cases. *)
Example parse_tests :
  map (fun s => match ParseISO8601 s with Ret (Ok (_, g)) => Some g | _ => None end)
    [str "2018"; str "2018-04"; str "2018-W16"; str "2018-04-20"; str "2018-04-20T15"] =
  [Some Year; Some Month; Some Week; Some Day; Some Hour].
Proof. vm_compute. reflexivity. Qed.

(** ** What the patterns recognise *)

Fixpoint strip (l s : bytes) : option bytes :=
  match l, s with
  | [], _ => Some s
  | b :: l', x :: s' => if byte_eqb b x then strip l' s' else None
  | _ :: _, [] => None
  end.

(** The digit fields of a text of the given shape. *)
Fixpoint fields (its : list item) (s : bytes) : option (list bytes) :=
  match its with
  | [] => match s with [] => Some [] | _ => None end
  | Dig n :: r =>
      if decide ((n <= length s)%nat /\ Forall (fun b => is_digit b = true) (take n s))
      then match fields r (drop n s) with Some fs => Some (take n s :: fs) | None => None end
      else None
  | Lit b :: r => match strip b s with Some s' => fields r s' | None => None end
  end.

Fixpoint push (i : nat) (fs : list bytes) (c : caps) : caps :=
  match fs with [] => c | f :: r => push (S i) r ((i, f) :: c) end.

Lemma rmatch_lit_strip {A} l n0 s c (k : bytes -> caps -> option A) :
  rmatch (lit l) n0 s c k = match strip l s with Some s' => k s' c | None => None end.
Proof.
  revert s. induction l as [|b l IH]; intros s; [by destruct s|].
  destruct s as [|x s]; [done|]. simpl. destruct (byte_eqb b x); [apply IH|done].
Qed.

Lemma rmatch_items {A} its i n0 s c (k : bytes -> caps -> option A) :
  rmatch (items_re i its) n0 s c k =
  match fields its s with Some fs => k [] (push i fs c) | None => None end.
Proof.
  revert i s c. induction its as [|[n|b] its IH]; intros i s c.
  - simpl. by destruct s.
  - cbn [items_re fields]. rewrite rmatch_Seq.
    change (rmatch (Cap i (Rep n (Chr is_digit))) n0 s c ?kk)
      with (rmatch (Rep n (Chr is_digit)) n0 s c
              (fun s' c' => kk s' ((i, take (length s - length s') s) :: c'))).
    rewrite rmatch_Rep_Chr. case_decide as H; [|done]. rewrite IH, length_drop.
    replace (length s - (length s - n))%nat with n by lia.
    by destruct (fields its (drop n s)).
  - cbn [items_re fields]. rewrite rmatch_Seq, rmatch_lit_strip.
    destruct (strip b s); [apply IH|done].
Qed.

Lemma FindSubmatch_items its s :
  FindSubmatch (Seq Bol (items_re 1 its)) s =
  match fields its s with Some fs => whole s [] (push 1 fs []) | None => None end.
Proof. rewrite FindSubmatch_Bol. apply rmatch_items. Qed.

Fixpoint build (its : list item) (fs : list bytes) : bytes :=
  match its, fs with
  | Dig _ :: r, f :: fs' => f ++ build r fs'
  | Lit b :: r, _ => b ++ build r fs
  | _, _ => []
  end.

Definition is_field (n : nat) (f : bytes) : Prop :=
  length f = n /\ Forall (fun b => is_digit b = true) f.

Fixpoint wf_fields (its : list item) (fs : list bytes) : Prop :=
  match its, fs with
  | [], [] => True
  | Dig n :: r, f :: fs' => is_field n f /\ wf_fields r fs'
  | Lit _ :: r, _ => wf_fields r fs
  | _, _ => False
  end.

Fixpoint items_len (its : list item) : nat :=
  match its with [] => 0 | Dig n :: r => n + items_len r | Lit b :: r => length b + items_len r end.

Lemma strip_Some l s s' : strip l s = Some s' <-> s = l ++ s'.
Proof.
  revert s. induction l as [|b l IH]; intros s; simpl; [split; congruence|].
  destruct s as [|x s]; [done|]. unfold byte_eqb. case_bool_decide; [rewrite IH|]; clear IH; naive_solver.
Qed.

Lemma fields_inv its s fs : fields its s = Some fs -> wf_fields its fs /\ s = build its fs.
Proof.
  revert s fs. induction its as [|[n|b] its IH]; intros s fs H; cbn [fields] in H.
  - destruct s; [|done]. by injection H as <-.
  - case_decide as Hd; [|done]. destruct Hd as [Hn Hd].
    destruct (fields its (drop n s)) as [fs'|] eqn:E; [|done]. injection H as <-.
    apply IH in E as [Hwf Hs]. cbn [wf_fields build]. rewrite <- Hs, take_drop.
    split; [|done]. split; [|done]. split; [rewrite length_take; lia|done].
  - destruct (strip b s) as [s'|] eqn:E; [|done]. apply strip_Some in E as ->.
    apply IH in H as [Hwf ->]. done.
Qed.

Lemma fields_build its fs : wf_fields its fs -> fields its (build its fs) = Some fs.
Proof.
  revert fs. induction its as [|[n|b] its IH]; intros fs H.
  - by destruct fs.
  - destruct fs as [|f fs]; [done|]. destruct H as [[Hlen Hd] Hwf]. cbn [fields build].
    rewrite take_app_length', drop_app_length' by done.
    rewrite decide_True by (split; [rewrite length_app; lia|done]). by rewrite IH.
  - cbn [fields build]. rewrite (proj2 (strip_Some b _ (build its fs)) eq_refl). by apply IH.
Qed.

Lemma build_length its fs : wf_fields its fs -> length (build its fs) = items_len its.
Proof.
  revert fs. induction its as [|[n|b] its IH]; intros fs H; [done| |].
  - destruct fs as [|f fs]; [done|]. destruct H as [[Hlen _] Hwf]. simpl.
    rewrite length_app, IH; [lia|done].
  - simpl. rewrite length_app, IH; [lia|done].
Qed.

(** A text has at most one of the five shapes, because their lengths differ. *)
Lemma fields_length its s fs : fields its s = Some fs -> length s = items_len its.
Proof. intros [Hwf ->]%fields_inv. by apply build_length. Qed.

Lemma fields_other its s : length s <> items_len its -> fields its s = None.
Proof. intros H. destruct (fields its s) eqn:E; [|done]. by apply fields_length in E. Qed.

(** ** The calendar *)

Lemma rem_mod_zero a b : 0 < b -> (Z.rem a b =? 0) = (a mod b =? 0).
Proof.
  intros Hb. destruct (Z.eqb_spec (Z.rem a b) 0), (Z.eqb_spec (a mod b) 0); try done; exfalso.
  - apply Z.rem_divide in e; [|lia]. apply Z.mod_divide in e; lia.
  - apply Z.mod_divide in e; [|lia]. apply Z.rem_divide in e; lia.
Qed.

Lemma isLeap_leap y : isLeap y = leap y.
Proof.
  unfold isLeap, leap. rewrite !rem_mod_zero by lia.
  by destruct (y mod 4 =? 0), (y mod 100 =? 0), (y mod 400 =? 0).
Qed.

Lemma daysOfMonth_days_in m y : 1 <= m <= 12 -> daysOfMonth m y = Ret (days_in y m).
Proof.
  intros Hm. rewrite days_in_table by done.
  destruct (month_cases m Hm) as [->|[->|[->|[->|[->|[->|[->|[->|[->|[->|[->| ->]]]]]]]]]]]; try done.
  unfold daysOfMonth. rewrite isLeap_leap. by destruct (leap y).
Qed.

(** ** The dates the parser is meant for *)

Inductive isoDate : Type :=
  | IsoYear (y : Z)
  | IsoMonth (y m : Z)
  | IsoWeek (y w : Z)
  | IsoDay (y m d : Z)
  | IsoHour (y m d h : Z).

(** The [n] last decimal digits of [v]. *)
Fixpoint pad (n : nat) (v : Z) : bytes :=
  match n with O => [] | S m => pad m (v / 10) ++ [digit (v mod 10)] end.

Definition print (d : isoDate) : bytes :=
  match d with
  | IsoYear y => build yearItems [pad 4 y]
  | IsoMonth y m => build monthItems [pad 4 y; pad 2 m]
  | IsoWeek y w => build weekItems [pad 4 y; pad 2 w]
  | IsoDay y m d => build dayItems [pad 4 y; pad 2 m; pad 2 d]
  | IsoHour y m d h => build hourItems [pad 4 y; pad 2 m; pad 2 d; pad 2 h]
  end.

(** Written with four-digit years and two-digit other fields. *)
Definition printable (d : isoDate) : Prop :=
  match d with
  | IsoYear y => 0 <= y <= 9999
  | IsoMonth y m => 0 <= y <= 9999 /\ 0 <= m <= 99
  | IsoWeek y w => 0 <= y <= 9999 /\ 0 <= w <= 99
  | IsoDay y m d => 0 <= y <= 9999 /\ 0 <= m <= 99 /\ 0 <= d <= 99
  | IsoHour y m d h => 0 <= y <= 9999 /\ 0 <= m <= 99 /\ 0 <= d <= 99 /\ 0 <= h <= 99
  end.

(** The instant that the parser computes, and the granularity. *)
Definition instant (d : isoDate) : Z :=
  match d with
  | IsoYear y => Date y 12 31 23 59 59
  | IsoMonth y m => Date y m 31 23 59 59
  | IsoWeek y w => Date y 1 (w * 7) 23 59 59
  | IsoDay y m d => Date y m d 23 59 59
  | IsoHour y m d h => Date y m d h 59 59
  end.

Definition gran (d : isoDate) : Granularity :=
  match d with
  | IsoYear _ => Year | IsoMonth _ _ => Month | IsoWeek _ _ => Week
  | IsoDay _ _ _ => Day | IsoHour _ _ _ _ => Hour
  end.

(** The checks, in the order in which the first failure is reported. *)
Definition check (d : isoDate) : res iso_error (Z * Granularity) :=
  let year y k := if y <=? 1583 then Err ErrYear else k in
  let month m k := if (m <=? 0) || (13 <=? m) then Err ErrMonth else k in
  let ok := Ok (instant d, gran d) in
  match d with
  | IsoYear y => year y ok
  | IsoMonth y m => month m (year y ok)
  | IsoWeek y w => if (w <=? 0) || (54 <=? w) then Err ErrWeek else year y ok
  | IsoDay y m d =>
      month m (year y (if (d <=? 0) || (days_in y m <? d) then Err ErrDay else ok))
  | IsoHour y m d h =>
      month m (year y (if 25 <=? h then Err ErrHour
                       else if (d <=? 0) || (days_in y m <? d) then Err ErrDay else ok))
  end.

Lemma pad_field n v : is_field n (pad n v).
Proof.
  revert v. induction n as [|n IH]; intros v; simpl; [done|].
  destruct (IH (v / 10)) as [Hl Hd]. split; [rewrite length_app, Hl; simpl; lia|].
  apply Forall_app. split; [done|]. constructor; [|done].
  apply digit_is_digit. by apply Z.mod_pos_bound.
Qed.

Lemma digits_val_snoc s b : digits_val (s ++ [b]) = digits_val s * 10 + (byte_val b - 48).
Proof. unfold digits_val, digits_val_from. by rewrite foldl_app. Qed.

Lemma digits_val_pad n v : 0 <= v < 10 ^ Z.of_nat n -> digits_val (pad n v) = v.
Proof.
  revert v. induction n as [|n IH]; intros v Hv; [simpl in Hv; cbv; lia|].
  rewrite Nat2Z.inj_succ, Z.pow_succ_r in Hv by lia. cbn [pad].
  rewrite digits_val_snoc, digit_val_spec by (by apply Z.mod_pos_bound).
  rewrite IH; [pose proof (Z.div_mod v 10 ltac:(lia)); lia|].
  split; [apply Z.div_pos; lia|]. apply Z.div_lt_upper_bound; lia.
Qed.

Lemma pad_digits_val n f : is_field n f -> f = pad n (digits_val f).
Proof.
  revert f. induction n as [|n IH]; intros f [Hl Hd].
  - by destruct f.
  - destruct f as [|b f _] using rev_ind; [done|].
    rewrite length_app, Nat.add_1_r in Hl. injection Hl as Hl.
    apply Forall_app in Hd as [Hd Hb]. apply Forall_inv in Hb.
    pose proof (is_digit_range b Hb) as Hr.
    rewrite digits_val_snoc. cbn [pad].
    rewrite Z.div_add_l, (Z.div_small (byte_val b - 48)), Z.add_0_r by lia.
    rewrite <- (IH f) by done. f_equal. f_equal.
    apply byte_val_inj. rewrite digit_val_spec by (apply Z.mod_pos_bound; lia).
    rewrite Z.add_comm, Z.add_comm with (n := digits_val f * 10), Z_mod_plus_full.
    rewrite Z.mod_small; lia.
Qed.

Lemma is_field_bound n f : is_field n f -> 0 <= digits_val f < 10 ^ Z.of_nat n.
Proof. intros [Hl Hd]. pose proof (digits_val_bound f Hd) as H. unfold len in H. by rewrite Hl in H. Qed.

(** After a pattern match [atoi] cannot panic. *)
Lemma atoi_field n f :
  is_field n f -> (0 < n <= 18)%nat -> atoi f = Ret (digits_val f).
Proof.
  intros Hf Hn. pose proof (is_field_bound n f Hf) as Hb. destruct Hf as [Hl Hd].
  unfold atoi. rewrite ParseInt10_digits; [done| |done|].
  - intros ->. simpl in Hl. lia.
  - apply Z.lt_le_trans with (10 ^ Z.of_nat n); [lia|].
    apply Z.le_trans with (10 ^ 18); [apply Z.pow_le_mono_r; lia|lia].
Qed.

Lemma parseYear_field f :
  is_field 4 f ->
  parseYear f = Ret (if digits_val f <=? 1583 then Err ErrYear else Ok (digits_val f)).
Proof. intros H. unfold parseYear. rewrite (atoi_field 4) by (done || lia). by destruct (_ <=? _). Qed.

Lemma parseMonth_field f :
  is_field 2 f ->
  parseMonth f = Ret (if (digits_val f <=? 0) || (13 <=? digits_val f)
                      then Err ErrMonth else Ok (digits_val f)).
Proof. intros H. unfold parseMonth. rewrite (atoi_field 2) by (done || lia). by destruct (_ || _). Qed.

Lemma parseWeek_field f :
  is_field 2 f ->
  parseWeek f = Ret (if (digits_val f <=? 0) || (54 <=? digits_val f)
                     then Err ErrWeek else Ok (digits_val f)).
Proof. intros H. unfold parseWeek. rewrite (atoi_field 2) by (done || lia). by destruct (_ || _). Qed.

Lemma parseDay_field f max :
  is_field 2 f ->
  parseDay f max = Ret (if (digits_val f <=? 0) || (max <? digits_val f)
                        then Err ErrDay else Ok (digits_val f)).
Proof. intros H. unfold parseDay. rewrite (atoi_field 2) by (done || lia). by destruct (_ || _). Qed.

Lemma parseHour_field f :
  is_field 2 f ->
  parseHour f = Ret (if 25 <=? digits_val f then Err ErrHour else Ok (digits_val f)).
Proof.
  intros H. unfold parseHour. rewrite (atoi_field 2) by (done || lia).
  pose proof (is_field_bound 2 f H). rewrite (proj2 (Z.leb_gt _ (-1))) by lia.
  by destruct (_ <=? _).
Qed.

Lemma month_ok m : (m <=? 0) || (13 <=? m) = false -> 1 <= m <= 12.
Proof. intros [H1 H2]%orb_false_iff. lia. Qed.

(** Selects the pattern a text of known shape matches. *)
Ltac pick_shape H :=
  let Hl := fresh "Hl" in
  pose proof (fields_length _ _ _ H) as Hl; simpl in Hl;
  unfold ParseISO8601, yearRE, monthRE, weekRE, dayRE, hourRE;
  rewrite !FindSubmatch_items, H;
  repeat match goal with
  | |- context [fields ?i ?s] => rewrite (fields_other i s) by (rewrite Hl; done)
  end;
  cbn [group push whole Nat.eqb]; unfold check; cbv zeta; cbn [instant gran].

Lemma parse_year s fy :
  fields yearItems s = Some [fy] -> is_field 4 fy ->
  ParseISO8601 s = Ret (check (IsoYear (digits_val fy))).
Proof. intros H Hy. pick_shape H. rewrite parseYear_field by done. by destruct (_ <=? _). Qed.

Lemma parse_month s fy fm :
  fields monthItems s = Some [fy; fm] -> is_field 4 fy -> is_field 2 fm ->
  ParseISO8601 s = Ret (check (IsoMonth (digits_val fy) (digits_val fm))).
Proof.
  intros H Hy Hm. pick_shape H. rewrite parseYear_field, parseMonth_field by done.
  destruct (_ || _); [done|]. by destruct (_ <=? _).
Qed.

Lemma parse_week s fy fw :
  fields weekItems s = Some [fy; fw] -> is_field 4 fy -> is_field 2 fw ->
  ParseISO8601 s = Ret (check (IsoWeek (digits_val fy) (digits_val fw))).
Proof.
  intros H Hy Hw. pick_shape H. rewrite parseYear_field, parseWeek_field by done.
  destruct (_ || _); [done|]. by destruct (_ <=? _).
Qed.

Lemma parse_day s fy fm fd :
  fields dayItems s = Some [fy; fm; fd] -> is_field 4 fy -> is_field 2 fm -> is_field 2 fd ->
  ParseISO8601 s = Ret (check (IsoDay (digits_val fy) (digits_val fm) (digits_val fd))).
Proof.
  intros H Hy Hm Hd. pick_shape H. rewrite parseYear_field, parseMonth_field by done.
  destruct (_ || _) eqn:Em; [done|]. destruct (_ <=? 1583); [done|].
  rewrite daysOfMonth_days_in by (by apply month_ok).
  rewrite parseDay_field by done. by destruct ((_ <=? 0) || (days_in _ _ <? _)).
Qed.

Lemma parse_hour s fy fm fd fh :
  fields hourItems s = Some [fy; fm; fd; fh] ->
  is_field 4 fy -> is_field 2 fm -> is_field 2 fd -> is_field 2 fh ->
  ParseISO8601 s =
  Ret (check (IsoHour (digits_val fy) (digits_val fm) (digits_val fd) (digits_val fh))).
Proof.
  intros H Hy Hm Hd Hh. pick_shape H. rewrite parseYear_field, parseMonth_field by done.
  destruct (_ || _) eqn:Em; [done|]. destruct (_ <=? 1583); [done|].
  rewrite parseHour_field by done. destruct (25 <=? _); [done|].
  rewrite daysOfMonth_days_in by (by apply month_ok).
  rewrite parseDay_field by done. by destruct ((_ <=? 0) || (days_in _ _ <? _)).
Qed.

(** The date a text of one of the five shapes denotes. *)
Definition denotes (s : bytes) (d : isoDate) : Prop := printable d /\ s = print d.

Lemma denotes_year s fs :
  fields yearItems s = Some fs -> exists d, denotes s d /\ ParseISO8601 s = Ret (check d).
Proof.
  intros H. destruct (fields_inv _ _ _ H) as [Hwf Hs].
  destruct fs as [|fy [|? ?]]; try (simpl in Hwf; tauto). destruct Hwf as [Hy _].
  exists (IsoYear (digits_val fy)). split; [|by apply parse_year].
  apply is_field_bound in Hy as Hy'. split; [simpl; lia|].
  unfold print. by rewrite <- (pad_digits_val 4).
Qed.

Lemma denotes_month s fs :
  fields monthItems s = Some fs -> exists d, denotes s d /\ ParseISO8601 s = Ret (check d).
Proof.
  intros H. destruct (fields_inv _ _ _ H) as [Hwf Hs].
  destruct fs as [|fy [|fm [|? ?]]]; try (simpl in Hwf; tauto). destruct Hwf as (Hy & Hm & _).
  exists (IsoMonth (digits_val fy) (digits_val fm)). split; [|by apply parse_month].
  apply is_field_bound in Hy as Hy', Hm as Hm'. split; [simpl; lia|].
  unfold print. by rewrite <- (pad_digits_val 4), <- (pad_digits_val 2).
Qed.

Lemma denotes_week s fs :
  fields weekItems s = Some fs -> exists d, denotes s d /\ ParseISO8601 s = Ret (check d).
Proof.
  intros H. destruct (fields_inv _ _ _ H) as [Hwf Hs].
  destruct fs as [|fy [|fw [|? ?]]]; try (simpl in Hwf; tauto). destruct Hwf as (Hy & Hw & _).
  exists (IsoWeek (digits_val fy) (digits_val fw)). split; [|by apply parse_week].
  apply is_field_bound in Hy as Hy', Hw as Hw'. split; [simpl; lia|].
  unfold print. by rewrite <- (pad_digits_val 4), <- (pad_digits_val 2).
Qed.

Lemma denotes_day s fs :
  fields dayItems s = Some fs -> exists d, denotes s d /\ ParseISO8601 s = Ret (check d).
Proof.
  intros H. destruct (fields_inv _ _ _ H) as [Hwf Hs].
  destruct fs as [|fy [|fm [|fd [|? ?]]]]; try (simpl in Hwf; tauto).
  destruct Hwf as (Hy & Hm & Hd & _).
  exists (IsoDay (digits_val fy) (digits_val fm) (digits_val fd)). split; [|by apply parse_day].
  apply is_field_bound in Hy as Hy', Hm as Hm', Hd as Hd'. split; [simpl; lia|].
  unfold print. by rewrite <- (pad_digits_val 4), <- !(pad_digits_val 2).
Qed.

Lemma denotes_hour s fs :
  fields hourItems s = Some fs -> exists d, denotes s d /\ ParseISO8601 s = Ret (check d).
Proof.
  intros H. destruct (fields_inv _ _ _ H) as [Hwf Hs].
  destruct fs as [|fy [|fm [|fd [|fh [|? ?]]]]]; try (simpl in Hwf; tauto).
  destruct Hwf as (Hy & Hm & Hd & Hh & _).
  exists (IsoHour (digits_val fy) (digits_val fm) (digits_val fd) (digits_val fh)).
  split; [|by apply parse_hour].
  apply is_field_bound in Hy as Hy', Hm as Hm', Hd as Hd', Hh as Hh'. split; [simpl; lia|].
  unfold print. by rewrite <- (pad_digits_val 4), <- !(pad_digits_val 2).
Qed.

Ltac wf_print :=
  cbn [wf_fields yearItems monthItems weekItems dayItems hourItems]; auto 10 using pad_field.

(** A printed date has the shape of its kind. *)
Lemma print_fields d :
  fields yearItems (print d) <> None \/ fields monthItems (print d) <> None \/
  fields weekItems (print d) <> None \/ fields dayItems (print d) <> None \/
  fields hourItems (print d) <> None.
Proof.
  destruct d; unfold print;
    [left|right; left|do 2 right; left|do 3 right; left|do 4 right];
    by rewrite fields_build by wf_print.
Qed.

Lemma no_shape_no_date s :
  fields yearItems s = None -> fields monthItems s = None -> fields weekItems s = None ->
  fields dayItems s = None -> fields hourItems s = None -> forall d, ~ denotes s d.
Proof. intros ????? d [_ ->]. destruct (print_fields d) as [|[|[|[|]]]]; done. Qed.

Lemma parse_no_shape s :
  fields yearItems s = None -> fields monthItems s = None -> fields weekItems s = None ->
  fields dayItems s = None -> fields hourItems s = None -> ParseISO8601 s = Ret (Err ErrFormat).
Proof.
  intros H1 H2 H3 H4 H5. unfold ParseISO8601, yearRE, monthRE, weekRE, dayRE, hourRE.
  by rewrite !FindSubmatch_items, H1, H2, H3, H4, H5.
Qed.

Lemma parse_total s :
  (exists d, denotes s d /\ ParseISO8601 s = Ret (check d)) \/
  ((forall d, ~ denotes s d) /\ ParseISO8601 s = Ret (Err ErrFormat)).
Proof.
  destruct (fields yearItems s) eqn:E1; [left; by eapply denotes_year|].
  destruct (fields monthItems s) eqn:E2; [left; by eapply denotes_month|].
  destruct (fields weekItems s) eqn:E3; [left; by eapply denotes_week|].
  destruct (fields dayItems s) eqn:E4; [left; by eapply denotes_day|].
  destruct (fields hourItems s) eqn:E5; [left; by eapply denotes_hour|].
  right. split; [by apply no_shape_no_date|by apply parse_no_shape].
Qed.

(** Printing is injective on printable dates, so a text denotes one date. *)
Lemma fields_print_inj its fs fs' :
  wf_fields its fs -> wf_fields its fs' -> build its fs = build its fs' -> fs = fs'.
Proof. intros H H' E. apply fields_build in H, H'. rewrite E in H. congruence. Qed.

Lemma print_length d :
  length (print d) = match gran d with Year => 4 | Month => 7 | Week => 8 | Day => 10 | Hour => 13 end%nat.
Proof. destruct d; unfold print; by rewrite build_length by wf_print. Qed.

Lemma print_inj d d' : printable d -> printable d' -> print d = print d' -> d = d'.
Proof.
  intros Hp Hp' E. assert (gran d = gran d') as Hg.
  { apply (f_equal length) in E. rewrite !print_length in E. by destruct (gran d), (gran d'). }
  destruct d, d'; try discriminate Hg; simpl in Hp, Hp'; unfold print in E;
    apply fields_print_inj in E; try wf_print;
    apply (f_equal (map digits_val)) in E; cbn [map] in E;
    rewrite !digits_val_pad in E by (simpl; lia); congruence.
Qed.

Lemma denotes_unique s d d' : denotes s d -> denotes s d' -> d = d'.
Proof. intros [H ->] [H' E]. by apply print_inj. Qed.

(** The fields that pass the parser's own checks. *)
Definition valid_fields (d : isoDate) : Prop :=
  match d with
  | IsoYear y => 1583 < y <= 9999
  | IsoMonth y m => 1583 < y <= 9999 /\ 1 <= m <= 12
  | IsoWeek y w => 1583 < y <= 9999 /\ 1 <= w <= 53
  | IsoDay y m d => 1583 < y <= 9999 /\ 1 <= m <= 12 /\ 1 <= d <= days_in y m
  | IsoHour y m d h => 1583 < y <= 9999 /\ 1 <= m <= 12 /\ 1 <= d <= days_in y m /\ 0 <= h <= 24
  end.

Lemma check_Ok d :
  printable d ->
  check d = Ok (instant d, gran d) /\ valid_fields d \/
  (exists e, check d = Err e) /\ ~ valid_fields d.
Proof.
  intros Hp. destruct d; simpl in Hp; unfold check, valid_fields; cbv zeta;
    repeat case_match; rewrite ?orb_true_iff, ?orb_false_iff in *;
    first [left; split; [done|lia] | right; split; [eauto|lia]].
Qed.

Lemma days_in_bound y m : 1 <= m <= 12 -> 28 <= days_in y m <= 31.
Proof.
  intros Hm. rewrite days_in_table by done.
  destruct (month_cases m Hm) as [->|[->|[->|[->|[->|[->|[->|[->|[->|[->|[->| ->]]]]]]]]]]];
    simpl; destruct (leap y); lia.
Qed.

Lemma valid_printable d : valid_fields d -> printable d.
Proof.
  destruct d as [y|y m|y w|y m d|y m d h]; simpl; try lia.
  all: intros (Hy & Hm & Hd); pose proof (days_in_bound y m Hm); lia.
Qed.

Lemma parse_valid d : valid_fields d -> ParseISO8601 (print d) = Ret (Ok (instant d, gran d)).
Proof.
  intros Hv. pose proof (valid_printable d Hv) as Hp.
  destruct (parse_total (print d)) as [(d' & Hd' & ->)|[Hno _]].
  - rewrite (denotes_unique (print d) d' d) by (done || by split).
    by destruct (check_Ok d Hp) as [[-> _]|[_ ?]].
  - by destruct (Hno d).
Qed.

(** ** The calendar of ISO 8601

    Weeks begin on Monday; the first week of a year is the one with January 4. *)

(** Monday is 0; 1970-01-01 was a Thursday. *)
Definition weekday (day : Z) : Z := (day + 3) mod 7.

Definition week_one (y : Z) : Z := date_days y 1 4 - weekday (date_days y 1 4).
Definition weeks_in (y : Z) : Z := (week_one (y + 1) - week_one y) / 7.

Definition year_of (d : isoDate) : Z :=
  match d with IsoYear y | IsoMonth y _ | IsoWeek y _ | IsoDay y _ _ | IsoHour y _ _ _ => y end.

(** The periods that there are in a year. *)
Definition in_year (d : isoDate) : Prop :=
  match d with
  | IsoYear _ => True
  | IsoMonth _ m => 1 <= m <= 12
  | IsoWeek y w => 1 <= w <= weeks_in y
  | IsoDay y m d => 1 <= m <= 12 /\ 1 <= d <= days_in y m
  | IsoHour y m d h => 1 <= m <= 12 /\ 1 <= d <= days_in y m /\ 0 <= h <= 23
  end.

(** The years that the parser's error text allows, up to the last of four
    digits. *)
Definition on_calendar (d : isoDate) : Prop := 1583 <= year_of d <= 9999 /\ in_year d.

(** The last second of a period: the one before the first of the next period. *)
Definition last_second (d : isoDate) : Z :=
  match d with
  | IsoYear y => Date (y + 1) 1 1 0 0 0 - 1
  | IsoMonth y m => Date y (m + 1) 1 0 0 0 - 1
  | IsoWeek y w => (week_one y + 7 * w) * 86400 - 1
  | IsoDay y m d => Date y m (d + 1) 0 0 0 - 1
  | IsoHour y m d h => Date y m d (h + 1) 0 0 - 1
  end.

(** A week 53 of a year of 52 weeks, and the hour 24. *)
Definition beyond (d : isoDate) : Prop :=
  1583 < year_of d <= 9999 /\
  match d with
  | IsoWeek y w => weeks_in y = 52 /\ w = 53
  | IsoHour y m d h => 1 <= m <= 12 /\ 1 <= d <= days_in y m /\ h = 24
  | _ => False
  end.

(** How much later than the last second of the period the parser's instant is. *)
Definition late (d : isoDate) : Z :=
  match d with
  | IsoMonth y m => (31 - days_in y m) * 86400
  | IsoWeek y _ => (date_days y 1 1 - week_one y) * 86400
  | _ => 0
  end.

Lemma date_days_year y : date_days y 1 1 = days_before_year y - 719162.
Proof.
  unfold date_days. change ((1 - 1) / 12) with 0. change ((1 - 1) mod 12) with 0.
  unfold days_before_month. rewrite andb_false_r. cbn [Z.to_nat nth]. rewrite !Z.add_0_r. lia.
Qed.

(** January 1 is at most three days before or after the first Monday. *)
Lemma week_one_near y :
  -3 <= date_days y 1 1 - week_one y <= 3 /\
  (date_days y 1 1 = week_one y <-> weekday (date_days y 1 1) = 0).
Proof.
  unfold week_one, weekday. rewrite (date_days_day y 1 4).
  Z.to_euclidean_division_equations; lia.
Qed.

Lemma weeks_in_cases y : weeks_in y = 52 \/ weeks_in y = 53.
Proof.
  pose proof (week_one_near y) as [H _]. pose proof (week_one_near (y + 1)) as [H' _].
  rewrite !date_days_year in *. pose proof (leap_spec y) as Hl. unfold weeks_in.
  assert ((week_one (y + 1) - week_one y) mod 7 = 0) as Hm.
  { unfold week_one, weekday. Z.to_euclidean_division_equations; lia. }
  destruct (leap y); Z.to_euclidean_division_equations; lia.
Qed.

Lemma valid_calendar d :
  valid_fields d <-> on_calendar d /\ year_of d <> 1583 \/ beyond d.
Proof.
  unfold on_calendar, beyond. destruct d as [y|y m|y w|y m d|y m d h]; cbn [valid_fields year_of in_year];
    try lia.
  pose proof (weeks_in_cases y). lia.
Qed.

Lemma instant_late d : instant d = last_second d + late d.
Proof.
  destruct d as [y|y m|y w|y m d|y m d h]; unfold instant, last_second, late.
  - rewrite <- (Date_month_overflow y 1). change (1 + 12) with (12 + 1).
    rewrite <- Date_day_overflow. rewrite days_in_table by lia. simpl nth.
    unfold Date. rewrite (date_days_day y 12 31), (date_days_day y 12 (1 + 31)). lia.
  - rewrite <- Date_day_overflow. unfold Date.
    rewrite (date_days_day y m 31), (date_days_day y m (1 + _)). lia.
  - unfold Date. rewrite (date_days_day y 1 (w * 7)). lia.
  - unfold Date. rewrite (date_days_day y m d), (date_days_day y m (_ + 1)). lia.
  - unfold Date. lia.
Qed.

Lemma late_bounds d :
  valid_fields d -> Z.abs (late d) <= 3 * 86400 /\
  (late d = 0 <-> match d with
                  | IsoMonth y m => days_in y m = 31
                  | IsoWeek y _ => weekday (date_days y 1 1) = 0
                  | _ => True
                  end).
Proof.
  destruct d as [y|y m|y w|y m d|y m d h]; cbn [valid_fields late]; intros Hv; try lia.
  - pose proof (days_in_bound y m ltac:(lia)). lia.
  - destruct (week_one_near y). lia.
Qed.

(** ** Properties *)

(** No input makes [ParseISO8601] panic: neither the panic of [atoi] nor
    the one of [daysOfMonth] can be reached, and a text that is not the
    rendering of a date is reported as an error. *)
Theorem ParseISO8601_no_panic (s : bytes) :
  ParseISO8601 s <> Panic /\
  ((exists d, printable d /\ s = print d) \/ ParseISO8601 s = Ret (Err ErrFormat)).
Proof.
  destruct (parse_total s) as [(d & [Hp ->] & ->)|[Hno ->]]; split; try done; [|by right].
  left. by exists d.
Qed.

(** [daysOfMonth] agrees with the calendar of Go's [time] package: the
    length of a month is the distance to the first of the next one, leap years
    included; it panics exactly on a month outside 1..12. *)
Theorem daysOfMonth_calendar (m y : Z) :
  daysOfMonth m y = if decide (1 <= m <= 12) then Ret (days_in y m) else Panic.
Proof.
  case_decide as H; [by apply daysOfMonth_days_in|].
  destruct m as [|p|p]; [done| |done].
  do 4 (try (destruct p as [p|p|]; try done)); exfalso; lia.
Qed.

(** C39. [ParseISO8601] against the calendar. It accepts exactly the texts (four
    digits for the year, two for the other fields) of the years after 1583 and
    of the months, ISO weeks, days and hours that exist in them, and besides a
    week 53 in years of 52 weeks and the hour 24: 1583 is refused, although the
    error text speaks of the years before it. For years, days and hours the
    result is the last second of the period. For a month it is late by as many
    days as the month is short of 31; for a week it is the end of the seven
    days counted from January 1, at most three days before or after the end of
    the ISO week and equal to it exactly if January 1 is a Monday. *)
Theorem ParseISO8601_accepts (s : bytes) (t : Z) (g : Granularity) :
  (ParseISO8601 s = Ret (Ok (t, g)) <->
   exists d, (on_calendar d /\ year_of d <> 1583 \/ beyond d) /\ s = print d /\
     g = gran d /\ t = last_second d + late d) /\
  (forall d, on_calendar d /\ year_of d <> 1583 \/ beyond d ->
     Z.abs (late d) <= 3 * 86400 /\
     (late d = 0 <-> match d with
                     | IsoMonth y m => days_in y m = 31
                     | IsoWeek y _ => weekday (date_days y 1 1) = 0
                     | _ => True
                     end)).
Proof.
  split; [|by intros d Hd%valid_calendar; apply late_bounds]. split.
  - intros H. destruct (parse_total s) as [(d & [Hp ->] & Hd)|[_ Hd]]; rewrite Hd in H; [|done].
    exists d. rewrite <- valid_calendar, <- instant_late.
    destruct (check_Ok d Hp) as [[Hc Hv]|[[e Hc] _]]; rewrite Hc in H; by simplify_eq.
  - intros (d & Hv & -> & -> & ->). rewrite <- instant_late. by apply parse_valid, valid_calendar.
Qed.

(** A week of each kind: 2018 begins on a Monday, 2019 on a Tuesday, and 2016 on
    a Friday, in week 53 of 2015. *)
Example week_ends :
  map (fun y => (weeks_in y, late (IsoWeek y 16) / 86400)) [2018; 2019; 2015; 2016] =
  [(52, 0); (52, 1); (53, 3); (52, -3)].
Proof. reflexivity. Qed.
