(* ===== verification/Transport.v ===== *)
(** cmd/magneticod/dht/mainline/transport.go: the UDP transport. Sockets and
    the address conversions of go-sockaddr are third-party, and so is the
    bencode library: their outcomes are arguments of the model. The handlers
    the transport calls act on a caller-chosen state [S]. *)

From S2P Require Import Prelude GoLib Codec.
From Stdlib Require Import ZArith Lia.
From stdpp Require Import base list.
Local Open Scope Z_scope.
Local Open Scope go_scope.

(** bencode.Marshal and bencode.Unmarshal at type Message; [None] is an error. *)
Class MessageCodec := {
  MarshalMessage : Message -> option bytes;
  UnmarshalMessage : bytes -> option Message }.

Class MessageCodecLaws (B : MessageCodec) := {
  unmarshal_marshal m d : MarshalMessage m = Some d -> UnmarshalMessage d = Some m;
  marshal_nonempty m d : MarshalMessage m = Some d -> d <> [] }.

(** go-sockaddr: nil is [None] on either side. *)
Class SockaddrNet := {
  Sockaddr : Type;
  NetAddrToSockaddr : UDPAddr -> option Sockaddr;
  SockaddrToUDPAddr : option Sockaddr -> option UDPAddr }.

Class SockaddrLaws (N : SockaddrNet) := {
  sockaddr_nil : SockaddrToUDPAddr None = None }.

Inductive errno : Type := EPERM | ENOBUFS | OtherErrno (e : Z).

Definition congestion (e : errno) : bool :=
  match e with EPERM | ENOBUFS => true | OtherErrno _ => false end.

Record Transport := {
  fd : Z;
  laddr : UDPAddr;
  t_started : bool;
  buffer : bytes }.

(** [resolved] is the outcome of net.ResolveUDPAddr on the local address. *)
Definition NewTransport (resolved : option UDPAddr) : go Transport :=
  match resolved with
  | None => Panic
  | Some a =>
      match To4 (udp_IP a) with
      | None => Panic
      | Some _ => Ret {| fd := 0; laddr := a; t_started := false; buffer := make_bytes (Z.to_nat 65507) |}
      end
  end.

(** [socket] is the outcome of unix.Socket, [bind] answers unix.Bind. *)
Definition Transport_Start (t : Transport) (socket : option Z) (bind : Z -> bytes -> Z -> bool)
    : go Transport :=
  if t_started t then Panic
  else
    match socket with
    | None => Panic
    | Some f =>
        let ip := copy (make_bytes 4) (default [] (To4 (udp_IP (laddr t)))) in
        if bind f ip (udp_Port (laddr t)) then
          Ret {| fd := f; laddr := laddr t; t_started := true; buffer := buffer t |}
        else Panic
    end.

(** Closing the socket: the descriptor given to unix.Close. *)
Definition Transport_Terminate (t : Transport) : Z := fd t.

Section Loop.
Context `{B : MessageCodec} `{N : SockaddrNet} {S : Type}.
Variable onMsg : Message -> UDPAddr -> S -> go S.
Variable onCongestion : option (S -> go S).

(** What unix.Recvfrom returns, and the bytes it leaves at the start of the
    buffer. *)
Record recv := {
  rv_n : Z;
  rv_data : bytes;
  rv_from : option Sockaddr;
  rv_err : option errno }.

Inductive loop : Type :=
  | Continue (t : Transport) (s : S)
  | Break (t : Transport) (s : S).

Definition set_buffer (t : Transport) (b : bytes) : Transport :=
  {| fd := fd t; laddr := laddr t; t_started := t_started t; buffer := b |}.

(** From the test for an empty datagram to the end of the loop body. *)
Definition handleDatagram (t : Transport) (s : S) (r : recv) : go loop :=
  if rv_n r =? 0 then Ret (Continue t s)
  else
    match SockaddrToUDPAddr (rv_from r) with
    | None => Panic
    | Some from =>
        let! data := slice (buffer t) 0 (rv_n r) in
        match UnmarshalMessage data with
        | None => Ret (Continue t s)
        | Some msg => let! s' := onMsg msg from s in Ret (Continue t s')
        end
    end.

(** One iteration of readMessages. Calling a nil callback panics. *)
Definition readMessage (t : Transport) (s : S) (r : recv) : go loop :=
  let t := set_buffer t (copy (buffer t) (rv_data r)) in
  match rv_err r with
  | Some e =>
      if congestion e then
        match onCongestion with
        | None => Panic
        | Some f => let! s' := f s in handleDatagram t s' r
        end
      else Ret (Break t s)
  | None => handleDatagram t s r
  end.

(** The loop over the results of successive calls of Recvfrom. *)
Fixpoint readMessages (t : Transport) (s : S) (rs : list recv) : go loop :=
  match rs with
  | [] => Ret (Continue t s)
  | r :: rs =>
      let! l := readMessage t s r in
      match l with
      | Continue t s => readMessages t s rs
      | Break t s => Ret (Break t s)
      end
  end.

(** [sendto] answers unix.Sendto; the result is the datagram handed to it. *)
Definition WriteMessages (sendto : bytes -> Sockaddr -> option errno) (msg : Message)
    (addr : UDPAddr) (s : S) : go (option (bytes * Sockaddr) * S) :=
  match MarshalMessage msg with
  | None => Panic
  | Some data =>
      match NetAddrToSockaddr addr with
      | None => Ret (None, s)
      | Some addrSA =>
          match sendto data addrSA with
          | Some e =>
              if congestion e then
                match onCongestion with
                | Some f => let! s' := f s in Ret (Some (data, addrSA), s')
                | None => Ret (Some (data, addrSA), s)
                end
              else Ret (Some (data, addrSA), s)
          | None => Ret (Some (data, addrSA), s)
          end
      end
  end.

(** ** Specification of the read loop *)

(** A result of Recvfrom on the 65507-byte buffer: a datagram from a UDP
    address, or an error with n = -1 and no address. *)
Definition wf_recv (r : recv) : Prop :=
  match rv_err r with
  | None => rv_n r = len (rv_data r) /\ len (rv_data r) <= 65507 /\
            is_Some (SockaddrToUDPAddr (rv_from r))
  | Some _ => rv_n r = -1 /\ rv_from r = None
  end.

Definition congested (r : recv) : bool :=
  match rv_err r with Some e => congestion e | None => false end.

(** The messages among a sequence of datagrams: everything that decodes, in
    order, up to the first socket error. *)
Fixpoint deliveries (rs : list recv) : list (Message * UDPAddr) :=
  match rs with
  | [] => []
  | r :: rs =>
      match rv_err r with
      | Some _ => []
      | None =>
          match rv_data r, UnmarshalMessage (rv_data r), SockaddrToUDPAddr (rv_from r) with
          | _ :: _, Some msg, Some from => (msg, from) :: deliveries rs
          | _, _, _ => deliveries rs
          end
      end
  end.

Fixpoint handle_all (ms : list (Message * UDPAddr)) (s : S) : go S :=
  match ms with
  | [] => Ret s
  | (msg, from) :: ms => let! s' := onMsg msg from s in handle_all ms s'
  end.

Definition loop_state (l : loop) : S := match l with Continue _ s | Break _ s => s end.
Definition loop_transport (l : loop) : Transport := match l with Continue t _ | Break t _ => t end.

Definition wf_transport (t : Transport) : Prop := length (buffer t) = Z.to_nat 65507.

Lemma set_buffer_wf t d : wf_transport t -> wf_transport (set_buffer t (copy (buffer t) d)).
Proof. unfold wf_transport. simpl. intros H. by rewrite copy_length. Qed.

(** Stale bytes of a longer earlier datagram stay behind n. *)
Lemma buffer_prefix (b d : bytes) :
  (length d <= length b)%nat -> slice (copy b d) 0 (len d) = Ret d.
Proof.
  intros H. transitivity (slice (copy b d) (Z.of_nat 0) (Z.of_nat (0 + length d))); [done|].
  rewrite slice_nat by (rewrite copy_length; lia). rewrite drop_0. f_equal.
  unfold copy. rewrite (take_ge d) by lia. by rewrite take_app_length.
Qed.

(** Without congestion one iteration hands over exactly what the datagram
    holds. *)
Lemma readMessage_deliveries t s r :
  wf_transport t -> wf_recv r -> congested r = false ->
  exists t', wf_transport t' /\
  readMessage t s r =
    let! s' := handle_all (deliveries [r]) s in
    Ret (match rv_err r with None => Continue t' s' | Some _ => Break t' s' end).
Proof.
  intros Ht Hr Hc. exists (set_buffer t (copy (buffer t) (rv_data r))).
  split; [by apply set_buffer_wf|]. unfold readMessage, congested, wf_recv in *. simpl.
  destruct (rv_err r) as [e|]; [by rewrite Hc|]. destruct Hr as (Hn & Hlen & [from Hf]).
  unfold handleDatagram. rewrite Hn, Hf. cbn [buffer set_buffer].
  rewrite buffer_prefix by (unfold wf_transport, len in *; lia).
  destruct (rv_data r) as [|x d] eqn:Hd; [done|].
  rewrite (proj2 (Z.eqb_neq _ _)) by (rewrite len_cons; pose proof (len_nonneg d); lia).
  destruct (UnmarshalMessage _); [|done]. simpl. by destruct (onMsg _ _ _).
Qed.

(** Without a congestion handler an iteration keeps the socket and the size of
    the buffer, and hands over at most one message. *)
Lemma readMessage_keeps t s r l :
  onCongestion = None -> readMessage t s r = Ret l ->
  fd (loop_transport l) = fd t /\ length (buffer (loop_transport l)) = length (buffer t) /\
  (loop_state l = s \/ exists msg from, onMsg msg from s = Ret (loop_state l)).
Proof.
  unfold readMessage. intros -> H. set (t' := set_buffer _ _) in H.
  assert (fd t' = fd t /\ length (buffer t') = length (buffer t)) as [Hfd Hlen]
    by (split; [done|apply copy_length]). clearbody t'.
  destruct (rv_err r) as [e|].
  { destruct (congestion e); [done|]. injection H as <-. split_and!; [done..|by left]. }
  unfold handleDatagram in H. destruct (_ =? 0); [injection H as <-; split_and!; [done..|by left]|].
  destruct (SockaddrToUDPAddr _) as [from|]; [|done]. destruct (slice _ _ _) as [d|]; [|done]. cbn in H.
  destruct (UnmarshalMessage d) as [msg|]; [|injection H as <-; split_and!; [done..|by left]].
  destruct (onMsg msg from s) as [s'|] eqn:E; [|done]. injection H as <-. split_and!; [done..|].
  right. by exists msg, from.
Qed.

(** What the kernel promises of Recvfrom on the 65507-byte buffer, whoever the
    sender is. *)
Definition recv_contract (r : recv) : Prop :=
  match rv_err r with
  | None => rv_n r = len (rv_data r) /\ len (rv_data r) <= 65507
  | Some _ => rv_n r = -1
  end.

(** Without a congestion handler an iteration panics in three cases: on a
    congestion error, on a datagram without a sender, and in the handler. *)
Lemma readMessage_panics t s r :
  onCongestion = None -> wf_transport t -> recv_contract r -> readMessage t s r = Panic ->
  congested r = true \/
  rv_err r = None /\ rv_data r <> [] /\ SockaddrToUDPAddr (rv_from r) = None \/
  exists msg from, onMsg msg from s = Panic.
Proof.
  unfold readMessage, congested, recv_contract, wf_transport. intros -> Ht Hr H.
  destruct (rv_err r) as [e|]; [destruct (congestion e); [by left|done]|]. right.
  destruct Hr as [Hn Hlen]. unfold handleDatagram in H. rewrite Hn in H. destruct (Z.eqb_spec (len (rv_data r)) 0) as [|H0]; [done|].
  destruct (SockaddrToUDPAddr _) as [from|]; [|left; split_and!; [done| |done]; intros E; by rewrite E in H0].
  cbn [buffer set_buffer] in H. rewrite buffer_prefix in H by (unfold len in *; lia). cbn in H.
  destruct (UnmarshalMessage _) as [msg|]; [|done]. right. exists msg, from. by destruct (onMsg _ _ _).
Qed.

Lemma readMessages_deliveries rs t s :
  wf_transport t -> Forall wf_recv rs -> Forall (fun r => congested r = false) rs ->
  match readMessages t s rs with
  | Ret l => handle_all (deliveries rs) s = Ret (loop_state l)
  | Panic => handle_all (deliveries rs) s = Panic
  end.
Proof.
  revert t s. induction rs as [|r rs IH]; intros t s Ht Hr Hc; [done|].
  apply Forall_cons in Hr as [Hr Hrs]. apply Forall_cons in Hc as [Hc Hcs].
  destruct (readMessage_deliveries t s r Ht Hr Hc) as (t' & Ht' & E).
  cbn [readMessages]. rewrite E. clear E.
  cbn [deliveries]. destruct (rv_err r) as [e|]; [done|].
  destruct (rv_data r) as [|x d]; [by apply IH|].
  destruct (UnmarshalMessage _) as [msg|]; [|by apply IH].
  destruct (SockaddrToUDPAddr _) as [from|]; [|by apply IH].
  cbn [handle_all]. destruct (onMsg msg from s) as [s'|]; [|done]. by apply IH.
Qed.

(** C26. The read loop calls the message handler exactly on the datagrams that
    decode, in order of arrival, each with its sender's address, until the
    first socket error; empty and undecodable datagrams are skipped, bytes an
    earlier datagram left in the shared buffer never reach the decoder, and
    the loop panics only where a handler does. *)
Theorem readMessages_correct rs t s :
  wf_transport t -> Forall wf_recv rs -> Forall (fun r => congested r = false) rs ->
  (let! l := readMessages t s rs in Ret (loop_state l)) = handle_all (deliveries rs) s.
Proof.
  intros Ht Hr Hc. pose proof (readMessages_deliveries rs t s Ht Hr Hc) as H.
  by destruct (readMessages t s rs).
Qed.

(** A congestion error on the receiving side brings the process down: with
    no callback the nil call panics, and after a callback that returns the
    loop goes on with the nil sender of the failed call. *)
Theorem read_congestion_panics `{!SockaddrLaws N} t s r :
  wf_recv r -> congested r = true ->
  (forall f s', onCongestion = Some f -> f s = Ret s' -> readMessage t s r = Panic) /\
  (onCongestion = None -> readMessage t s r = Panic).
Proof.
  unfold wf_recv, congested, readMessage. destruct (rv_err r) as [e|]; [|done].
  intros [Hn Hf] He. rewrite He. split.
  - intros f s' -> ->. unfold handleDatagram. by rewrite Hn, Hf, sockaddr_nil.
  - by intros ->.
Qed.

(** A datagram that decodes is handed over with its sender's address. *)
Lemma readMessage_delivers t s d src from msg :
  wf_transport t -> d <> [] -> len d <= 65507 -> UnmarshalMessage d = Some msg ->
  SockaddrToUDPAddr (Some src) = Some from ->
  readMessage t s {| rv_n := len d; rv_data := d; rv_from := Some src; rv_err := None |} =
    let! s' := onMsg msg from s in Ret (Continue (set_buffer t (copy (buffer t) d)) s').
Proof.
  intros Ht Hd Hlen Hmsg Hfrom. unfold readMessage, handleDatagram. simpl. rewrite Hfrom.
  rewrite buffer_prefix by (unfold wf_transport, len in *; lia).
  rewrite (proj2 (Z.eqb_neq _ _)) by (by rewrite len_nil_iff). cbn [slice]. by rewrite Hmsg.
Qed.

(** What one node writes another reads: a message handed to WriteMessages
    that fits a datagram arrives at the handler of the receiving transport
    unchanged, with the sender's address. *)
Theorem transport_delivery `{!MessageCodecLaws B} sendto msg addr s data sa s' t src from :
  WriteMessages sendto msg addr s = Ret (Some (data, sa), s') ->
  len data <= 65507 -> wf_transport t -> SockaddrToUDPAddr (Some src) = Some from ->
  readMessages t s [ {| rv_n := len data; rv_data := data; rv_from := Some src; rv_err := None |} ] =
    let! s1 := onMsg msg from s in
    Ret (Continue (set_buffer t (copy (buffer t) data)) s1).
Proof.
  unfold WriteMessages. intros H Hlen Ht Hfrom.
  destruct (MarshalMessage msg) as [d|] eqn:Hm; [|done].
  assert (d = data) as ->.
  { destruct (NetAddrToSockaddr addr); [|done].
    destruct (sendto _ _) as [e|]; [destruct (congestion e); [destruct onCongestion as [f|];
      [destruct (f s)|]|]|]; congruence. }
  cbn [readMessages]. rewrite (readMessage_delivers _ _ _ _ from msg Ht); [|by eapply marshal_nonempty|done
    |by apply unmarshal_marshal|done]. by destruct (onMsg msg from s).
Qed.

End Loop.

(** ** A concrete wire format for the witnesses

    Ping responses in the bencoded form of BEP 5, and IPv4 socket addresses. *)

#[global] Instance KError_eq_dec : EqDecision KError.
Proof. solve_decision. Defined.
#[global] Instance QueryArguments_eq_dec : EqDecision QueryArguments.
Proof. solve_decision. Defined.
#[global] Instance ResponseValues_eq_dec : EqDecision ResponseValues.
Proof. solve_decision. Defined.
#[global] Instance Message_eq_dec : EqDecision Message.
Proof. solve_decision. Defined.

Definition pingMsg (t id : bytes) : Message :=
  {| m_Q := []; m_A := zeroA; m_T := t; m_Y := str "r"; m_E := zeroE;
     m_R := {| r_ID := id; r_Nodes := []; r_Token := []; r_Values := [];
               r_Interval := 0; r_Num := 0; r_Samples := [] |} |}.

Definition ping_wire (id t : bytes) : bytes :=
  str "d1:rd2:id20:" ++ id ++ str "e1:t2:" ++ t ++ str "1:y1:re".

Definition ping_codec : MessageCodec := {|
  MarshalMessage m :=
    let id := r_ID (m_R m) in
    if decide (m = pingMsg (m_T m) id /\ length id = 20%nat /\ length (m_T m) = 2%nat)
    then Some (ping_wire id (m_T m)) else None;
  UnmarshalMessage d :=
    let id := take 20 (drop 12 d) in
    let t := take 2 (drop 38 d) in
    if decide (d = ping_wire id t) then Some (pingMsg t id) else None |}.

#[global] Instance ping_codec_laws : MessageCodecLaws ping_codec.
Proof.
  split; intros m d; simpl; case_decide as E; try done; intros [= <-]; [|done].
  destruct E as (Hm & Hid & Ht). revert Hm Hid Ht.
  generalize (r_ID (m_R m)) (m_T m). intros id t -> Hid Ht.
  assert (take 20 (drop 12 (ping_wire id t)) = id) as Eid.
  { unfold ping_wire. apply take_drop_app_eq; [done|by rewrite Hid]. }
  assert (take 2 (drop 38 (ping_wire id t)) = t) as Et.
  { unfold ping_wire. rewrite !(app_assoc _ _ (t ++ _)).
    apply take_drop_app_eq; [|done]. rewrite !length_app, Hid. reflexivity. }
  rewrite Eid, Et. by rewrite decide_True.
Qed.

Definition inet4_net : SockaddrNet := {|
  Sockaddr := bytes * Z;
  NetAddrToSockaddr a := ip ← To4 (udp_IP a); Some (ip, udp_Port a);
  SockaddrToUDPAddr sa :=
    '(ip, p) ← sa; Some {| udp_IP := ip; udp_Port := p; udp_Zone := [] |} |}.

#[global] Instance inet4_laws : SockaddrLaws inet4_net.
Proof. by split. Qed.

Definition wit_addr : UDPAddr :=
  {| udp_IP := [Byte.x7f; Byte.x00; Byte.x00; Byte.x01]; udp_Port := 6881; udp_Zone := [] |}.
Definition wit_sa : Sockaddr (SockaddrNet := inet4_net) :=
  ([Byte.x7f; Byte.x00; Byte.x00; Byte.x01], 6881).
Definition wit_ping : Message := pingMsg (str "tt") (str "qwertyuopasdfghjklzx").
Definition wit_transport : Transport :=
  {| fd := 3; laddr := wit_addr; t_started := true; buffer := make_bytes (Z.to_nat 65507) |}.

Lemma wit_transport_wf : wf_transport wit_transport.
Proof. apply length_replicate. Qed.

(** A handler that records what it is given. *)
Definition record_msg (m : Message) (a : UDPAddr) (s : list (Message * UDPAddr))
    : go (list (Message * UDPAddr)) := Ret (s ++ [(m, a)]).

Definition wit_recvs : list (recv (N := inet4_net)) :=
  [ {| rv_n := 0; rv_data := []; rv_from := Some wit_sa; rv_err := None |};
    {| rv_n := 47; rv_data := ping_wire (str "qwertyuopasdfghjklzx") (str "tt");
       rv_from := Some wit_sa; rv_err := None |};
    {| rv_n := 2; rv_data := str "de"; rv_from := Some wit_sa; rv_err := None |};
    {| rv_n := -1; rv_data := []; rv_from := None; rv_err := Some (OtherErrno 9) |} ].

Lemma readMessages_correct_witness :
  (let! l := readMessages (B := ping_codec) record_msg None wit_transport [] wit_recvs in
   Ret (loop_state l)) = Ret [(wit_ping, wit_addr)].
Proof.
  rewrite (readMessages_correct (B := ping_codec)); [vm_compute; reflexivity|..].
  - exact wit_transport_wf.
  - repeat constructor; simpl; first [by eexists | reflexivity | discriminate].
  - repeat constructor.
Defined.

Lemma read_congestion_panics_witness :
  readMessage (B := ping_codec) (N := inet4_net) record_msg None wit_transport []
    {| rv_n := -1; rv_data := []; rv_from := None; rv_err := Some ENOBUFS |} = Panic.
Proof.
  apply (read_congestion_panics (B := ping_codec) (N := inet4_net) record_msg None);
    [split; reflexivity|reflexivity|reflexivity].
Defined.

Lemma transport_delivery_witness :
  exists t, readMessages (B := ping_codec) (N := inet4_net) record_msg None wit_transport []
    [ {| rv_n := 47; rv_data := ping_wire (str "qwertyuopasdfghjklzx") (str "tt");
         rv_from := Some wit_sa; rv_err := None |} ] =
    Ret (Continue t [(wit_ping, wit_addr)]).
Proof.
  eexists. apply (transport_delivery (B := ping_codec) (N := inet4_net) record_msg None
    (fun _ _ => None) wit_ping wit_addr [] (ping_wire (str "qwertyuopasdfghjklzx") (str "tt"))
    wit_sa [] wit_transport wit_sa wit_addr);
    [reflexivity|discriminate|exact wit_transport_wf|reflexivity].
Defined.
