(* ===== verification/Protocol.v ===== *)
(** cmd/magneticod/dht/mainline/protocol.go: validation and dispatch of KRPC
    messages, message constructors, and the rotating token secrets. *)

From S2P Require Import Prelude GoLib Sha1 Codec Transport.
From Stdlib Require Import ZArith Lia.
From stdpp Require Import base list.
Local Open Scope Z_scope.
Local Open Scope go_scope.

(** ** Validators *)

Definition validatePingQueryMessage (msg : Message) : bool :=
  len (a_ID (m_A msg)) =? 20.

Definition validateFindNodeQueryMessage (msg : Message) : bool :=
  (len (a_ID (m_A msg)) =? 20) && (len (a_Target (m_A msg)) =? 20).

Definition validateGetPeersQueryMessage (msg : Message) : bool :=
  (len (a_ID (m_A msg)) =? 20) && (len (a_InfoHash (m_A msg)) =? 20).

Definition validateAnnouncePeerQueryMessage (msg : Message) : bool :=
  (len (a_ID (m_A msg)) =? 20) && (len (a_InfoHash (m_A msg)) =? 20) &&
  (0 <? a_Port (m_A msg)) && (0 <? len (a_Token (m_A msg))).

Definition validateSampleInfohashesQueryMessage (msg : Message) : bool :=
  (len (a_ID (m_A msg)) =? 20) && (len (a_Target (m_A msg)) =? 20).

Definition validatePingORannouncePeerResponseMessage (msg : Message) : bool :=
  len (r_ID (m_R msg)) =? 20.

Definition validateFindNodeResponseMessage (msg : Message) : bool :=
  if negb (len (r_ID (m_R msg)) =? 20) then false else true.

Definition validateGetPeersResponseMessage (msg : Message) : bool :=
  (len (r_ID (m_R msg)) =? 20) && (0 <? len (r_Token (m_R msg))).

Definition validateSampleInfohashesResponseMessage (msg : Message) : bool :=
  (len (r_ID (m_R msg)) =? 20) && (0 <=? r_Interval (m_R msg)) &&
  (0 <=? r_Num (m_R msg)) && (Z.rem (len (r_Samples (m_R msg))) 20 =? 0).

(** ** Event handlers and dispatch

    A handler is an optional function; [E] is the effect of calling it. *)

Section Dispatch.
Context {E : Type}.

Abbreviation handler := (option (Message -> UDPAddr -> E)).

Record ProtocolEventHandlers := {
  OnPingQuery : handler;
  OnFindNodeQuery : handler;
  OnGetPeersQuery : handler;
  OnAnnouncePeerQuery : handler;
  OnGetPeersResponse : handler;
  OnFindNodeResponse : handler;
  OnPingORAnnouncePeerResponse : handler;
  OnSampleInfohashesQuery : handler;
  OnSampleInfohashesResponse : handler;
  OnCongestion : option E }.

(** The effect of the handler that is called, if one is. *)
Definition onMessage (eh : ProtocolEventHandlers) (msg : Message) (addr : UDPAddr) : option E :=
  let call (h : handler) := match h with Some f => Some (f msg addr) | None => None end in
  if decide (m_Y msg = str "q") then
    if decide (m_Q msg = str "ping") then
      if negb (validatePingQueryMessage msg) then None else call (OnPingQuery eh)
    else if decide (m_Q msg = str "find_node") then
      if negb (validateFindNodeQueryMessage msg) then None else call (OnFindNodeQuery eh)
    else if decide (m_Q msg = str "get_peers") then
      if negb (validateGetPeersQueryMessage msg) then None else call (OnGetPeersQuery eh)
    else if decide (m_Q msg = str "announce_peer") then
      if negb (validateAnnouncePeerQueryMessage msg) then None else call (OnAnnouncePeerQuery eh)
    else if decide (m_Q msg = str "vote") then None
    else if decide (m_Q msg = str "sample_infohashes") then
      if negb (validateSampleInfohashesQueryMessage msg) then None
      else call (OnSampleInfohashesQuery eh)
    else None
  else if decide (m_Y msg = str "r") then
    if negb (len (r_Samples (m_R msg)) =? 0) then
      if negb (validateSampleInfohashesResponseMessage msg) then None
      else call (OnSampleInfohashesResponse eh)
    else if negb (len (r_Token (m_R msg)) =? 0) then
      if negb (validateGetPeersResponseMessage msg) then None else call (OnGetPeersResponse eh)
    else if negb (len (r_Nodes (m_R msg)) =? 0) then
      if negb (validateFindNodeResponseMessage msg) then None else call (OnFindNodeResponse eh)
    else
      if negb (validatePingORannouncePeerResponseMessage msg) then None
      else call (OnPingORAnnouncePeerResponse eh)
  else None.
End Dispatch.
Arguments ProtocolEventHandlers E : clear implicits.

(** ** Message constructors *)

Definition newQuery (t q : bytes) (a : QueryArguments) : Message :=
  {| m_Q := q; m_A := a; m_T := t; m_Y := str "q"; m_R := zeroR; m_E := zeroE |}.

Definition newResponse (t : bytes) (r : ResponseValues) : Message :=
  {| m_Q := []; m_A := zeroA; m_T := t; m_Y := str "r"; m_R := r; m_E := zeroE |}.

Definition NewPingQuery (id : bytes) : go Message := Panic.

Definition NewFindNodeQuery (id target : bytes) : Message :=
  newQuery (str "aa") (str "find_node")
    {| a_ID := id; a_InfoHash := []; a_Target := target; a_Token := []; a_Port := 0;
       a_ImpliedPort := 0; a_Seed := 0; a_NoSeed := 0; a_Scrape := 0 |}.

Definition NewGetPeersQuery (id infoHash : bytes) : Message :=
  newQuery (str "aa") (str "get_peers")
    {| a_ID := id; a_InfoHash := infoHash; a_Target := []; a_Token := []; a_Port := 0;
       a_ImpliedPort := 0; a_Seed := 0; a_NoSeed := 0; a_Scrape := 0 |}.

Definition NewAnnouncePeerQuery (id : bytes) (implied_port : bool) (info_hash : bytes)
    (port : Z) (token : bytes) : go Message := Panic.

Definition NewSampleInfohashesQuery (id t target : bytes) : Message :=
  newQuery t (str "sample_infohashes")
    {| a_ID := id; a_InfoHash := []; a_Target := target; a_Token := []; a_Port := 0;
       a_ImpliedPort := 0; a_Seed := 0; a_NoSeed := 0; a_Scrape := 0 |}.

Definition NewPingResponse (t id : bytes) : Message :=
  newResponse t {| r_ID := id; r_Nodes := []; r_Token := []; r_Values := [];
                   r_Interval := 0; r_Num := 0; r_Samples := [] |}.

Definition NewFindNodeResponse (t id : bytes) (nodes : list CompactNodeInfo) : go Message := Panic.

Definition NewGetPeersResponseWithValues (t id token : bytes) (values : list CompactPeer)
    : go Message := Panic.

Definition NewGetPeersResponseWithNodes (t id token : bytes) (nodes : list CompactNodeInfo) : Message :=
  newResponse t {| r_ID := id; r_Nodes := nodes; r_Token := token; r_Values := [];
                   r_Interval := 0; r_Num := 0; r_Samples := [] |}.

Definition NewAnnouncePeerResponse (t id : bytes) : Message := NewPingResponse t id.

(** ** Protocol state: token secrets, transport and the started flag

    The event handlers are fixed at construction; the dispatch above models
    them. *)

Record Protocol := {
  previousTokenSecret : bytes;
  currentTokenSecret : bytes;
  transport : Transport;
  started : bool }.

(** [resolved] is the local address as net.ResolveUDPAddr returns it, [rand]
    what rand.Read delivers: bytes, or an error, which is fatal. *)
Definition NewProtocol (resolved : option UDPAddr) (rand : option bytes) : go Protocol :=
  let! t := NewTransport resolved in
  match rand with
  | None => Panic
  | Some r =>
      let cur := copy (make_bytes 20) r in
      Ret {| previousTokenSecret := copy (make_bytes 20) cur; currentTokenSecret := cur;
             transport := t; started := false |}
  end.

Definition Start (p : Protocol) (socket : option Z) (bind : Z -> bytes -> Z -> bool) : go Protocol :=
  if started p then Panic
  else
    let! t := Transport_Start (transport p) socket bind in
    Ret {| previousTokenSecret := previousTokenSecret p;
           currentTokenSecret := currentTokenSecret p; transport := t; started := true |}.

(** The descriptor that is closed. *)
Definition Terminate (p : Protocol) : go Z :=
  if negb (started p) then Panic else Ret (Transport_Terminate (transport p)).

(** [append] never writes into the secret: its capacity is its length. *)
Definition CalculateToken (p : Protocol) (address : bytes) : bytes :=
  sha1_sum (currentTokenSecret p ++ address).

Definition VerifyToken (p : Protocol) (address token : bytes) : go bool := Panic.

(** One tick of [updateTokenSecret]. *)
Definition updateTokenSecret (p : Protocol) (rand : option bytes) : go Protocol :=
  let prev := copy (previousTokenSecret p) (currentTokenSecret p) in
  match rand with
  | None => Panic
  | Some r =>
      Ret {| previousTokenSecret := prev; currentTokenSecret := copy (currentTokenSecret p) r;
             transport := transport p; started := started p |}
  end.

(** ** Specification of the dispatch *)

Inductive kind : Type :=
  | PingQ | FindNodeQ | GetPeersQ | AnnouncePeerQ | SampleQ
  | SampleR | GetPeersR | FindNodeR | PingR.

Definition handler_of {E} (k : kind) (eh : ProtocolEventHandlers E)
    : option (Message -> UDPAddr -> E) :=
  match k with
  | PingQ => OnPingQuery eh | FindNodeQ => OnFindNodeQuery eh | GetPeersQ => OnGetPeersQuery eh
  | AnnouncePeerQ => OnAnnouncePeerQuery eh | SampleQ => OnSampleInfohashesQuery eh
  | SampleR => OnSampleInfohashesResponse eh | GetPeersR => OnGetPeersResponse eh
  | FindNodeR => OnFindNodeResponse eh | PingR => OnPingORAnnouncePeerResponse eh
  end.

Definition query (q : String.string) (msg : Message) : Prop :=
  m_Y msg = str "q" /\ m_Q msg = str q /\ length (a_ID (m_A msg)) = 20%nat.
Arguments query q%_string_scope msg.

Definition response (msg : Message) : Prop :=
  m_Y msg = str "r" /\ length (r_ID (m_R msg)) = 20%nat.

(** What a handler of each kind may assume of its message. Responses carry no
    method name: their kind is read off the fields, in the order samples,
    token, nodes. *)
Definition guarantee (k : kind) (msg : Message) : Prop :=
  let a := m_A msg in let r := m_R msg in
  match k with
  | PingQ => query "ping" msg
  | FindNodeQ => query "find_node" msg /\ length (a_Target a) = 20%nat
  | GetPeersQ => query "get_peers" msg /\ length (a_InfoHash a) = 20%nat
  | AnnouncePeerQ => query "announce_peer" msg /\ length (a_InfoHash a) = 20%nat /\
                     0 < a_Port a /\ a_Token a <> []
  | SampleQ => query "sample_infohashes" msg /\ length (a_Target a) = 20%nat
  | SampleR => response msg /\ r_Samples r <> [] /\ (length (r_Samples r) mod 20 = 0)%nat /\
               0 <= r_Interval r /\ 0 <= r_Num r
  | GetPeersR => response msg /\ r_Samples r = [] /\ r_Token r <> []
  | FindNodeR => response msg /\ r_Samples r = [] /\ r_Token r = [] /\ r_Nodes r <> []
  | PingR => response msg /\ r_Samples r = [] /\ r_Token r = [] /\ r_Nodes r = []
  end.

Lemma len_eqb_nat {A} (l : list A) (n : nat) :
  (len l =? Z.of_nat n) = bool_decide (length l = n).
Proof. unfold len. case_bool_decide; [subst; apply Z.eqb_refl|]. apply Z.eqb_neq. lia. Qed.

Lemma len_eqb_20 {A} (l : list A) : (len l =? 20) = bool_decide (length l = 20%nat).
Proof. apply (len_eqb_nat l 20). Qed.

Lemma len_eqb_0 {A} (l : list A) : (len l =? 0) = bool_decide (l = []).
Proof. apply Bool.eq_iff_eq_true. rewrite Z.eqb_eq, bool_decide_eq_true. apply len_nil_iff. Qed.

Lemma len_pos {A} (l : list A) : (0 <? len l) = bool_decide (l <> []).
Proof.
  apply Bool.eq_iff_eq_true. rewrite Z.ltb_lt, bool_decide_eq_true.
  rewrite <- len_nil_iff. pose proof (len_nonneg l). lia.
Qed.

Lemma len_rem_20 {A} (l : list A) :
  (Z.rem (len l) 20 =? 0) = bool_decide (length l mod 20 = 0)%nat.
Proof.
  apply Bool.eq_iff_eq_true. rewrite Z.eqb_eq, bool_decide_eq_true. unfold len.
  rewrite Z.rem_mod_nonneg by lia.
  change 20 with (Z.of_nat 20). rewrite <- Nat2Z.inj_mod. lia.
Qed.

#[global] Hint Rewrite @len_eqb_20 @len_eqb_0 @len_pos @len_rem_20 : go.

(** Every message that satisfies the guarantee of a kind reaches the handler
    of that kind, and no other message reaches a handler. *)
Lemma onMessage_complete {E} (eh : ProtocolEventHandlers E) k msg addr :
  guarantee k msg ->
  onMessage eh msg addr = match handler_of k eh with Some f => Some (f msg addr) | None => None end.
Proof.
  unfold onMessage, validatePingQueryMessage, validateFindNodeQueryMessage,
    validateGetPeersQueryMessage, validateAnnouncePeerQueryMessage,
    validateSampleInfohashesQueryMessage, validateSampleInfohashesResponseMessage,
    validateGetPeersResponseMessage, validateFindNodeResponseMessage,
    validatePingORannouncePeerResponseMessage.
  autorewrite with go.
  destruct k; unfold guarantee, query, response; intros; destruct_and!;
    repeat match goal with H : _ = str _ |- _ => rewrite H; clear H end;
    repeat (first [rewrite decide_True by done | rewrite decide_False by done]);
    repeat match goal with
    | H : length _ = 20%nat |- _ => rewrite H; clear H
    | H : ?l = [] |- _ => rewrite H; clear H
    end;
    repeat match goal with
    | H : 0 < ?x |- _ => rewrite (proj2 (Z.ltb_lt 0 x) H); clear H
    | H : 0 <= ?x |- _ => rewrite (proj2 (Z.leb_le 0 x) H); clear H
    end;
    repeat case_bool_decide; done.
Qed.

Lemma onMessage_sound {E} (eh : ProtocolEventHandlers E) msg addr e :
  onMessage eh msg addr = Some e ->
  exists k f, guarantee k msg /\ handler_of k eh = Some f /\ e = f msg addr.
Proof.
  unfold onMessage, validatePingQueryMessage, validateFindNodeQueryMessage,
    validateGetPeersQueryMessage, validateAnnouncePeerQueryMessage,
    validateSampleInfohashesQueryMessage, validateSampleInfohashesResponseMessage,
    validateGetPeersResponseMessage, validateFindNodeResponseMessage,
    validatePingORannouncePeerResponseMessage.
  autorewrite with go.
  intros H; repeat (case_match; try discriminate H);
    rewrite ?negb_true_iff, ?negb_false_iff in *; destruct_and?;
    repeat match goal with
    | H : _ && _ = true |- _ => apply andb_true_iff in H as [? ?]
    | H : bool_decide _ = true |- _ => apply bool_decide_eq_true in H
    | H : bool_decide _ = false |- _ => apply bool_decide_eq_false in H
    end; simplify_eq;
    [exists PingQ|exists FindNodeQ|exists GetPeersQ|exists AnnouncePeerQ|exists SampleQ
    |exists SampleR|exists GetPeersR|exists FindNodeR|exists PingR];
    eexists; (split; [|by split]); unfold guarantee, query, response; split_and!; (done || lia).
Qed.

(** ** Properties *)

(** C25. Dispatch: a handler runs exactly when the message satisfies the
    guarantee of its kind (method, 20-byte ids and targets, announced port and
    token, sample lengths, and for responses the priority samples, token,
    nodes) and the handler is registered; the effect is that handler applied
    to the message. *)
Theorem onMessage_dispatch {E} (eh : ProtocolEventHandlers E) (msg : Message) (addr : UDPAddr) (e : E) :
  onMessage eh msg addr = Some e <->
  exists k f, guarantee k msg /\ handler_of k eh = Some f /\ e = f msg addr.
Proof.
  split; [apply onMessage_sound|]. intros (k & f & Hk & Hf & ->).
  by rewrite (onMessage_complete eh k), Hf.
Qed.

(** The messages the constructors build are accepted by the dispatcher of
    another node as the kind they are meant to be, for 20-byte ids, targets
    and info hashes and a non-empty token. *)
Theorem constructors_accepted (id target infoHash t token : bytes) (nodes : list CompactNodeInfo) :
  length id = 20%nat -> length target = 20%nat -> length infoHash = 20%nat -> token <> [] ->
  guarantee FindNodeQ (NewFindNodeQuery id target) /\
  guarantee GetPeersQ (NewGetPeersQuery id infoHash) /\
  guarantee SampleQ (NewSampleInfohashesQuery id t target) /\
  guarantee PingR (NewPingResponse t id) /\
  guarantee PingR (NewAnnouncePeerResponse t id) /\
  guarantee GetPeersR (NewGetPeersResponseWithNodes t id token nodes).
Proof. intros. unfold guarantee, query, response. simpl. auto 20. Qed.

Lemma constructors_accepted_witness :
  guarantee FindNodeQ (NewFindNodeQuery (str "qwertyuopasdfghjklzx") (str "xzlkjhgfdsapouytrewq")) /\
  guarantee GetPeersR
    (NewGetPeersResponseWithNodes (str "tt") (str "qwertyuopasdfghjklzx") (str "token") []).
Proof.
  destruct (constructors_accepted (str "qwertyuopasdfghjklzx") (str "xzlkjhgfdsapouytrewq")
    (str "mnopqrstuvwxyz123456") (str "tt") (str "token") []
    eq_refl eq_refl eq_refl ltac:(discriminate)) as (H1 & _ & _ & _ & _ & H2).
  split; [exact H1|exact H2].
Defined.

(** Both secrets are 20 bytes long. *)
Definition wf_protocol (p : Protocol) : Prop :=
  length (previousTokenSecret p) = 20%nat /\ length (currentTokenSecret p) = 20%nat.

(** Token secrets: construction and every rotation keep both secrets at
    20 bytes; a rotation remembers the outgoing secret, so a token handed out
    before it is the SHA-1 of the previous secret and the address after it;
    tokens are always 20 bytes. *)
Theorem token_rotation (p p' : Protocol) (r : bytes) (address : bytes) :
  wf_protocol p -> updateTokenSecret p (Some r) = Ret p' ->
  wf_protocol p' /\ started p' = started p /\ transport p' = transport p /\
  previousTokenSecret p' = currentTokenSecret p /\
  CalculateToken p address = sha1_sum (previousTokenSecret p' ++ address) /\
  length (CalculateToken p address) = 20%nat.
Proof.
  intros [Hp Hc] H. injection H as <-. simpl.
  rewrite (copy_full (previousTokenSecret p)) by congruence.
  split_and!; try done. split; simpl; [done|by rewrite copy_length].
Qed.

Lemma token_rotation_witness :
  exists p p', NewProtocol (Some wit_addr) (Some (str "abcdefghijklmnopqrst")) = Ret p /\
  updateTokenSecret p (Some (str "ABCDEFGHIJKLMNOPQRST")) = Ret p' /\
  CalculateToken p (str "axje") = sha1_sum (previousTokenSecret p' ++ str "axje").
Proof.
  eexists _, _. split; [reflexivity|]. split; [reflexivity|].
  edestruct token_rotation as (_ & _ & _ & _ & H & _); [..|exact H]; [|reflexivity].
  split; reflexivity.
Defined.
