(* ===== verification/IndexingService.v ===== *)
(** cmd/magneticod/dht/mainline/indexingService.go: the DHT crawler. The
    routing table maps node ids to pointers, so the model keeps the pointed-to
    variables in a heap; the goroutine that sends queries and the one that
    handles responses are interleaved by a step relation. *)

From S2P Require Import Prelude GoLib Codec Transport Protocol.
From Stdlib Require Import ZArith Lia Permutation.
From stdpp Require Import base list gmap.
Local Open Scope Z_scope.
Local Open Scope go_scope.

Lemma size_list_to_set_le `{Countable A} (l : list A) :
  (size (list_to_set l : gset A) <= length l)%nat.
Proof.
  induction l as [|x l IH]; [apply Nat.eq_le_incl, size_empty|]. cbn [list_to_set length].
  rewrite size_union_alt, size_singleton. apply le_n_S.
  etransitivity; [|exact IH]. apply subseteq_size, subseteq_difference_l. done.
Qed.

Record TCPAddr := { tcp_IP : bytes; tcp_Port : Z }.

Record IndexingResult := { infoHash : bytes; peerAddrs : list TCPAddr }.

(** What the service does to its surroundings: packets handed to the transport
    and results handed to the OnResult handler. *)
Inductive action : Type :=
  | Send (msg : Message) (addr : UDPAddr)
  | OnResult (r : IndexingResult).

(** [interval] is a number of nanoseconds, [heap] holds the variables whose
    addresses the routing table stores, [nrand] counts the reads of the random source, [out] is the log of
    actions. *)
Record IndexingService := {
  protocol : Protocol;
  is_started : bool;
  interval : Z;
  nodeID : bytes;
  heap : list UDPAddr;
  routingTable : gmap bytes nat;
  maxNeighbors : Z;
  counter : Z;
  getPeersRequests : gmap bytes bytes;
  nrand : nat;
  out : list action }.

(** The service around a fresh protocol. *)
Definition newService (p : Protocol) (ivl max : Z) : IndexingService :=
  {| protocol := p; is_started := false; interval := ivl; nodeID := make_bytes 20; heap := [];
     routingTable := ∅; maxNeighbors := max; counter := 0; getPeersRequests := ∅; nrand := 0;
     out := [] |}.

Definition NewIndexingService (resolved : option UDPAddr) (secret : option bytes) (ivl max : Z)
    : go IndexingService :=
  let! p := NewProtocol resolved secret in Ret (newService p ivl max).

Definition set_heap (h : list UDPAddr) (s : IndexingService) : IndexingService :=
  {| protocol := protocol s; is_started := is_started s; interval := interval s; nodeID := nodeID s; heap := h;
     routingTable := routingTable s; maxNeighbors := maxNeighbors s; counter := counter s;
     getPeersRequests := getPeersRequests s; nrand := nrand s; out := out s |}.
Definition set_table (rt : gmap bytes nat) (s : IndexingService) : IndexingService :=
  {| protocol := protocol s; is_started := is_started s; interval := interval s; nodeID := nodeID s; heap := heap s;
     routingTable := rt; maxNeighbors := maxNeighbors s; counter := counter s;
     getPeersRequests := getPeersRequests s; nrand := nrand s; out := out s |}.
Definition set_requests (c : Z) (g : gmap bytes bytes) (s : IndexingService) : IndexingService :=
  {| protocol := protocol s; is_started := is_started s; interval := interval s; nodeID := nodeID s; heap := heap s;
     routingTable := routingTable s; maxNeighbors := maxNeighbors s; counter := c;
     getPeersRequests := g; nrand := nrand s; out := out s |}.
Definition set_out (o : list action) (s : IndexingService) : IndexingService :=
  {| protocol := protocol s; is_started := is_started s; interval := interval s; nodeID := nodeID s; heap := heap s;
     routingTable := routingTable s; maxNeighbors := maxNeighbors s; counter := counter s;
     getPeersRequests := getPeersRequests s; nrand := nrand s; out := o |}.
Definition act (a : action) (s : IndexingService) : IndexingService := set_out (out s ++ [a]) s.
Definition drawn (s : IndexingService) : IndexingService :=
  {| protocol := protocol s; is_started := is_started s; interval := interval s; nodeID := nodeID s; heap := heap s;
     routingTable := routingTable s; maxNeighbors := maxNeighbors s; counter := counter s;
     getPeersRequests := getPeersRequests s; nrand := S (nrand s); out := out s |}.

Definition IndexingService_Start (s : IndexingService) (socket : option Z)
    (bind : Z -> bytes -> Z -> bool) : go IndexingService :=
  if is_started s then Panic
  else
    let! p := Start (protocol s) socket bind in
    Ret {| protocol := p; is_started := true; interval := interval s; nodeID := nodeID s; heap := heap s;
           routingTable := routingTable s; maxNeighbors := maxNeighbors s;
           counter := counter s; getPeersRequests := getPeersRequests s;
           nrand := nrand s; out := out s |}.

Definition IndexingService_Terminate (s : IndexingService) : go Z := Terminate (protocol s).

(** Protocol.SendMessage *)
Definition SendMessage (msg : Message) (addr : UDPAddr) (s : IndexingService) : IndexingService :=
  act (Send msg addr) s.

Definition uint16BE (v : Z) : bytes := [byte_of (Z.shiftr v 8); byte_of v].

Definition zeroUDP : UDPAddr := {| udp_IP := []; udp_Port := 0; udp_Zone := [] |}.

(** ** What a step of a service leaves alone

    The protocol, with its socket, and the interval stay; the log of actions
    grows. *)

Definition extends (s s' : IndexingService) : Prop :=
  protocol s' = protocol s /\ interval s' = interval s /\ out s `prefix_of` out s'.

#[global] Instance extends_preorder : PreOrder extends.
Proof.
  split; [by intros s|]. intros s1 s2 s3 (H1 & H2 & H3) (H4 & H5 & H6).
  split_and!; [congruence..|by etrans].
Qed.

Lemma extends_same s s' :
  protocol s' = protocol s -> interval s' = interval s -> out s' = out s -> extends s s'.
Proof. intros H I E. split_and!; [done..|]. by rewrite E. Qed.

Lemma extends_act a s : extends s (act a s).
Proof. split_and!; [done..|]. by exists [a]. Qed.

Section Service.
(** The outcomes of successive reads of the random source, and of
    net.ResolveUDPAddr. *)
Variable rand : nat -> option bytes.
Variable resolve : bytes -> option UDPAddr.

(** [rand.Read(dst)]: the new contents of [dst]; an error is a panic. *)
Definition randRead (dst : bytes) (s : IndexingService) : go (bytes * IndexingService) :=
  match rand (nrand s) with
  | None => Panic
  | Some r => Ret (copy dst r, drawn s)
  end.

Definition bootstrappingNodes : list bytes :=
  [str "router.bittorrent.com:6881"; str "dht.transmissionbt.com:6881";
   str "dht.libtorrent.org:25401"].

Fixpoint bootstrap_loop (nodes : list bytes) (s : IndexingService) : go IndexingService :=
  match nodes with
  | [] => Ret s
  | node :: nodes =>
      let! (target, s) := randRead (make_bytes 20) s in
      match resolve node with
      | None => bootstrap_loop nodes s
      | Some addr =>
          bootstrap_loop nodes (SendMessage (NewFindNodeQuery (nodeID s) target) addr s)
      end
  end.

Definition bootstrap : IndexingService -> go IndexingService := bootstrap_loop bootstrappingNodes.

(** One iteration of the sending loop of findNeighbors: [target] is shared by
    all iterations, [addr] is a pointer. *)
Definition findNeighbors_send (addr : nat) (target : bytes) (s : IndexingService)
    : go (bytes * IndexingService) :=
  let! (target, s) := randRead target s in
  match heap s !! addr with
  | None => Panic
  | Some a =>
      Ret (target, SendMessage (NewSampleInfohashesQuery (nodeID s) (str "aa") target) a s)
  end.

(** [range] over a Go map delivers the values in an unspecified order. *)
Definition snapshot (s : IndexingService) (addressesToSend : list nat) : Prop :=
  Permutation addressesToSend (map snd (map_to_list (routingTable s))).

(** The loop of onFindNodeResponse: [node] is one variable for the whole loop
    (go.mod asks for Go 1.15), [cell] its place in the heap. *)
Fixpoint findNode_loop (cell : nat) (nodes : list CompactNodeInfo) (s : IndexingService)
    : go IndexingService :=
  match nodes with
  | [] => Ret s
  | node :: nodes =>
      let s := set_heap (<[cell := cni_Addr node]> (heap s)) s in
      if maxNeighbors s <=? Z.of_nat (size (routingTable s)) then Ret s
      else if udp_Port (cni_Addr node) =? 0 then findNode_loop cell nodes s
      else
        let s := set_table (<[cni_ID node := cell]> (routingTable s)) s in
        let! (target, s) := randRead (make_bytes 20) s in
        match heap s !! cell with
        | None => Panic
        | Some a =>
            findNode_loop cell nodes
              (SendMessage (NewSampleInfohashesQuery (nodeID s) (str "aa") target) a s)
        end
  end.

Definition onFindNodeResponse (response : Message) (addr : UDPAddr) (s : IndexingService)
    : go IndexingService :=
  findNode_loop (length (heap s)) (r_Nodes (m_R response)) (set_heap (heap s ++ [zeroUDP]) s).

Fixpoint values_loop (peerAddrs : list TCPAddr) (values : list CompactPeer) : list TCPAddr :=
  match values with
  | [] => peerAddrs
  | peer :: values =>
      if cp_Port peer =? 0 then values_loop peerAddrs values
      else values_loop (peerAddrs ++ [ {| tcp_IP := cp_IP peer; tcp_Port := cp_Port peer |} ]) values
  end.

Definition onGetPeersResponse (msg : Message) (addr : UDPAddr) (s : IndexingService)
    : go IndexingService :=
  let t := copy (make_bytes 2) (m_T msg) in
  let infoHash := default (make_bytes 20) (getPeersRequests s !! t) in
  let s := set_requests (counter s) (delete t (getPeersRequests s)) s in
  if len (r_Values (m_R msg)) =? 0 then Ret s
  else Ret (act (OnResult {| infoHash := infoHash;
                             peerAddrs := values_loop [] (r_Values (m_R msg)) |}) s).

(** The query of iteration [i]. *)
Definition with_T (msg : Message) (t : bytes) : Message :=
  {| m_Q := m_Q msg; m_A := m_A msg; m_T := t; m_Y := m_Y msg; m_R := m_R msg; m_E := m_E msg |}.

(** [fuel] is the number of iterations left, len(Samples)/20 at the start. *)
Fixpoint samples_loop (samples : bytes) (addr : UDPAddr) (fuel i : nat) (s : IndexingService)
    : go IndexingService :=
  match fuel with
  | O => Ret s
  | S fuel =>
      let! sl := slice samples (Z.of_nat i) ((Z.of_nat i + 1) * 20) in
      let infoHash := copy (make_bytes 20) sl in
      let t := uint16BE (counter s) in
      let s := SendMessage (with_T (NewGetPeersQuery (nodeID s) infoHash) t) addr s in
      samples_loop samples addr fuel (S i)
        (set_requests (to_u16 (counter s + 1)) (<[t := infoHash]> (getPeersRequests s)) s)
  end.

Fixpoint iterate_loop (cell : nat) (nodes : list CompactNodeInfo) (s : IndexingService)
    : go IndexingService :=
  match nodes with
  | [] => Ret s
  | node :: nodes =>
      let s := set_heap (<[cell := cni_Addr node]> (heap s)) s in
      if maxNeighbors s <=? Z.of_nat (size (routingTable s)) then Ret s
      else if udp_Port (cni_Addr node) =? 0 then iterate_loop cell nodes s
      else iterate_loop cell nodes (set_table (<[cni_ID node := cell]> (routingTable s)) s)
  end.

Definition onSampleInfohashesResponse (msg : Message) (addr : UDPAddr) (s : IndexingService)
    : go IndexingService :=
  let samples := r_Samples (m_R msg) in
  let! s := samples_loop samples addr (length samples / 20) 0 s in
  iterate_loop (length (heap s)) (r_Nodes (m_R msg)) (set_heap (heap s ++ [zeroUDP]) s).

(** The handlers NewIndexingService registers with the protocol. *)
Definition serviceHandlers : ProtocolEventHandlers (IndexingService -> go IndexingService) := {|
  OnPingQuery := None; OnFindNodeQuery := None; OnGetPeersQuery := None;
  OnAnnouncePeerQuery := None; OnGetPeersResponse := Some onGetPeersResponse;
  OnFindNodeResponse := Some onFindNodeResponse; OnPingORAnnouncePeerResponse := None;
  OnSampleInfohashesQuery := None;
  OnSampleInfohashesResponse := Some onSampleInfohashesResponse; OnCongestion := None |}.

(** A message the transport delivers. *)
Definition receive (msg : Message) (addr : UDPAddr) (s : IndexingService) : go IndexingService :=
  match onMessage serviceHandlers msg addr with Some f => f s | None => Ret s end.

(** ** The two goroutines

    [index] ticks, reads the size of the table, and either bootstraps or takes
    a snapshot of the pointers, sends to each, and clears the table; between
    any two of these a message may be handled. time.Tick returns a nil channel
    for an interval that is not positive, and ranging over it blocks forever. *)

Inductive phase : Type :=
  | Waiting
  | Snapshot
  | Sending (addressesToSend : list nat) (target : bytes)
  | Clearing.

Inductive index_step : IndexingService * phase -> IndexingService * phase -> Prop :=
  | tick_bootstrap s s' :
      0 < interval s -> size (routingTable s) = 0%nat -> bootstrap s = Ret s' ->
      index_step (s, Waiting) (s', Waiting)
  | tick_find s :
      0 < interval s -> size (routingTable s) <> 0%nat -> index_step (s, Waiting) (s, Snapshot)
  | take_snapshot s ps :
      snapshot s ps -> index_step (s, Snapshot) (s, Sending ps (make_bytes 20))
  | send_next s s' p ps target target' :
      findNeighbors_send p target s = Ret (target', s') ->
      index_step (s, Sending (p :: ps) target) (s', Sending ps target')
  | sent_all s target :
      index_step (s, Sending [] target) (s, Clearing)
  | clear s :
      index_step (s, Clearing) (set_table ∅ s, Waiting).

Inductive step : IndexingService * phase -> IndexingService * phase -> Prop :=
  | index st st' : index_step st st' -> step st st'
  | handle s s' ph msg addr : receive msg addr s = Ret s' -> step (s, ph) (s', ph).

Definition reachable (p : Protocol) (ivl max : Z) : IndexingService * phase -> Prop :=
  rtc step (newService p ivl max, Waiting).

Lemma randRead_extends dst s x s' : randRead dst s = Ret (x, s') -> extends s s'.
Proof. unfold randRead. case_match; [|done]. intros [= _ <-]. by apply extends_same. Qed.

Lemma bootstrap_extends nodes s s' : bootstrap_loop nodes s = Ret s' -> extends s s'.
Proof.
  revert s. induction nodes as [|node nodes IH]; cbn [bootstrap_loop]; intros s; [by intros [= <-]|].
  destruct (randRead _ s) as [[x s1]|] eqn:Er; [|done]. apply randRead_extends in Er. simpl.
  destruct (resolve node); intros H%IH; [|by etrans].
  etrans; [done|]. etrans; [|done]. apply extends_act.
Qed.

Lemma findNeighbors_send_extends p target s target' s' :
  findNeighbors_send p target s = Ret (target', s') -> extends s s'.
Proof.
  unfold findNeighbors_send. destruct (randRead _ s) as [[x s1]|] eqn:Er; [|done].
  apply randRead_extends in Er. simpl. case_match; [|done]. intros [= _ <-].
  etrans; [done|]. apply extends_act.
Qed.

Lemma findNode_loop_extends cell nodes s s' : findNode_loop cell nodes s = Ret s' -> extends s s'.
Proof.
  revert s. induction nodes as [|node nodes IH]; cbn [findNode_loop]; intros s; [by intros [= <-]|].
  set (s1 := set_heap _ s). assert (extends s s1) as H1 by (by apply extends_same).
  destruct (_ <=? _); [by intros [= <-]|]. destruct (_ =? 0); [intros H%IH; by etrans|].
  set (s2 := set_table _ s1). assert (extends s s2) as H2 by (by apply extends_same).
  destruct (randRead _ s2) as [[x s3]|] eqn:Er; [|done]. apply randRead_extends in Er. simpl.
  destruct (heap s3 !! cell); [|done]. intros H%IH. etrans; [exact H2|]. etrans; [exact Er|].
  etrans; [apply extends_act|exact H].
Qed.

Lemma iterate_loop_extends cell nodes s s' : iterate_loop cell nodes s = Ret s' -> extends s s'.
Proof.
  revert s. induction nodes as [|node nodes IH]; cbn [iterate_loop]; intros s; [by intros [= <-]|].
  set (s1 := set_heap _ s). assert (extends s s1) as H1 by (by apply extends_same).
  destruct (_ <=? _); [by intros [= <-]|]. destruct (_ =? 0); intros H%IH; by etrans.
Qed.

Lemma samples_loop_extends samples addr fuel i s s' :
  samples_loop samples addr fuel i s = Ret s' -> extends s s'.
Proof.
  revert i s. induction fuel as [|fuel IH]; cbn [samples_loop]; intros i s; [by intros [= <-]|].
  destruct (slice _ _ _) as [sl|]; [|done]. simpl. intros H%IH.
  etrans; [apply extends_act|]. etrans; [|exact H]. by apply extends_same.
Qed.

Lemma receive_extends msg addr s s' : receive msg addr s = Ret s' -> extends s s'.
Proof.
  unfold receive. destruct (onMessage _ _ _) as [f|] eqn:E; [|by intros [= <-]].
  apply onMessage_sound in E as (k & g & _ & Hg & ->). destruct k; simpl in Hg; simplify_eq.
  - unfold onSampleInfohashesResponse. destruct (samples_loop _ _ _ _ s) as [s1|] eqn:E; [|done].
    apply samples_loop_extends in E. simpl. intros H%iterate_loop_extends.
    etrans; [exact E|]. etrans; [|exact H]. by apply extends_same.
  - unfold onGetPeersResponse. case_match; intros [= <-]; [by apply extends_same|].
    etrans; [|apply extends_act]. by apply extends_same.
  - unfold onFindNodeResponse. intros H%findNode_loop_extends. etrans; [|exact H].
    by apply extends_same.
Qed.

Lemma index_step_extends st st' : index_step st st' -> extends st.1 st'.1.
Proof.
  intros []; simpl; try done; first [by apply extends_same|idtac].
  - eapply bootstrap_extends. eassumption.
  - eapply findNeighbors_send_extends. eassumption.
Qed.

Lemma reachable_interval p ivl max st : reachable p ivl max st -> interval st.1 = ivl.
Proof.
  intros H. apply (rtc_ind_r (R := step) (fun st => interval st.1 = ivl) (newService p ivl max, Waiting));
    [done| |exact H].
  intros y z _ [? ? Hi|s s' ph msg addr Hr]; simpl.
  - by destruct (index_step_extends _ _ Hi) as (_ & -> & _).
  - by destruct (receive_extends _ _ _ _ Hr) as (_ & -> & _).
Qed.

(** ** Invariant *)

(** Every query is one that a node following the protocol accepts; results
    have a full info hash and no peer with port 0. *)
Definition action_ok (a : action) : Prop :=
  match a with
  | Send msg _ => guarantee FindNodeQ msg \/ guarantee SampleQ msg \/ guarantee GetPeersQ msg
  | OnResult r => length (infoHash r) = 20%nat /\ Forall (fun p => tcp_Port p <> 0) (peerAddrs r)
  end.

Record inv (max : Z) (s : IndexingService) : Prop := {
  inv_id : length (nodeID s) = 20%nat;
  inv_max : maxNeighbors s = max;
  inv_size : Z.of_nat (size (routingTable s)) <= max;
  inv_ptr : map_Forall (fun _ c => (c < length (heap s))%nat) (routingTable s);
  inv_counter : 0 <= counter s < 65536;
  inv_requests : map_Forall (fun t h => (exists v, 0 <= v < 65536 /\ t = uint16BE v) /\
                                        length h = 20%nat) (getPeersRequests s);
  inv_out : Forall action_ok (out s) }.

Definition sys_inv (max : Z) (st : IndexingService * phase) : Prop :=
  inv max (fst st) /\
  match snd st with
  | Sending ps target => Forall (fun c => (c < length (heap (fst st)))%nat) ps /\
                         length target = 20%nat
  | _ => True
  end.

(** The result of an operation: it returns, keeps the invariant, and never
    frees a variable. *)
Definition safe (max : Z) (s : IndexingService) (m : go IndexingService) : Prop :=
  exists s', m = Ret s' /\ inv max s' /\ (length (heap s) <= length (heap s'))%nat.

Lemma inv_init p ivl max : 0 <= max -> inv max (newService p ivl max).
Proof.
  intros H. split; simpl; try done; try lia.
Qed.

Lemma inv_act max s a : inv max s -> action_ok a -> inv max (act a s).
Proof. intros [] Ha. split; simpl; try done. by apply Forall_app_2; [|constructor]. Qed.

Lemma inv_drawn max s : inv max s -> inv max (drawn s).
Proof. intros []. by split. Qed.

Lemma inv_assign max s c a : inv max s -> inv max (set_heap (<[c := a]> (heap s)) s).
Proof. intros []. split; simpl; try done. by rewrite length_insert. Qed.

Lemma inv_alloc max s a : inv max s -> inv max (set_heap (heap s ++ [a]) s).
Proof.
  intros []. split; simpl; try done. eapply map_Forall_impl; [done|].
  simpl. intros _ c Hc. rewrite length_app. lia.
Qed.

Lemma inv_neighbor max s k c :
  inv max s -> Z.of_nat (size (routingTable s)) < max -> (c < length (heap s))%nat ->
  inv max (set_table (<[k := c]> (routingTable s)) s).
Proof.
  intros [] Hsz Hc. split; simpl; try done; [|by apply map_Forall_insert_2].
  rewrite map_size_insert. destruct (_ !! k); simpl; lia.
Qed.

Lemma inv_clear max s : 0 <= max -> inv max s -> inv max (set_table ∅ s).
Proof. intros H []. split; simpl; try done. Qed.

Lemma safe_weaken max s1 s2 m :
  (length (heap s1) <= length (heap s2))%nat -> safe max s2 m -> safe max s1 m.
Proof. intros H (s' & Hm & Hi & Hh). exists s'. split_and!; [done|done|lia]. Qed.

(** math/rand's Read "always returns len(p) and a nil error". *)
Hypothesis rand_ok : forall n, is_Some (rand n).

Lemma randRead_spec dst s :
  exists r, rand (nrand s) = Some r /\ randRead dst s = Ret (copy dst r, drawn s).
Proof.
  destruct (rand_ok (nrand s)) as [r Hr]. exists r. unfold randRead. by rewrite Hr.
Qed.

Lemma target_length n r : length (copy (make_bytes n) r) = n.
Proof. rewrite copy_length. apply length_replicate. Qed.

Lemma sample_query_ok nid t target addr :
  length nid = 20%nat -> length target = 20%nat ->
  action_ok (Send (NewSampleInfohashesQuery nid t target) addr).
Proof. intros H1 H2. right; left. by split. Qed.

Lemma bootstrap_safe max nodes s : inv max s -> safe max s (bootstrap_loop nodes s).
Proof.
  revert s. induction nodes as [|node nodes IH]; intros s Hs; [by exists s|]. simpl.
  destruct (randRead_spec (make_bytes 20) s) as (r & _ & ->).
  apply (safe_weaken _ s (drawn s)); [done|].
  destruct (resolve node) as [a|]; [|by apply IH, inv_drawn].
  eapply safe_weaken; [|apply IH, inv_act; [by apply inv_drawn|]]; [done|].
  left. split; [|apply target_length]. split_and!; try done. apply (inv_id _ _ Hs).
Qed.

Lemma findNeighbors_send_safe max p target s :
  inv max s -> (p < length (heap s))%nat -> length target = 20%nat ->
  exists target' s', findNeighbors_send p target s = Ret (target', s') /\
    inv max s' /\ heap s' = heap s /\ length target' = 20%nat.
Proof.
  intros Hs Hp Ht. unfold findNeighbors_send.
  destruct (randRead_spec target s) as (r & _ & ->).
  destruct (lookup_lt_is_Some_2 (heap s) p Hp) as [a Ha]. simpl. rewrite Ha.
  assert (length (copy target r) = 20%nat) by by rewrite copy_length.
  eexists _, _. split_and!; try done. apply inv_act; [by apply inv_drawn|].
  apply sample_query_ok; [apply (inv_id _ _ Hs)|done].
Qed.

(** The common head of the two node loops: assign the loop variable, stop at a
    full table, skip port 0, insert. *)
Lemma node_loop_safe max cell node s (skip add : IndexingService -> go IndexingService) :
  inv max s -> (cell < length (heap s))%nat ->
  let s1 := set_heap (<[cell := cni_Addr node]> (heap s)) s in
  let s2 := set_table (<[cni_ID node := cell]> (routingTable s1)) s1 in
  (inv max s1 -> safe max s1 (skip s1)) ->
  (inv max s2 -> heap s2 !! cell = Some (cni_Addr node) -> safe max s2 (add s2)) ->
  safe max s (if maxNeighbors s1 <=? Z.of_nat (size (routingTable s1)) then Ret s1
              else if udp_Port (cni_Addr node) =? 0 then skip s1 else add s2).
Proof.
  intros Hs Hc s1 s2 Hskip Hadd.
  assert (inv max s1) as H1 by by apply inv_assign.
  assert (length (heap s1) = length (heap s)) as Hl by apply length_insert.
  apply (safe_weaken _ s s1); [lia|]. rewrite (inv_max _ _ H1).
  destruct (Z.leb_spec max (Z.of_nat (size (routingTable s1)))); [by exists s1|].
  destruct (_ =? 0); [by apply Hskip|].
  apply (safe_weaken _ s1 s2); [done|]. apply Hadd; [apply inv_neighbor; [done|done|lia]|].
  simpl. by apply list_lookup_insert_eq.
Qed.

Lemma findNode_loop_safe max cell nodes s :
  inv max s -> (cell < length (heap s))%nat -> safe max s (findNode_loop cell nodes s).
Proof.
  revert s. induction nodes as [|node nodes IH]; intros s Hs Hc; [by exists s|].
  cbn [findNode_loop]. cbv zeta.
  apply (node_loop_safe max cell node s (findNode_loop cell nodes)
      (fun s2 => let! (target, s) := randRead (make_bytes 20) s2 in
        match heap s !! cell with None => Panic | Some a => findNode_loop cell nodes
          (SendMessage (NewSampleInfohashesQuery (nodeID s) (str "aa") target) a s) end));
    [done|done| |].
  - intros H1. apply IH; [done|]. simpl. by rewrite length_insert.
  - intros H2 Ha. set (s2 := set_table _ _) in *.
    destruct (randRead_spec (make_bytes 20) s2) as (r & _ & ->). cbn [heap drawn].
    rewrite Ha. apply lookup_lt_Some in Ha.
    eapply safe_weaken; [|apply IH; [apply inv_act; [by apply inv_drawn|]|]]; [done| |done].
    apply sample_query_ok; [apply (inv_id _ _ H2)|apply target_length].
Qed.

Lemma iterate_loop_safe max cell nodes s :
  inv max s -> (cell < length (heap s))%nat -> safe max s (iterate_loop cell nodes s).
Proof.
  revert s. induction nodes as [|node nodes IH]; intros s Hs Hc; [by exists s|].
  apply (node_loop_safe max cell node s (iterate_loop cell nodes) (iterate_loop cell nodes));
    [done|done| |].
  - intros H1. apply IH; [done|]. simpl. by rewrite length_insert.
  - intros H2 Ha. apply IH; [done|]. by apply lookup_lt_Some in Ha.
Qed.

(** ** Sampled info hashes *)

(** The 20 bytes iteration [i] copies out of the samples, the query it sends,
    and the requests table after the iterations [l], for a counter that
    started at [c]. *)
Definition sample_hash (samples : bytes) (i : nat) : bytes := take 20 (drop i samples).

Definition sample_query (nid samples : bytes) (addr : UDPAddr) (c : Z) (i : nat) : action :=
  Send (with_T (NewGetPeersQuery nid (sample_hash samples i)) (uint16BE (c + Z.of_nat i))) addr.

Definition sample_requests (samples : bytes) (c : Z) (l : list nat) (g : gmap bytes bytes)
    : gmap bytes bytes :=
  foldl (fun g i => <[uint16BE (c + Z.of_nat i) := sample_hash samples i]> g) g l.

Lemma sample_slice samples i :
  (20 * S i <= length samples)%nat ->
  exists sl, slice samples (Z.of_nat i) ((Z.of_nat i + 1) * 20) = Ret sl /\
             copy (make_bytes 20) sl = sample_hash samples i.
Proof.
  intros H. exists (take (20 + 19 * i) (drop i samples)).
  replace ((Z.of_nat i + 1) * 20) with (Z.of_nat (i + (20 + 19 * i))) by lia.
  rewrite slice_nat by lia. split; [done|].
  rewrite copy_trunc; change (length (make_bytes 20)) with 20%nat;
    [|rewrite length_take, length_drop; lia]. by rewrite take_take.
Qed.

Lemma uint16BE_to_u16 v : uint16BE (to_u16 v) = uint16BE v.
Proof. apply be16_to_u16. Qed.

Lemma samples_loop_spec samples addr c n i s :
  counter s = to_u16 (c + Z.of_nat i) -> (20 * (i + n) <= length samples)%nat ->
  samples_loop samples addr n i s =
    Ret (set_requests (to_u16 (c + Z.of_nat (i + n)))
      (sample_requests samples c (seq i n) (getPeersRequests s))
      (set_out (out s ++ map (sample_query (nodeID s) samples addr c) (seq i n)) s)).
Proof.
  revert i s. induction n as [|n IH]; intros i s Hc Hlen; simpl.
  { rewrite Nat.add_0_r, app_nil_r, <- Hc. by destruct s. }
  destruct (sample_slice samples i) as (sl & -> & ->); [lia|].
  rewrite Hc, uint16BE_to_u16. rewrite IH; [|simpl|lia].
  - simpl. rewrite Nat.add_succ_r, <- app_assoc. reflexivity.
  - unfold to_u16. rewrite Zplus_mod_idemp_l. f_equal. lia.
Qed.

Lemma sample_hash_length samples i :
  (20 + i <= length samples)%nat -> length (sample_hash samples i) = 20%nat.
Proof. intros H. unfold sample_hash. rewrite length_take, length_drop. lia. Qed.

Lemma sample_requests_wf samples c l g :
  Forall (fun i => (20 + i <= length samples)%nat) l ->
  map_Forall (fun t h => (exists v, 0 <= v < 65536 /\ t = uint16BE v) /\ length h = 20%nat) g ->
  map_Forall (fun t h => (exists v, 0 <= v < 65536 /\ t = uint16BE v) /\ length h = 20%nat)
    (sample_requests samples c l g).
Proof.
  intros Hl. revert g. induction Hl as [|i l Hi _ IH]; intros g Hg; [done|].
  apply IH, map_Forall_insert_2; [|done]. split; [|by apply sample_hash_length].
  exists (to_u16 (c + Z.of_nat i)). rewrite uint16BE_to_u16. split; [|done].
  by apply Z.mod_pos_bound.
Qed.

Lemma samples_loop_safe max samples addr s :
  inv max s -> safe max s (samples_loop samples addr (length samples / 20) 0 s).
Proof.
  intros Hs. pose proof (Nat.Div0.mul_div_le (length samples) 20) as Hlen.
  rewrite (samples_loop_spec _ _ (counter s)) by first
    [by rewrite Nat.add_0_l | rewrite Z.add_0_r; symmetry; apply Z.mod_small, Hs].
  eexists. split; [done|]. split; [|done].
  assert (Forall (fun i => (20 + i <= length samples)%nat) (seq 0 (length samples / 20))) as Hi.
  { apply Forall_forall. intros i [_ Hi]%elem_of_seq. lia. }
  destruct Hs. split; simpl; try done.
  - by apply Z.mod_pos_bound.
  - by apply sample_requests_wf.
  - apply Forall_app_2; [done|]. apply Forall_map. eapply Forall_impl; [exact Hi|].
    intros i Hi'. right; right. split; [by split_and!|]. by apply sample_hash_length.
Qed.

Definition to_tcp (p : CompactPeer) : TCPAddr := {| tcp_IP := cp_IP p; tcp_Port := cp_Port p |}.

Lemma values_loop_spec acc values :
  values_loop acc values = acc ++ map to_tcp (filter (fun p => cp_Port p <> 0) values).
Proof.
  revert acc. induction values as [|p values IH]; intros acc; [by rewrite app_nil_r|].
  simpl. rewrite filter_cons. destruct (Z.eqb_spec (cp_Port p) 0) as [E|E].
  - rewrite decide_False by tauto. apply IH.
  - rewrite decide_True by done. rewrite IH, <- app_assoc. done.
Qed.

Lemma values_ports values : Forall (fun p => tcp_Port p <> 0) (values_loop [] values).
Proof.
  rewrite values_loop_spec. apply Forall_map, Forall_forall.
  by intros p [Hp _]%list_elem_of_filter.
Qed.

Lemma onGetPeersResponse_safe max msg addr s : inv max s -> safe max s (onGetPeersResponse msg addr s).
Proof.
  intros Hs. unfold onGetPeersResponse.
  set (t := copy (make_bytes 2) (m_T msg)). set (g := delete t (getPeersRequests s)).
  assert (inv max (set_requests (counter s) g s)) as H1.
  { destruct Hs. split; simpl; try done. by apply map_Forall_delete. }
  destruct (len _ =? 0); eexists; (split; [done|]); (split; [|done]); [done|].
  apply inv_act; [done|]. split; simpl; [|apply values_ports].
  destruct (getPeersRequests s !! t) as [h|] eqn:E; [|done].
  apply (inv_requests _ _ Hs _ _ E).
Qed.

Lemma onFindNodeResponse_safe max msg addr s :
  inv max s -> safe max s (onFindNodeResponse msg addr s).
Proof.
  intros Hs. eapply safe_weaken; [|apply findNode_loop_safe; [by apply inv_alloc|]];
    simpl; rewrite length_app; simpl; lia.
Qed.

Lemma onSampleInfohashesResponse_safe max msg addr s :
  inv max s -> safe max s (onSampleInfohashesResponse msg addr s).
Proof.
  intros Hs. unfold onSampleInfohashesResponse.
  destruct (samples_loop_safe max (r_Samples (m_R msg)) addr s Hs) as (s1 & -> & H1 & Hh).
  apply (safe_weaken _ s s1); [done|].
  eapply safe_weaken; [|apply iterate_loop_safe; [by apply inv_alloc|]];
    simpl; rewrite length_app; simpl; lia.
Qed.

Lemma receive_safe max msg addr s : inv max s -> safe max s (receive msg addr s).
Proof.
  intros Hs. unfold receive. destruct (onMessage _ _ _) as [f|] eqn:E; [|by exists s].
  apply onMessage_sound in E as (k & g & _ & Hg & ->).
  destruct k; simpl in Hg; simplify_eq.
  - by apply onSampleInfohashesResponse_safe.
  - by apply onGetPeersResponse_safe.
  - by apply onFindNodeResponse_safe.
Qed.

Lemma snapshot_valid max s ps :
  inv max s -> snapshot s ps -> Forall (fun c => (c < length (heap s))%nat) ps.
Proof.
  intros Hs Hps. apply Forall_forall. intros c Hc. unfold snapshot in Hps. rewrite Hps in Hc.
  apply list_elem_of_fmap in Hc as ([k c'] & -> & Hk). apply elem_of_map_to_list in Hk.
  exact (inv_ptr _ _ Hs _ _ Hk).
Qed.

Lemma index_step_inv max st st' :
  0 <= max -> sys_inv max st -> index_step st st' -> sys_inv max st'.
Proof.
  intros Hmax [Hs Hph] Hstep. destruct Hstep as
    [s s' _ _ Hb|s _ _|s ps Hps|s s' p ps target target' Hsend|s target|s]; simpl in *.
  - destruct (bootstrap_safe max bootstrappingNodes s Hs) as (s1 & H1 & ? & _).
    unfold bootstrap in Hb. rewrite H1 in Hb. injection Hb as ->. done.
  - done.
  - split; [done|]. split; [by eapply snapshot_valid|apply length_replicate].
  - destruct Hph as [[Hp Hps]%Forall_cons Ht].
    destruct (findNeighbors_send_safe max p target s Hs Hp Ht) as (t1 & s1 & H1 & ? & Hh & ?).
    rewrite H1 in Hsend. injection Hsend as -> ->. split; simpl; [done|]. by rewrite Hh.
  - done.
  - split; [by apply inv_clear|done].
Qed.

Lemma handle_inv max s s' ph msg addr :
  sys_inv max (s, ph) -> receive msg addr s = Ret s' -> sys_inv max (s', ph).
Proof.
  intros [Hs Hph] Hr. destruct (receive_safe max msg addr s Hs) as (s1 & H1 & ? & Hh).
  rewrite H1 in Hr. injection Hr as ->. split; [done|]. destruct ph as [| |ps target|]; try done.
  destruct Hph as [Hps Ht]. split; [|done]. eapply Forall_impl; [exact Hps|]. simpl. lia.
Qed.

Lemma step_inv max st st' : 0 <= max -> sys_inv max st -> step st st' -> sys_inv max st'.
Proof.
  intros Hmax Hst Hstep. destruct Hstep as [st st' Hi|s s' ph msg addr Hr].
  - by eapply index_step_inv.
  - by eapply handle_inv.
Qed.

Lemma reachable_inv p ivl max st : 0 <= max -> reachable p ivl max st -> sys_inv max st.
Proof.
  intros Hmax H. unfold reachable in H.
  apply (rtc_ind_r (R := step) (sys_inv max) (newService p ivl max, Waiting)); [| |exact H].
  - split; [by apply inv_init|done].
  - intros y z _ Hyz Hy. by eapply step_inv.
Qed.

(** The sends of a round that is under way all succeed. *)
Lemma sending_completes max ps target s :
  sys_inv max (s, Sending ps target) ->
  exists s' target', rtc index_step (s, Sending ps target) (s', Sending [] target').
Proof.
  revert s target. induction ps as [|c ps IH]; intros s target [Hs Hph].
  - exists s, target. apply rtc_refl.
  - simpl in *. destruct Hph as [[Hc Hps]%Forall_cons Ht].
    destruct (findNeighbors_send_safe max c target s Hs Hc Ht) as (t' & s' & E & Hs' & Hh & Ht').
    destruct (IH s' t') as (s2 & t2 & H2). { split; simpl; [done|]. by rewrite Hh. }
    exists s2, t2. eapply rtc_l; [by apply send_next|exact H2].
Qed.

Lemma round_completes max s ph :
  sys_inv max (s, ph) -> exists s', rtc index_step (s, ph) (s', Waiting).
Proof.
  assert (forall s0 ps t, sys_inv max (s0, Sending ps t) ->
    exists s', rtc index_step (s0, Sending ps t) (s', Waiting)) as Hsend.
  { intros s0 ps t (s1 & t1 & H1)%sending_completes. exists (set_table ∅ s1).
    etrans; [exact H1|]. eapply rtc_l; [apply sent_all|]. apply rtc_once, clear. }
  intros Hinv. destruct ph as [| |ps t|].
  - exists s. apply rtc_refl.
  - destruct (Hsend s (map snd (map_to_list (routingTable s))) (make_bytes 20)) as (s' & H').
    { split; [apply Hinv|]. split; [|apply length_replicate].
      eapply snapshot_valid; [apply Hinv|apply Permutation_refl]. }
    exists s'. eapply rtc_l; [|exact H']. apply take_snapshot, Permutation_refl.
  - by apply Hsend.
  - exists (set_table ∅ s). apply rtc_once, clear.
Qed.

Lemma index_step_iff max s ph :
  sys_inv max (s, ph) -> (exists st', index_step (s, ph) st') <-> (ph = Waiting -> 0 < interval s).
Proof.
  intros [Hs Hph]. split; [by intros [st' H] ->; inversion H|]. intros H.
  destruct ph as [| |[|c cs] t|]; simpl in *.
  - destruct (decide (size (routingTable s) = 0%nat)); [|by eexists; apply tick_find; auto].
    destruct (bootstrap_safe max bootstrappingNodes s Hs) as (s' & Hb & _).
    eexists. apply tick_bootstrap; [by apply H|done|exact Hb].
  - eexists. apply take_snapshot, Permutation_refl.
  - eexists. apply sent_all.
  - destruct Hph as [[Hp _]%Forall_cons Ht].
    destruct (findNeighbors_send_safe max c t s Hs Hp Ht) as (t' & s' & E & _).
    eexists. by apply send_next.
  - eexists. apply clear.
Qed.

Lemma size_uint16_keys (n : Z) (g : gmap bytes bytes) :
  0 <= n -> map_Forall (fun t _ => exists v, 0 <= v < n /\ t = uint16BE v) g ->
  Z.of_nat (size g) <= n.
Proof.
  intros Hn Hg. rewrite <- size_dom.
  assert (dom g ⊆ list_to_set (map uint16BE (seqZ 0 n))) as Hsub.
  { intros t [h Ht]%elem_of_dom. destruct (Hg _ _ Ht) as (v & Hv & ->).
    apply elem_of_list_to_set, list_elem_of_fmap. exists v. split; [done|]. apply elem_of_seqZ. lia. }
  apply subseteq_size in Hsub.
  pose proof (size_list_to_set_le (map uint16BE (seqZ 0 n))) as Hle.
  rewrite length_map, length_seqZ in Hle. lia.
Qed.

Lemma requests_bounded max s : inv max s -> Z.of_nat (size (getPeersRequests s)) <= 65536.
Proof.
  intros Hs. apply size_uint16_keys; [lia|]. eapply map_Forall_impl; [apply Hs|].
  by intros t h [Ht _].
Qed.

(** ** Reference semantics of the node loops *)

(** The nodes a response contributes to a table [rt] of capacity [max]. *)
Fixpoint accepted (max : Z) (cell : nat) (rt : gmap bytes nat) (nodes : list CompactNodeInfo)
    : list CompactNodeInfo :=
  match nodes with
  | [] => []
  | n :: ns =>
      if max <=? Z.of_nat (size rt) then []
      else if udp_Port (cni_Addr n) =? 0 then accepted max cell rt ns
      else n :: accepted max cell (<[cni_ID n := cell]> rt) ns
  end.

(** The contents the loop variable ends with, starting from [a]. *)
Fixpoint last_addr (max : Z) (cell : nat) (rt : gmap bytes nat) (nodes : list CompactNodeInfo)
    (a : UDPAddr) : UDPAddr :=
  match nodes with
  | [] => a
  | n :: ns =>
      if max <=? Z.of_nat (size rt) then cni_Addr n
      else if udp_Port (cni_Addr n) =? 0 then last_addr max cell rt ns (cni_Addr n)
      else last_addr max cell (<[cni_ID n := cell]> rt) ns (cni_Addr n)
  end.

Definition add_all (cell : nat) (nodes : list CompactNodeInfo) (rt : gmap bytes nat)
    : gmap bytes nat :=
  foldl (fun rt n => <[cni_ID n := cell]> rt) rt nodes.

(** The [k]-th random target. *)
Definition target (k : nat) : bytes := copy (make_bytes 20) (default [] (rand k)).

Definition sample_sends (nid : bytes) (k : nat) (nodes : list CompactNodeInfo) : list action :=
  imap (fun i n => Send (NewSampleInfohashesQuery nid (str "aa") (target (k + i))) (cni_Addr n)) nodes.

Definition set_nrand (k : nat) (s : IndexingService) : IndexingService :=
  {| protocol := protocol s; is_started := is_started s; interval := interval s; nodeID := nodeID s; heap := heap s;
     routingTable := routingTable s; maxNeighbors := maxNeighbors s; counter := counter s;
     getPeersRequests := getPeersRequests s; nrand := k; out := out s |}.

(** The state after a response whose nodes went through a node loop, [h] being
    the heap before the loop variable was allocated. *)
Definition with_neighbors (nodes : list CompactNodeInfo) (h : list UDPAddr) (a : UDPAddr)
    (s : IndexingService) : IndexingService :=
  let c := length h in
  set_table (add_all c (accepted (maxNeighbors s) c (routingTable s) nodes) (routingTable s))
    (set_heap (h ++ [last_addr (maxNeighbors s) c (routingTable s) nodes a]) s).

Lemma iterate_loop_spec nodes h a s :
  iterate_loop (length h) nodes (set_heap (h ++ [a]) s) = Ret (with_neighbors nodes h a s).
Proof.
  revert a s. induction nodes as [|n ns IH]; intros a s; [by destruct s|].
  unfold with_neighbors. cbn [iterate_loop accepted last_addr]. cbv zeta.
  cbn [heap set_heap maxNeighbors routingTable].
  replace (<[length h := cni_Addr n]> (h ++ [a])) with (h ++ [cni_Addr n])
    by (rewrite insert_app_r_alt, Nat.sub_diag by lia; done).
  destruct (_ <=? _); [by destruct s|]. destruct (_ =? 0); [apply (IH (cni_Addr n) s)|].
  exact (IH (cni_Addr n) (set_table (<[cni_ID n := length h]> (routingTable s)) s)).
Qed.

Lemma findNode_loop_spec nodes h a s :
  let acc := accepted (maxNeighbors s) (length h) (routingTable s) nodes in
  findNode_loop (length h) nodes (set_heap (h ++ [a]) s) =
  Ret (set_nrand (nrand s + length acc)
    (set_out (out s ++ sample_sends (nodeID s) (nrand s) acc) (with_neighbors nodes h a s))).
Proof.
  revert a s. induction nodes as [|n ns IH]; intros a s.
  { destruct s. simpl. rewrite Nat.add_0_r, app_nil_r. done. }
  unfold with_neighbors. cbn [findNode_loop accepted last_addr]. cbv zeta.
  cbn [heap set_heap maxNeighbors routingTable].
  replace (<[length h := cni_Addr n]> (h ++ [a])) with (h ++ [cni_Addr n])
    by (rewrite insert_app_r_alt, Nat.sub_diag by lia; done).
  destruct (_ <=? _). { destruct s. simpl. rewrite Nat.add_0_r, app_nil_r. done. }
  destruct (_ =? 0); [apply (IH (cni_Addr n) s)|].
  match goal with |- context [randRead _ ?s2] =>
    destruct (randRead_spec (make_bytes 20) s2) as (r & Hr & ->) end.
  cbn [heap drawn set_table set_heap]. rewrite list_lookup_middle by done.
  pose proof (IH (cni_Addr n) (act (Send (NewSampleInfohashesQuery (nodeID s) (str "aa")
      (copy (make_bytes 20) r)) (cni_Addr n))
      (drawn (set_table (<[cni_ID n := length h]> (routingTable s)) s)))) as E.
  etransitivity; [exact E|]. clear E IH. simpl in Hr |- *.
  assert (target (nrand s) = copy (make_bytes 20) r) as Ht by (unfold target; by rewrite Hr).
  unfold with_neighbors, sample_sends. simpl. rewrite Nat.add_0_r, Ht, <- app_assoc.
  f_equal. unfold set_nrand. simpl. f_equal; [lia|]. do 2 f_equal.
  apply imap_ext. intros i x _. unfold compose. by rewrite Nat.add_succ_r.
Qed.

Lemma onFindNodeResponse_eq msg addr s :
  let acc := accepted (maxNeighbors s) (length (heap s)) (routingTable s) (r_Nodes (m_R msg)) in
  onFindNodeResponse msg addr s =
  Ret (set_nrand (nrand s + length acc)
    (set_out (out s ++ sample_sends (nodeID s) (nrand s) acc)
      (with_neighbors (r_Nodes (m_R msg)) (heap s) zeroUDP s))).
Proof. apply findNode_loop_spec. Qed.

(** The state after the samples of a response, before its nodes. *)
Definition sampled (samples : bytes) (addr : UDPAddr) (s : IndexingService) : IndexingService :=
  let n := (length samples / 20)%nat in
  set_requests (to_u16 (counter s + Z.of_nat n))
    (sample_requests samples (counter s) (seq 0 n) (getPeersRequests s))
    (set_out (out s ++ map (sample_query (nodeID s) samples addr (counter s)) (seq 0 n)) s).

Lemma onSampleInfohashesResponse_eq max msg addr s :
  inv max s ->
  onSampleInfohashesResponse msg addr s =
    Ret (with_neighbors (r_Nodes (m_R msg)) (heap s) zeroUDP (sampled (r_Samples (m_R msg)) addr s)).
Proof.
  intros Hs. unfold onSampleInfohashesResponse.
  pose proof (Nat.Div0.mul_div_le (length (r_Samples (m_R msg))) 20) as Hlen.
  rewrite (samples_loop_spec _ _ (counter s)) by first
    [by rewrite Nat.add_0_l | rewrite Z.add_0_r; symmetry; apply Z.mod_small, Hs].
  apply (iterate_loop_spec _ (heap s) _ (sampled (r_Samples (m_R msg)) addr s)).
Qed.

Lemma add_all_lookup cell nodes rt k :
  (exists n, n ∈ nodes /\ cni_ID n = k) -> add_all cell nodes rt !! k = Some cell.
Proof.
  revert rt. induction nodes as [|n ns IH] using rev_ind; intros rt (n' & Hn & <-).
  { by apply not_elem_of_nil in Hn. }
  unfold add_all. rewrite foldl_app. simpl.
  destruct (decide (cni_ID n = cni_ID n')) as [->|Hne]; [by rewrite lookup_insert_eq|].
  rewrite lookup_insert_ne by done. apply IH. exists n'. split; [|done].
  apply elem_of_app in Hn as [Hn|Hn%list_elem_of_singleton]; [done|]. by subst.
Qed.

(** What the table says a node's address is. *)
Definition neighbor (s : IndexingService) (k : bytes) : option UDPAddr :=
  c ← routingTable s !! k; heap s !! c.

Lemma with_neighbors_alias nodes a s n :
  n ∈ accepted (maxNeighbors s) (length (heap s)) (routingTable s) nodes ->
  neighbor (with_neighbors nodes (heap s) a s) (cni_ID n) =
  Some (last_addr (maxNeighbors s) (length (heap s)) (routingTable s) nodes a).
Proof.
  intros Hn. unfold neighbor, with_neighbors. simpl.
  rewrite add_all_lookup by eauto. simpl. by apply list_lookup_middle.
Qed.

Lemma sample_requests_lookup samples c n g i :
  (i < n)%nat -> Z.of_nat n <= 65536 ->
  sample_requests samples c (seq 0 n) g !! uint16BE (c + Z.of_nat i) = Some (sample_hash samples i).
Proof.
  intros Hi. induction n as [|n IH]; intros Hn; [lia|].
  unfold sample_requests. rewrite seq_S, foldl_app. simpl.
  destruct (decide (i = n)) as [->|Hne]; [by rewrite lookup_insert_eq|].
  rewrite lookup_insert_ne; [apply IH; lia|]. intros E. apply be16_inj in E.
  unfold to_u16 in E. change (2 ^ 16) with 65536 in E.
  apply Hne, Nat2Z.inj. apply (f_equal (fun x => (x - c) mod 65536)) in E.
  rewrite !Zminus_mod_idemp_l in E. rewrite !Z.add_simpl_l in E. rewrite !Z.mod_small in E; lia.
Qed.

(** ** Properties *)

(** C11. Whatever packets arrive, in whatever order they interleave with the
    index loop: the routing table never exceeds maxNeighbors, its pointers
    and those of a round being sent are valid, the table of pending get_peers
    requests never exceeds 65536 entries, every packet sent is a query a
    conforming node accepts (20-byte id, target and info hash), and every
    result has a 20-byte info hash and no peer with port 0. *)
Theorem indexing_invariant p ivl max s ph :
  0 <= max -> reachable p ivl max (s, ph) ->
  sys_inv max (s, ph) /\ Z.of_nat (size (getPeersRequests s)) <= 65536.
Proof.
  intros Hmax Hr. apply reachable_inv in Hr as Hi; [|done].
  split; [done|]. eapply requests_bounded, Hi.
Qed.

(** C12. Nothing a peer sends makes the service panic, in any reachable state.
    A round of the index loop always completes: left to itself, the loop comes
    back to waiting for a tick. It has a next step in every state, but for one
    case: with an interval that is not positive it waits for its first tick
    forever. *)
Theorem indexing_progress p ivl max s ph :
  0 <= max -> reachable p ivl max (s, ph) ->
  (forall msg addr, exists s', receive msg addr s = Ret s') /\
  (exists s', rtc index_step (s, ph) (s', Waiting)) /\
  ((exists st', index_step (s, ph) st') <-> (ph = Waiting -> 0 < ivl)).
Proof.
  intros Hmax Hr. apply reachable_interval in Hr as Hivl. simpl in Hivl.
  apply reachable_inv in Hr as Hinv; [|done]. split_and!.
  - intros msg addr. destruct (receive_safe max msg addr s (proj1 Hinv)) as (s' & -> & _). eauto.
  - by apply (round_completes max).
  - rewrite <- Hivl. by apply (index_step_iff max).
Qed.

(** A find_node response: of its nodes, in order, those with a port other
    than 0 are accepted until the table is full; each accepted node is
    entered in the table and sent one sample_infohashes query, with a fresh
    random target, to its own address; nothing else changes but the random
    source and the loop variable. *)
Theorem onFindNodeResponse_correct msg addr s :
  let acc := accepted (maxNeighbors s) (length (heap s)) (routingTable s) (r_Nodes (m_R msg)) in
  exists s', onFindNodeResponse msg addr s = Ret s' /\
    routingTable s' = add_all (length (heap s)) acc (routingTable s) /\
    out s' = out s ++ sample_sends (nodeID s) (nrand s) acc /\
    getPeersRequests s' = getPeersRequests s /\ counter s' = counter s /\
    take (length (heap s)) (heap s') = heap s.
Proof.
  intros acc. rewrite onFindNodeResponse_eq. eexists. split; [done|]. simpl. split_and!; try done.
  apply take_app_length.
Qed.

(** The table entries of one response share one variable: after a
    find_node or sample_infohashes response all nodes accepted from it
    resolve to the address of the last node the loop examined, whatever
    their own addresses are. *)
Theorem neighbors_aliased max msg addr s s1 s2 n :
  inv max s ->
  onFindNodeResponse msg addr s = Ret s1 -> onSampleInfohashesResponse msg addr s = Ret s2 ->
  n ∈ accepted max (length (heap s)) (routingTable s) (r_Nodes (m_R msg)) ->
  let a := last_addr max (length (heap s)) (routingTable s) (r_Nodes (m_R msg)) zeroUDP in
  neighbor s1 (cni_ID n) = Some a /\ neighbor s2 (cni_ID n) = Some a.
Proof.
  intros Hs H1 H2 Hn. rewrite onFindNodeResponse_eq in H1. injection H1 as <-.
  rewrite (onSampleInfohashesResponse_eq max) in H2 by done. injection H2 as <-.
  rewrite <- (inv_max _ _ Hs) in Hn |- *. split.
  - apply (with_neighbors_alias _ _ s n Hn).
  - apply (with_neighbors_alias _ _ (sampled (r_Samples (m_R msg)) addr s) n Hn).
Qed.

(** C27. Correlation of get_peers: handling a sample_infohashes response sends,
    for each sample, a query whose transaction id later identifies it: a
    response that carries the id of the i-th query reports the info hash of
    that query together with the peers whose port is not 0, and frees the id. *)
Theorem get_peers_correlated max msg addr s s1 reply from i :
  inv max s -> onSampleInfohashesResponse msg addr s = Ret s1 ->
  let samples := r_Samples (m_R msg) in
  let t := uint16BE (counter s + Z.of_nat i) in
  Z.of_nat (length samples / 20) <= 65536 -> (i < length samples / 20)%nat ->
  m_T reply = t -> r_Values (m_R reply) <> [] ->
  sample_query (nodeID s) samples addr (counter s) i ∈ out s1 /\
  exists s2, onGetPeersResponse reply from s1 = Ret s2 /\
    out s2 = out s1 ++ [OnResult {| infoHash := sample_hash samples i;
      peerAddrs := map to_tcp (filter (fun p => cp_Port p <> 0) (r_Values (m_R reply))) |}] /\
    getPeersRequests s2 !! t = None.
Proof.
  intros Hs H1 samples t Hn Hi Ht Hv.
  rewrite (onSampleInfohashesResponse_eq max) in H1 by done. injection H1 as <-. split.
  - apply elem_of_app. right. apply list_elem_of_fmap_2, elem_of_seq. split; [lia|exact Hi].
  - unfold onGetPeersResponse. rewrite Ht, (copy_full (make_bytes 2)) by done.
    rewrite (proj2 (Z.eqb_neq _ _)) by by rewrite len_nil_iff.
    eexists. split; [done|]. simpl. rewrite values_loop_spec. fold samples. unfold t.
    rewrite sample_requests_lookup by done. split; [done|]. apply lookup_delete_eq.
Qed.

(** The i-th query does not ask for the i-th sample: with two samples h1 and
    h2 the queries ask for h1 and for the tail of h1 followed by the first
    byte of h2. *)
Theorem sample_offset max msg addr s s1 x h1 y h2 :
  inv max s -> length h1 = 19%nat -> length h2 = 19%nat ->
  r_Samples (m_R msg) = (x :: h1) ++ (y :: h2) ->
  onSampleInfohashesResponse msg addr s = Ret s1 ->
  out s1 = out s ++
    [Send (with_T (NewGetPeersQuery (nodeID s) (x :: h1)) (uint16BE (counter s))) addr;
     Send (with_T (NewGetPeersQuery (nodeID s) (h1 ++ [y])) (uint16BE (counter s + 1))) addr].
Proof.
  intros Hs Hl1 Hl2 Hm H1. rewrite (onSampleInfohashesResponse_eq max) in H1 by done.
  injection H1 as <-. unfold with_neighbors, sampled. simpl. rewrite Hm.
  rewrite length_app. cbn [length]. rewrite Hl1, Hl2. simpl. unfold sample_query, sample_hash.
  cbn [drop app Z.of_nat]. rewrite Z.add_0_r. repeat f_equal; simpl.
  - f_equal. by apply take_app_length'.
  - rewrite drop_0, take_app, (take_ge h1) by lia. by rewrite Hl1.
Qed.

End Service.

(** ** Witnesses: a find_node response with two nodes, a sample_infohashes
    response with two samples, a get_peers response *)

Definition wit_rand (n : nat) : option bytes := Some (str "0123456789abcdefghij").
Definition wit_resolve (a : bytes) : option UDPAddr := None.

Definition wit_udp (x : byte) (p : Z) : UDPAddr :=
  {| udp_IP := [x; x; x; x]; udp_Port := p; udp_Zone := [] |}.
Definition wit_n1 : CompactNodeInfo :=
  {| cni_ID := str "AAAAAAAAAAAAAAAAAAAA"; cni_Addr := wit_udp Byte.x01 1000 |}.
Definition wit_n2 : CompactNodeInfo :=
  {| cni_ID := str "BBBBBBBBBBBBBBBBBBBB"; cni_Addr := wit_udp Byte.x02 2000 |}.

Definition wit_response (t : bytes) (nodes : list CompactNodeInfo) (token : bytes)
    (values : list CompactPeer) (samples : bytes) : Message :=
  newResponse t {| r_ID := str "CCCCCCCCCCCCCCCCCCCC"; r_Nodes := nodes; r_Token := token;
                   r_Values := values; r_Interval := 0; r_Num := 0; r_Samples := samples |}.
Definition wit_find : Message := wit_response (str "aa") [wit_n1; wit_n2] [] [] [].
Definition wit_samples : Message :=
  wit_response (str "aa") [wit_n1; wit_n2] [] [] (str "0abcdefghijklmnopqrs1ABCDEFGHIJKLMNOPQRS").
Definition wit_peers_msg : Message :=
  wit_response [Byte.x00; Byte.x01] [] (str "tok")
    [ {| cp_IP := [Byte.x09; Byte.x09; Byte.x09; Byte.x09]; cp_Port := 51413 |} ] [].

Definition wit_protocol : Protocol :=
  {| previousTokenSecret := make_bytes 20; currentTokenSecret := make_bytes 20;
     transport := {| fd := 3; laddr := wit_addr; t_started := true; buffer := [] |}; started := true |}.
Definition wit_s0 : IndexingService := newService wit_protocol 1000000000 5.
Definition run (m : go IndexingService) : IndexingService :=
  match m with Ret s => s | Panic => wit_s0 end.
Definition wit_s1 : IndexingService :=
  run (receive wit_rand wit_find (wit_udp Byte.x03 3000) wit_s0).

Lemma wit_rand_ok n : is_Some (wit_rand n).
Proof. by eexists. Qed.

Lemma wit_reachable : reachable wit_rand wit_resolve wit_protocol 1000000000 5 (wit_s1, Snapshot).
Proof.
  eapply rtc_l; [apply (handle _ _ wit_s0 wit_s1 Waiting wit_find (wit_udp Byte.x03 3000)); vm_compute; reflexivity|].
  eapply rtc_l; [|apply rtc_refl]. by apply index, tick_find; vm_compute.
Qed.

Lemma indexing_invariant_witness :
  size (routingTable wit_s1) = 2%nat /\ sys_inv 5 (wit_s1, Snapshot).
Proof.
  split; [reflexivity|].
  apply (indexing_invariant wit_rand wit_resolve wit_rand_ok wit_protocol 1000000000 5 wit_s1 Snapshot);
    [lia|exact wit_reachable].
Defined.

Lemma indexing_progress_witness :
  (exists s', receive wit_rand wit_samples (wit_udp Byte.x03 3000) wit_s1 = Ret s') /\
  (exists s', rtc (index_step wit_rand wit_resolve) (wit_s1, Snapshot) (s', Waiting)) /\
  ~ exists st', index_step wit_rand wit_resolve (newService wit_protocol 0 5, Waiting) st'.
Proof.
  destruct (indexing_progress wit_rand wit_resolve wit_rand_ok wit_protocol 1000000000 5 wit_s1 Snapshot)
    as (H1 & H2 & _); [lia|exact wit_reachable|].
  split; [apply H1|]. split; [exact H2|].
  destruct (indexing_progress wit_rand wit_resolve wit_rand_ok wit_protocol 0 5
    (newService wit_protocol 0 5) Waiting) as (_ & _ & H3); [lia|apply rtc_refl|].
  intros H. pose proof (proj1 H3 H eq_refl). lia.
Defined.

Lemma onFindNodeResponse_correct_witness :
  exists s', onFindNodeResponse wit_rand wit_find (wit_udp Byte.x03 3000) wit_s0 = Ret s' /\
    length (out s') = 2%nat.
Proof.
  destruct (onFindNodeResponse_correct wit_rand wit_rand_ok wit_find (wit_udp Byte.x03 3000) wit_s0)
    as (s' & H1 & _ & H2 & _). exists s'. split; [exact H1|]. rewrite H2. reflexivity.
Defined.

Lemma neighbors_aliased_witness :
  neighbor (run (onFindNodeResponse wit_rand wit_find (wit_udp Byte.x03 3000) wit_s0)) (cni_ID wit_n1)
    = Some (cni_Addr wit_n2) /\ cni_Addr wit_n1 <> cni_Addr wit_n2.
Proof.
  split; [|discriminate].
  destruct (neighbors_aliased wit_rand wit_rand_ok 5 wit_find (wit_udp Byte.x03 3000) wit_s0
    (run (onFindNodeResponse wit_rand wit_find (wit_udp Byte.x03 3000) wit_s0))
    (run (onSampleInfohashesResponse wit_find (wit_udp Byte.x03 3000) wit_s0)) wit_n1) as [H _];
    [apply inv_init; lia|vm_compute; reflexivity|vm_compute; reflexivity|vm_compute; left|].
  rewrite H. vm_compute. reflexivity.
Defined.

Lemma get_peers_correlated_witness :
  exists s2, onGetPeersResponse wit_peers_msg (wit_udp Byte.x03 3000)
      (run (onSampleInfohashesResponse wit_samples (wit_udp Byte.x03 3000) wit_s0)) = Ret s2 /\
    getPeersRequests s2 !! uint16BE 1 = None.
Proof.
  destruct (get_peers_correlated 5 wit_samples (wit_udp Byte.x03 3000) wit_s0
    (run (onSampleInfohashesResponse wit_samples (wit_udp Byte.x03 3000) wit_s0))
    wit_peers_msg (wit_udp Byte.x03 3000) 1) as [_ (s2 & H1 & _ & H2)];
    [apply inv_init; lia|vm_compute; reflexivity|vm_compute; discriminate|vm_compute; lia
    |vm_compute; reflexivity|discriminate|].
  exists s2. split; [exact H1|exact H2].
Defined.

Lemma sample_offset_witness :
  out (run (onSampleInfohashesResponse wit_samples (wit_udp Byte.x03 3000) wit_s0)) =
    [Send (with_T (NewGetPeersQuery (make_bytes 20) (str "0abcdefghijklmnopqrs")) (uint16BE 0))
       (wit_udp Byte.x03 3000);
     Send (with_T (NewGetPeersQuery (make_bytes 20) (str "abcdefghijklmnopqrs1")) (uint16BE 1))
       (wit_udp Byte.x03 3000)].
Proof.
  apply (sample_offset 5 wit_samples (wit_udp Byte.x03 3000) wit_s0
    (run (onSampleInfohashesResponse wit_samples (wit_udp Byte.x03 3000) wit_s0)) Byte.x30
    (str "abcdefghijklmnopqrs") Byte.x31 (str "ABCDEFGHIJKLMNOPQRS"));
    [apply inv_init; lia|vm_compute; reflexivity..].
Defined.
