(* ===== verification/Persistence.v ===== *)
(** pkg/persistence/interface.go: the data of the persistence package and the
    interface [Database] that its engines implement, with the contract the
    daemon relies on. *)

From S2P Require Import Prelude.
From Stdlib Require Import ZArith.
From Stdlib Require QArith_base.
From stdpp Require Import base list gmap.
Local Open Scope Z_scope.

(** Errors of the package: the driver's and the standard library's own, texts
    of fmt.Errorf, and errors.Wrap. *)
Inductive error : Type :=
  | NotImplementedError
  | ErrDriver (code : Z)
  | ErrText (msg : bytes)
  | ErrWrap (e : error) (msg : bytes).

#[global] Instance error_eq_dec : EqDecision error.
Proof. solve_decision. Defined.

(** The value of a finite float64. *)
Abbreviation float64 := QArith_base.Q.

Inductive OrderingCriteria : Type :=
  | ByRelevance
  | ByTotalSize
  | ByDiscoveredOn
  | ByNFiles
  | ByNSeeders
  | ByNLeechers
  | ByUpdatedOn.

#[global] Instance OrderingCriteria_eq_dec : EqDecision OrderingCriteria.
Proof. solve_decision. Defined.

Inductive databaseEngine : Type :=
  | Sqlite3
  | Postgres
  | Beanstalkd
  | Stdout.

Record Statistics := {
  NDiscovered : gmap bytes Z;
  st_NFiles : gmap bytes Z;
  TotalSize : gmap bytes Z }.

Definition NewStatistics : Statistics :=
  {| NDiscovered := ∅; st_NFiles := ∅; TotalSize := ∅ |}.

Record File := { f_Size : Z; f_Path : bytes }.

#[global] Instance File_eq_dec : EqDecision File.
Proof. solve_decision. Defined.

Record TorrentMetadata := {
  tm_ID : Z;
  tm_InfoHash : bytes;
  tm_Name : bytes;
  tm_Size : Z;
  tm_DiscoveredOn : Z;
  tm_NFiles : Z;
  tm_Relevance : float64 }.

Record SimpleTorrentSummary := {
  ts_InfoHash : bytes;
  ts_Name : bytes;
  ts_Files : list File }.

(** ** The interface

    [io] is what the world outside the program answers during one call: the
    clock, and which calls of the driver fail. *)
Class Database := {
  db : Type;
  io : Type;
  Engine : db -> databaseEngine;
  DoesTorrentExist : io -> db -> bytes -> go (res error bool);
  AddNewTorrent : io -> db -> bytes -> bytes -> list File -> db * go (res error unit);
  Close : io -> db -> go (res error unit);
  GetNumberOfTorrents : io -> db -> go (res error Z);
  QueryTorrents : io -> db -> bytes -> Z -> OrderingCriteria -> bool -> Z ->
    option float64 -> option Z -> go (res error (list TorrentMetadata));
  GetTorrent : io -> db -> bytes -> go (res error (option TorrentMetadata));
  GetFiles : io -> db -> bytes -> go (res error (list File));
  GetStatistics : io -> db -> bytes -> Z -> go (res error Statistics) }.

(** The contract of the daemon with its database. A well-formed database holds
    names and file lists by info hash. Whatever a call of AddNewTorrent
    returns, it leaves the database well-formed and changes at most the entry of
    its own info hash, which was absent and is added as a whole; a torrent is
    said to exist only if it does; Close does not panic. *)
Class DatabaseLaws (D : Database) := {
  db_wf : db -> Prop;
  torrents : db -> gmap bytes (bytes * list File);
  exist_spec w d ih :
    db_wf d -> DoesTorrentExist w d ih = Ret (Ok true) -> is_Some (torrents d !! ih);
  add_wf w d ih name files : db_wf d -> db_wf (AddNewTorrent w d ih name files).1;
  add_spec w d ih name files d' r :
    db_wf d -> AddNewTorrent w d ih name files = (d', r) ->
    torrents d' = torrents d \/
    torrents d !! ih = None /\ torrents d' = <[ih := (name, files)]> (torrents d);
  close_returns w d : exists r, Close w d = Ret r }.
