(* ===== verification/Sql.v ===== *)
(** database/sql and text/template as far as the engines of pkg/persistence use
    them: argument conversion, rows and Scan, transactions, and statements built
    from templates. The driver and the database behind it are a parameter. *)

From S2P Require Import Prelude GoLib Persistence.
From Stdlib Require Import ZArith Lia.
From Stdlib Require QArith_base.
From stdpp Require Import base list.
Local Open Scope Z_scope.

(** ** Values and arguments *)

Inductive value : Type :=
  | VNull
  | VInt (z : Z)
  | VReal (q : float64)
  | VText (b : bytes)
  | VBlob (b : bytes).

Inductive arg : Type :=
  | ABytes (b : bytes)
  | AString (b : bytes)
  | AInt64 (z : Z)
  | AUint64 (z : Z)
  | AFloat64Ptr (p : option float64)
  | AUint64Ptr (p : option Z).

(** driver.DefaultParameterConverter: pointers are followed, and an unsigned
    integer with the high bit set is refused. *)
Definition convertUint64 (z : Z) : res error value :=
  if 2 ^ 63 <=? z then Err (ErrText (str "uint64 values with high bit set are not supported"))
  else Ok (VInt z).

Definition convert (a : arg) : res error value :=
  match a with
  | ABytes b => Ok (VBlob b)
  | AString b => Ok (VText b)
  | AInt64 z => Ok (VInt z)
  | AUint64 z => convertUint64 z
  | AFloat64Ptr p => Ok (match p with Some q => VReal q | None => VNull end)
  | AUint64Ptr p => match p with Some z => convertUint64 z | None => Ok VNull end
  end.

Fixpoint convertArgs (args : list arg) : res error (list value) :=
  match args with
  | [] => Ok []
  | a :: args =>
      match convert a, convertArgs args with
      | Ok v, Ok vs => Ok (v :: vs)
      | Err e, _ | _, Err e => Err e
      end
  end.

Lemma convertArgs_err a args :
  a ∈ args -> is_ok (convert a) = false -> exists e, convertArgs args = Err e.
Proof.
  intros Hin Ha. induction args as [|b args IH]; [by apply not_elem_of_nil in Hin|].
  apply elem_of_cons in Hin as [<-|Hin]; cbn [convertArgs].
  - destruct (convert a); [done|by eauto].
  - destruct (IH Hin) as [e ->]. destruct (convert b); by eauto.
Qed.

(** ** The driver

    [tables] is the content of the database with its schema. [exec] also gives
    the last insert id. [formatFloat] is strconv.FormatFloat, which Scan
    applies when a real is scanned into another type. *)
Class Driver := {
  tables : Type;
  exec : tables -> bytes -> list value -> res error (tables * Z);
  query : tables -> bytes -> list value -> res error (list (list value));
  formatFloat : float64 -> bytes }.

(** Besides the errors of a statement itself, any call can fail for a reason
    outside the program (disk, locks, network), and the delivery of rows can
    break off after the first [n]. The outcomes of the calls made by one
    operation are a list; calls beyond its end succeed. *)
Inductive outcome : Type :=
  | Fine
  | Fails (e : error)
  | Breaks (n : nat) (e : error).

(** Rows that are still to come, and the error that ends them. *)
Record Rows := { r_rows : list (list value); r_err : option error }.

(** rows.Next: the row at which the cursor stands now, if any. *)
Definition rows_Next (rows : Rows) : option (list value) * Rows :=
  match r_rows rows with
  | [] => (None, rows)
  | v :: vs => (Some v, {| r_rows := vs; r_err := r_err rows |})
  end.

(** rows.Err after a call of Next with the given result: the error is only
    known once the rows are exhausted. *)
Definition rows_Err (next : option (list value)) (rows : Rows) : option error :=
  match next with Some _ => None | None => r_err rows end.

Section Scan.
Context {R : Driver}.

Definition errScan : error := ErrText (str "sql: Scan error").

(** convertAssign by destination: int64, uint64, string, []byte, float64. *)
Definition scanText (v : value) : res error bytes :=
  match v with
  | VText b | VBlob b => Ok b
  | VInt z => Ok (fmt_d z)
  | VReal q => Ok (formatFloat q)
  | VNull => Err errScan
  end.

Definition scanBytes (v : value) : res error bytes :=
  match v with VNull => Ok [] | _ => scanText v end.

Definition scanInt64 (v : value) : res error Z :=
  match v with
  | VInt z => Ok z
  | _ => match scanText v with
         | Ok b => match ParseInt10 b 64 with Ok z => Ok z | Err _ => Err errScan end
         | Err e => Err e
         end
  end.

Definition scanUint64 (v : value) : res error Z :=
  match v with
  | VInt z => if 0 <=? z then Ok z else Err errScan
  | _ => match scanText v with
         | Ok b => match ParseUint10 b 64 with Ok z => Ok z | Err _ => Err errScan end
         | Err e => Err e
         end
  end.

Definition scanFloat64 (v : value) : res error float64 :=
  match v with
  | VReal q => Ok q
  | VInt z => Ok (QArith_base.inject_Z z)
  | _ => Err errScan
  end.

End Scan.

(** ** Connections and transactions

    [committed] is what a query on the pool sees, [tx] the uncommitted content
    of the open transaction. *)
Section Connection.
Context {R : Driver}.

Record Conn := {
  committed : tables;
  tx : option tables;
  script : list outcome }.

Definition connect_to (t : tables) (o : list outcome) : Conn :=
  {| committed := t; tx := None; script := o |}.

(** An operation leaves a state whether it returns, fails or panics. *)
Definition DB (A : Type) : Type := Conn -> Conn * go (res error A).

#[global] Instance DB_ret : MRet DB := fun A a c => (c, Ret (Ok a)).
#[global] Instance DB_bind : MBind DB := fun A B f m c =>
  match m c with
  | (c', Ret (Ok a)) => f a c'
  | (c', Ret (Err e)) => (c', Ret (Err e))
  | (c', Panic) => (c', Panic)
  end.

Definition fail {A} (e : error) : DB A := fun c => (c, Ret (Err e)).
Definition panic {A} : DB A := fun c => (c, Panic).
Definition lift {A} (r : res error A) : DB A := fun c => (c, Ret r).

(** [if err != nil { return errors.Wrap(err, msg) }]. *)
Definition wrap {A} (m : DB A) (msg : bytes) : DB A := fun c =>
  match m c with
  | (c', Ret (Err e)) => (c', Ret (Err (ErrWrap e msg)))
  | r => r
  end.

(** The result of [m] as a value, for code that looks at the error itself. *)
Definition try {A} (m : DB A) : DB (res error A) := fun c =>
  match m c with
  | (c', Ret r) => (c', Ret (Ok r))
  | (c', Panic) => (c', Panic)
  end.

Definition next_outcome (c : Conn) : outcome * Conn :=
  match script c with
  | [] => (Fine, c)
  | o :: os => (o, {| committed := committed c; tx := tx c; script := os |})
  end.

(** The answer of the driver under an outcome. *)
Definition deliver (o : outcome) (r : res error (list (list value))) : res error Rows :=
  match o, r with
  | Fails e, _ => Err e
  | _, Err e => Err e
  | Fine, Ok vs => Ok {| r_rows := vs; r_err := None |}
  | Breaks n e, Ok vs => Ok {| r_rows := take n vs; r_err := Some e |}
  end.

Definition perform {T} (o : outcome) (r : res error T) : res error T :=
  match o with Fine => r | Fails e | Breaks _ e => Err e end.

(** sql.DB.Query, sql.DB.Exec, sql.DB.Ping and sql.DB.Close. *)
Definition conn_Query (sql : bytes) (args : list arg) : DB Rows := fun c =>
  match convertArgs args with
  | Err e => (c, Ret (Err e))
  | Ok vs => let '(o, c) := next_outcome c in (c, Ret (deliver o (query (committed c) sql vs)))
  end.

Definition conn_Exec (sql : bytes) (args : list arg) : DB Z := fun c =>
  match convertArgs args with
  | Err e => (c, Ret (Err e))
  | Ok vs =>
      let '(o, c) := next_outcome c in
      match perform o (exec (committed c) sql vs) with
      | Ok (t, n) => ({| committed := t; tx := tx c; script := script c |}, Ret (Ok n))
      | Err e => (c, Ret (Err e))
      end
  end.

Definition conn_Ping : DB unit := fun c =>
  let '(o, c) := next_outcome c in (c, Ret (perform o (Ok tt))).

Definition conn_Close : DB unit := fun c =>
  let '(o, c) := next_outcome c in (c, Ret (perform o (Ok tt))).

Definition ErrTxDone : error :=
  ErrText (str "sql: transaction has already been committed or rolled back").

Definition set_tx (t : option tables) (c : Conn) : Conn :=
  {| committed := committed c; tx := t; script := script c |}.

Definition conn_Begin : DB unit := fun c =>
  let '(o, c) := next_outcome c in
  match perform o (Ok tt) with
  | Ok _ => (set_tx (Some (committed c)) c, Ret (Ok tt))
  | Err e => (c, Ret (Err e))
  end.

(** sql.Tx.Exec: a failing statement has no effect. *)
Definition tx_Exec (sql : bytes) (args : list arg) : DB Z := fun c =>
  match tx c, convertArgs args with
  | None, _ => (c, Ret (Err ErrTxDone))
  | _, Err e => (c, Ret (Err e))
  | Some t, Ok vs =>
      let '(o, c) := next_outcome c in
      match perform o (exec t sql vs) with
      | Ok (t', n) => (set_tx (Some t') c, Ret (Ok n))
      | Err e => (c, Ret (Err e))
      end
  end.

(** sql.Result.LastInsertId of a statement that gave [n]. *)
Definition result_LastInsertId (n : Z) : DB Z := fun c =>
  let '(o, c) := next_outcome c in (c, Ret (perform o (Ok n))).

Definition tx_Query (sql : bytes) (args : list arg) : DB Rows := fun c =>
  match tx c, convertArgs args with
  | None, _ => (c, Ret (Err ErrTxDone))
  | _, Err e => (c, Ret (Err e))
  | Some t, Ok vs => let '(o, c) := next_outcome c in (c, Ret (deliver o (query t sql vs)))
  end.

(** A failing Commit leaves nothing committed. *)
Definition tx_Commit : DB unit := fun c =>
  match tx c with
  | None => (c, Ret (Err ErrTxDone))
  | Some t =>
      let '(o, c) := next_outcome c in
      match perform o (Ok tt) with
      | Ok _ => ({| committed := t; tx := None; script := script c |}, Ret (Ok tt))
      | Err e => (set_tx None c, Ret (Err e))
      end
  end.

(** [defer tx.Rollback()]: it also runs when the body panics. *)
Definition defer_Rollback {A} (m : DB A) : DB A := fun c =>
  let '(c, r) := m c in (set_tx None c, r).

(** [defer closeRows(rows)], where [rows] is nil after a failed query: Close on
    a nil pointer panics. *)
Definition closeRows (rows : res error Rows) : go unit :=
  match rows with Ok _ => Ret tt | Err _ => Panic end.

Definition defer_closeRows {A} (rows : res error Rows) (m : DB A) : DB A := fun c =>
  let '(c, r) := m c in (c, let! r := r in let! _ := closeRows rows in Ret r).

(** Closing rows before their end can fail in the driver. *)
Definition rows_Close : DB unit := fun c =>
  let '(o, c) := next_outcome c in (c, Ret (perform o (Ok tt))).

(** Whether a query has a row, as the engines ask it. An error of the rows after
    a Next that found none is lost: the [err] that is returned is nil there. *)
Definition rowExists (sql : bytes) (args : list arg) : DB bool :=
  rows ← conn_Query sql args;
  let '(next, rows) := rows_Next rows in
  match rows_Err next rows with
  | Some _ => mret false
  | None => mret (match next with Some _ => true | None => false end)
  end.

(** [for _, x := range xs { m }] *)
Fixpoint for_each {X} (xs : list X) (m : X -> DB unit) : DB unit :=
  match xs with
  | [] => mret tt
  | x :: xs => _ ← m x; for_each xs m
  end.

(** ** Reasoning about operations

    [quiet c c']: nothing was committed, and no failures remain if there were
    none. Each operation either fails, which needs a failure of the outside
    world or of the statement, or has its effect. *)
Definition quiet (c c' : Conn) : Prop :=
  committed c' = committed c /\ (script c = [] -> script c' = []).

Lemma quiet_refl c : quiet c c.
Proof. done. Qed.

Lemma quiet_trans c1 c2 c3 : quiet c1 c2 -> quiet c2 c3 -> quiet c1 c3.
Proof. intros [H1 H2] [H3 H4]. split; [congruence|auto]. Qed.

Lemma bind_ok {A B} (m : DB A) (f : A -> DB B) c c' a :
  m c = (c', Ret (Ok a)) -> (m ≫= f) c = f a c'.
Proof. unfold mbind, DB_bind. by intros ->. Qed.

Lemma bind_err {A B} (m : DB A) (f : A -> DB B) c c' e :
  m c = (c', Ret (Err e)) -> (m ≫= f) c = (c', Ret (Err e)).
Proof. unfold mbind, DB_bind. by intros ->. Qed.

Lemma wrap_ok {A} (m : DB A) msg c c' a :
  m c = (c', Ret (Ok a)) -> wrap m msg c = (c', Ret (Ok a)).
Proof. unfold wrap. by intros ->. Qed.

Lemma wrap_err {A} (m : DB A) msg c c' e :
  m c = (c', Ret (Err e)) -> wrap m msg c = (c', Ret (Err (ErrWrap e msg))).
Proof. unfold wrap. by intros ->. Qed.

Lemma try_eq {A} (m : DB A) c c' r : m c = (c', Ret r) -> try m c = (c', Ret (Ok r)).
Proof. unfold try. by intros ->. Qed.

Lemma next_outcome_run c :
  exists o c', next_outcome c = (o, c') /\ quiet c c' /\ tx c' = tx c /\ (script c = [] -> o = Fine).
Proof.
  unfold next_outcome. destruct (script c) as [|o os] eqn:E.
  - exists Fine, c. split_and!; [done|apply quiet_refl|done|done].
  - eexists o, _. split_and!; [done|split; [done|by rewrite E]|done|done].
Qed.

(** [attempt m c P]: on [c], [m] does not panic and commits nothing; it fails
    only if the outside world does, and otherwise its result satisfies [P]. *)
Definition attempt {A} (m : DB A) (c : Conn) (P : A -> Conn -> Prop) : Prop :=
  exists c' r, m c = (c', Ret r) /\ quiet c c' /\
    ((exists e, r = Err e /\ script c <> []) \/ exists a, r = Ok a /\ P a c').

Lemma attempt_ret {A} (a : A) c (P : A -> Conn -> Prop) : P a c -> attempt (mret a) c P.
Proof. intros H. exists c, (Ok a). split_and!; [done..|]. right. by exists a. Qed.

Lemma attempt_bind {A B} (m : DB A) (f : A -> DB B) c P Q :
  attempt m c P -> (forall a c', P a c' -> attempt (f a) c' Q) -> attempt (m ≫= f) c Q.
Proof.
  intros (c1 & r & Hm & Hq & [(e & -> & Hs)|(a & -> & Ha)]) Hf.
  - exists c1, (Err e). rewrite (bind_err _ _ _ _ _ Hm). split_and!; [done..|]. left. by exists e.
  - destruct (Hf a c1 Ha) as (c2 & r & Hr & Hq2 & HH). exists c2, r.
    rewrite (bind_ok _ _ _ _ _ Hm). split_and!; [done|by eapply quiet_trans|].
    destruct HH as [(e & -> & Hs)|?]; [left|by right]. exists e. split; [done|].
    intros E. by apply Hs, Hq.
Qed.

Lemma attempt_wrap {A} (m : DB A) msg c P : attempt m c P -> attempt (wrap m msg) c P.
Proof.
  intros (c1 & r & Hm & Hq & [(e & -> & Hs)|(a & -> & Ha)]).
  - eexists c1, _. rewrite (wrap_err _ _ _ _ _ Hm). split_and!; [done..|]. left. by eexists.
  - eexists c1, _. rewrite (wrap_ok _ _ _ _ _ Hm). split_and!; [done..|]. right. by exists a.
Qed.

Lemma attempt_mono {A} (m : DB A) c (P Q : A -> Conn -> Prop) :
  attempt m c P -> (forall a c', P a c' -> Q a c') -> attempt m c Q.
Proof.
  intros (c1 & r & Hm & Hq & HH) H. exists c1, r. split_and!; [done..|].
  destruct HH as [?|(a & -> & Ha)]; [by left|right]. by eauto.
Qed.

Lemma conn_Begin_run c :
  (exists e c', conn_Begin c = (c', Ret (Err e)) /\ quiet c c' /\ tx c' = tx c /\ script c <> []) \/
  (exists c', conn_Begin c = (c', Ret (Ok tt)) /\ quiet c c' /\ tx c' = Some (committed c)).
Proof.
  unfold conn_Begin. destruct (next_outcome_run c) as (o & c' & -> & Hq & Ht & Ho).
  destruct o as [|e|n e]; cbn [perform];
    [right; eexists; split_and!; [done|by destruct Hq|simpl; by rewrite (proj1 Hq)]|left..];
    exists e, c'; (split_and!; [done|done|done|]); intros E; by specialize (Ho E).
Qed.

Lemma LastInsertId_run n c :
  (exists e c', result_LastInsertId n c = (c', Ret (Err e)) /\ quiet c c' /\ script c <> []) \/
  (exists c', result_LastInsertId n c = (c', Ret (Ok n)) /\ quiet c c' /\ tx c' = tx c).
Proof.
  unfold result_LastInsertId. destruct (next_outcome_run c) as (o & c' & -> & Hq & Ht & Ho).
  destruct o as [|e|k e]; cbn [perform]; [right; by exists c'|left..];
    exists e, c'; (split_and!; [done|done|]); intros E; by specialize (Ho E).
Qed.

Lemma tx_Exec_run sql args vs c t :
  tx c = Some t -> convertArgs args = Ok vs ->
  (exists e c', tx_Exec sql args c = (c', Ret (Err e)) /\ quiet c c' /\
     (script c <> [] \/ exec t sql vs = Err e)) \/
  (exists t' n c', exec t sql vs = Ok (t', n) /\ tx_Exec sql args c = (c', Ret (Ok n)) /\
     quiet c c' /\ tx c' = Some t').
Proof.
  intros Ht Ha. unfold tx_Exec. rewrite Ht, Ha.
  destruct (next_outcome_run c) as (o & c' & -> & Hq & _ & Ho).
  destruct o as [|e|n e]; cbn [perform].
  - destruct (exec t sql vs) as [[t' n]|e]; [right|left].
    + eexists t', n, _. by split_and!.
    + exists e, c'. split_and!; auto.
  - left. exists e, c'. split_and!; [done|done|]. left. intros E. by specialize (Ho E).
  - left. exists e, c'. split_and!; [done|done|]. left. intros E. by specialize (Ho E).
Qed.

(** A statement that the database accepts. *)
Lemma attempt_Exec sql args vs c t t' n :
  tx c = Some t -> convertArgs args = Ok vs -> exec t sql vs = Ok (t', n) ->
  attempt (tx_Exec sql args) c (fun m c' => m = n /\ tx c' = Some t').
Proof.
  intros Ht Ha Hx. destruct (tx_Exec_run sql args vs c t Ht Ha)
    as [(e & c1 & He & Hq & Hs)|(t2 & n2 & c1 & Hx2 & He & Hq & Ht1)].
  - exists c1, (Err e). split_and!; [done..|]. left. exists e. split; [done|]. destruct Hs; congruence.
  - rewrite Hx in Hx2. injection Hx2 as <- <-. exists c1, (Ok n). split_and!; [done..|]. right.
    by exists n.
Qed.

Lemma conn_Query_run sql args vs c :
  convertArgs args = Ok vs ->
  exists o c', conn_Query sql args c = (c', Ret (deliver o (query (committed c) sql vs))) /\
    quiet c c' /\ tx c' = tx c /\ (script c = [] -> o = Fine).
Proof.
  intros Ha. unfold conn_Query. rewrite Ha.
  destruct (next_outcome_run c) as (o & c' & -> & Hq & Ht & Ho).
  exists o, c'. split_and!; [by rewrite (proj1 Hq)|done..].
Qed.

Lemma rowExists_run sql args vs rows c :
  convertArgs args = Ok vs -> query (committed c) sql vs = Ok rows ->
  exists c' r, rowExists sql args c = (c', Ret r) /\ quiet c c' /\ tx c' = tx c /\
    (r = Ok true -> rows <> []) /\
    (script c = [] -> r = Ok (match rows with [] => false | _ => true end)).
Proof.
  intros Ha Hr. destruct (conn_Query_run sql args vs c Ha) as (o & c1 & Hq & Hc & Ht & Ho).
  rewrite Hr in Hq. unfold rowExists. destruct o as [|e|n e]; cbn [deliver] in Hq.
  - rewrite (bind_ok _ _ _ _ _ Hq). destruct rows as [|r rs]; by eexists c1, _.
  - rewrite (bind_err _ _ _ _ _ Hq). eexists c1, _. split_and!; [done..|]. intros E. by specialize (Ho E).
  - rewrite (bind_ok _ _ _ _ _ Hq). destruct rows as [|r rs], n as [|n]; eexists c1, _;
      (split_and!; [done|done|done| |intros E; by specialize (Ho E)]); done.
Qed.

Lemma tx_Query_run sql args vs c t :
  tx c = Some t -> convertArgs args = Ok vs ->
  exists o c', tx_Query sql args c = (c', Ret (deliver o (query t sql vs))) /\
    quiet c c' /\ tx c' = tx c /\ (script c = [] -> o = Fine).
Proof.
  intros Ht Ha. unfold tx_Query. rewrite Ha, Ht.
  destruct (next_outcome_run c) as (o & c' & -> & Hq & Ht' & Ho).
  exists o, c'. split_and!; [done|done|congruence|done].
Qed.

Lemma conn_Exec_run sql args vs c :
  convertArgs args = Ok vs ->
  (exists e c', conn_Exec sql args c = (c', Ret (Err e)) /\ quiet c c' /\ tx c' = tx c /\
     (script c <> [] \/ exec (committed c) sql vs = Err e)) \/
  (exists t n c', exec (committed c) sql vs = Ok (t, n) /\ conn_Exec sql args c = (c', Ret (Ok n)) /\
     committed c' = t /\ tx c' = tx c /\ (script c = [] -> script c' = [])).
Proof.
  intros Ha. unfold conn_Exec. rewrite Ha.
  destruct (next_outcome_run c) as (o & c' & -> & Hq & Ht & Ho).
  destruct o as [|e|n e]; cbn [perform]; rewrite ?(proj1 Hq).
  - destruct (exec (committed c) sql vs) as [[t n]|e]; [right|left].
    + eexists t, n, _. split_and!; [done|done|done|done|apply Hq].
    + exists e, c'. split_and!; auto.
  - left. exists e, c'. split_and!; [done|done|done|]. left. intros E. by specialize (Ho E).
  - left. exists e, c'. split_and!; [done|done|done|]. left. intros E. by specialize (Ho E).
Qed.

Lemma tx_Commit_run c t :
  tx c = Some t ->
  (exists e c', tx_Commit c = (c', Ret (Err e)) /\ quiet c c' /\ script c <> []) \/
  (exists c', tx_Commit c = (c', Ret (Ok tt)) /\ committed c' = t).
Proof.
  intros Ht. unfold tx_Commit. rewrite Ht.
  destruct (next_outcome_run c) as (o & c' & -> & Hq & _ & Ho).
  destruct o as [|e|n e]; cbn [perform]; [by right; eexists|left..];
    (eexists e, _; split_and!; [done|done|]); intros E; by specialize (Ho E).
Qed.

End Connection.

(** ** text/template: verbatim text, fields, conditionals and sequences *)
Inductive template (D : Type) : Type :=
  | Text (b : bytes)
  | Action (f : D -> bytes)
  | IfElse (c : D -> bool) (t e : template D)
  | Cat (t u : template D).
Arguments Text {D} b.
Arguments Action {D} f.
Arguments IfElse {D} c t e.
Arguments Cat {D} t u.

Infix "<+>" := Cat (at level 60, right associativity) : go_scope.

Fixpoint executeTemplate {D} (t : template D) (d : D) : bytes :=
  match t with
  | Text b => b
  | Action f => f d
  | IfElse c t e => if c d then executeTemplate t d else executeTemplate e d
  | Cat t u => executeTemplate t d ++ executeTemplate u d
  end.
