(* ===== verification/Keyset.v ===== *)
(** Keyset pagination: rows ordered by a value with ties broken by an
    identifier, pages that resume after the last row of the page before, and the
    client loop of torrents.js that asks for page after page. *)

From S2P Require Import Prelude Persistence.
From Stdlib Require Import ZArith Lia QArith_base Lqa.
From stdpp Require Import base list sorting.
Local Open Scope Z_scope.

(** ** The order of SQL's [ORDER BY value, id] and [(value, id) > (?, ?)] *)

Abbreviation key := (float64 * Z)%type.

Definition key_compare (a b : key) : comparison :=
  match Qcompare a.1 b.1 with Eq => a.2 ?= b.2 | c => c end.

(** [a] comes before [b]. *)
Definition before (asc : bool) (a b : key) : bool :=
  match key_compare a b with Lt => asc | Gt => negb asc | Eq => false end.

Lemma key_compare_spec a b :
  match key_compare a b with
  | Lt => (a.1 < b.1)%Q \/ (a.1 == b.1)%Q /\ a.2 < b.2
  | Eq => (a.1 == b.1)%Q /\ a.2 = b.2
  | Gt => (b.1 < a.1)%Q \/ (a.1 == b.1)%Q /\ b.2 < a.2
  end.
Proof.
  unfold key_compare. destruct (Qcompare_spec a.1 b.1); [|by left..].
  destruct (Z.compare_spec a.2 b.2); auto.
Qed.

(** Case analysis on the comparisons of a goal about [before]. *)
Ltac key_cases :=
  unfold before in *;
  repeat match goal with
  | |- context [key_compare ?a ?b] =>
      let H := fresh in pose proof (key_compare_spec a b) as H; destruct (key_compare a b)
  | H : context [key_compare ?a ?b] |- _ =>
      let H' := fresh in pose proof (key_compare_spec a b) as H'; destruct (key_compare a b)
  end; simpl in *; try discriminate.

Lemma before_irrefl asc a : before asc a a = false.
Proof. destruct asc; key_cases; auto; exfalso; destruct H as [?|[? ?]]; (lra || lia). Qed.

Lemma before_asym asc a b : before asc a b = true -> before asc b a = false.
Proof.
  destruct asc; intros H; key_cases; auto; exfalso; intuition (try lra; try lia).
Qed.

Lemma before_trans asc a b c : before asc a b = true -> before asc b c = true -> before asc a c = true.
Proof.
  destruct asc; intros H1 H2; key_cases; auto; exfalso; intuition (try lra; try lia).
Qed.

Lemma before_total asc a b : before asc a b = false -> before asc b a = false -> a.2 = b.2.
Proof.
  destruct asc; intros H1 H2; key_cases; try lia; exfalso; intuition (try lra; try lia).
Qed.

(** Not coming after is transitive as well. *)
Lemma before_neg_trans asc a b c :
  before asc b a = false -> before asc c b = false -> before asc c a = false.
Proof.
  destruct asc; intros H1 H2; key_cases; auto; exfalso; intuition (try lra; try lia).
Qed.

Lemma filter_none {A} (P : A -> Prop) `{!forall a, Decision (P a)} l :
  Forall (fun a => ~ P a) l -> filter P l = [].
Proof. induction 1; [done|]. by rewrite filter_cons, decide_False. Qed.

Lemma filter_all {A} (P : A -> Prop) `{!forall a, Decision (P a)} l :
  Forall P l -> filter P l = l.
Proof. induction 1 as [|a l Ha _ IH]; [done|]. by rewrite filter_cons, decide_True, IH. Qed.

Section Rows.
Context {A : Type} (key_of : A -> key) (asc : bool).

Definition row_le (a b : A) : Prop := before asc (key_of b) (key_of a) = false.
Definition row_lt (a b : A) : Prop := before asc (key_of a) (key_of b) = true.

#[global] Instance row_le_dec a b : Decision (row_le a b).
Proof. unfold row_le. apply _. Defined.
#[local] Instance row_le_trans : Transitive row_le.
Proof. intros a b c. apply before_neg_trans. Qed.
#[local] Instance row_le_total : Total row_le.
Proof.
  intros a b. unfold row_le. destruct (before asc (key_of b) (key_of a)) eqn:E; [|by left].
  right. by apply before_asym.
Qed.

(** The rows in the order of the statement. *)
Definition ordered (l : list A) : list A := merge_sort row_le l.

(** Rows after a position, and the page that starts there. *)
Definition after (pos : option key) (a : A) : bool :=
  match pos with None => true | Some k => before asc k (key_of a) end.

Definition page (limit : nat) (pos : option key) (l : list A) : list A :=
  take limit (ordered (filter (fun a => after pos a = true) l)).

(** Rows are told apart by their identifiers. *)
Definition distinct_ids (l : list A) : Prop := NoDup (map (fun a => (key_of a).2) l).

Lemma distinct_ids_eq l a b :
  distinct_ids l -> a ∈ l -> b ∈ l -> (key_of a).2 = (key_of b).2 -> a = b.
Proof.
  intros Hn Ha Hb E. apply list_elem_of_lookup in Ha as [i Hi], Hb as [j Hj].
  assert (i = j) as ->; [|congruence].
  apply (NoDup_lookup _ i j (key_of a).2 Hn); rewrite list_lookup_fmap; [by rewrite Hi|].
  rewrite Hj. simpl. by rewrite E.
Qed.

Lemma distinct_ids_filter P `{!forall a, Decision (P a)} l :
  distinct_ids l -> distinct_ids (filter P l).
Proof.
  unfold distinct_ids. induction l as [|a l IH]; [done|]. intros [Ha Hn]%NoDup_cons.
  rewrite filter_cons. case_decide; [|by apply IH]. apply NoDup_cons. split; [|by apply IH].
  intros Hin. apply Ha. apply list_elem_of_fmap in Hin as (b & E & Hb).
  apply list_elem_of_filter in Hb as [_ Hb]. apply list_elem_of_fmap. by exists b.
Qed.

Lemma ordered_perm l : ordered l ≡ₚ l.
Proof. apply merge_sort_Permutation. Qed.

Lemma distinct_ids_perm l k : l ≡ₚ k -> distinct_ids l -> distinct_ids k.
Proof. unfold distinct_ids. by intros ->. Qed.

Lemma ordered_sorted l : StronglySorted row_le (ordered l).
Proof. apply (StronglySorted_merge_sort row_le). Qed.

Lemma row_le_antisym l a b :
  distinct_ids l -> a ∈ l -> b ∈ l -> row_le a b -> row_le b a -> a = b.
Proof.
  intros Hn Ha Hb H1 H2. apply (distinct_ids_eq l); [done..|]. symmetry. by apply (before_total asc).
Qed.

Lemma sorted_unique l k :
  distinct_ids l -> StronglySorted row_le l -> StronglySorted row_le k -> l ≡ₚ k -> l = k.
Proof.
  intros Hn Hl Hk Hp. apply (StronglySorted_unique_strong row_le); try done.
  intros a b Ha Hb. apply (row_le_antisym l); [done..|]. by rewrite Hp.
Qed.

Lemma sorted_filter P `{!forall a, Decision (P a)} l :
  StronglySorted row_le l -> StronglySorted row_le (filter P l).
Proof.
  induction 1 as [|a l Hl IH Ha]; [constructor|]. rewrite filter_cons. case_decide; [|done].
  constructor; [done|]. rewrite Forall_forall in *. intros b [_ Hb]%list_elem_of_filter. by apply Ha.
Qed.

(** Selecting before or after sorting gives the same. *)
Lemma ordered_filter P `{!forall a, Decision (P a)} l :
  distinct_ids l -> ordered (filter P l) = filter P (ordered l).
Proof.
  intros Hn. apply sorted_unique.
  - eapply distinct_ids_perm; [symmetry; apply ordered_perm|]. by apply distinct_ids_filter.
  - apply ordered_sorted.
  - apply sorted_filter, ordered_sorted.
  - rewrite ordered_perm. by rewrite (ordered_perm l).
Qed.

Lemma sorted_strict l :
  distinct_ids l -> StronglySorted row_le l -> StronglySorted row_lt l.
Proof.
  induction l as [|a l IH]; intros Hn Hs; [constructor|].
  apply StronglySorted_inv in Hs as [Hs Ha].
  pose proof Hn as Hn'. apply NoDup_cons in Hn' as [_ Hn']. constructor; [by apply IH|].
  rewrite Forall_forall in *. intros b Hb. specialize (Ha b Hb). unfold row_lt, row_le in *.
  destruct (before asc (key_of a) (key_of b)) eqn:E; [done|]. exfalso.
  assert (a = b) as -> by (apply (row_le_antisym (a :: l)); [done|left|by right|done..]).
  apply NoDup_cons in Hn as [Hni _]. apply Hni. apply list_elem_of_fmap. by exists b.
Qed.

(** The rows after a row of a strictly sorted list are those that follow it. *)
Lemma after_split u x v :
  StronglySorted row_lt (u ++ x :: v) ->
  filter (fun a => after (Some (key_of x)) a = true) (u ++ x :: v) = v.
Proof.
  intros Hs. apply StronglySorted_app in Hs as (Huv & _ & Hxv).
  apply StronglySorted_inv in Hxv as [_ Hxv]. rewrite filter_app, filter_cons. simpl.
  rewrite decide_False by (by rewrite before_irrefl).
  rewrite (filter_none _ u), (filter_all _ v); [done| |].
  - done.
  - apply Forall_forall. intros a Ha. rewrite not_true_iff_false. apply before_asym.
    apply (Huv a x); [done|left].
Qed.

(** A page that resumes after the rows seen so far shows the next rows. *)
Lemma page_next l u v limit :
  distinct_ids l -> ordered l = u ++ v -> page limit (key_of <$> last u) l = take limit v.
Proof.
  intros Hn Hl. unfold page. rewrite (ordered_filter _ l Hn), Hl. f_equal.
  assert (StronglySorted row_lt (u ++ v)) as Hs.
  { rewrite <- Hl. apply sorted_strict, ordered_sorted.
    eapply distinct_ids_perm; [symmetry; apply ordered_perm|done]. }
  destruct (decide (u = [])) as [->|Hu]; [by apply filter_all, Forall_forall|].
  destruct (exists_last Hu) as (u' & x & ->). rewrite last_snoc. simpl.
  rewrite <- app_assoc in *. by apply after_split.
Qed.
End Rows.
