(* ===== verification/TorrentTables.v ===== *)
(** The tables torrents and files that both SQL engines keep, the map from info
    hashes to names and file lists they stand for, and the abstract operation
    that AddNewTorrent implements. *)

From S2P Require Import Prelude GoLib Persistence Sql Keyset.
From Stdlib Require Import ZArith Lia.
From stdpp Require Import base list gmap.
Local Open Scope Z_scope.

(** ** Tables

    The columns the program reads. Only SQLite, from version 3 of its schema on,
    has a column modified_on; for PostgreSQL the field repeats discovered_on. *)
Record torrentRow := {
  tr_id : Z;
  tr_info_hash : bytes;
  tr_name : bytes;
  tr_total_size : Z;
  tr_discovered_on : Z;
  tr_modified_on : Z }.

Record fileRow := {
  fr_torrent_id : Z;
  fr_size : Z;
  fr_path : bytes }.

Definition files_of (files : list fileRow) (id : Z) : list fileRow :=
  filter (fun f => fr_torrent_id f = id) files.

Definition n_files (files : list fileRow) (r : torrentRow) : Z := len (files_of files (tr_id r)).

Definition with_hash (rows : list torrentRow) (ih : bytes) : list torrentRow :=
  filter (fun r => tr_info_hash r = ih) rows.

Definition new_row (id : Z) (ih name : bytes) (size now : Z) : torrentRow :=
  {| tr_id := id; tr_info_hash := ih; tr_name := name; tr_total_size := size;
     tr_discovered_on := now; tr_modified_on := now |}.

Definition new_file (id : Z) (f : File) : fileRow :=
  {| fr_torrent_id := id; fr_size := f_Size f; fr_path := f_Path f |}.

(** The uint64 total of the sizes of the files, as both engines compute it. *)
Fixpoint totalSize (total : Z) (files : list File) : Z :=
  match files with
  | [] => total
  | file :: files => totalSize (to_u64 (total + to_u64 (f_Size file))) files
  end.

(** The uint64 total is the sum of the sizes modulo 2^64. *)
Definition sum_sizes (files : list File) : Z := foldr (fun f acc => f_Size f + acc) 0 files.

Lemma totalSize_eq total files : totalSize total files = to_u64 (total + sum_sizes files) \/ files = [].
Proof.
  revert total. induction files as [|f files IH]; intros total; [by right|]. left. simpl.
  destruct (IH (to_u64 (total + to_u64 (f_Size f)))) as [-> | ->].
  - rewrite to_u64_add_l. unfold to_u64. rewrite Z.add_assoc.
    rewrite <- (Zplus_mod_idemp_l (total + _)), Zplus_mod_idemp_r, Zplus_mod_idemp_l. done.
  - simpl. unfold to_u64. by rewrite Z.add_0_r, Zplus_mod_idemp_r.
Qed.

Lemma totalSize_0 files : totalSize 0 files = to_u64 (sum_sizes files).
Proof. by destruct (totalSize_eq 0 files) as [-> | ->]. Qed.

Lemma with_hash_nil rows ih : with_hash rows ih = [] <-> ih ∉ map tr_info_hash rows.
Proof.
  unfold with_hash. split.
  - intros H Hin. apply list_elem_of_fmap in Hin as (r & -> & Hr).
    apply (not_elem_of_nil r). rewrite <- H. by apply list_elem_of_filter.
  - intros Hin. apply filter_none, Forall_forall. intros r Hr E. apply Hin.
    apply list_elem_of_fmap. by exists r.
Qed.

Lemma with_hash_unique rows r :
  NoDup (map tr_info_hash rows) -> r ∈ rows -> with_hash rows (tr_info_hash r) = [r].
Proof.
  unfold with_hash. induction rows as [|x rows IH]; intros Hn Hr; [by apply elem_of_nil in Hr|]. cbn [map] in Hn.
  apply NoDup_cons in Hn as [Hx Hn]. rewrite filter_cons. apply elem_of_cons in Hr as [->|Hr].
  - rewrite decide_True by done. f_equal. by apply with_hash_nil.
  - rewrite decide_False; [by apply IH|]. intros E. apply Hx. rewrite E. by apply list_elem_of_fmap_2.
Qed.

(** The existence query of the engines finds exactly the stored info hashes,
    unless its rows break off. *)
Lemma rowExists_hash `{Driver} sql rows ih c :
  query (committed c) sql [VBlob ih] = Ok (map (fun _ => [VInt 1]) (with_hash rows ih)) ->
  exists c' r, rowExists sql [ABytes ih] c = (c', Ret r) /\ quiet c c' /\ tx c' = tx c /\
    (r = Ok true -> ih ∈ map tr_info_hash rows) /\
    (script c = [] -> r = Ok (bool_decide (ih ∈ map tr_info_hash rows))).
Proof.
  intros Hq. pose proof (with_hash_nil rows ih) as Hnil.
  destruct (rowExists_run sql [ABytes ih] [VBlob ih] _ c eq_refl Hq)
    as (c' & r & H1 & H2 & H3 & H4 & H5).
  exists c', r. split_and!; [done..| |].
  - intros E. apply dec_stable. intros Hin%Hnil. specialize (H4 E). by rewrite Hin in H4.
  - intros E. rewrite (H5 E). f_equal. destruct (with_hash rows ih) eqn:Ew.
    + symmetry. apply bool_decide_eq_false. by apply Hnil.
    + symmetry. apply bool_decide_eq_true, dec_stable. intros Hin. by apply Hnil in Hin.
Qed.

(** ** The map the tables stand for *)

Definition file_of (f : fileRow) : File := {| f_Size := fr_size f; f_Path := fr_path f |}.

Definition entry (files : list fileRow) (r : torrentRow) : bytes * (bytes * list File) :=
  (tr_info_hash r, (tr_name r, map file_of (files_of files (tr_id r)))).

Definition torrents_of (rows : list torrentRow) (files : list fileRow)
    : gmap bytes (bytes * list File) :=
  list_to_map (map (entry files) rows).

(** Identifiers and info hashes are unique, and files belong to torrents. *)
Record keys_ok (rows : list torrentRow) (files : list fileRow) : Prop := {
  ko_ids : NoDup (map tr_id rows);
  ko_hashes : NoDup (map tr_info_hash rows);
  ko_files : Forall (fun f => fr_torrent_id f ∈ map tr_id rows) files }.

Lemma files_of_app files files' id : files_of (files ++ files') id = files_of files id ++ files_of files' id.
Proof. apply filter_app. Qed.

Lemma files_of_new id id' files :
  files_of (map (new_file id) files) id' = if decide (id = id') then map (new_file id) files else [].
Proof.
  unfold files_of. case_decide as E.
  - apply filter_all, Forall_map, Forall_true. done.
  - apply filter_none, Forall_map, Forall_true. done.
Qed.

Lemma files_of_none rows files id :
  keys_ok rows files -> id ∉ map tr_id rows -> files_of files id = [].
Proof.
  intros Hk Hid. apply filter_none. eapply Forall_impl; [apply (ko_files _ _ Hk)|].
  intros f Hf E. apply Hid. by rewrite <- E.
Qed.

Lemma files_of_added rows files id fs :
  keys_ok rows files -> id ∉ map tr_id rows ->
  files_of (files ++ map (new_file id) fs) id = map (new_file id) fs.
Proof.
  intros Hk Hid.
  by rewrite files_of_app, (files_of_none rows files id Hk Hid), files_of_new, decide_True.
Qed.

Lemma map_file_of id files : map file_of (map (new_file id) files) = files.
Proof. induction files as [|[sz pa] files IH]; [done|]. simpl. by rewrite IH. Qed.

Lemma entry_keys files rows : map fst (map (entry files) rows) = map tr_info_hash rows.
Proof. by rewrite map_map. Qed.

Lemma torrents_None rows files ih : ih ∉ map tr_info_hash rows <-> torrents_of rows files !! ih = None.
Proof. rewrite <- (entry_keys files). apply not_elem_of_list_to_map. Qed.

(** A new torrent and its files under a fresh identifier. *)
Lemma keys_ok_add rows files id ih name size now fs :
  keys_ok rows files -> id ∉ map tr_id rows -> ih ∉ map tr_info_hash rows ->
  keys_ok (rows ++ [new_row id ih name size now]) (files ++ map (new_file id) fs).
Proof.
  intros [H1 H2 H3] Hid Hih. split; rewrite map_app.
  - apply NoDup_app. split_and!; [done| |apply NoDup_singleton].
    intros x Hx ->%list_elem_of_singleton. done.
  - apply NoDup_app. split_and!; [done| |apply NoDup_singleton].
    intros x Hx ->%list_elem_of_singleton. done.
  - apply Forall_app_2.
    + eapply Forall_impl; [exact H3|]. intros f Hf. apply elem_of_app. by left.
    + apply Forall_map, Forall_true. intros f. apply elem_of_app. right. by left.
Qed.

Lemma torrents_of_add rows files id ih name size now fs :
  keys_ok rows files -> id ∉ map tr_id rows -> ih ∉ map tr_info_hash rows ->
  torrents_of rows files !! ih = None /\
  torrents_of (rows ++ [new_row id ih name size now]) (files ++ map (new_file id) fs) =
  <[ih := (name, fs)]> (torrents_of rows files).
Proof.
  intros Hk Hid Hih. split; [by apply torrents_None|].
  unfold torrents_of. rewrite map_app. cbn [map].
  replace (map (entry (files ++ map (new_file id) fs)) rows) with (map (entry files) rows).
  - unfold entry at 2. cbn [tr_info_hash tr_name tr_id new_row].
    rewrite (files_of_added rows files id fs Hk Hid), map_file_of. apply list_to_map_snoc.
    change (ih ∉ map fst (map (entry files) rows)). by rewrite entry_keys.
  - apply map_ext_in. intros r Hin%list_elem_of_In. unfold entry. do 3 f_equal.
    rewrite files_of_app, files_of_new, decide_False, app_nil_r; [done|].
    intros ->. apply Hid. apply list_elem_of_fmap. by exists r.
Qed.

(** The abstract operation on names and file lists by info hash. *)
Inductive abstract_add (ih name : bytes) (files : list File) (m : gmap bytes (bytes * list File))
    : gmap bytes (bytes * list File) -> res error unit -> Prop :=
  | aa_skip : abstract_add ih name files m m (Ok tt)
  | aa_fail e : abstract_add ih name files m m (Err e)
  | aa_add : m !! ih = None -> abstract_add ih name files m (<[ih := (name, files)]> m) (Ok tt).
