(* ===== verification/Sqlite3.v ===== *)
(** pkg/persistence/sqlite3.go: the SQLite engine. The statements are the
    texts of the source; what SQLite makes of them is described by the laws of
    Sqlite3Laws.v. *)

From S2P Require Import Prelude GoLib GoTime Iso8601 Persistence Sql TorrentTables.
From Stdlib Require Import ZArith Lia.
From stdpp Require Import base list gmap.
Local Open Scope Z_scope.

(** ** Statements *)

(** A double quote. *)
Definition dq : bytes := [Byte.x22].

Definition selectExists : bytes :=
  str "SELECT 1 FROM torrents WHERE info_hash = ?;".

Definition insertTorrent : bytes :=
  str "
		INSERT INTO torrents (
			info_hash,
			name,
			total_size,
			discovered_on
		) VALUES (?, ?, ?, ?);
	".

Definition insertFile : bytes :=
  str "INSERT INTO files (torrent_id, size, path) VALUES (?, ?, ?);".

Definition selectMaxRowid : bytes :=
  str "SELECT MAX(ROWID) FROM torrents;".

Definition selectTorrent : bytes :=
  str "
		SELECT
			info_hash,
			name,
			total_size,
			discovered_on,
			(SELECT COUNT(" ++ str "*" ++ str ") FROM files WHERE torrent_id = torrents.id) AS n_files
		FROM torrents
		WHERE info_hash = ?".

Definition selectFiles : bytes :=
  str "SELECT size, path FROM files, torrents WHERE files.torrent_id = torrents.id AND torrents.info_hash = ?;".

(** The result of fmt.Sprintf for a time format. *)
Definition selectStatistics (timef : bytes) : bytes :=
  str "
			SELECT strftime('" ++ timef ++
  str "', discovered_on, 'unixepoch') AS dT
                 , sum(files.size) AS tS
                 , count(DISTINCT torrents.id) AS nD              
                 , count(DISTINCT files.id) AS nF
			FROM torrents, files
 			WHERE     torrents.id = files.torrent_id
                  AND discovered_on >= ?
                  AND discovered_on <= ?
			GROUP BY dt;".

Definition pragmas : bytes :=
  str "
		PRAGMA journal_mode=WAL;
		PRAGMA temp_store=1;
		PRAGMA foreign_keys=ON;
		PRAGMA encoding='UTF-8';
	".

Definition schema0 : bytes :=
  str "
		CREATE TABLE IF NOT EXISTS torrents (
			id             INTEGER PRIMARY KEY,
			info_hash      BLOB NOT NULL UNIQUE,
			name           TEXT NOT NULL,
			total_size     INTEGER NOT NULL CHECK(total_size > 0),
			discovered_on  INTEGER NOT NULL CHECK(discovered_on > 0)
		);
		CREATE TABLE IF NOT EXISTS files (
			id          INTEGER PRIMARY KEY,
			torrent_id  INTEGER REFERENCES torrents ON DELETE CASCADE ON UPDATE RESTRICT,
			size        INTEGER NOT NULL,
			path        TEXT NOT NULL
		);
	".

Definition selectUserVersion : bytes :=
  str "PRAGMA user_version;".

Definition upgrade01 : bytes :=
  str "
			DROP INDEX IF EXISTS info_hash_index;
			CREATE UNIQUE INDEX info_hash_index ON torrents	(info_hash);
			PRAGMA user_version = 1;
		".

Definition upgrade12 : bytes :=
  str "
			ALTER TABLE torrents ADD COLUMN updated_on INTEGER CHECK (updated_on > 0) DEFAULT NULL;
			ALTER TABLE torrents ADD COLUMN n_seeders  INTEGER CHECK ((updated_on IS NOT NULL AND n_seeders >= 0) OR (updated_on IS NULL AND n_seeders IS NULL)) DEFAULT NULL;
			ALTER TABLE torrents ADD COLUMN n_leechers INTEGER CHECK ((updated_on IS NOT NULL AND n_leechers >= 0) OR (updated_on IS NULL AND n_leechers IS NULL)) DEFAULT NULL;

			ALTER TABLE files ADD COLUMN is_readme INTEGER CHECK (is_readme IS NULL OR is_readme=1) DEFAULT NULL;
			ALTER TABLE files ADD COLUMN content   TEXT    CHECK ((content IS NULL AND is_readme IS NULL) OR (content IS NOT NULL AND is_readme=1)) DEFAULT NULL;
			CREATE UNIQUE INDEX readme_index ON files (torrent_id, is_readme);

			PRAGMA user_version = 2;
		".

Definition upgrade23 : bytes :=
  str "
			CREATE VIRTUAL TABLE torrents_idx USING fts5(name, content='torrents', content_rowid='id', tokenize=" ++ dq ++ str "porter unicode61 separators ' !" ++ dq ++ dq ++ str "#$%&''()*+,-./:;<=>?@[\]^_`{|}~'" ++ dq ++ str ");
			
			-- Populate the index
			INSERT INTO torrents_idx(rowid, name) SELECT id, name FROM torrents;

			-- Triggers to keep the FTS index up to date.
			CREATE TRIGGER torrents_idx_ai_t AFTER INSERT ON torrents BEGIN
			  INSERT INTO torrents_idx(rowid, name) VALUES (new.id, new.name);
			END;
			CREATE TRIGGER torrents_idx_ad_t AFTER DELETE ON torrents BEGIN
			  INSERT INTO torrents_idx(torrents_idx, rowid, name) VALUES('delete', old.id, old.name);
			END;
			CREATE TRIGGER torrents_idx_au_t AFTER UPDATE ON torrents BEGIN
			  INSERT INTO torrents_idx(torrents_idx, rowid, name) VALUES('delete', old.id, old.name);
			  INSERT INTO torrents_idx(rowid, name) VALUES (new.id, new.name);
			END;

            -- Add column 'modified_on'
			-- BEWARE: code needs to be updated before January 1, 3000 (32503680000)!
			ALTER TABLE torrents ADD COLUMN modified_on INTEGER NOT NULL
				CHECK (modified_on >= discovered_on AND (updated_on IS NOT NULL OR modified_on >= updated_on))
				DEFAULT 32503680000
			;

			-- If 'modified_on' is not explicitly supplied, then it shall be set, by default, to
			-- 'discovered_on' right after the row is inserted to 'torrents'.
            --
			-- {WHEN expr} does NOT work for some reason (trigger doesn't get triggered), so we use
            --   AND NEW." ++ dq ++ str "modified_on" ++ dq ++ str " = 32503680000
            -- instead in the WHERE clause.
			CREATE TRIGGER " ++ dq ++ str "torrents_modified_on_default_t" ++ dq ++ str " AFTER INSERT ON " ++ dq ++ str "torrents" ++ dq ++ str " BEGIN
	          UPDATE " ++ dq ++ str "torrents" ++ dq ++ str " SET " ++ dq ++ str "modified_on" ++ dq ++ str " = NEW." ++ dq ++ str "discovered_on" ++ dq ++ str " WHERE " ++ dq ++ str "id" ++ dq ++ str " = NEW." ++ dq ++ str "id" ++ dq ++ str " AND NEW." ++ dq ++ str "modified_on" ++ dq ++ str " = 32503680000;
            END;

			-- Set 'modified_on' value of all rows to 'discovered_on' or 'updated_on', whichever is
            -- greater; beware that 'updated_on' can be NULL too.			
			UPDATE torrents SET modified_on = (SELECT MAX(discovered_on, IFNULL(updated_on, 0)));

			CREATE INDEX modified_on_index ON torrents (modified_on);

			PRAGMA user_version = 3;
		".

(** ** The statement of QueryTorrents *)

(** The data of its template. *)
Record queryData := {
  DoJoin : bool;
  FirstPage : bool;
  OrderOn : bytes;
  Ascending : bool }.

Definition GTEorLTE (ascending : bool) : bytes := if ascending then str ">" else str "<".
Definition AscOrDesc (ascending : bool) : bytes := if ascending then str "ASC" else str "DESC".

Definition queryTemplate : template queryData :=
  Text (str "
		SELECT id 
             , info_hash
			 , name
			 , total_size
			 , discovered_on
			 , (SELECT COUNT(" ++ str "*" ++ str ") FROM files WHERE torrents.id = files.torrent_id) AS n_files
	") <+>
  IfElse DoJoin
    (Text (str "
			 , idx.rank
	"))
    (Text (str "
			 , 0
	")) <+>
  Text (str "
		FROM torrents
	") <+>
  IfElse DoJoin
    (Text (str "
		INNER JOIN (
			SELECT rowid AS id
				 , bm25(torrents_idx) AS rank
			FROM torrents_idx
			WHERE torrents_idx MATCH ?
		) AS idx USING(id)
	"))
    (Text []) <+>
  Text (str "
		WHERE     modified_on <= ?
	") <+>
  IfElse (fun d => negb (FirstPage d))
    (Text (str "
			  AND ( ") <+>
  Action OrderOn <+>
  Text (str ", id ) ") <+>
  Action (fun d => GTEorLTE (Ascending d)) <+>
  Text (str " (?, ?) -- https://www.sqlite.org/rowvalue.html#row_value_comparisons
	"))
    (Text []) <+>
  Text (str "
		ORDER BY ") <+>
  Action OrderOn <+>
  Text (str " ") <+>
  Action (fun d => AscOrDesc (Ascending d)) <+>
  Text (str ", id ") <+>
  Action (fun d => AscOrDesc (Ascending d)) <+>
  Text (str "
		LIMIT ?;	
	").

(** ** The engine *)
Section Engine.
Context {R : Driver}.

Definition sqlite3_Engine : databaseEngine := Sqlite3.

Definition sqlite3_DoesTorrentExist (infoHash : bytes) : DB bool :=
  rowExists selectExists [ABytes infoHash].

Definition insertFiles (lastInsertId : Z) (files : list File) : DB unit :=
  for_each files (fun file =>
    _ ← wrap (tx_Exec insertFile [AInt64 lastInsertId; AInt64 (f_Size file); AString (f_Path file)])
          (str "tx.Exec (INSERT INTO files)");
    mret tt).

(** The new row, and its identifier; [now] is time.Now().Unix(). *)
Definition insertRow (now : Z) (infoHash name : bytes) (total : Z) : DB Z :=
  res ← wrap (tx_Exec insertTorrent [ABytes infoHash; AString name; AUint64 total; AInt64 now])
          (str "tx.Exec (INSERT OR REPLACE INTO torrents)");
  lastInsertId ← wrap (result_LastInsertId res) (str "sql.Result.LastInsertId");
  if lastInsertId <=? 0 then panic else mret lastInsertId.

(** The insertion and the commit. *)
Definition storeTorrent (now : Z) (infoHash name : bytes) (total : Z) (files : list File) : DB unit :=
  lastInsertId ← insertRow now infoHash name total;
  _ ← insertFiles lastInsertId files;
  wrap tx_Commit (str "tx.Commit").

Definition sqlite3_AddNewTorrent (now : Z) (infoHash name : bytes) (files : list File) : DB unit :=
  _ ← wrap conn_Begin (str "conn.Begin");
  defer_Rollback (
    let total := totalSize 0 files in
    if total =? 0 then mret tt
    else
      exist ← sqlite3_DoesTorrentExist infoHash;
      if exist : bool then mret tt
      else storeTorrent now infoHash name total files).

Definition sqlite3_GetNumberOfTorrents : DB Z :=
  rows ← conn_Query selectMaxRowid [];
  match rows_Next rows with
  | (None, _) => fail (ErrText (str "no rows returned from `SELECT MAX(ROWID)`"))
  | (Some [VNull], _) => mret 0
  | (Some [v], _) => lift (scanUint64 v)
  | (Some _, _) => fail errScan
  end.

(** ** Queries *)

(** The loop over the rows with Scan. *)
Fixpoint scanAll {A} (scan : list value -> res error A) (rows : list (list value)) : res error (list A) :=
  match rows with
  | [] => Ok []
  | row :: rows =>
      match scan row with
      | Err e => Err e
      | Ok a => match scanAll scan rows with Err e => Err e | Ok l => Ok (a :: l) end
      end
  end.

Definition orderOn (orderBy : OrderingCriteria) : go bytes :=
  match orderBy with
  | ByRelevance => Ret (str "idx.rank")
  | ByTotalSize => Ret (str "total_size")
  | ByDiscoveredOn => Ret (str "discovered_on")
  | ByNFiles => Ret (str "n_files")
  | _ => Panic
  end.

Definition scanTorrent (row : list value) : res error TorrentMetadata :=
  match row with
  | [id; ih; name; size; on; nf; rel] =>
      match scanUint64 id, scanBytes ih, scanText name, scanUint64 size, scanInt64 on,
            scanUint64 nf, scanFloat64 rel with
      | Ok id, Ok ih, Ok name, Ok size, Ok on, Ok nf, Ok rel =>
          Ok {| tm_ID := id; tm_InfoHash := ih; tm_Name := name; tm_Size := size;
                tm_DiscoveredOn := on; tm_NFiles := nf; tm_Relevance := rel |}
      | _, _, _, _, _, _, _ => Err errScan
      end
  | _ => Err errScan
  end.

Definition is_nil {A} (p : option A) : bool := match p with None => true | Some _ => false end.

Definition queryArgs (query : bytes) (epoch : Z) (lastOrderedValue : option float64)
    (lastID : option Z) (limit : Z) : list arg :=
  (if bool_decide (query = []) then [] else [AString query]) ++
  [AInt64 epoch] ++
  (if is_nil lastID then [] else [AFloat64Ptr lastOrderedValue; AUint64Ptr lastID]) ++
  [AUint64 limit].

(** An error that ends the rows early is not looked at. *)
Definition sqlite3_QueryTorrents (query : bytes) (epoch : Z) (orderBy : OrderingCriteria)
    (ascending : bool) (limit : Z) (lastOrderedValue : option float64) (lastID : option Z)
    : DB (list TorrentMetadata) :=
  if bool_decide (query = []) && bool_decide (orderBy = ByRelevance)
  then fail (ErrText (str "torrents cannot be ordered by relevance when the query is empty"))
  else if negb (Bool.eqb (is_nil lastOrderedValue) (is_nil lastID))
  then fail (ErrText (str "lastOrderedValue and lastID should be supplied together, if supplied"))
  else
    match orderOn orderBy with
    | Panic => panic
    | Ret on =>
        let sqlQuery := executeTemplate queryTemplate
          {| DoJoin := negb (bool_decide (query = [])); FirstPage := is_nil lastID;
             OrderOn := on; Ascending := ascending |} in
        rows ← try (conn_Query sqlQuery (queryArgs query epoch lastOrderedValue lastID limit));
        defer_closeRows rows
          match rows with
          | Err e => fail (ErrWrap e (str "query error"))
          | Ok rows => lift (scanAll scanTorrent (r_rows rows))
          end
    end.

(** ID and Relevance keep their zero values. *)
Definition scanDetails (row : list value) : res error TorrentMetadata :=
  match row with
  | [ih; name; size; on; nf] =>
      match scanBytes ih, scanText name, scanUint64 size, scanInt64 on, scanUint64 nf with
      | Ok ih, Ok name, Ok size, Ok on, Ok nf =>
          Ok {| tm_ID := 0; tm_InfoHash := ih; tm_Name := name; tm_Size := size;
                tm_DiscoveredOn := on; tm_NFiles := nf; tm_Relevance := QArith_base.inject_Z 0 |}
      | _, _, _, _, _ => Err errScan
      end
  | _ => Err errScan
  end.

Definition sqlite3_GetTorrent (infoHash : bytes) : DB (option TorrentMetadata) :=
  rows ← try (conn_Query selectTorrent [ABytes infoHash]);
  defer_closeRows rows
    match rows with
    | Err e => fail e
    | Ok rows =>
        match rows_Next rows with
        | (None, _) => mret None
        | (Some row, _) => tm ← lift (scanDetails row); mret (Some tm)
        end
    end.

Definition scanFile (row : list value) : res error File :=
  match row with
  | [size; path] =>
      match scanInt64 size, scanText path with
      | Ok size, Ok path => Ok {| f_Size := size; f_Path := path |}
      | _, _ => Err errScan
      end
  | _ => Err errScan
  end.

Definition sqlite3_GetFiles (infoHash : bytes) : DB (list File) :=
  rows ← try (conn_Query selectFiles [ABytes infoHash]);
  defer_closeRows rows
    match rows with
    | Err e => fail e
    | Ok rows => lift (scanAll scanFile (r_rows rows))
    end.

(** ** Statistics *)

(** The end of the period and its time format. *)
Definition period (fromTime : Z) (gran : Granularity) (n : Z) : Z * bytes :=
  match gran with
  | Year => (AddDate fromTime (to_i64 n) 0 0, str "%Y")
  | Month => (AddDate fromTime 0 (to_i64 n) 0, str "%Y-%m")
  | Week => (AddDate fromTime 0 0 (to_i64 (to_i64 n * 7)), str "%Y-%W")
  | Day => (AddDate fromTime 0 0 (to_i64 n), str "%Y-%m-%d")
  | Hour => (Time_Add fromTime (Hours n), str "%Y-%m-%dT%H")
  end.

Definition scanStats (row : list value) : res error (bytes * Z * Z * Z) :=
  match row with
  | [dT; tS; nD; nF] =>
      match scanText dT, scanUint64 tS, scanUint64 nD, scanUint64 nF with
      | Ok dT, Ok tS, Ok nD, Ok nF => Ok (dT, tS, nD, nF)
      | _, _, _, _ => Err errScan
      end
  | _ => Err errScan
  end.

Fixpoint collectStats (rows : list (list value)) (stats : Statistics) : DB Statistics :=
  match rows with
  | [] => mret stats
  | row :: rows =>
      match scanStats row with
      | Err e =>
          closed ← try rows_Close;
          match closed with Err _ => panic | Ok _ => fail e end
      | Ok (dT, tS, nD, nF) =>
          collectStats rows {| NDiscovered := <[dT := nD]> (NDiscovered stats);
                               st_NFiles := <[dT := nF]> (st_NFiles stats);
                               TotalSize := <[dT := tS]> (TotalSize stats) |}
      end
  end.

(** The reason ParseISO8601 gives is not kept, only the text it refused. *)
Definition sqlite3_GetStatistics (from : bytes) (n : Z) : DB Statistics :=
  match ParseISO8601 from with
  | Panic => panic
  | Ret (Err _) => fail (ErrWrap (ErrText from) (str "parsing ISO8601 error"))
  | Ret (Ok (fromTime, gran)) =>
      let '(toTime, timef) := period fromTime gran n in
      rows ← try (conn_Query (selectStatistics timef) [AInt64 fromTime; AInt64 toTime]);
      defer_closeRows rows
        match rows with
        | Err e => fail e
        | Ok rows => collectStats (r_rows rows) NewStatistics
        end
  end.

(** ** Set-up *)

(** One case of the switch on user_version. *)
Definition upgrade (sql msg : bytes) : DB unit :=
  _ ← wrap (tx_Exec sql []) msg; mret tt.

Definition upgradeFrom2 : DB unit := upgrade upgrade23 (str "sql.Tx.Exec (v2 -> v3)").
Definition upgradeFrom1 : DB unit :=
  _ ← upgrade upgrade12 (str "sql.Tx.Exec (v1 -> v2)"); upgradeFrom2.
Definition upgradeFrom0 : DB unit :=
  _ ← upgrade upgrade01 (str "sql.Tx.Exec (v0 -> v1)"); upgradeFrom1.

(** The switch falls through from the version found; any other version, also a
    newer one, is left as it is. *)
Definition upgradeSchema (userVersion : Z) : DB unit :=
  if userVersion =? 0 then upgradeFrom0
  else if userVersion =? 1 then upgradeFrom1
  else if userVersion =? 2 then upgradeFrom2
  else mret tt.

Definition readUserVersion : DB Z :=
  rows ← wrap (tx_Query selectUserVersion []) (str "sql.Tx.Query (user_version)");
  match rows_Next rows with
  | (None, _) =>
      fail (ErrText (str "sql.Rows.Next (user_version): PRAGMA user_version did not return any rows"))
  | (Some row, _) =>
      wrap (lift match row with [v] => scanInt64 v | _ => Err errScan end)
        (str "sql.Rows.Scan (user_version)")
  end.

Definition setupSchema : DB unit :=
  _ ← wrap (tx_Exec schema0 []) (str "sql.Tx.Exec (v0)");
  userVersion ← readUserVersion;
  upgradeSchema userVersion.

Definition sqlite3_setupDatabase : DB unit :=
  _ ← wrap (conn_Exec pragmas []) (str "sql.DB.Exec (PRAGMAs)");
  _ ← wrap conn_Begin (str "sql.DB.Begin");
  defer_Rollback (
    _ ← setupSchema;
    wrap tx_Commit (str "sql.Tx.Commit")).

(** path.Split: the directory, up to the last slash. *)
Fixpoint splitDir (p : bytes) : bytes :=
  match p with
  | [] => []
  | b :: r =>
      let d := splitDir r in if bool_decide (d = [] /\ b <> Byte.x2f) then [] else b :: d
  end.

(** The parts of a URL that the constructors of the engines use, as url.Parse
    finds them. [u_Authority] is the user and the host after two slashes, empty
    if there is neither, and [u_Fragment] the escaped fragment. *)
Record URL := {
  u_Authority : bytes;
  u_Path : bytes;
  u_ForceQuery : bool;
  u_RawQuery : bytes;
  u_Fragment : bytes;
  u_Query : list (bytes * bytes);
  u_Hostname : bytes;
  u_Port : bytes }.

(** url.URL's String, with scheme file and the path as opaque part. *)
Definition file_url (u : URL) : bytes :=
  str "file:" ++ (if bool_decide (u_Path u = []) then u_Authority u else u_Path u) ++
  (if u_ForceQuery u || negb (bool_decide (u_RawQuery u = [])) then str "?" ++ u_RawQuery u else []) ++
  (if bool_decide (u_Fragment u = []) then [] else str "#" ++ u_Fragment u).

(** [mkdir] is os.MkdirAll and [open] is sql.Open. *)
Definition makeSqlite3Database (u : URL) (mkdir open : bytes -> res error unit) : DB unit :=
  let dbDir := splitDir (u_Path u) in
  match mkdir dbDir with
  | Err e => fail (ErrWrap e (str "mkdirAll error for `" ++ dbDir ++ str "`"))
  | Ok _ =>
      _ ← wrap (lift (open (file_url u))) (str "sql.Open");
      _ ← wrap conn_Ping (str "sql.DB.Ping");
      wrap sqlite3_setupDatabase (str "setupDatabase")
  end.

(** One call on a database with content [t]. *)
Definition run {A} (m : DB A) (t : tables) (o : list outcome) : tables * go (res error A) :=
  let '(c, r) := m (connect_to t o) in (committed c, r).

Lemma conn_Close_returns t o : exists r, (run conn_Close t o).2 = Ret r.
Proof. unfold run, conn_Close. destruct (next_outcome _). by eexists. Qed.

Definition sqlite3_Close : DB unit := conn_Close.

(** The engine as an implementation of the interface; the world outside is the
    clock and the outcomes of the driver's calls. *)
Definition sqlite3Database : Database := {|
  db := tables;
  io := Z * list outcome;
  Engine _ := sqlite3_Engine;
  DoesTorrentExist w t ih := (run (sqlite3_DoesTorrentExist ih) t w.2).2;
  AddNewTorrent w t ih name files := run (sqlite3_AddNewTorrent w.1 ih name files) t w.2;
  Close w t := (run sqlite3_Close t w.2).2;
  GetNumberOfTorrents w t := (run sqlite3_GetNumberOfTorrents t w.2).2;
  QueryTorrents w t q epoch orderBy asc limit lov lid :=
    (run (sqlite3_QueryTorrents q epoch orderBy asc limit lov lid) t w.2).2;
  GetTorrent w t ih := (run (sqlite3_GetTorrent ih) t w.2).2;
  GetFiles w t ih := (run (sqlite3_GetFiles ih) t w.2).2;
  GetStatistics w t from n := (run (sqlite3_GetStatistics from n) t w.2).2 |}.

End Engine.
