(* ===== verification/Sqlite3Laws.v ===== *)
(** What SQLite documents about the statements of sqlite3.go, over the tables of
    its schema: constraints, triggers, row identifiers, ORDER BY, row values and
    LIMIT. A driver that satisfies these laws is the parameter of Sqlite3Props.v;
    [sqlite_model] is one. *)

From S2P Require Import Prelude GoLib Persistence Sql Keyset TorrentTables Sqlite3.
From Stdlib Require Import ZArith Lia.
From Stdlib Require QArith_base.
From stdpp Require Import base list gmap.
Local Open Scope Z_scope.

(** ** Tables *)

(** The latest default of [modified_on], which the CHECK constraint compares
    with [discovered_on]: January 1, 3000. *)
Definition modifiedDefault : Z := 32503680000.

(** The constraints on a new row of torrents. *)
Definition insertable (rows : list torrentRow) (ih : bytes) (size now : Z) : bool :=
  bool_decide (ih ∉ map tr_info_hash rows) && (0 <? size) && (0 <? now) && (now <=? modifiedDefault).

(** The largest identifier is taken. *)
Definition full (rows : list torrentRow) : Prop := Exists (fun r => 2 ^ 63 - 1 <= tr_id r) rows.

Definition max_id (rows : list torrentRow) : value :=
  match rows with
  | [] => VNull
  | r :: rows => VInt (foldr (fun r m => Z.max (tr_id r) m) (tr_id r) rows)
  end.

(** ** SELECT of QueryTorrents

    [rank] gives the relevance of the rows that match a full text query. *)
Section Select.
Variable rank : bytes -> torrentRow -> option float64.
Variables (rows : list torrentRow) (files : list fileRow).

Definition relevance (query : bytes) (r : torrentRow) : float64 :=
  default (QArith_base.inject_Z 0) (rank query r).

Definition sort_key (query : bytes) (orderBy : OrderingCriteria) (r : torrentRow) : key :=
  (match orderBy with
   | ByRelevance => relevance query r
   | ByTotalSize => QArith_base.inject_Z (tr_total_size r)
   | ByDiscoveredOn => QArith_base.inject_Z (tr_discovered_on r)
   | _ => QArith_base.inject_Z (n_files files r)
   end, tr_id r).

(** The rows that fit the query and the epoch. *)
Definition fits (query : bytes) (epoch : Z) (r : torrentRow) : bool :=
  (tr_modified_on r <=? epoch) &&
  (bool_decide (query = []) || match rank query r with Some _ => true | None => false end).

Definition fitting (query : bytes) (epoch : Z) : list torrentRow :=
  filter (fun r => fits query epoch r = true) rows.

Definition select (query : bytes) (epoch : Z) (orderBy : OrderingCriteria) (asc : bool)
    (limit : Z) (pos : option key) : list torrentRow :=
  page (sort_key query orderBy) asc (Z.to_nat limit) pos (fitting query epoch).

Definition select_values (query : bytes) (r : torrentRow) : list value :=
  [VInt (tr_id r); VBlob (tr_info_hash r); VText (tr_name r); VInt (tr_total_size r);
   VInt (tr_discovered_on r); VInt (n_files files r);
   if bool_decide (query = []) then VInt 0 else VReal (relevance query r)].
End Select.

(** The values bound to the placeholders. *)
Definition select_args (query : bytes) (epoch : Z) (pos : option key) (limit : Z) : list value :=
  (if bool_decide (query = []) then [] else [VText query]) ++ [VInt epoch] ++
  match pos with None => [] | Some (v, id) => [VReal v; VInt id] end ++ [VInt limit].

Definition select_data (query : bytes) (on : bytes) (asc : bool) (pos : option key) : queryData :=
  {| DoJoin := negb (bool_decide (query = [])); FirstPage := is_nil pos; OrderOn := on;
     Ascending := asc |}.

Definition detail_values (files : list fileRow) (r : torrentRow) : list value :=
  [VBlob (tr_info_hash r); VText (tr_name r); VInt (tr_total_size r); VInt (tr_discovered_on r);
   VInt (n_files files r)].

Definition file_values (f : fileRow) : list value := [VInt (fr_size f); VText (fr_path f)].

(** The columns of version 0. *)
Definition core (r : torrentRow) : Z * bytes * bytes * Z * Z :=
  (tr_id r, tr_info_hash r, tr_name r, tr_total_size r, tr_discovered_on r).

(** ** The laws

    [user_version] is the version of the schema. A full disk is one of the
    failures of [outcome], not of [exec]. *)
Class SqliteLaws (R : Driver) := {
  user_version : tables -> Z;
  torrent_rows : tables -> list torrentRow;
  file_rows : tables -> list fileRow;
  fts_rank : tables -> bytes -> torrentRow -> option float64;
  fts_syntax : bytes -> bool;

  exists_law t ih : user_version t = 3 ->
    query t selectExists [VBlob ih] = Ok (map (fun _ => [VInt 1]) (with_hash (torrent_rows t) ih));
  insert_torrent_law t ih name size now : user_version t = 3 ->
    match exec t insertTorrent [VBlob ih; VText name; VInt size; VInt now] with
    | Ok (t', id) =>
        insertable (torrent_rows t) ih size now = true /\
        (id ∉ map tr_id (torrent_rows t)) /\ id < 2 ^ 63 /\
        (Forall (fun r => 0 < tr_id r) (torrent_rows t) -> 0 < id) /\
        user_version t' = 3 /\ file_rows t' = file_rows t /\
        torrent_rows t' = torrent_rows t ++
          [{| tr_id := id; tr_info_hash := ih; tr_name := name; tr_total_size := size;
              tr_discovered_on := now; tr_modified_on := now |}]
    | Err _ => insertable (torrent_rows t) ih size now = false \/ full (torrent_rows t)
    end;
  insert_file_law t id size path : user_version t = 3 -> id ∈ map tr_id (torrent_rows t) ->
    exists t' n, exec t insertFile [VInt id; VInt size; VText path] = Ok (t', n) /\
      user_version t' = 3 /\ torrent_rows t' = torrent_rows t /\
      file_rows t' = file_rows t ++ [{| fr_torrent_id := id; fr_size := size; fr_path := path |}];
  max_law t : user_version t = 3 -> query t selectMaxRowid [] = Ok [[max_id (torrent_rows t)]];
  torrent_law t ih : user_version t = 3 ->
    query t selectTorrent [VBlob ih] =
    Ok (map (detail_values (file_rows t)) (with_hash (torrent_rows t) ih));
  (** Without ORDER BY the order of rows is unspecified. *)
  files_law t ih : user_version t = 3 ->
    exists fs, (fs ≡ₚ concat (map (fun r => files_of (file_rows t) (tr_id r))
                        (with_hash (torrent_rows t) ih))) /\
      query t selectFiles [VBlob ih] = Ok (map file_values fs);
  select_law t q epoch orderBy on asc limit pos :
    user_version t = 3 -> orderOn orderBy = Ret on -> 0 <= limit ->
    q = [] /\ orderBy <> ByRelevance \/ q <> [] /\ fts_syntax q = true ->
    query t (executeTemplate queryTemplate (select_data q on asc pos)) (select_args q epoch pos limit) =
    Ok (map (select_values (fts_rank t) (file_rows t) q)
          (select (fts_rank t) (torrent_rows t) (file_rows t) q epoch orderBy asc limit pos));

  pragma_law t : exists t' n, exec t pragmas [] = Ok (t', n) /\ user_version t' = user_version t /\
    torrent_rows t' = torrent_rows t /\ file_rows t' = file_rows t;
  schema0_law t : exists t' n, exec t schema0 [] = Ok (t', n) /\ user_version t' = user_version t /\
    torrent_rows t' = torrent_rows t /\ file_rows t' = file_rows t;
  version_law t : query t selectUserVersion [] = Ok [[VInt (user_version t)]];
  upgrade01_law t : user_version t = 0 -> NoDup (map tr_info_hash (torrent_rows t)) ->
    exists t' n, exec t upgrade01 [] = Ok (t', n) /\ user_version t' = 1 /\
      torrent_rows t' = torrent_rows t /\ file_rows t' = file_rows t;
  upgrade12_law t : user_version t = 1 ->
    exists t' n, exec t upgrade12 [] = Ok (t', n) /\ user_version t' = 2 /\
      torrent_rows t' = torrent_rows t /\ file_rows t' = file_rows t;
  upgrade23_law t : user_version t = 2 ->
    Forall (fun r => tr_discovered_on r <= modifiedDefault) (torrent_rows t) ->
    exists t' n, exec t upgrade23 [] = Ok (t', n) /\ user_version t' = 3 /\
      map core (torrent_rows t') = map core (torrent_rows t) /\ file_rows t' = file_rows t /\
      Forall (fun r => tr_discovered_on r <= tr_modified_on r) (torrent_rows t') }.
