(* ===== verification/Sqlite3Props.v ===== *)
(** Properties of the SQLite engine over any driver that follows the laws of
    Sqlite3Laws.v: AddNewTorrent is an atomic implementation of the contract
    [DatabaseLaws], what it stores can be read back, QueryTorrents pages
    through all results, statistics periods, and schema upgrades. *)

From S2P Require Import Prelude GoLib GoTime Iso8601 Persistence Sql Keyset TorrentTables Sqlite3 Sqlite3Laws.
From Stdlib Require Import ZArith Lia.
From Stdlib Require QArith_base.
From stdpp Require Import base list gmap.
Local Open Scope Z_scope.

Section Props.
Context {R : Driver} `{!SqliteLaws R}.

(** ** Well-formed tables: the constraints of the schema *)

Definition row_ok (r : torrentRow) : Prop :=
  0 < tr_id r < 2 ^ 63 /\ 0 < tr_total_size r < 2 ^ 63 /\
  0 < tr_discovered_on r <= modifiedDefault /\ tr_discovered_on r <= tr_modified_on r.

Record wf (t : tables) : Prop := {
  wf_version : user_version t = 3;
  wf_keys : keys_ok (torrent_rows t) (file_rows t);
  wf_rows : Forall row_ok (torrent_rows t) }.

Lemma wf_positive t : wf t -> Forall (fun r => 0 < tr_id r) (torrent_rows t).
Proof. intros Hw. eapply Forall_impl; [apply (wf_rows t Hw)|]. intros r Hr. apply Hr. Qed.

(** ** AddNewTorrent *)

(** The torrent and its files are appended under a fresh identifier. *)
Definition added (now : Z) (ih name : bytes) (files : list File) (t t' : tables) : Prop :=
  exists id, insertable (torrent_rows t) ih (totalSize 0 files) now = true /\
    (id ∉ map tr_id (torrent_rows t)) /\ 0 < id < 2 ^ 63 /\ totalSize 0 files < 2 ^ 63 /\
    user_version t' = 3 /\
    torrent_rows t' = torrent_rows t ++ [new_row id ih name (totalSize 0 files) now] /\
    file_rows t' = file_rows t ++ map (new_file id) files.

Lemma insertFiles_run id files c t :
  tx c = Some t -> user_version t = 3 -> id ∈ map tr_id (torrent_rows t) ->
  attempt (insertFiles id files) c (fun _ c' =>
    exists t', tx c' = Some t' /\ user_version t' = 3 /\ torrent_rows t' = torrent_rows t /\
      file_rows t' = file_rows t ++ map (new_file id) files).
Proof.
  revert c t. induction files as [|f files IH]; intros c t Ht Hv Hid; unfold insertFiles in *;
    cbn [for_each].
  - apply attempt_ret. exists t. by rewrite app_nil_r.
  - destruct (insert_file_law t id (f_Size f) (f_Path f) Hv Hid) as (t1 & n & Hx & Hv1 & Hr1 & Hf1).
    eapply (attempt_bind _ _ _ (fun _ c' => tx c' = Some t1)).
    + eapply attempt_bind; [by eapply attempt_wrap, attempt_Exec|]. intros m c' [_ ?].
      by apply attempt_ret.
    + intros [] c1 Ht1. rewrite <- Hr1 in Hid. eapply attempt_mono; [by apply (IH c1 t1)|].
      intros [] c' (t' & H1 & H2 & H3 & H4). exists t'. split_and!; [done|done|congruence|].
      rewrite H4, Hf1. simpl. by rewrite <- app_assoc.
Qed.

Lemma DoesTorrentExist_run ih c :
  user_version (committed c) = 3 ->
  exists c' r, sqlite3_DoesTorrentExist ih c = (c', Ret r) /\ quiet c c' /\ tx c' = tx c /\
    (r = Ok true -> ih ∈ map tr_info_hash (torrent_rows (committed c))) /\
    (script c = [] -> r = Ok (bool_decide (ih ∈ map tr_info_hash (torrent_rows (committed c))))).
Proof. intros Hv. by apply rowExists_hash, exists_law. Qed.

(** What a call of AddNewTorrent can do. *)
Inductive add_outcome (now : Z) (ih name : bytes) (files : list File) (c c' : Conn)
    : res error unit -> Prop :=
  | add_ignored :
      committed c' = committed c ->
      totalSize 0 files = 0 \/ ih ∈ map tr_info_hash (torrent_rows (committed c)) ->
      add_outcome now ih name files c c' (Ok tt)
  | add_failed e :
      committed c' = committed c ->
      script c <> [] \/
      totalSize 0 files <> 0 /\ (ih ∉ map tr_info_hash (torrent_rows (committed c))) /\
        (2 ^ 63 <= totalSize 0 files \/ now <= 0 \/ modifiedDefault < now \/
         full (torrent_rows (committed c))) ->
      add_outcome now ih name files c c' (Err e)
  | add_stored :
      added now ih name files (committed c) (committed c') ->
      add_outcome now ih name files c c' (Ok tt).

Lemma insertRow_run now ih name total c :
  wf (committed c) -> tx c = Some (committed c) ->
  (exists e c', insertRow now ih name total c = (c', Ret (Err e)) /\ quiet c c' /\
     (script c <> [] \/ 2 ^ 63 <= total \/
      insertable (torrent_rows (committed c)) ih total now = false \/ full (torrent_rows (committed c)))) \/
  (exists id t' c', insertRow now ih name total c = (c', Ret (Ok id)) /\ quiet c c' /\ tx c' = Some t' /\
     insertable (torrent_rows (committed c)) ih total now = true /\
     (id ∉ map tr_id (torrent_rows (committed c))) /\ 0 < id < 2 ^ 63 /\ total < 2 ^ 63 /\
     user_version t' = 3 /\ file_rows t' = file_rows (committed c) /\
     torrent_rows t' = torrent_rows (committed c) ++ [new_row id ih name total now]).
Proof.
  intros Hw Htx. unfold insertRow. destruct (Z.le_gt_cases (2 ^ 63) total) as [Hbig|Hsmall].
  { left. eexists _, c. erewrite bind_err; [split_and!; [done|apply quiet_refl|by right; left]|].
    apply wrap_err. unfold tx_Exec. rewrite Htx. cbn [convertArgs convert].
    unfold convertUint64. rewrite (proj2 (Z.leb_le _ _) Hbig). done. }
  assert (convertArgs [ABytes ih; AString name; AUint64 total; AInt64 now] =
          Ok [VBlob ih; VText name; VInt total; VInt now]) as Ha.
  { cbn [convertArgs convert]. unfold convertUint64. by rewrite (proj2 (Z.leb_gt _ _) Hsmall). }
  pose proof (insert_torrent_law (committed c) ih name total now (wf_version _ Hw)) as Hlaw.
  destruct (tx_Exec_run insertTorrent _ _ c _ Htx Ha)
    as [(e & c1 & He & Hq & Hs)|(t1 & id & c1 & Hx & He & Hq & Ht1)].
  { left. eexists _, c1. erewrite bind_err by (by apply wrap_err). split_and!; [done|done|].
    destruct Hs as [Hs|Hs]; [by left|]. rewrite Hs in Hlaw. by right; right. }
  erewrite bind_ok by (by apply wrap_ok). rewrite Hx in Hlaw.
  destruct (LastInsertId_run id c1) as [(e & c2 & Hl & Hq2 & Hs)|(c2 & Hl & Hq2 & Ht2)].
  { left. eexists _, c2. erewrite bind_err by (by apply wrap_err).
    split_and!; [done|by eapply quiet_trans|left; intros E; apply Hs; by apply Hq]. }
  erewrite bind_ok by (by apply wrap_ok). destruct Hlaw as (Hins & Hid & Hmax & Hpos & Hv1 & Hf1 & Hr1).
  specialize (Hpos (wf_positive _ Hw)). rewrite (proj2 (Z.leb_gt id 0)) by done.
  right. exists id, t1, c2. rewrite Ht2. split_and!; try done. by eapply quiet_trans.
Qed.

Lemma storeTorrent_run now ih name files c :
  wf (committed c) -> tx c = Some (committed c) -> 
  exists c' r, storeTorrent now ih name (totalSize 0 files) files c = (c', Ret r) /\
    ((exists e, r = Err e /\ committed c' = committed c /\
        (script c <> [] \/ 2 ^ 63 <= totalSize 0 files \/
         insertable (torrent_rows (committed c)) ih (totalSize 0 files) now = false \/
         full (torrent_rows (committed c)))) \/
     r = Ok tt /\ added now ih name files (committed c) (committed c')).
Proof.
  intros Hw Htx. unfold storeTorrent.
  destruct (insertRow_run now ih name (totalSize 0 files) c Hw Htx) as [(e & c1 & He & Hq & Hs)|
    (id & t1 & c1 & He & Hq & Ht1 & Hins & Hid & [Hp1 Hp2] & Hsm & Hv1 & Hf1 & Hr1)].
  { erewrite bind_err by done. eexists c1, _. split; [done|]. left.
    eexists. split_and!; [done|apply Hq|done]. }
  erewrite bind_ok by done.
  destruct (insertFiles_run id files c1 t1 Ht1 Hv1) as (c2 & r2 & Hi & Hq2 & HH).
  { rewrite Hr1, map_app. apply elem_of_app. right. by left. }
  destruct HH as [(e & -> & Hs)|([] & -> & t2 & Ht2 & Hv2 & Hr2 & Hf2)].
  { rewrite (bind_err _ _ _ _ _ Hi). eexists c2, _. split; [done|]. left. eexists.
    split_and!; [done| |left; intros E; apply Hs; by apply Hq]. by rewrite (proj1 Hq2), (proj1 Hq). }
  rewrite (bind_ok _ _ _ _ _ Hi).
  destruct (tx_Commit_run c2 t2 Ht2) as [(e & c3 & Hc & Hq3 & Hs)|(c3 & Hc & Hcom)].
  { erewrite wrap_err by done. eexists c3, _. split; [done|]. left. eexists. split_and!; [done| |].
    - by rewrite (proj1 Hq3), (proj1 Hq2), (proj1 Hq).
    - left. intros E. apply Hs. by apply Hq2, Hq. }
  erewrite wrap_ok by done. eexists c3, _. split; [done|]. right. split; [done|].
  exists id. rewrite Hcom. split_and!; [done..|by rewrite Hr2, Hr1|by rewrite Hf2, Hf1].
Qed.

Lemma insertable_false rows ih size now :
  insertable rows ih size now = false ->
  ih ∈ map tr_info_hash rows \/ size <= 0 \/ now <= 0 \/ modifiedDefault < now.
Proof.
  unfold insertable. intros H. destruct (decide (ih ∈ map tr_info_hash rows)) as [|Hin]; [by left|].
  right. rewrite bool_decide_eq_true_2 in H by done. cbn [andb] in H.
  destruct (Z.ltb_spec 0 size); [right|by left]. destruct (Z.ltb_spec 0 now); [right|by left].
  cbn [andb] in H. by apply Z.leb_gt in H.
Qed.

Lemma AddNewTorrent_run now ih name files c :
  wf (committed c) -> tx c = None ->
  exists c' r, sqlite3_AddNewTorrent now ih name files c = (c', Ret r) /\ tx c' = None /\
    add_outcome now ih name files c c' r.
Proof.
  intros Hw Htx. unfold sqlite3_AddNewTorrent.
  destruct (conn_Begin_run c) as [(e & c1 & Hb & Hq1 & Ht1 & Hs)|(c1 & Hb & Hq1 & Ht1)].
  { erewrite bind_err by (by apply wrap_err). eexists c1, _. split_and!; [done|congruence|].
    apply add_failed; [apply Hq1|by left]. }
  erewrite bind_ok by (by apply wrap_ok). unfold defer_Rollback. cbv zeta.
  destruct (Z.eqb_spec (totalSize 0 files) 0) as [Hz|Hz].
  { eexists _, _. split_and!; [done|done|]. apply add_ignored; [apply Hq1|by left]. }
  assert (user_version (committed c1) = 3) as Hv by (rewrite (proj1 Hq1); apply Hw).
  destruct (DoesTorrentExist_run ih c1 Hv) as (c2 & r & Hex & Hq2 & Ht2 & Htrue & Hexact).
  assert (committed c2 = committed c) as Hcc by (rewrite (proj1 Hq2); apply Hq1).
  rewrite (proj1 Hq1) in Htrue, Hexact.
  destruct r as [[]|e].
  { rewrite (bind_ok _ _ _ _ _ Hex). eexists _, _. split_and!; [done|done|].
    apply add_ignored; [done|by right; apply Htrue]. }
  2:{ rewrite (bind_err _ _ _ _ _ Hex). eexists _, _. split_and!; [done|done|].
      apply add_failed; [done|left]. intros E. by specialize (Hexact (proj2 Hq1 E)). }
  rewrite (bind_ok _ _ _ _ _ Hex).
  destruct (storeTorrent_run now ih name files c2) as (c3 & r3 & Hst & HH); [by rewrite Hcc|congruence|].
  rewrite Hst. eexists _, _. split_and!; [done|done|]. rewrite Hcc in HH.
  destruct HH as [(e & -> & Hcom & Hwhy)|[-> Hadd]]; [|by apply add_stored].
  apply add_failed; [simpl; congruence|].
  destruct (decide (script c = [])) as [E|E]; [|by left]. right.
  specialize (Hexact (proj2 Hq1 E)). injection Hexact as Hin. symmetry in Hin.
  apply bool_decide_eq_false in Hin. split_and!; [done..|].
  destruct Hwhy as [Hwhy|[Hwhy|[Hwhy|Hwhy]]];
    [by destruct Hwhy; apply Hq2, Hq1|by left| |by right; right; right].
  apply insertable_false in Hwhy as [?|[Hneg|Hnow]]; [done|exfalso|intuition].
  apply Hz. rewrite totalSize_0 in *. pose proof (to_u64_range (sum_sizes files)). lia.
Qed.

(** ** Refinement of the contract of the daemon *)

Definition sqlite3_torrents (t : tables) : gmap bytes (bytes * list File) :=
  torrents_of (torrent_rows t) (file_rows t).

Lemma insertable_true rows ih size now :
  insertable rows ih size now = true ->
  (ih ∉ map tr_info_hash rows) /\ 0 < size /\ 0 < now <= modifiedDefault.
Proof.
  unfold insertable. rewrite !andb_true_iff, bool_decide_eq_true, Z.leb_le, !Z.ltb_lt. intuition.
Qed.

Lemma added_wf now ih name files t t' : wf t -> added now ih name files t t' -> wf t'.
Proof.
  intros Hw (id & Hins & Hid & Hr & Hs & Hv & Hrows & Hfiles).
  apply insertable_true in Hins as (Hih & Hpos & Hnow). split; [done|..]; rewrite Hrows, ?Hfiles.
  - apply keys_ok_add; [apply Hw|done..].
  - apply Forall_app_2; [apply Hw|]. apply Forall_singleton. unfold row_ok. simpl. lia.
Qed.

Lemma added_torrents now ih name files t t' :
  wf t -> added now ih name files t t' ->
  sqlite3_torrents t !! ih = None /\
  sqlite3_torrents t' = <[ih := (name, files)]> (sqlite3_torrents t).
Proof.
  intros Hw (id & Hins & Hid & Hr & Hs & Hv & Hrows & Hfiles).
  apply insertable_true in Hins as (Hih & _ & _). unfold sqlite3_torrents. rewrite Hrows, Hfiles.
  apply torrents_of_add; [apply Hw|done..].
Qed.

Lemma run_Add now ih name files t o :
  wf t -> exists t' c' r, run (sqlite3_AddNewTorrent now ih name files) t o = (t', Ret r) /\
    committed c' = t' /\ add_outcome now ih name files (connect_to t o) c' r.
Proof.
  intros Hw. destruct (AddNewTorrent_run now ih name files (connect_to t o) Hw eq_refl)
    as (c' & r & Hr & _ & Ho).
  exists (committed c'), c', r. split_and!; [|done..]. unfold run. by rewrite Hr.
Qed.

(** C4. AddNewTorrent of the SQLite engine refines the abstract operation:
    whatever calls of the driver fail, it does not panic, the constraints of
    the schema are kept, and either nothing changes or, on success only, the
    whole torrent is added under an info hash that was absent. *)
Theorem sqlite3_refines now ih name files t o t' r :
  wf t -> run (sqlite3_AddNewTorrent now ih name files) t o = (t', r) ->
  wf t' /\ exists a, r = Ret a /\
    abstract_add ih name files (sqlite3_torrents t) (sqlite3_torrents t') a.
Proof.
  intros Hw H. destruct (run_Add now ih name files t o Hw) as (t1 & c' & a & H1 & Hc & Ho).
  rewrite H1 in H. injection H as <- <-. destruct Ho as [Hs _|e Hs _|Hadd]; simpl in *.
  - rewrite <- Hc, Hs. split; [done|]. eexists. split; [done|constructor].
  - rewrite <- Hc, Hs. split; [done|]. eexists. split; [done|constructor].
  - rewrite Hc in Hadd. split; [by eapply added_wf|]. eexists. split; [done|].
    destruct (added_torrents _ _ _ _ _ _ Hw Hadd) as [Hn ->]. by constructor.
Qed.

#[global] Instance sqlite3_laws : DatabaseLaws sqlite3Database.
Proof.
  refine {| db_wf := wf : db (Database := sqlite3Database) -> Prop;
            torrents := sqlite3_torrents : db (Database := sqlite3Database) -> _ |}.
  - intros w t ih Hw H. cbn in H. unfold run in H.
    destruct (DoesTorrentExist_run ih (connect_to t w.2)) as (c' & r & Hr & _ & _ & Ht & _);
      [apply Hw|]. rewrite Hr in H. injection H as ->. specialize (Ht eq_refl).
    apply not_eq_None_Some. intros Hn%torrents_None. done.
  - intros w t ih name files Hw. cbn.
    destruct (run_Add w.1 ih name files t w.2 Hw) as (t' & c' & r & -> & Hc & Ho). simpl.
    destruct Ho as [Hs _|e Hs _|Hadd]; [by rewrite <- Hc, Hs..|].
    rewrite Hc in Hadd. by eapply added_wf.
  - intros w t ih name files t' r Hw H. cbn in H.
    destruct (run_Add w.1 ih name files t w.2 Hw) as (t1 & c' & a & H1 & Hc & Ho).
    rewrite H1 in H. injection H as <- _. destruct Ho as [Hs _|e Hs _|Hadd]; [left..|right].
    + by rewrite <- Hc, Hs.
    + by rewrite <- Hc, Hs.
    + rewrite Hc in Hadd. by apply (added_torrents w.1).
  - intros w t. apply conn_Close_returns.
Defined.

(** C20. Without failures of the outside world AddNewTorrent does exactly this:
    a torrent of total size zero (modulo 2^64) or with a known info hash is
    ignored; a total of 2^63 or more, or a clock before 1970 or after the year
    3000, is an error; any other torrent is stored. *)
Theorem AddNewTorrent_cases now ih name files t :
  wf t -> ~ full (torrent_rows t) ->
  exists t' r, run (sqlite3_AddNewTorrent now ih name files) t [] = (t', Ret r) /\
    let total := sum_sizes files mod 2 ^ 64 in
    if bool_decide (total = 0 \/ ih ∈ map tr_info_hash (torrent_rows t)) then t' = t /\ r = Ok tt
    else if bool_decide (total < 2 ^ 63 /\ 0 < now <= modifiedDefault)
    then r = Ok tt /\ added now ih name files t t'
    else t' = t /\ exists e, r = Err e.
Proof.
  intros Hw Hfull. destruct (run_Add now ih name files t [] Hw) as (t' & c' & r & H & Hc & Ho).
  exists t', r. split; [done|]. cbv zeta. change (sum_sizes files mod 2 ^ 64) with (to_u64 (sum_sizes files)).
  rewrite <- totalSize_0. destruct Ho as [Hs Hwhy|e Hs Hwhy|Hadd]; cbn [committed connect_to script] in *.
  - rewrite bool_decide_eq_true_2 by done. by rewrite <- Hc.
  - destruct Hwhy as [Hwhy|(Hz & Hin & Hwhy)]; [done|].
    rewrite !bool_decide_eq_false_2 by (unfold modifiedDefault in *; intuition lia).
    rewrite <- Hc. by eauto.
  - rewrite Hc in Hadd. pose proof Hadd as (id & Hins & _ & _ & Hsm & _).
    apply insertable_true in Hins as (Hih & Hpos & Hnow).
    rewrite bool_decide_eq_false_2 by (intros [?|?]; [lia|done]).
    by rewrite bool_decide_eq_true_2 by lia.
Qed.

(** ** Reading *)

(** Whether all rows arrive, or only the first [n]. *)
Definition broken (b : option (nat * error)) : list outcome :=
  match b with None => [] | Some (n, e) => [Breaks n e] end.
Definition received {A} (b : option (nat * error)) (l : list A) : list A :=
  match b with None => l | Some (n, _) => take n l end.

Lemma query_fine b sql args vs t rows :
  convertArgs args = Ok vs -> query t sql vs = Ok rows ->
  conn_Query sql args (connect_to t (broken b)) =
  (connect_to t [], Ret (Ok {| r_rows := received b rows; r_err := snd <$> b |})).
Proof.
  intros Ha Hq. unfold conn_Query, next_outcome. rewrite Ha. destruct b as [[n e]|]; cbn; by rewrite Hq.
Qed.

(** A query whose rows arrive, and its deferred Close. *)
Lemma query_closed {A} b sql args vs t rows (k : res error Rows -> DB A) a :
  convertArgs args = Ok vs -> query t sql vs = Ok rows ->
  k (Ok {| r_rows := received b rows; r_err := snd <$> b |}) (connect_to t []) = (connect_to t [], Ret a) ->
  run (rows ← try (conn_Query sql args); defer_closeRows rows (k rows)) t (broken b) = (t, Ret a).
Proof.
  intros Ha Hq Hk. unfold run. erewrite bind_ok by (apply try_eq; by apply (query_fine b _ _ vs)).
  unfold defer_closeRows. by rewrite Hk.
Qed.

(** A query that fails leaves a nil pointer to the deferred Close. *)
Lemma query_panics {A} sql args t o (k : res error Rows -> DB A) c' e :
  conn_Query sql args (connect_to t o) = (c', Ret (Err e)) ->
  (run (rows ← try (conn_Query sql args); defer_closeRows rows (k rows)) t o).2 = Panic.
Proof.
  intros Hq. unfold run. erewrite bind_ok by (by apply try_eq). unfold defer_closeRows.
  destruct (k (Err e) c') as [c2 [r|]]; done.
Qed.

Lemma scanAll_map {A B} (scan : list value -> res error A) (vals : B -> list value) (g : B -> A) l :
  Forall (fun b => scan (vals b) = Ok (g b)) l -> scanAll scan (map vals l) = Ok (map g l).
Proof. induction 1 as [|b l Hb _ IH]; [done|]. cbn [map scanAll]. by rewrite Hb, IH. Qed.

Lemma scanUint64_int z : 0 <= z -> scanUint64 (VInt z) = Ok z.
Proof. intros H. unfold scanUint64. by rewrite (proj2 (Z.leb_le _ _) H). Qed.

(** The metadata QueryTorrents reports for a row. *)
Definition metadata_of (t : tables) (q : bytes) (r : torrentRow) : TorrentMetadata :=
  {| tm_ID := tr_id r; tm_InfoHash := tr_info_hash r; tm_Name := tr_name r;
     tm_Size := tr_total_size r; tm_DiscoveredOn := tr_discovered_on r;
     tm_NFiles := n_files (file_rows t) r;
     tm_Relevance := if bool_decide (q = []) then QArith_base.inject_Z 0
                     else relevance (fts_rank t) q r |}.

Lemma scan_select t q r :
  row_ok r -> scanTorrent (select_values (fts_rank t) (file_rows t) q r) = Ok (metadata_of t q r).
Proof.
  intros (H1 & H2 & _). unfold scanTorrent, select_values, metadata_of.
  rewrite !scanUint64_int by (try apply len_nonneg; lia). by case_bool_decide.
Qed.

Lemma select_subset rank rows files q epoch ob asc limit pos r :
  r ∈ select rank rows files q epoch ob asc limit pos -> r ∈ rows.
Proof.
  unfold select, page. intros H. apply (subseteq_take _ _) in H.
  rewrite ordered_perm in H. apply list_elem_of_filter in H as [_ H].
  by apply list_elem_of_filter in H as [_ H].
Qed.

Definition query_ok (q : bytes) (orderBy : OrderingCriteria) : Prop :=
  q = [] /\ orderBy <> ByRelevance \/ q <> [] /\ fts_syntax q = true.

Lemma convertArgs_query q epoch pos limit :
  0 <= limit < 2 ^ 63 -> (forall k, pos = Some k -> 0 <= k.2 < 2 ^ 63) ->
  convertArgs (queryArgs q epoch (fst <$> pos) (snd <$> pos) limit) =
  Ok (select_args q epoch pos limit).
Proof.
  intros Hl Hp. unfold queryArgs, select_args.
  assert (convertUint64 limit = Ok (VInt limit)) as El.
  { unfold convertUint64. by rewrite (proj2 (Z.leb_gt _ _)) by lia. }
  destruct pos as [[v i]|]; [|by case_bool_decide; cbn; rewrite El].
  specialize (Hp _ eq_refl). assert (convertUint64 i = Ok (VInt i)) as Ei.
  { unfold convertUint64. by rewrite (proj2 (Z.leb_gt _ _)) by (simpl in Hp; lia). }
  case_bool_decide; cbn; by rewrite El, Ei.
Qed.

Lemma received_map {A B} b (f : A -> B) l : received b (map f l) = map f (received b l).
Proof. destruct b as [[n e]|]; [|done]. simpl. apply firstn_map. Qed.

Lemma received_subset {A} b (l : list A) x : x ∈ received b l -> x ∈ l.
Proof. destruct b as [[n e]|]; [|done]. apply subseteq_take. Qed.

Lemma QueryTorrents_run b t q epoch ob on asc limit pos :
  wf t -> orderOn ob = Ret on -> query_ok q ob -> 0 <= limit < 2 ^ 63 ->
  (forall k, pos = Some k -> 0 <= k.2 < 2 ^ 63) ->
  run (sqlite3_QueryTorrents q epoch ob asc limit (fst <$> pos) (snd <$> pos)) t (broken b) =
  (t, Ret (Ok (map (metadata_of t q) (received b
     (select (fts_rank t) (torrent_rows t) (file_rows t) q epoch ob asc limit pos))))).
Proof.
  intros Hw Hon Hq Hl Hp. unfold sqlite3_QueryTorrents.
  replace (bool_decide (q = []) && bool_decide (ob = ByRelevance)) with false.
  2:{ symmetry. destruct Hq as [[-> Hne]|[Hne _]].
      - by rewrite (bool_decide_eq_false_2 (ob = _)).
      - by rewrite (bool_decide_eq_false_2 (q = _)). }
  replace (negb (Bool.eqb _ _)) with false by (by destruct pos). rewrite Hon.
  eapply query_closed; [by apply convertArgs_query|..].
  - replace (is_nil (snd <$> pos)) with (is_nil pos) by (by destruct pos).
    apply (select_law t q epoch ob on asc limit pos); [apply Hw|done|lia|done].
  - cbn [r_rows]. unfold lift. do 2 f_equal. rewrite received_map.
    apply scanAll_map, Forall_forall. intros r Hr%received_subset%select_subset. apply scan_select.
    pose proof (wf_rows t Hw) as H. rewrite Forall_forall in H. by apply H.
Qed.

Lemma added_with_hash now ih name files t t' :
  added now ih name files t t' ->
  exists id, with_hash (torrent_rows t') ih = [new_row id ih name (totalSize 0 files) now] /\
    (id ∉ map tr_id (torrent_rows t)) /\ file_rows t' = file_rows t ++ map (new_file id) files.
Proof.
  intros (id & Hins & Hid & _ & _ & _ & Hr & Hf). exists id. split_and!; [|done..].
  apply insertable_true in Hins as (Hih & _ & _). rewrite Hr. unfold with_hash.
  rewrite filter_app. fold (with_hash (torrent_rows t) ih).
  rewrite (proj2 (with_hash_nil _ _) Hih), filter_cons, decide_True; done.
Qed.

(** GetFiles gives the files of a row, in some order. *)
Lemma GetFiles_row t r :
  wf t -> r ∈ torrent_rows t ->
  exists fs, run (sqlite3_GetFiles (tr_info_hash r)) t [] = (t, Ret (Ok fs)) /\
    fs ≡ₚ map file_of (files_of (file_rows t) (tr_id r)).
Proof.
  intros Hw Hr. destruct (files_law t (tr_info_hash r) (wf_version t Hw)) as (frs & Hperm & Hq).
  rewrite (with_hash_unique _ r) in Hperm by (done || apply (wf_keys t Hw)). cbn [map concat] in Hperm.
  rewrite app_nil_r in Hperm. exists (map file_of frs). split; [|by rewrite Hperm].
  unfold sqlite3_GetFiles. eapply (query_closed None); [done|exact Hq|].
  unfold lift. cbn [received r_rows]. do 3 f_equal. apply scanAll_map. by apply Forall_true.
Qed.

(** What is stored can be read back. *)
Lemma stored_readable now ih name files t :
  wf t -> ~ full (torrent_rows t) -> ih ∉ map tr_info_hash (torrent_rows t) -> 0 < sum_sizes files < 2 ^ 63 ->
  0 < now <= modifiedDefault ->
  exists t' fs, run (sqlite3_AddNewTorrent now ih name files) t [] = (t', Ret (Ok tt)) /\
    run (sqlite3_DoesTorrentExist ih) t' [] = (t', Ret (Ok true)) /\
    run (sqlite3_GetTorrent ih) t' [] =
      (t', Ret (Ok (Some {| tm_ID := 0; tm_InfoHash := ih; tm_Name := name;
         tm_Size := sum_sizes files; tm_DiscoveredOn := now; tm_NFiles := len files;
         tm_Relevance := QArith_base.inject_Z 0 |}))) /\
    run (sqlite3_GetFiles ih) t' [] = (t', Ret (Ok fs)) /\ (fs ≡ₚ files).
Proof.
  intros Hw Hfull Hih Hsum Hnow. destruct (run_Add now ih name files t [] Hw) as (t' & c' & r & H & Hc & Ho).
  assert (totalSize 0 files = sum_sizes files) as Htot by (rewrite totalSize_0; apply to_u64_id; lia).
  destruct Ho as [_ Hwhy|e _ Hwhy|Hadd]; cbn [committed connect_to script] in *.
  { destruct Hwhy; [lia|done]. }
  { destruct Hwhy as [Hwhy|(_ & _ & Hwhy)]; [done|intuition lia]. }
  rewrite Hc in Hadd. assert (user_version t' = 3) as Hv by apply (added_wf _ _ _ _ _ _ Hw Hadd).
  destruct (added_with_hash _ _ _ _ _ _ Hadd) as (id & Hwh & Hid & Hf).
  pose proof (files_of_added _ _ id files (wf_keys t Hw) Hid) as Hfs. rewrite <- Hf in Hfs.
  destruct (files_law t' ih Hv) as (frs & Hperm & Hq). rewrite Hwh in Hperm.
  cbn [map concat tr_id new_row] in Hperm. rewrite app_nil_r, Hfs in Hperm.
  exists t', (map file_of frs). split_and!; [done|..].
  - unfold run, sqlite3_DoesTorrentExist, rowExists.
    erewrite bind_ok by (apply (query_fine None _ _ [VBlob ih]); [done|by apply exists_law]).
    by rewrite Hwh.
  - unfold sqlite3_GetTorrent. eapply (query_closed None); [done|by apply torrent_law|].
    rewrite Hwh. cbn [map received r_rows rows_Next].
    erewrite bind_ok; [reflexivity|]. unfold lift, scanDetails, detail_values.
    cbn [tr_info_hash tr_name tr_total_size tr_discovered_on new_row].
    unfold n_files. cbn [tr_id new_row]. rewrite Hfs. unfold len. rewrite length_map, Htot.
    rewrite !scanUint64_int by lia. done.
  - unfold sqlite3_GetFiles. eapply (query_closed None); [done|exact Hq|].
    unfold lift. cbn [received r_rows]. do 3 f_equal. apply scanAll_map. by apply Forall_true.
  - rewrite Hperm. by rewrite map_file_of.
Qed.

(** ** The statement of QueryTorrents *)

Definition is_placeholder (b : byte) : bool := bool_decide (b = Byte.x3f).

(** C35. For every combination of search, page, order and direction the number
    of placeholders of the generated statement is the number of arguments. *)
Theorem query_placeholders q epoch ob on asc limit lov lid :
  orderOn ob = Ret on -> is_nil lov = is_nil lid ->
  len (List.filter is_placeholder (executeTemplate queryTemplate
    {| DoJoin := negb (bool_decide (q = [])); FirstPage := is_nil lid; OrderOn := on;
       Ascending := asc |})) = len (queryArgs q epoch lov lid limit).
Proof.
  intros Hon Hnil. unfold queryArgs. 
  destruct (bool_decide (q = [])), lid, lov; try done; destruct ob; try done;
    injection Hon as <-; destruct asc; vm_compute; reflexivity.
Qed.

(** ** Errors *)

Lemma conn_Query_fails sql args t e os :
  exists c' e', conn_Query sql args (connect_to t (Fails e :: os)) = (c', Ret (Err e')).
Proof. unfold conn_Query. destruct (convertArgs args); eexists _, _; done. Qed.

(** When the driver fails a query, QueryTorrents, GetTorrent, GetFiles and
    GetStatistics do not return its error but panic, because the deferred
    closeRows runs with a nil pointer; so does QueryTorrents for a limit of
    2^63 or more, which the driver never gets to see. *)
Theorem query_failure_panics t e os q epoch ob on asc limit lov lid ih from n p :
  orderOn ob = Ret on -> is_nil lov = is_nil lid -> q <> [] \/ ob <> ByRelevance ->
  ParseISO8601 from = Ret (Ok p) ->
  (run (sqlite3_QueryTorrents q epoch ob asc limit lov lid) t (Fails e :: os)).2 = Panic /\
  (2 ^ 63 <= limit ->
   (run (sqlite3_QueryTorrents q epoch ob asc limit lov lid) t []).2 = Panic) /\
  (run (sqlite3_GetTorrent ih) t (Fails e :: os)).2 = Panic /\
  (run (sqlite3_GetFiles ih) t (Fails e :: os)).2 = Panic /\
  (run (sqlite3_GetStatistics from n) t (Fails e :: os)).2 = Panic.
Proof.
  intros Hon Hnil Hq Hp.
  assert (bool_decide (q = []) && bool_decide (ob = ByRelevance) = false) as E1.
  { destruct Hq; [by rewrite (bool_decide_eq_false_2 (q = _))|].
    by rewrite (bool_decide_eq_false_2 (ob = _)), andb_false_r. }
  assert (negb (Bool.eqb (is_nil lov) (is_nil lid)) = false) as E2 by (rewrite Hnil; by destruct lid).
  unfold sqlite3_QueryTorrents, sqlite3_GetTorrent, sqlite3_GetFiles, sqlite3_GetStatistics.
  rewrite E1, E2, Hon, Hp. split_and!.
  - edestruct conn_Query_fails as (c' & e' & Hf). by eapply query_panics.
  - intros Hl.
    destruct (convertArgs_err (AUint64 limit) (queryArgs q epoch lov lid limit)) as [e' He'].
    + unfold queryArgs. rewrite !elem_of_app. right. right. right. by left.
    + cbn. unfold convertUint64. by rewrite (proj2 (Z.leb_le _ _) Hl).
    + eapply query_panics. unfold conn_Query. by rewrite He'.
  - edestruct conn_Query_fails as (c' & e' & Hf). by eapply query_panics.
  - edestruct conn_Query_fails as (c' & e' & Hf). by eapply query_panics.
  - destruct p as [fromTime gran]. destruct (period fromTime gran n) as [toTime timef].
    edestruct conn_Query_fails as (c' & e' & Hf). by eapply query_panics.
Qed.

(** An error that ends the rows early is lost. DoesTorrentExist then says
    that a stored torrent does not exist, and QueryTorrents returns the rows
    received so far as if they were all. *)
Theorem rows_error_lost t n e ih q epoch ob on asc limit :
  wf t -> orderOn ob = Ret on -> query_ok q ob -> 0 <= limit < 2 ^ 63 ->
  run (sqlite3_DoesTorrentExist ih) t [Breaks 0 e] = (t, Ret (Ok false)) /\
  run (sqlite3_QueryTorrents q epoch ob asc limit None None) t [Breaks n e] =
  (t, Ret (Ok (map (metadata_of t q)
    (take n (select (fts_rank t) (torrent_rows t) (file_rows t) q epoch ob asc limit None))))).
Proof.
  intros Hw Hon Hq Hl. split.
  - unfold run, sqlite3_DoesTorrentExist, rowExists.
    by erewrite bind_ok by (apply (query_fine (Some (0%nat, e)) _ _ [VBlob ih]);
      [done|by apply exists_law, Hw]).
  - by apply (QueryTorrents_run (Some (n, e)) t q epoch ob on asc limit None).
Qed.

(** ** Schema upgrades *)

Definition same_content (t t' : tables) : Prop :=
  user_version t' = user_version t /\ torrent_rows t' = torrent_rows t /\ file_rows t' = file_rows t.

(** What every version of the schema guarantees. *)
Definition upgradable (t : tables) : Prop :=
  NoDup (map tr_info_hash (torrent_rows t)) /\
  Forall (fun r => tr_discovered_on r <= modifiedDefault) (torrent_rows t).

(** Version 3 with the same torrents and files. *)
Definition upgraded (t t' : tables) : Prop :=
  user_version t' = 3 /\ map core (torrent_rows t') = map core (torrent_rows t) /\
  file_rows t' = file_rows t /\
  Forall (fun r => tr_discovered_on r <= tr_modified_on r) (torrent_rows t').

Lemma same_content_upgradable t t' : same_content t t' -> upgradable t -> upgradable t'.
Proof. unfold upgradable. by intros (_ & -> & _). Qed.

Definition upgrades (v : Z) (m : DB unit) : Prop := forall c t,
  tx c = Some t -> user_version t = v -> upgradable t ->
  attempt m c (fun _ c' => exists t', tx c' = Some t' /\ upgraded t t').

Lemma upgrade_run sql msg c t t' n :
  tx c = Some t -> exec t sql [] = Ok (t', n) ->
  attempt (upgrade sql msg) c (fun _ c' => tx c' = Some t').
Proof.
  intros Ht Hx. eapply attempt_bind; [by eapply attempt_wrap, attempt_Exec|].
  intros m c' [_ ?]. by apply attempt_ret.
Qed.

Lemma upgrades_last : upgrades 2 upgradeFrom2.
Proof.
  intros c t Ht Hv [Hn Hf]. destruct (upgrade23_law t Hv Hf) as (t' & n & Hx & H).
  eapply attempt_mono; [by eapply upgrade_run|]. intros [] c' Ht'. by exists t'.
Qed.

Lemma upgrades_step v sql msg m :
  (forall t, user_version t = v -> upgradable t -> exists t' n, exec t sql [] = Ok (t', n) /\
     user_version t' = v + 1 /\ torrent_rows t' = torrent_rows t /\ file_rows t' = file_rows t) ->
  upgrades (v + 1) m -> upgrades v (_ ← upgrade sql msg; m).
Proof.
  intros Hlaw Hm c t Ht Hv Hup. destruct (Hlaw t Hv Hup) as (t1 & n & Hx & Hv1 & Hr1 & Hf1).
  eapply attempt_bind; [by eapply upgrade_run|]. intros [] c1 Ht1.
  assert (upgradable t1) as Hup1 by (unfold upgradable; by rewrite Hr1).
  eapply attempt_mono; [by apply (Hm c1 t1)|]. intros [] c' (t' & Ht' & H1 & H2 & H3 & H4).
  exists t'. unfold upgraded. split_and!; try done; congruence.
Qed.

Lemma upgrades_1 : upgrades 1 upgradeFrom1.
Proof. apply upgrades_step; [|exact upgrades_last]. intros t Hv _. by apply upgrade12_law. Qed.

Lemma upgrades_0 : upgrades 0 upgradeFrom0.
Proof. apply upgrades_step; [|exact upgrades_1]. intros t Hv [Hn _]. by apply upgrade01_law. Qed.

(** The content after set-up. *)
Definition set_up (t t' : tables) : Prop :=
  if user_version t <? 3 then upgraded t t' else same_content t t'.

Lemma upgradeSchema_run c t :
  tx c = Some t -> 0 <= user_version t -> upgradable t ->
  attempt (upgradeSchema (user_version t)) c (fun _ c' => exists t', tx c' = Some t' /\ set_up t t').
Proof.
  intros Ht Hv Hup. unfold upgradeSchema, set_up.
  destruct (Z.eqb_spec (user_version t) 0) as [E|E0]; [rewrite E; by apply upgrades_0|].
  destruct (Z.eqb_spec (user_version t) 1) as [E|E1]; [rewrite E; by apply upgrades_1|].
  destruct (Z.eqb_spec (user_version t) 2) as [E|E2]; [rewrite E; by apply upgrades_last|].
  rewrite (proj2 (Z.ltb_ge _ _)) by lia. apply attempt_ret. by exists t.
Qed.

Lemma readUserVersion_run c t :
  tx c = Some t -> attempt readUserVersion c (fun v c' => v = user_version t /\ tx c' = Some t).
Proof.
  intros Ht. unfold readUserVersion.
  destruct (tx_Query_run selectUserVersion [] [] c t Ht eq_refl) as (o & c1 & Hqu & Hq & Ht1 & Ho).
  rewrite version_law in Hqu. destruct o as [|e|[|k] e]; cbn [deliver take] in Hqu.
  2:{ eexists c1, _. erewrite bind_err by (by apply wrap_err). split_and!; [done..|]. left. eexists.
      split; [done|]. intros E. by specialize (Ho E). }
  2:{ eexists c1, _. erewrite bind_ok by (by apply wrap_ok). split_and!; [done..|]. left. eexists.
      split; [done|]. intros E. by specialize (Ho E). }
  all: eexists c1, _; (erewrite bind_ok by (by apply wrap_ok)); (split_and!; [done..|]); right;
    eexists; (split; [done|]); by rewrite Ht1.
Qed.

Lemma setupSchema_run c t :
  tx c = Some t -> 0 <= user_version t -> upgradable t ->
  attempt setupSchema c (fun _ c' => exists t', tx c' = Some t' /\ set_up t t').
Proof.
  intros Ht Hv Hup. destruct (schema0_law t) as (t0 & n & Hx & Hv0 & Hr0 & Hf0).
  eapply attempt_bind; [by eapply attempt_wrap, attempt_Exec|]. intros m c1 [_ Ht1].
  eapply attempt_bind; [by apply (readUserVersion_run c1 t0)|]. intros v c2 [-> Ht2].
  assert (upgradable t0) as Hup0 by (unfold upgradable; by rewrite Hr0).
  eapply attempt_mono; [apply (upgradeSchema_run c2 t0 Ht2); [lia|done]|].
  intros [] c' (t' & Ht' & Hs). exists t'. split; [done|].
  unfold set_up, upgraded, same_content in *. by rewrite Hv0, Hr0, Hf0 in Hs.
Qed.

(** setupDatabase brings a database of any version up to version 3 with
    all its torrents and files, a modification time for each torrent, and no
    intermediate version; one of version 3 or newer keeps its content. It fails
    only if the outside world does, and then the content is as before. *)
Lemma setupDatabase_upgrades t o t' r :
  0 <= user_version t -> upgradable t ->
  run sqlite3_setupDatabase t o = (t', r) ->
  (exists e, r = Ret (Err e) /\ o <> [] /\ same_content t t') \/ r = Ret (Ok tt) /\ set_up t t'.
Proof.
  intros Hv Hup H. unfold run, sqlite3_setupDatabase in H.
  destruct (pragma_law t) as (tp & np & Hp & Hvp & Hrp & Hfp).
  destruct (conn_Exec_run pragmas [] [] (connect_to t o) eq_refl)
    as [(e & c1 & He & Hq & _ & Hs)|(t1 & n1 & c1 & Hx & He & Hc1 & Ht1 & Hs1)];
    cbn [committed connect_to script] in *.
  { erewrite bind_err in H by (by apply wrap_err). injection H as <- <-. left. eexists.
    rewrite (proj1 Hq). split_and!; [done| |done]. destruct Hs as [Hs|Hs]; [done|congruence]. }
  rewrite Hp in Hx. injection Hx as <- <-. erewrite bind_ok in H by (by apply wrap_ok).
  assert (same_content t tp) as Hsame by done.
  destruct (conn_Begin_run c1) as [(e & c2 & Hb & Hq & _ & Hs)|(c2 & Hb & Hq & Ht2)].
  { erewrite bind_err in H by (by apply wrap_err). injection H as <- <-. left. eexists.
    rewrite (proj1 Hq), Hc1. split_and!; [done| |done]. intros E. by apply Hs, Hs1. }
  erewrite bind_ok in H by (by apply wrap_ok). unfold defer_Rollback in H. rewrite Hc1 in Ht2.
  destruct (setupSchema_run c2 tp Ht2) as (c3 & r3 & Hr3 & Hq3 & HH);
    [lia|by eapply same_content_upgradable|].
  assert (committed c3 = tp) as Hc3 by (rewrite (proj1 Hq3), (proj1 Hq); done).
  destruct HH as [(e & -> & Hs)|([] & -> & t3 & Ht3 & Hset)].
  { rewrite (bind_err _ _ _ _ _ Hr3) in H. injection H as <- <-. left. eexists. simpl. rewrite Hc3.
    split_and!; [done| |done]. intros E. by apply Hs, Hq, Hs1. }
  rewrite (bind_ok _ _ _ _ _ Hr3) in H.
  destruct (tx_Commit_run c3 t3 Ht3) as [(e & c4 & Hc & Hq4 & Hs)|(c4 & Hc & Hcom)].
  { erewrite wrap_err in H by done. injection H as <- <-. left. eexists. simpl.
    rewrite (proj1 Hq4), Hc3. split_and!; [done| |done]. intros E. by apply Hs, Hq3, Hq, Hs1. }
  erewrite wrap_ok in H by done. injection H as <- <-. right. split; [done|]. simpl. rewrite Hcom.
  unfold set_up, upgraded, same_content in *. by rewrite Hvp, Hrp, Hfp in Hset.
Qed.

(** What opening a database file does to its content. *)
Lemma makeSqlite3Database_run u mkdir open t o t' r :
  0 <= user_version t -> upgradable t ->
  run (makeSqlite3Database u mkdir open) t o = (t', r) ->
  (exists e, r = Ret (Err e) /\ same_content t t' /\
     (o <> [] \/ is_ok (mkdir (splitDir (u_Path u))) = false \/ is_ok (open (file_url u)) = false)) \/
  r = Ret (Ok tt) /\ set_up t t'.
Proof.
  intros Hv Hup. unfold run, makeSqlite3Database.
  destruct (mkdir (splitDir (u_Path u))) as [[]|e] eqn:Em;
    [|intros [= <- <-]; left; eexists; split_and!; [done..|by auto]].
  destruct (open (file_url u)) as [[]|e] eqn:Eo.
  2:{ erewrite bind_err by (by apply wrap_err). intros [= <- <-]. left. eexists. split_and!; [done..|by auto]. }
  erewrite bind_ok by (by apply wrap_ok).
  destruct (next_outcome_run (connect_to t o)) as (x & c1 & Hx & [Hc Hsc] & Htx & Hf).
  assert (conn_Ping (connect_to t o) = (c1, Ret (perform x (Ok tt)))) as Hp
    by (unfold conn_Ping; by rewrite Hx).
  cbn [committed connect_to script tx] in *.
  assert (c1 = connect_to t (script c1)) as E1 by (destruct c1; cbn in *; unfold connect_to; congruence).
  destruct (perform x (Ok tt)) as [[]|e] eqn:Ex.
  2:{ erewrite bind_err by (by apply wrap_err). intros [= <- <-]. left. eexists. rewrite Hc.
      split_and!; [done..|]. left. intros E. rewrite (Hf E) in Ex. done. }
  erewrite bind_ok by (by apply wrap_ok). rewrite E1. intros H.
  destruct (setupDatabase_upgrades t (script c1)
    (run sqlite3_setupDatabase t (script c1)).1 (run sqlite3_setupDatabase t (script c1)).2 Hv Hup)
    as [(e & Hr & Hs & Hsame)|[Hr Hset]]; [by destruct (run _ _ _)| |];
    unfold run in *; destruct (sqlite3_setupDatabase (connect_to t (script c1))) as [c2 r2] eqn:Es;
    cbn [fst snd] in *; subst r2.
  - erewrite wrap_err in H by exact Es. injection H as <- <-. left. eexists.
    split_and!; [done..|]. left. intros E. by apply Hs, Hsc.
  - erewrite wrap_ok in H by exact Es. injection H as <- <-. by right.
Qed.

(** C21. Opening a database file of any version brings it up to version 3 with
    all its torrents and files, a modification time for each torrent, and no
    intermediate version; one of version 3 or newer keeps its content. It fails
    only if the directory cannot be made, sql.Open refuses the URL or a call of
    the driver fails, and then the content is as before. *)
Theorem makeSqlite3Database_opens u mkdir open t o t' r :
  0 <= user_version t -> upgradable t ->
  run (makeSqlite3Database u mkdir open) t o = (t', r) ->
  (exists e, r = Ret (Err e) /\ same_content t t' /\
     (o <> [] \/ is_ok (mkdir (splitDir (u_Path u))) = false \/ is_ok (open (file_url u)) = false)) \/
  r = Ret (Ok tt) /\ set_up t t'.
Proof. apply makeSqlite3Database_run. Qed.

(** ** Statistics *)

(** The instant [n] periods later, on the calendar for months and years. *)
Definition period_end (from : Z) (gran : Granularity) (n : Z) : Z :=
  let '(y, m, d) := civil from in
  match gran with
  | Year => Date (y + n) m d 0 0 (from mod 86400)
  | Month => Date y (m + n) d 0 0 (from mod 86400)
  | Week => from + n * 604800
  | Day => from + n * 86400
  | Hour => from + n * 3600
  end.

Definition time_format (gran : Granularity) : bytes :=
  match gran with
  | Year => str "%Y"
  | Month => str "%Y-%m"
  | Week => str "%Y-%W"
  | Day => str "%Y-%m-%d"
  | Hour => str "%Y-%m-%dT%H"
  end.

Lemma period_correct from gran n :
  0 <= n < 2 ^ 31 -> (gran = Hour -> n <= 2562047) ->
  period from gran n = (period_end from gran n, time_format gran).
Proof.
  intros Hn Hh. unfold period, period_end. pose proof (to_i64_id n ltac:(lia)) as E.
  destruct gran; rewrite ?E, ?AddDate_days.
  - unfold AddDate. destruct (civil from) as [[y m] d]. by rewrite !Z.add_0_r.
  - unfold AddDate. destruct (civil from) as [[y m] d]. by rewrite !Z.add_0_r.
  - destruct (civil from) as [[y m] d]. rewrite to_i64_id by lia. do 2 f_equal; lia.
  - by destruct (civil from) as [[y m] d].
  - destruct (civil from) as [[y m] d]. unfold Time_Add. rewrite Hours_exact by (split; [lia|auto]).
    replace (n * 3600000000000) with (n * 3600 * 1000000000) by lia. by rewrite Z.div_mul.
Qed.

(** A row of the statistics: label, total size, torrents and files. *)
Definition stats_values (x : bytes * Z * Z * Z) : list value :=
  let '(dT, tS, nD, nF) := x in [VText dT; VInt tS; VInt nD; VInt nF].

Definition stats_label (x : bytes * Z * Z * Z) : bytes := x.1.1.1.

(** The maps of such rows, one entry per label. *)
Definition stats_map (f : bytes * Z * Z * Z -> Z) (l : list (bytes * Z * Z * Z)) : gmap bytes Z :=
  list_to_map (map (fun x => (stats_label x, f x)) l).
Definition stats_of (l : list (bytes * Z * Z * Z)) : Statistics :=
  {| NDiscovered := stats_map (fun x => x.1.2) l; st_NFiles := stats_map snd l;
     TotalSize := stats_map (fun x => x.1.1.2) l |}.

Lemma stats_map_absent f l d : d ∉ map stats_label l -> stats_map f l !! d = None.
Proof.
  intros H. apply not_elem_of_list_to_map_1. intros Hin. apply H. revert Hin.
  rewrite !list_elem_of_fmap. intros (y & -> & (x & -> & Hx)%list_elem_of_fmap). by exists x.
Qed.

Lemma collectStats_spec l s :
  NoDup (map stats_label l) ->
  Forall (fun x => let '(dT, tS, nD, nF) := x in 0 <= tS /\ 0 <= nD /\ 0 <= nF) l ->
  collectStats (map stats_values l) s =
  mret {| NDiscovered := NDiscovered (stats_of l) ∪ NDiscovered s; st_NFiles := st_NFiles (stats_of l) ∪ st_NFiles s;
        TotalSize := TotalSize (stats_of l) ∪ TotalSize s |}.
Proof.
  intros Hn Hp. revert s Hn. induction Hp as [|[[[dT tS] nD] nF] l (H1 & H2 & H3) _ IH]; intros s Hn.
  - cbn. rewrite !(left_id_L ∅ (∪)). by destruct s.
  - cbn [map] in Hn. apply NoDup_cons in Hn as [Hni Hn].
    cbn [map collectStats stats_values scanStats scanText]. rewrite !scanUint64_int by done. rewrite IH by done.
    cbn [NDiscovered st_NFiles TotalSize stats_of].
    assert (forall f v (m : gmap bytes Z), f (dT, tS, nD, nF) = v ->
      stats_map f l ∪ <[dT := v]> m = stats_map f ((dT, tS, nD, nF) :: l) ∪ m) as E.
    { intros f v m <-. rewrite <- insert_union_r by (by apply stats_map_absent). by rewrite insert_union_l. }
    by rewrite !E.
Qed.

(** GetStatistics asks for the period its arguments denote and reports exactly
    the numbers of the database. *)
Lemma GetStatistics_run t s from gran n l :
  ParseISO8601 s = Ret (Ok (from, gran)) -> 0 <= n < 2 ^ 31 -> (gran = Hour -> n <= 2562047) ->
  query t (selectStatistics (time_format gran)) [VInt from; VInt (period_end from gran n)] =
    Ok (map stats_values l) ->
  NoDup (map stats_label l) ->
  Forall (fun x => let '(dT, tS, nD, nF) := x in 0 <= tS /\ 0 <= nD /\ 0 <= nF) l ->
  run (sqlite3_GetStatistics s n) t [] = (t, Ret (Ok (stats_of l))).
Proof.
  intros Hs Hn Hh Hq Hl Hp. unfold sqlite3_GetStatistics. rewrite Hs, period_correct by done.
  eapply (query_closed None); [done|exact Hq|]. cbn [received r_rows]. rewrite collectStats_spec by done.
  cbn [NDiscovered st_NFiles TotalSize NewStatistics]. by rewrite !(right_id_L ∅ (∪)).
Qed.

(** For 2562048 hours and more the duration overflows: the period then
    ends before it begins, and no torrent lies in it. *)
Theorem statistics_hours_overflow from n :
  2562048 <= n <= 5124094 -> (period from Hour n).1 < from.
Proof.
  intros Hn. cbn [period fst]. unfold Time_Add, Hours. rewrite (to_i64_id n) by lia. unfold to_i64.
  replace ((n * 3600000000000 + 2 ^ 63) mod 2 ^ 64) with (n * 3600000000000 + 2 ^ 63 - 2 ^ 64).
  - Z.to_euclidean_division_equations; lia.
  - apply Z.mod_unique with 1; [left|]; lia.
Qed.

End Props.
