(* ===== verification/Sqlite3Model.v ===== *)
(** A small in-memory database that follows the laws of Sqlite3Laws.v, so that
    the theorems of Sqlite3Props.v can be applied. It recognises the statements
    by their text; full text search finds exact names. *)

From S2P Require Import Prelude GoLib GoTime Iso8601 Persistence Sql Keyset TorrentTables Sqlite3 Sqlite3Laws Sqlite3Props.
From Stdlib Require Import ZArith Lia.
From Stdlib Require QArith_base.
From stdpp Require Import base list gmap.
Local Open Scope Z_scope.

Record memory := {
  mem_version : Z;
  mem_torrents : list torrentRow;
  mem_files : list fileRow }.

Definition mem_rank (q : bytes) (r : torrentRow) : option float64 :=
  if bool_decide (q = tr_name r) then Some (QArith_base.inject_Z (-1)) else None.

Definition next_id (rows : list torrentRow) : Z := foldr (fun r m => Z.max (tr_id r) m) 0 rows + 1.

(** ** Statements by their text *)

Definition orders : list OrderingCriteria := [ByRelevance; ByTotalSize; ByDiscoveredOn; ByNFiles].
Definition bools : list bool := [true; false].

Definition shapes : list (queryData * OrderingCriteria) :=
  dj ← bools; fp ← bools; asc ← bools; ob ← orders;
  match orderOn ob with
  | Ret on => [({| DoJoin := dj; FirstPage := fp; OrderOn := on; Ascending := asc |}, ob)]
  | Panic => []
  end.

Definition same_text (a b : bytes) : bool := bool_decide (a = b).

Definition find_shape (sql : bytes) : option (queryData * OrderingCriteria) :=
  List.find (fun s => same_text (executeTemplate queryTemplate s.1) sql) shapes.

Lemma find_shape_ok dj fp on asc ob :
  orderOn ob = Ret on ->
  let d := {| DoJoin := dj; FirstPage := fp; OrderOn := on; Ascending := asc |} in
  find_shape (executeTemplate queryTemplate d) = Some (d, ob).
Proof.
  intros H. cbv zeta. destruct ob; try done; injection H as <-;
    destruct dj, fp, asc; vm_compute; reflexivity.
Qed.

(** The values of the placeholders of a select. *)
Definition select_params (d : queryData) (args : list value) : option (bytes * Z * option key * Z) :=
  let '(q, rest) :=
    match DoJoin d, args with true, VText q :: rest => (q, rest) | _, _ => ([], args) end in
  match FirstPage d, rest with
  | true, [VInt epoch; VInt limit] => Some (q, epoch, None, limit)
  | false, [VInt epoch; VReal v; VInt id; VInt limit] => Some (q, epoch, Some (v, id), limit)
  | _, _ => None
  end.

Lemma select_params_args q on asc epoch pos limit :
  select_params (select_data q on asc pos) (select_args q epoch pos limit) =
  Some (q, epoch, pos, limit).
Proof.
  unfold select_params, select_data, select_args. cbn [DoJoin FirstPage].
  destruct (bool_decide_reflect (q = [])) as [->|Hq]; destruct pos as [[v i]|]; done.
Qed.

Inductive stmt : Type :=
  | SExists | SMax | STorrent | SFiles | SVersion | SInsert | SFile | SPragmas | SSchema
  | SUp01 | SUp12 | SUp23.

Definition stmts : list (bytes * stmt) :=
  [(selectExists, SExists); (selectMaxRowid, SMax); (selectTorrent, STorrent);
   (selectFiles, SFiles); (selectUserVersion, SVersion); (insertTorrent, SInsert);
   (insertFile, SFile); (pragmas, SPragmas); (schema0, SSchema); (upgrade01, SUp01);
   (upgrade12, SUp12); (upgrade23, SUp23)].

Definition find_stmt (sql : bytes) : option stmt :=
  snd <$> List.find (fun s => same_text s.1 sql) stmts.

Definition err_sql : error := ErrText (str "SQL logic error").

Definition set_version (v : Z) (m : memory) : memory :=
  {| mem_version := v; mem_torrents := mem_torrents m; mem_files := mem_files m |}.

Definition set_modified (r : torrentRow) : torrentRow :=
  {| tr_id := tr_id r; tr_info_hash := tr_info_hash r; tr_name := tr_name r;
     tr_total_size := tr_total_size r; tr_discovered_on := tr_discovered_on r;
     tr_modified_on := tr_discovered_on r |}.

Definition mem_exec (m : memory) (sql : bytes) (args : list value) : res error (memory * Z) :=
  match find_stmt sql, args with
  | Some SInsert, [VBlob ih; VText name; VInt size; VInt now] =>
      let id := next_id (mem_torrents m) in
      if insertable (mem_torrents m) ih size now && (id <? 2 ^ 63)
      then Ok ({| mem_version := mem_version m;
                  mem_torrents := mem_torrents m ++ [new_row id ih name size now];
                  mem_files := mem_files m |}, id)
      else Err err_sql
  | Some SFile, [VInt id; VInt size; VText path] =>
      Ok ({| mem_version := mem_version m; mem_torrents := mem_torrents m;
             mem_files := mem_files m ++ [{| fr_torrent_id := id; fr_size := size; fr_path := path |}] |}, 0)
  | Some SPragmas, [] | Some SSchema, [] => Ok (m, 0)
  | Some SUp01, [] => Ok (set_version 1 m, 0)
  | Some SUp12, [] => Ok (set_version 2 m, 0)
  | Some SUp23, [] =>
      Ok ({| mem_version := 3; mem_torrents := map set_modified (mem_torrents m);
             mem_files := mem_files m |}, 0)
  | _, _ => Err err_sql
  end.

Definition mem_query (m : memory) (sql : bytes) (args : list value) : res error (list (list value)) :=
  match find_stmt sql, args with
  | Some SExists, [VBlob ih] => Ok (map (fun _ => [VInt 1]) (with_hash (mem_torrents m) ih))
  | Some SMax, [] => Ok [[max_id (mem_torrents m)]]
  | Some STorrent, [VBlob ih] => Ok (map (detail_values (mem_files m)) (with_hash (mem_torrents m) ih))
  | Some SFiles, [VBlob ih] =>
      Ok (map file_values (concat (map (fun r => files_of (mem_files m) (tr_id r))
            (with_hash (mem_torrents m) ih))))
  | Some SVersion, [] => Ok [[VInt (mem_version m)]]
  | None, _ =>
      match find_shape sql with
      | Some (d, ob) =>
          match select_params d args with
          | Some (q, epoch, pos, limit) =>
              Ok (map (select_values mem_rank (mem_files m) q)
                    (select mem_rank (mem_torrents m) (mem_files m) q epoch ob (Ascending d) limit pos))
          | None => Err err_sql
          end
      | None => Err err_sql
      end
  | _, _ => Err err_sql
  end.

Definition sqlite_model : Driver := {|
  tables := memory;
  exec := mem_exec;
  query := mem_query;
  formatFloat q := fmt_d (QArith_base.Qnum q) |}.

Lemma find_stmt_select d ob : In (d, ob) shapes -> find_stmt (executeTemplate queryTemplate d) = None.
Proof.
  intros H. assert (forallb (fun s => is_nil (find_stmt (executeTemplate queryTemplate s.1))) shapes = true)
    as Hall by (vm_compute; reflexivity).
  rewrite forallb_forall in Hall. specialize (Hall _ H). cbn [fst] in Hall.
  by destruct (find_stmt _).
Qed.

Lemma next_id_fresh rows : Forall (fun r => tr_id r < next_id rows) rows /\ 0 < next_id rows.
Proof.
  unfold next_id. induction rows as [|r rows [IH1 IH2]]; [split; [constructor|simpl; lia]|].
  cbn [foldr]. split; [|lia]. constructor; [lia|].
  eapply Forall_impl; [exact IH1|]. intros x Hx. simpl in *. lia.
Qed.

Lemma next_id_full rows : 2 ^ 63 <= next_id rows -> full rows.
Proof.
  unfold next_id, full. induction rows as [|r rows IH]; cbn [foldr]; [lia|]. intros H.
  destruct (Z.le_gt_cases (2 ^ 63 - 1) (tr_id r)); [by left|]. right. apply IH. lia.
Qed.

#[global] Instance sqlite_model_laws : SqliteLaws sqlite_model.
Proof.
  refine {| user_version := mem_version : tables (Driver := sqlite_model) -> Z;
            torrent_rows := mem_torrents : tables (Driver := sqlite_model) -> _;
            file_rows := mem_files : tables (Driver := sqlite_model) -> _;
            fts_rank := fun _ => mem_rank; fts_syntax := fun _ => true |};
    unfold exec, query, sqlite_model.
  - intros t ih Hv. unfold mem_query. by rewrite (eq_refl : find_stmt selectExists = Some SExists).
  - intros t ih name size now Hv. unfold mem_exec.
    rewrite (eq_refl : find_stmt insertTorrent = Some SInsert). cbv zeta.
    destruct (insertable _ _ _ _) eqn:Ei; [|by left]. cbn [andb].
    destruct (next_id_fresh (mem_torrents t)) as [Hf Hp].
    destruct (Z.ltb_spec (next_id (mem_torrents t)) (2 ^ 63)) as [Hl|Hl];
      [|right; by apply next_id_full].
    split_and!; try done. intros Hin. apply list_elem_of_fmap in Hin as (r & E & Hr).
    rewrite Forall_forall in Hf. specialize (Hf r Hr). lia.
  - intros t id size path Hv Hid. unfold mem_exec.
    rewrite (eq_refl : find_stmt insertFile = Some SFile). by eexists _, _.
  - intros t Hv. unfold mem_query. by rewrite (eq_refl : find_stmt selectMaxRowid = Some SMax).
  - intros t ih Hv. unfold mem_query. by rewrite (eq_refl : find_stmt selectTorrent = Some STorrent).
  - intros t ih Hv. unfold mem_query. rewrite (eq_refl : find_stmt selectFiles = Some SFiles).
    by eexists.
  - intros t q epoch ob on asc limit pos Hv Hon Hl Hq. unfold mem_query.
    pose proof (find_shape_ok (negb (bool_decide (q = []))) (is_nil pos) on asc ob Hon) as Hs.
    cbv zeta in Hs. fold (select_data q on asc pos) in Hs.
    rewrite (find_stmt_select (select_data q on asc pos) ob), Hs, select_params_args; [done|].
    exact (proj1 (find_some _ _ Hs)).
  - intros t. unfold mem_exec. rewrite (eq_refl : find_stmt pragmas = Some SPragmas). by eexists _, _.
  - intros t. unfold mem_exec. rewrite (eq_refl : find_stmt schema0 = Some SSchema). by eexists _, _.
  - intros t. unfold mem_query. by rewrite (eq_refl : find_stmt selectUserVersion = Some SVersion).
  - intros t Hv Hn. unfold mem_exec. rewrite (eq_refl : find_stmt upgrade01 = Some SUp01). by eexists _, _.
  - intros t Hv. unfold mem_exec. rewrite (eq_refl : find_stmt upgrade12 = Some SUp12). by eexists _, _.
  - intros t Hv Hf. unfold mem_exec. rewrite (eq_refl : find_stmt upgrade23 = Some SUp23).
    eexists _, _. split_and!; [done|done| |done|].
    + cbn [mem_torrents]. rewrite map_map. done.
    + cbn [mem_torrents]. apply Forall_map, Forall_true. intros r. simpl. lia.
Defined.

(** ** Witnesses *)

Definition empty_mem (v : Z) : tables (Driver := sqlite_model) :=
  {| mem_version := v; mem_torrents := []; mem_files := [] |}.

Lemma empty_mem_wf : wf (empty_mem 3).
Proof. split; [reflexivity|split; constructor|constructor]. Qed.

Definition hash_a : bytes := replicate 20 Byte.x61.
Definition files_a : list File := [{| f_Size := 7; f_Path := str "a.iso" |}; {| f_Size := 3; f_Path := str "README" |}].
Definition ubuntu : bytes := str "ubuntu".

(** A database with one torrent. *)
Definition one_torrent : tables (Driver := sqlite_model) :=
  (run (R := sqlite_model) (sqlite3_AddNewTorrent 1500000000 hash_a ubuntu files_a) (empty_mem 3) []).1.

Lemma one_torrent_run :
  run (R := sqlite_model) (sqlite3_AddNewTorrent 1500000000 hash_a ubuntu files_a) (empty_mem 3) [] =
  (one_torrent, Ret (Ok tt)).
Proof. vm_compute. reflexivity. Qed.

Lemma not_full_empty v : ~ full (torrent_rows (empty_mem v)).
Proof. intros H. inversion H. Qed.

Lemma sqlite3_refines_witness :
  wf one_torrent /\ exists a, Ret (Ok tt) = Ret a /\
    abstract_add hash_a ubuntu files_a (sqlite3_torrents (empty_mem 3)) (sqlite3_torrents one_torrent) a.
Proof.
  apply (sqlite3_refines (R := sqlite_model) 1500000000 hash_a ubuntu files_a (empty_mem 3) []
    one_torrent (Ret (Ok tt)) empty_mem_wf one_torrent_run).
Defined.

Lemma AddNewTorrent_cases_witness :
  exists t' r, run (sqlite3_AddNewTorrent 1500000000 hash_a ubuntu files_a) (empty_mem 3) [] = (t', Ret r) /\
    r = Ok tt /\ added 1500000000 hash_a ubuntu files_a (empty_mem 3) t'.
Proof.
  destruct (AddNewTorrent_cases (R := sqlite_model) 1500000000 hash_a ubuntu files_a (empty_mem 3)
    empty_mem_wf (not_full_empty 3)) as (t' & r & H & HH).
  exists t', r. split; [exact H|]. cbv zeta in HH.
  rewrite bool_decide_eq_false_2 in HH by (vm_compute; intros [H'|H']; [discriminate|inversion H']).
  rewrite bool_decide_eq_true_2 in HH by (vm_compute; intuition discriminate). exact HH.
Defined.

Lemma query_placeholders_witness :
  len (List.filter is_placeholder (executeTemplate queryTemplate
    {| DoJoin := true; FirstPage := false; OrderOn := str "total_size"; Ascending := true |})) =
  len (queryArgs ubuntu 1600000000 (Some (QArith_base.inject_Z 10)) (Some 1) 20).
Proof.
  apply (query_placeholders ubuntu 1600000000 ByTotalSize (str "total_size") true 20
    (Some (QArith_base.inject_Z 10)) (Some 1)); reflexivity.
Defined.

Lemma query_failure_panics_witness :
  (run (sqlite3_QueryTorrents [] 1600000000 ByTotalSize true 20 None None) one_torrent
    [Fails (ErrDriver 5)]).2 = Panic.
Proof.
  apply (query_failure_panics (R := sqlite_model) one_torrent (ErrDriver 5) [] [] 1600000000 ByTotalSize
    (str "total_size") true 20 None None hash_a (str "2018") 1 (Date 2018 12 31 23 59 59, Year)).
  - reflexivity.
  - reflexivity.
  - right. discriminate.
  - vm_compute. reflexivity.
Defined.

Lemma rows_error_lost_witness :
  run (sqlite3_DoesTorrentExist hash_a) (empty_mem 3) [Breaks 0 (ErrDriver 5)] = (empty_mem 3, Ret (Ok false)).
Proof.
  apply (rows_error_lost (R := sqlite_model) (empty_mem 3) 0 (ErrDriver 5) hash_a [] 1600000000
    ByTotalSize (str "total_size") true 20).
  - exact empty_mem_wf.
  - reflexivity.
  - left. split; [reflexivity|discriminate].
  - split; [discriminate|reflexivity].
Defined.

Definition wit_url : URL :=
  {| u_Authority := []; u_Path := str "/data/database.sqlite3"; u_ForceQuery := false;
     u_RawQuery := str "_journal_mode=WAL"; u_Fragment := []; u_Query := []; u_Hostname := []; u_Port := [] |}.

Definition set_up_mem : tables (Driver := sqlite_model) :=
  (run (R := sqlite_model) (makeSqlite3Database wit_url
     (fun _ => Ok tt) (fun _ => Ok tt)) (empty_mem 0) []).1.

Lemma makeSqlite3Database_opens_witness : set_up (empty_mem 0) set_up_mem.
Proof.
  destruct (makeSqlite3Database_opens (R := sqlite_model) wit_url
    (fun _ => Ok tt) (fun _ => Ok tt) (empty_mem 0) [] set_up_mem (Ret (Ok tt)))
    as [(e & H & _)|[_ H]].
  - discriminate.
  - split; constructor.
  - vm_compute. reflexivity.
  - discriminate.
  - exact H.
Defined.

(** A driver that answers every query with one label. *)
Definition label_driver : Driver := {|
  tables := unit;
  exec t _ _ := Err err_sql;
  query _ _ _ := Ok (map stats_values [(str "2018-04-20T16", 10, 1, 2)]);
  formatFloat q := [] |}.

Lemma statistics_hours_overflow_witness :
  (period (Date 2018 4 20 15 59 59) Hour 2562048).1 < Date 2018 4 20 15 59 59.
Proof.
  apply (statistics_hours_overflow (Date 2018 4 20 15 59 59) 2562048). split; discriminate.
Defined.
