(* ===== verification/Encoding.v ===== *)
(** unicode/utf8, encoding/hex and the strings of encoding/json, as far as the
    engines and the web interface use them. *)

From S2P Require Import Prelude GoLib.
From Stdlib Require Import ZArith Lia.
From stdpp Require Import base list.
Local Open Scope Z_scope.

(** ** unicode/utf8 *)

Definition within (lo hi : Z) (b : byte) : bool := (lo <=? byte_val b) && (byte_val b <=? hi).
Definition is_cont : byte -> bool := within 128 191.

Lemma within_true lo hi b : within lo hi b = true <-> lo <= byte_val b <= hi.
Proof. unfold within. rewrite andb_true_iff, !Z.leb_le. done. Qed.

Lemma within_false lo hi b : within lo hi b = false <-> ~ lo <= byte_val b <= hi.
Proof. rewrite <- within_true. by destruct (within lo hi b). Qed.

(** The range of the second byte after a given first byte of three or four:
    no overlong forms, no surrogates, nothing beyond U+10FFFF. *)
Definition second3 (b0 : Z) : Z * Z :=
  if b0 =? 224 then (160, 191) else if b0 =? 237 then (128, 159) else (128, 191).
Definition second4 (b0 : Z) : Z * Z :=
  if b0 =? 240 then (144, 191) else if b0 =? 244 then (128, 143) else (128, 191).

(** utf8.DecodeRuneInString on a valid first encoding: the rune and its size;
    [None] is RuneError with size 1. *)
Definition decodeRune (s : bytes) : option (Z * nat) :=
  match s with
  | [] => None
  | b0 :: r0 =>
      let v0 := byte_val b0 in
      if v0 <? 128 then Some (v0, 1%nat)
      else if within 194 223 b0 then
        match r0 with
        | b1 :: _ => if is_cont b1 then Some ((v0 - 192) * 64 + (byte_val b1 - 128), 2%nat) else None
        | _ => None
        end
      else if within 224 239 b0 then
        match r0 with
        | b1 :: b2 :: _ =>
            if within (second3 v0).1 (second3 v0).2 b1 && is_cont b2
            then Some ((v0 - 224) * 4096 + (byte_val b1 - 128) * 64 + (byte_val b2 - 128), 3%nat)
            else None
        | _ => None
        end
      else if within 240 244 b0 then
        match r0 with
        | b1 :: b2 :: b3 :: _ =>
            if within (second4 v0).1 (second4 v0).2 b1 && is_cont b2 && is_cont b3
            then Some ((v0 - 240) * 262144 + (byte_val b1 - 128) * 4096 + (byte_val b2 - 128) * 64 +
                       (byte_val b3 - 128), 4%nat)
            else None
        | _ => None
        end
      else None
  end.

(** utf8.ValidString; [skip] bytes belong to a rune already decoded. *)
Fixpoint valid_from (skip : nat) (s : bytes) : bool :=
  match s with
  | [] => (skip =? 0)%nat
  | _ :: r =>
      match skip with
      | S k => valid_from k r
      | O => match decodeRune s with Some (_, S k) => valid_from k r | _ => false end
      end
  end.

Definition ValidString (s : bytes) : bool := valid_from 0 s.

(** The encoding of a Unicode scalar value. *)
Definition scalar (r : Z) : Prop := 0 <= r < 55296 \/ 57344 <= r <= 1114111.

Definition encodeRune (r : Z) : bytes :=
  if r <? 128 then [byte_of r]
  else if r <? 2048 then [byte_of (192 + r / 64); byte_of (128 + r mod 64)]
  else if r <? 65536
  then [byte_of (224 + r / 4096); byte_of (128 + r / 64 mod 64); byte_of (128 + r mod 64)]
  else [byte_of (240 + r / 262144); byte_of (128 + r / 4096 mod 64); byte_of (128 + r / 64 mod 64);
        byte_of (128 + r mod 64)].

Lemma byte_val_small z : 0 <= z < 256 -> byte_val (byte_of z) = z.
Proof. intros H. rewrite byte_val_of. by apply Z.mod_small. Qed.

Lemma byte_of_eq z b : z = byte_val b -> byte_of z = b.
Proof. intros ->. apply byte_of_val. Qed.

(** The range tests of a goal whose outcome follows from the context. *)
Ltac solve_within :=
  repeat match goal with
  | |- context [within ?lo ?hi ?b] =>
      first [rewrite (proj2 (within_true lo hi b)) by lia
            |rewrite (proj2 (within_false lo hi b)) by lia]
  | |- context [?a <? ?b] =>
      first [rewrite (proj2 (Z.ltb_lt a b)) by lia | rewrite (proj2 (Z.ltb_ge a b)) by lia]
  end; cbn [andb].

(** The digits of a rune in base 64. *)
Lemma digits3 r :
  0 <= r < 65536 -> exists a b c, r / 4096 = a /\ r / 64 mod 64 = b /\ r mod 64 = c /\
    r = a * 4096 + b * 64 + c /\ 0 <= a < 16 /\ 0 <= b < 64 /\ 0 <= c < 64.
Proof.
  intros H. exists (r / 4096), (r / 64 mod 64), (r mod 64).
  split_and!; try done; Z.to_euclidean_division_equations; lia.
Qed.

Lemma digits4 r :
  65536 <= r <= 1114111 -> exists a b c d, r / 262144 = a /\ r / 4096 mod 64 = b /\
    r / 64 mod 64 = c /\ r mod 64 = d /\ r = a * 262144 + b * 4096 + c * 64 + d /\
    0 <= a < 5 /\ 0 <= b < 64 /\ 0 <= c < 64 /\ 0 <= d < 64.
Proof.
  intros H. exists (r / 262144), (r / 4096 mod 64), (r / 64 mod 64), (r mod 64).
  split_and!; try done; Z.to_euclidean_division_equations; lia.
Qed.

Lemma decodeRune_encode r rest :
  scalar r -> decodeRune (encodeRune r ++ rest) = Some (r, length (encodeRune r)).
Proof.
  intros Hr. unfold scalar in Hr. unfold encodeRune.
  destruct (Z.ltb_spec r 128); [|destruct (Z.ltb_spec r 2048); [|destruct (Z.ltb_spec r 65536)]];
    cbn [app decodeRune length]; cbv zeta; unfold is_cont, second3, second4.
  - rewrite byte_val_small by lia. by solve_within.
  - destruct (digits3 r) as (a & b & c & Ha & Hb & Hc & E & ? & ? & ?); [lia|].
    replace (r / 64) with (a * 64 + b) by (Z.to_euclidean_division_equations; lia).
    rewrite Hc. pose proof (byte_val_small (192 + (a * 64 + b)) ltac:(lia)) as E0.
    pose proof (byte_val_small (128 + c) ltac:(lia)) as E1.
    rewrite E0. solve_within. do 2 f_equal. lia.
  - destruct (digits3 r) as (a & b & c & -> & -> & -> & E & ? & ? & ?); [lia|].
    pose proof (byte_val_small (224 + a) ltac:(lia)) as E0.
    pose proof (byte_val_small (128 + b) ltac:(lia)) as E1.
    pose proof (byte_val_small (128 + c) ltac:(lia)) as E2.
    rewrite E0. destruct (Z.eqb_spec (224 + a) 224), (Z.eqb_spec (224 + a) 237); cbn [fst snd];
      solve_within; do 2 f_equal; lia.
  - destruct (digits4 r) as (a & b & c & d & -> & -> & -> & -> & E & ? & ? & ? & ?); [lia|].
    pose proof (byte_val_small (240 + a) ltac:(lia)) as E0.
    pose proof (byte_val_small (128 + b) ltac:(lia)) as E1.
    pose proof (byte_val_small (128 + c) ltac:(lia)) as E2.
    pose proof (byte_val_small (128 + d) ltac:(lia)) as E3.
    rewrite E0. destruct (Z.eqb_spec (240 + a) 240), (Z.eqb_spec (240 + a) 244); cbn [fst snd];
      solve_within; do 2 f_equal; lia.
Qed.

Lemma encodeRune_digits3 a b c :
  2048 <= a * 4096 + b * 64 + c < 65536 -> 0 <= a -> 0 <= b < 64 -> 0 <= c < 64 ->
  encodeRune (a * 4096 + b * 64 + c) = [byte_of (224 + a); byte_of (128 + b); byte_of (128 + c)].
Proof.
  intros H Ha Hb Hc. unfold encodeRune. rewrite !(proj2 (Z.ltb_ge _ _)), (proj2 (Z.ltb_lt _ 65536)) by lia.
  destruct (digits3 (a * 4096 + b * 64 + c)) as (a' & b' & c' & -> & -> & -> & E & ? & ? & ?); [lia|].
  assert (a' = a /\ b' = b /\ c' = c) as (-> & -> & ->) by lia. done.
Qed.

Lemma encodeRune_digits4 a b c d :
  65536 <= a * 262144 + b * 4096 + c * 64 + d <= 1114111 -> 0 <= b < 64 -> 0 <= c < 64 -> 0 <= d < 64 ->
  encodeRune (a * 262144 + b * 4096 + c * 64 + d) =
  [byte_of (240 + a); byte_of (128 + b); byte_of (128 + c); byte_of (128 + d)].
Proof.
  intros H Hb Hc Hd. unfold encodeRune. rewrite !(proj2 (Z.ltb_ge _ _)) by lia.
  destruct (digits4 (a * 262144 + b * 4096 + c * 64 + d))
    as (a' & b' & c' & d' & -> & -> & -> & -> & E & ? & ? & ? & ?); [lia|].
  assert (a' = a /\ b' = b /\ c' = c /\ d' = d) as (-> & -> & -> & ->) by lia. done.
Qed.

Lemma decodeRune_sound s r n :
  decodeRune s = Some (r, n) -> scalar r /\ exists rest, s = encodeRune r ++ rest /\ n = length (encodeRune r).
Proof.
  unfold decodeRune. destruct s as [|b0 r0]; [done|]. cbv zeta. pose proof (byte_val_range b0) as R0.
  destruct (Z.ltb_spec (byte_val b0) 128) as [H0|H0].
  { intros [= <- <-]. split; [unfold scalar; lia|]. exists r0. unfold encodeRune. solve_within.
    by rewrite byte_of_val. }
  destruct (within 194 223 b0) eqn:E2.
  { destruct r0 as [|b1 rest]; [done|]. destruct (is_cont b1) eqn:C1; [|done]. intros [= <- <-].
    apply within_true in E2, C1. split; [unfold scalar; lia|]. exists rest. unfold encodeRune. solve_within.
    replace (((byte_val b0 - 192) * 64 + (byte_val b1 - 128)) / 64) with (byte_val b0 - 192)
      by (Z.to_euclidean_division_equations; lia).
    replace (((byte_val b0 - 192) * 64 + (byte_val b1 - 128)) mod 64) with (byte_val b1 - 128)
      by (Z.to_euclidean_division_equations; lia).
    by rewrite (byte_of_eq _ b0), (byte_of_eq _ b1) by lia. }
  apply within_false in E2. destruct (within 224 239 b0) eqn:E3.
  { destruct r0 as [|b1 [|b2 rest]]; [done..|]. unfold second3.
    destruct (Z.eqb_spec (byte_val b0) 224), (Z.eqb_spec (byte_val b0) 237); cbn [fst snd];
      (destruct (within _ _ b1 && is_cont b2) eqn:C; [|done]; intros [= <- <-];
       apply andb_true_iff in C as [C1 C2]; apply within_true in E3, C1, C2;
       rewrite encodeRune_digits3 by lia;
       (split; [unfold scalar; lia|]); exists rest;
       by rewrite (byte_of_eq _ b0), (byte_of_eq _ b1), (byte_of_eq _ b2) by lia). }
  apply within_false in E3. destruct (within 240 244 b0) eqn:E4; [|done].
  destruct r0 as [|b1 [|b2 [|b3 rest]]]; [done..|]. unfold second4.
  destruct (Z.eqb_spec (byte_val b0) 240), (Z.eqb_spec (byte_val b0) 244); cbn [fst snd];
    (destruct (within _ _ b1 && is_cont b2 && is_cont b3) eqn:C; [|done]; intros [= <- <-];
     apply andb_true_iff in C as [[C1 C2]%andb_true_iff C3]; apply within_true in E4, C1, C2, C3;
     rewrite encodeRune_digits4 by lia;
     (split; [unfold scalar; lia|]); exists rest;
     by rewrite (byte_of_eq _ b0), (byte_of_eq _ b1), (byte_of_eq _ b2), (byte_of_eq _ b3) by lia).
Qed.

Lemma encodeRune_nonempty r : exists b l, encodeRune r = b :: l.
Proof. unfold encodeRune. repeat case_match; eauto. Qed.

Lemma valid_skip k s t : length s = k -> valid_from k (s ++ t) = valid_from 0 t.
Proof. revert s. induction k as [|k IH]; intros [|b s] H; simplify_eq/=; [done|by apply IH]. Qed.

Lemma valid_encode r rest : scalar r -> valid_from 0 (encodeRune r ++ rest) = valid_from 0 rest.
Proof.
  intros Hr. pose proof (decodeRune_encode r rest Hr) as Hd.
  destruct (encodeRune_nonempty r) as (b & l & E). rewrite E in *. cbn [app length] in *.
  cbn [valid_from]. rewrite Hd. by apply valid_skip.
Qed.

(** A string is valid exactly if it is a sequence of encoded scalar values. *)
Lemma ValidString_runes s :
  ValidString s = true <-> exists rs, Forall scalar rs /\ s = concat (map encodeRune rs).
Proof.
  unfold ValidString. split.
  - remember (length s) as n eqn:Hn. revert s Hn. induction (lt_wf n) as [n _ IH]. intros s -> Hv.
    destruct s as [|b s]; [by exists []|]. cbn [valid_from] in Hv.
    destruct (decodeRune (b :: s)) as [[r k]|] eqn:Hd; [|done].
    apply decodeRune_sound in Hd as [Hr (rest & E & ->)].
    destruct (encodeRune_nonempty r) as (b' & l & El).
    assert (valid_from 0 (encodeRune r ++ rest) = true) as Hv'.
    { rewrite <- E. cbn [valid_from]. rewrite E, decodeRune_encode by done. exact Hv. }
    rewrite valid_encode in Hv' by done.
    destruct (IH (length rest)) with (s := rest) as (rs & Hrs & ->); [|done|done|].
    + rewrite E, length_app, El. simpl. lia.
    + exists (r :: rs). split; [by constructor|exact E].
  - intros (rs & Hrs & ->). induction Hrs as [|r rs Hr _ IH]; [done|]. cbn [map concat].
    by rewrite valid_encode.
Qed.

(** ** encoding/hex *)

Definition hex_digit (v : Z) : byte := byte_of (if v <? 10 then 48 + v else 87 + v).

Definition EncodeToString (src : bytes) : bytes :=
  concat (map (fun b => [hex_digit (byte_val b / 16); hex_digit (byte_val b mod 16)]) src).

(** util.HexField: the key and the text of a log field. *)
Definition HexField (key val : bytes) : bytes * bytes := (key, EncodeToString val).

Definition fromHexChar (c : byte) : option Z :=
  if within 48 57 c then Some (byte_val c - 48)
  else if within 97 102 c then Some (byte_val c - 87)
  else if within 65 70 c then Some (byte_val c - 55)
  else None.

(** hex.DecodeString; [None] is an error. *)
Fixpoint DecodeString (s : bytes) : option bytes :=
  match s with
  | [] => Some []
  | [_] => None
  | a :: b :: r =>
      match fromHexChar a, fromHexChar b, DecodeString r with
      | Some x, Some y, Some l => Some (byte_of (x * 16 + y) :: l)
      | _, _, _ => None
      end
  end.

Lemma fromHexChar_digit v : 0 <= v < 16 -> fromHexChar (hex_digit v) = Some v.
Proof.
  intros H. unfold fromHexChar, hex_digit. destruct (Z.ltb_spec v 10).
  - pose proof (byte_val_small (48 + v) ltac:(lia)). solve_within. f_equal. lia.
  - pose proof (byte_val_small (87 + v) ltac:(lia)). solve_within. f_equal. lia.
Qed.

Lemma hex_roundtrip src : DecodeString (EncodeToString src) = Some src.
Proof.
  unfold EncodeToString. induction src as [|b src IH]; [done|]. cbn [map concat app DecodeString].
  pose proof (byte_val_range b). rewrite IH, !fromHexChar_digit by (Z.to_euclidean_division_equations; lia).
  f_equal. f_equal. apply byte_of_eq. pose proof (Z.div_mod (byte_val b) 16). lia.
Qed.

Lemma DecodeString_length s b : DecodeString s = Some b -> length s = (2 * length b)%nat.
Proof.
  revert s b. fix IH 1. intros [|x [|y s]] b H; simplify_eq/=; [done|].
  destruct (fromHexChar x), (fromHexChar y), (DecodeString s) as [l|] eqn:E; simplify_eq/=.
  rewrite (IH s l E). lia.
Qed.

(** ** Strings of encoding/json *)

(** The bytes that encoding/json copies (htmlSafeSet), below 128. *)
Definition json_safe (b : byte) : bool :=
  (32 <=? byte_val b) && negb (bool_decide (b ∈ str "\<>&" ++ [Byte.x22])).

Definition json_escape (b : byte) : bytes :=
  if bool_decide (b = Byte.x22 \/ b = Byte.x5c) then [Byte.x5c; b]
  else if bool_decide (b = Byte.x0a) then str "\n"
  else if bool_decide (b = Byte.x0d) then str "\r"
  else if bool_decide (b = Byte.x09) then str "\t"
  else str "\u00" ++ [hex_digit (byte_val b / 16); hex_digit (byte_val b mod 16)].

(** The loop of encodeState.string: [skip] bytes belong to the current rune and
    are copied if [emit] holds. Invalid bytes become U+FFFD. *)
Fixpoint json_chars (skip : nat) (emit : bool) (s : bytes) : bytes :=
  match s with
  | [] => []
  | b :: r =>
      match skip with
      | S k => (if emit then [b] else []) ++ json_chars k emit r
      | O =>
          if byte_val b <? 128
          then (if json_safe b then [b] else json_escape b) ++ json_chars 0 true r
          else match decodeRune s with
               | Some (c, S k) =>
                   if (c =? 8232) || (c =? 8233)
                   then str "\u202" ++ [hex_digit (c mod 16)] ++ json_chars k false r
                   else b :: json_chars k true r
               | _ => str "\ufffd" ++ json_chars 0 true r
               end
      end
  end.

Definition json_string (s : bytes) : bytes := [Byte.x22] ++ json_chars 0 true s ++ [Byte.x22].

(** Reading a JSON string after its opening quote, as specification. *)
Inductive json_state : Type := Plain | Esc | Hex (n : nat) (acc : Z).

Definition prepend (l : bytes) (r : option (bytes * bytes)) : option (bytes * bytes) :=
  match r with Some (s, rest) => Some (l ++ s, rest) | None => None end.

Fixpoint unquote (st : json_state) (s : bytes) : option (bytes * bytes) :=
  match s with
  | [] => None
  | b :: r =>
      match st with
      | Plain =>
          if bool_decide (b = Byte.x22) then Some ([], r)
          else if bool_decide (b = Byte.x5c) then unquote Esc r
          else prepend [b] (unquote Plain r)
      | Esc =>
          if bool_decide (b = Byte.x22 \/ b = Byte.x5c) then prepend [b] (unquote Plain r)
          else if bool_decide (b = Byte.x6e) then prepend [Byte.x0a] (unquote Plain r)
          else if bool_decide (b = Byte.x72) then prepend [Byte.x0d] (unquote Plain r)
          else if bool_decide (b = Byte.x74) then prepend [Byte.x09] (unquote Plain r)
          else if bool_decide (b = Byte.x75) then unquote (Hex 3 0) r
          else None
      | Hex n acc =>
          match fromHexChar b with
          | None => None
          | Some d =>
              match n with
              | O => prepend (encodeRune (acc * 16 + d)) (unquote Plain r)
              | S n => unquote (Hex n (acc * 16 + d)) r
              end
          end
      end
  end.

Lemma prepend_app l k r : prepend (l ++ k) r = prepend l (prepend k r).
Proof. destruct r as [[s rest]|]; [|done]. simpl. by rewrite app_assoc. Qed.

(** One byte below 128 is read back. *)
Lemma unquote_ascii b x :
  byte_val b < 128 ->
  unquote Plain ((if json_safe b then [b] else json_escape b) ++ x) = prepend [b] (unquote Plain x).
Proof. destruct b; intros H; first [reflexivity | exfalso; vm_compute in H; discriminate H]. Qed.

Lemma high_ne b c : 128 <= byte_val b -> byte_val c < 128 -> b <> c.
Proof. intros H1 H2 ->. lia. Qed.

Lemma unquote_raw l x : Forall (fun b => 128 <= byte_val b) l -> unquote Plain (l ++ x) = prepend l (unquote Plain x).
Proof.
  induction 1 as [|b l Hb _ IH]; [simpl; by destruct (unquote Plain x) as [[? ?]|]|].
  cbn [app unquote]. rewrite !bool_decide_eq_false_2 by (apply high_ne; [exact Hb|reflexivity]).
  rewrite IH. by rewrite <- prepend_app.
Qed.

Lemma encodeRune_high r : 128 <= r -> scalar r -> Forall (fun b => 128 <= byte_val b) (encodeRune r).
Proof.
  intros H Hr. unfold scalar in Hr. unfold encodeRune. rewrite (proj2 (Z.ltb_ge r 128)) by lia.
  repeat case_match; repeat constructor; rewrite byte_val_small;
    repeat match goal with E : (_ <? _) = true |- _ => apply Z.ltb_lt in E end;
    Z.to_euclidean_division_equations; lia.
Qed.

Lemma json_skip k emit s t :
  length s = k -> json_chars k emit (s ++ t) = (if emit then s else []) ++ json_chars 0 emit t.
Proof.
  revert s. induction k as [|k IH]; intros [|b s] H; simplify_eq/=; [by destruct emit|].
  rewrite IH by done. by destruct emit.
Qed.

Lemma json_emit s : json_chars 0 false s = json_chars 0 true s.
Proof. by destruct s. Qed.

(** The characters of one rune. *)
Definition json_rune (r : Z) : bytes :=
  if r <? 128 then (if json_safe (byte_of r) then [byte_of r] else json_escape (byte_of r))
  else if (r =? 8232) || (r =? 8233) then str "\u202" ++ [hex_digit (r mod 16)]
  else encodeRune r.

Lemma json_chars_rune r t :
  scalar r -> json_chars 0 true (encodeRune r ++ t) = json_rune r ++ json_chars 0 true t.
Proof.
  intros Hr. pose proof (decodeRune_encode r t Hr) as Hd. unfold json_rune.
  destruct (Z.ltb_spec r 128) as [Hlt|Hge].
  - unfold encodeRune. rewrite (proj2 (Z.ltb_lt r 128) Hlt). cbn [app json_chars].
    unfold scalar in Hr. rewrite byte_val_small by lia. by rewrite (proj2 (Z.ltb_lt r 128) Hlt).
  - pose proof (encodeRune_high r Hge Hr) as Hh.
    destruct (encodeRune_nonempty r) as (b & l & E). rewrite E in *. cbn [app length] in *.
    apply Forall_cons in Hh as [Hb _]. cbn [json_chars].
    rewrite (proj2 (Z.ltb_ge _ _) Hb), Hd, !json_skip by done.
    destruct ((r =? 8232) || (r =? 8233)); [|done]. rewrite json_emit. by rewrite <- app_assoc.
Qed.

Lemma unquote_rune r x : scalar r -> unquote Plain (json_rune r ++ x) = prepend (encodeRune r) (unquote Plain x).
Proof.
  intros Hr. unfold json_rune. destruct (Z.ltb_spec r 128) as [Hlt|Hge].
  - unfold scalar in Hr. rewrite unquote_ascii by (rewrite byte_val_small; lia).
    unfold encodeRune. by rewrite (proj2 (Z.ltb_lt r 128) Hlt).
  - destruct ((r =? 8232) || (r =? 8233)) eqn:E; [|by apply unquote_raw, encodeRune_high].
    apply orb_true_iff in E as [->%Z.eqb_eq| ->%Z.eqb_eq]; reflexivity.
Qed.

(** A valid string is read back from its JSON form. *)
Lemma json_string_roundtrip s rest :
  ValidString s = true -> unquote Plain (json_chars 0 true s ++ [Byte.x22] ++ rest) = Some (s, rest).
Proof.
  intros (rs & Hrs & ->)%ValidString_runes. induction Hrs as [|r rs Hr _ IH]; [done|].
  cbn [map concat]. rewrite json_chars_rune, <- app_assoc, unquote_rune by done. by rewrite IH.
Qed.

(** No control character, in particular no newline, is in a JSON string. *)
Lemma json_ascii_printable b :
  byte_val b < 128 -> Forall (fun c => 32 <= byte_val c) (if json_safe b then [b] else json_escape b).
Proof.
  intros H. assert (forallb (fun c => 32 <=? byte_val c) (if json_safe b then [b] else json_escape b) = true) as E
    by (destruct b; first [reflexivity | exfalso; vm_compute in H; discriminate H]).
  rewrite forallb_forall in E. apply Forall_forall. intros c Hc%list_elem_of_In. by apply Z.leb_le, E.
Qed.

Lemma json_chars_printable k emit s :
  Forall (fun b => 128 <= byte_val b) (take k s) ->
  Forall (fun b => 32 <= byte_val b) (json_chars k emit s).
Proof.
  revert k emit. induction s as [|b s IH]; intros k emit Hk; [constructor|]. cbn [json_chars].
  destruct k as [|k].
  - destruct (Z.ltb_spec (byte_val b) 128) as [Hlt|Hge].
    + apply Forall_app_2; [by apply json_ascii_printable|by apply IH].
    + assert (Forall (fun c => 32 <= byte_val c) (str "\ufffd" ++ json_chars 0 true s)) as Hbad.
      { apply Forall_app_2; [repeat constructor; vm_compute; discriminate|by apply IH]. }
      destruct (decodeRune (b :: s)) as [[c [|k]]|] eqn:Hd; [done| |done].
      apply decodeRune_sound in Hd as [Hc (rest & E & El)].
      destruct (encodeRune_nonempty c) as (b' & l & Ec). rewrite Ec in *. simplify_eq/=.
      assert (128 <= c) as Hc128.
      { destruct (Z.ltb_spec c 128) as [Hcl|]; [|done]. unfold encodeRune in Ec.
        rewrite (proj2 (Z.ltb_lt c 128) Hcl) in Ec. simplify_eq. unfold scalar in Hc.
        rewrite byte_val_small in Hge; lia. }
      pose proof (encodeRune_high c Hc128 Hc) as Hh. rewrite Ec in Hh. apply Forall_cons in Hh as [_ Hh].
      assert (Forall (fun b => 128 <= byte_val b) (take (length l) (l ++ rest))) as Ht
        by (by rewrite take_app_length).
      destruct ((c =? 8232) || (c =? 8233)) eqn:E2.
      * apply orb_true_iff in E2 as [->%Z.eqb_eq| ->%Z.eqb_eq];
          (repeat (apply Forall_cons; split; [vm_compute; discriminate|])); by apply IH.
      * constructor; [lia|by apply IH].
  - simpl in Hk. apply Forall_cons in Hk as [Hb Hk]. apply Forall_app_2; [|by apply IH].
    destruct emit; [apply Forall_singleton; lia|constructor].
Qed.
