(* ===== verification/HttpLib.v ===== *)
(** encoding/base64, net/url and net/http as far as the web interface uses
    them: Basic authentication, query parameters, response writers. *)

From S2P Require Import Prelude GoLib Encoding.
From Stdlib Require Import ZArith Lia.
From stdpp Require Import base list.
Local Open Scope Z_scope.

#[local] Ltac Zify.zify_post_hook ::= Z.to_euclidean_division_equations.

(** ** encoding/base64, StdEncoding *)

Definition b64_char (v : Z) : byte :=
  byte_of (if v <? 26 then 65 + v else if v <? 52 then 71 + v else if v <? 62 then v - 4
           else if v =? 62 then 43 else 47).

Definition b64_val (b : byte) : option Z :=
  let v := byte_val b in
  if within 65 90 b then Some (v - 65)
  else if within 97 122 b then Some (v - 71)
  else if within 48 57 b then Some (v + 4)
  else if v =? 43 then Some 62
  else if v =? 47 then Some 63 else None.

Definition pad : byte := Byte.x3d.

Fixpoint b64_encode (s : bytes) : bytes :=
  match s with
  | [] => []
  | [a] =>
      let n := byte_val a * 65536 in
      [b64_char (n / 262144); b64_char (n / 4096 mod 64); pad; pad]
  | [a; b] =>
      let n := byte_val a * 65536 + byte_val b * 256 in
      [b64_char (n / 262144); b64_char (n / 4096 mod 64); b64_char (n / 64 mod 64); pad]
  | a :: b :: c :: r =>
      let n := byte_val a * 65536 + byte_val b * 256 + byte_val c in
      [b64_char (n / 262144); b64_char (n / 4096 mod 64); b64_char (n / 64 mod 64);
       b64_char (n mod 64)] ++ b64_encode r
  end.

(** Groups of four; padding only at the end. Bits that padding leaves over are
    not checked, as StdEncoding is not strict. *)
Fixpoint b64_groups (s : bytes) : option bytes :=
  match s with
  | [] => Some []
  | a :: b :: c :: d :: r =>
      va ← b64_val a;
      vb ← b64_val b;
      match b64_val c with
      | Some vc =>
          match b64_val d with
          | Some vd =>
              let n := va * 262144 + vb * 4096 + vc * 64 + vd in
              rest ← b64_groups r;
              Some ([byte_of (n / 65536); byte_of (n / 256); byte_of n] ++ rest)
          | None =>
              let n := va * 262144 + vb * 4096 + vc * 64 in
              if bool_decide (d = pad /\ r = [])
              then Some [byte_of (n / 65536); byte_of (n / 256)] else None
          end
      | None =>
          let n := va * 262144 + vb * 4096 in
          if bool_decide (c = pad /\ d = pad /\ r = []) then Some [byte_of (n / 65536)] else None
      end
  | _ => None
  end.

Definition is_crlf (b : byte) : bool := bool_decide (b = Byte.x0a \/ b = Byte.x0d).

Definition b64_decode (s : bytes) : option bytes :=
  b64_groups (filter (fun b => is_crlf b = false) s).

Lemma b64_val_char v : 0 <= v < 64 -> b64_val (b64_char v) = Some v.
Proof.
  intros Hv. assert (Forall (fun n => b64_val (b64_char (Z.of_nat n)) = Some (Z.of_nat n)) (seq 0 64)) as H
    by (repeat constructor).
  rewrite Forall_forall in H. specialize (H (Z.to_nat v)).
  rewrite Z2Nat.id in H by lia. apply H, elem_of_seq. lia.
Qed.

Lemma b64_val_crlf b v : b64_val b = Some v -> is_crlf b = false.
Proof. intros H. destruct (is_crlf b) eqn:E; [|done]. apply bool_decide_eq_true in E as [-> | ->]; done. Qed.

Ltac b64_step :=
  repeat match goal with
  | |- context [b64_val (b64_char ?v)] => rewrite (b64_val_char v) by lia
  end; cbn [mbind option_bind].

Lemma byte_of_mod_eq z b : z mod 256 = byte_val b -> byte_of z = b.
Proof. intros H. apply byte_val_inj. by rewrite byte_val_of. Qed.

Lemma b64_groups_encode s : b64_groups (b64_encode s) = Some s.
Proof.
  revert s. fix IH 1. intros [|a [|b [|c r]]]; [done|..];
    pose proof (byte_val_range a); try (pose proof (byte_val_range b)); try (pose proof (byte_val_range c)).
  - cbn [b64_encode b64_groups]. b64_step. change (b64_val pad) with (@None Z). cbn iota.
    rewrite bool_decide_eq_true_2 by done. do 2 f_equal. apply byte_of_mod_eq. lia.
  - cbn [b64_encode b64_groups]. b64_step. change (b64_val pad) with (@None Z). cbn iota.
    rewrite bool_decide_eq_true_2 by done. do 2 f_equal; [|f_equal]; apply byte_of_mod_eq; lia.
  - cbn [b64_encode app b64_groups]. b64_step. rewrite IH. cbn [mbind option_bind app].
    do 2 f_equal; [|f_equal; [|f_equal]]; apply byte_of_mod_eq; lia.
Qed.

Lemma b64_encode_clean s : filter (fun b => is_crlf b = false) (b64_encode s) = b64_encode s.
Proof.
  assert (forall v, 0 <= v < 64 -> is_crlf (b64_char v) = false) as Hc
    by (intros v Hv; by eapply b64_val_crlf, b64_val_char).
  revert s. fix IH 1. intros [|a [|b [|c r]]]; [done|..];
    pose proof (byte_val_range a); try (pose proof (byte_val_range b)); try (pose proof (byte_val_range c)).
  - cbn [b64_encode]. by rewrite !filter_cons_True by (first [apply Hc; lia|done]).
  - cbn [b64_encode]. by rewrite !filter_cons_True by (first [apply Hc; lia|done]).
  - cbn [b64_encode app]. rewrite !filter_cons_True by (apply Hc; lia). by rewrite IH.
Qed.

Lemma b64_roundtrip s : b64_decode (b64_encode s) = Some s.
Proof. unfold b64_decode. rewrite b64_encode_clean. apply b64_groups_encode. Qed.

(** ** strings and bytes *)

(** The part before the first [c] and the part after it. *)
Fixpoint Cut (s : bytes) (c : byte) : option (bytes * bytes) :=
  match s with
  | [] => None
  | b :: r =>
      if bool_decide (b = c) then Some ([], r)
      else '(x, y) ← Cut r c; Some (b :: x, y)
  end.

(** bytes.Split at a single byte. *)
Fixpoint Split (s : bytes) (c : byte) : list bytes :=
  match s with
  | [] => [[]]
  | b :: r =>
      if bool_decide (b = c) then [] :: Split r c
      else match Split r c with x :: l => (b :: x) :: l | [] => [[b]] end
  end.

Lemma Cut_app a c r : c ∉ a -> Cut (a ++ c :: r) c = Some (a, r).
Proof.
  induction a as [|b a IH]; intros H; cbn [app Cut].
  - by rewrite bool_decide_eq_true_2.
  - apply not_elem_of_cons in H as [Hb Ha]. rewrite bool_decide_eq_false_2 by congruence.
    by rewrite IH.
Qed.

Lemma Cut_Some s c a r : Cut s c = Some (a, r) -> s = a ++ c :: r /\ c ∉ a.
Proof.
  revert a. induction s as [|b s IH]; intros a H; cbn [Cut] in H; [done|].
  case_bool_decide as Hb; [injection H as <- <-; subst; split; [done|apply not_elem_of_nil]|].
  destruct (Cut s c) as [[x y]|]; [|done]. injection H as <- <-.
  destruct (IH x eq_refl) as [-> Hx]. split; [done|]. by apply not_elem_of_cons.
Qed.

Lemma Cut_None s c : Cut s c = None <-> c ∉ s.
Proof.
  induction s as [|b s IH]; cbn [Cut]; [split; [intros _; apply not_elem_of_nil|done]|].
  rewrite not_elem_of_cons. case_bool_decide as Hb; [subst; split; [done|intros [[] _]; done]|].
  destruct (Cut s c) as [[x y]|]; cbn; split; try done.
  - intros [_ H]. by apply IH in H.
  - intros _. split; [congruence|]. by apply IH.
Qed.

Lemma Split_none a c : c ∉ a -> Split a c = [a].
Proof.
  induction a as [|b a IH]; intros H; cbn [Split]; [done|].
  apply not_elem_of_cons in H as [Hb Ha]. rewrite bool_decide_eq_false_2 by congruence. by rewrite IH.
Qed.

Lemma Split_app a c r : c ∉ a -> Split (a ++ c :: r) c = a :: Split r c.
Proof.
  induction a as [|b a IH]; intros H; cbn [app Split].
  - by rewrite bool_decide_eq_true_2.
  - apply not_elem_of_cons in H as [Hb Ha]. rewrite bool_decide_eq_false_2 by congruence. by rewrite IH.
Qed.

(** ** Request.BasicAuth *)

Definition fold_case (b : byte) : byte := if within 65 90 b then byte_of (byte_val b + 32) else b.

(** The Authorization header, empty if absent. *)
Definition parseBasicAuth (auth : bytes) : option (bytes * bytes) :=
  if (length auth <? 6)%nat || negb (bool_decide (map fold_case (take 6 auth) = str "basic "))
  then None
  else c ← b64_decode (drop 6 auth); Cut c Byte.x3a.

(** Request.SetBasicAuth, what a client sends. *)
Definition basicAuth (username password : bytes) : bytes :=
  str "Basic " ++ b64_encode (username ++ Byte.x3a :: password).

Lemma parseBasicAuth_basicAuth username password :
  Byte.x3a ∉ username -> parseBasicAuth (basicAuth username password) = Some (username, password).
Proof.
  intros H. unfold parseBasicAuth, basicAuth. rewrite length_app.
  change (take 6 (str "Basic " ++ ?s)) with (str "Basic "). change (drop 6 (str "Basic " ++ ?s)) with s.
  rewrite bool_decide_eq_true_2 by reflexivity. cbn [length str String.list_byte_of_string].
  rewrite b64_roundtrip. cbn [mbind option_bind]. rewrite <- (Cut_app username Byte.x3a password) by done.
  done.
Qed.

(** ** Query parameters *)

(** Values in the order of the URL: those of one key keep their order. *)
Abbreviation urlValues := (list (bytes * bytes)).

Definition Values_Get (v : urlValues) (k : bytes) : bytes :=
  match List.find (fun p => bool_decide (p.1 = k)) v with Some p => p.2 | None => [] end.

Definition Values_All (v : urlValues) (k : bytes) : list bytes :=
  map snd (filter (fun p => p.1 = k) v).

Fixpoint QueryUnescape (s : bytes) : option bytes :=
  match s with
  | [] => Some []
  | b :: r =>
      if bool_decide (b = Byte.x25) then
        match r with
        | h :: l :: r =>
            x ← fromHexChar h; y ← fromHexChar l;
            rest ← QueryUnescape r; Some (byte_of (x * 16 + y) :: rest)
        | _ => None
        end
      else rest ← QueryUnescape r; Some ((if bool_decide (b = Byte.x2b) then Byte.x20 else b) :: rest)
  end.

(** Pairs end at an ampersand or a semicolon; what cannot be unescaped is
    left out. *)
Fixpoint SplitAny (s : bytes) : list bytes :=
  match s with
  | [] => [[]]
  | b :: r =>
      if bool_decide (b = Byte.x26 \/ b = Byte.x3b) then [] :: SplitAny r
      else match SplitAny r with x :: l => (b :: x) :: l | [] => [[b]] end
  end.

Definition parsePair (s : bytes) : urlValues :=
  if bool_decide (s = []) then []
  else
    let '(k, v) := default (s, []) (Cut s Byte.x3d) in
    match QueryUnescape k, QueryUnescape v with
    | Some k, Some v => [(k, v)]
    | _, _ => []
    end.

(** URL.Query. *)
Definition ParseQuery (rawQuery : bytes) : urlValues := concat (map parsePair (SplitAny rawQuery)).

(** Percent encoding of all bytes but some is undone. *)
Lemma QueryUnescape_percent (keep : byte -> bool) (digit : Z -> byte) s :
  (forall b, keep b = true -> b <> Byte.x25 /\ b <> Byte.x2b) ->
  (forall v, 0 <= v < 16 -> fromHexChar (digit v) = Some v) ->
  QueryUnescape (concat (map (fun b =>
    if keep b then [b] else [Byte.x25; digit (byte_val b / 16); digit (byte_val b mod 16)]) s)) = Some s.
Proof.
  intros Hk Hd. induction s as [|b s IH]; [done|]. cbn [map concat].
  pose proof (byte_val_range b). destruct (keep b) eqn:E.
  - apply Hk in E as [E1 E2]. cbn [app QueryUnescape].
    rewrite !bool_decide_eq_false_2 by done. by rewrite IH.
  - cbn [app QueryUnescape]. rewrite bool_decide_eq_true_2 by done.
    rewrite !Hd by (Z.to_euclidean_division_equations; lia). cbn [mbind option_bind].
    rewrite IH. cbn [mbind option_bind]. do 2 f_equal. apply byte_of_mod_eq.
    Z.to_euclidean_division_equations; lia.
Qed.

Lemma SplitAny_none a : Forall (fun b => b <> Byte.x26 /\ b <> Byte.x3b) a -> SplitAny a = [a].
Proof.
  induction 1 as [|b a [H1 H2] _ IH]; [done|]. cbn [SplitAny].
  rewrite bool_decide_eq_false_2 by tauto. by rewrite IH.
Qed.

Lemma SplitAny_app a r :
  Forall (fun b => b <> Byte.x26 /\ b <> Byte.x3b) a -> SplitAny (a ++ Byte.x26 :: r) = a :: SplitAny r.
Proof.
  induction 1 as [|b a [H1 H2] _ IH]; cbn [app SplitAny].
  - by rewrite bool_decide_eq_true_2 by auto.
  - rewrite bool_decide_eq_false_2 by tauto. by rewrite IH.
Qed.

(** ** ResponseWriter

    The status is fixed by the first WriteHeader, or to 200 by the first Write;
    headers set later are not sent. *)
Record ResponseWriter := { w_status : option Z; w_header : list (bytes * bytes); w_body : bytes }.

Definition newResponse : ResponseWriter := {| w_status := None; w_header := []; w_body := [] |}.

Definition WriteHeader (w : ResponseWriter) (code : Z) : ResponseWriter :=
  match w_status w with
  | None => {| w_status := Some code; w_header := w_header w; w_body := w_body w |}
  | Some _ => w
  end.

Definition Write (w : ResponseWriter) (b : bytes) : ResponseWriter :=
  let w := WriteHeader w 200 in
  {| w_status := w_status w; w_header := w_header w; w_body := w_body w ++ b |}.

Definition Header_Set (w : ResponseWriter) (k v : bytes) : ResponseWriter :=
  match w_status w with
  | None =>
      {| w_status := None; w_header := filter (fun p => p.1 <> k) (w_header w) ++ [(k, v)];
         w_body := w_body w |}
  | Some _ => w
  end.

(** [r_Vars] are the variables of the route, mux.Vars. *)
Record Request := {
  r_Path : bytes; r_RawQuery : bytes; r_Authorization : bytes; r_Vars : urlValues }.

Definition Request_BasicAuth (r : Request) : option (bytes * bytes) :=
  if bool_decide (r_Authorization r = []) then None else parseBasicAuth (r_Authorization r).
