(* ===== verification/Postgres.v ===== *)
(** pkg/persistence/postgres.go: the PostgreSQL engine. The statements are the
    texts of the source; what PostgreSQL documents about them is stated by the
    class [PgLaws], for which [pg_model] is an instance. *)

From S2P Require Import Prelude GoLib Encoding HttpLib Persistence Sql Keyset TorrentTables Sqlite3.
From Stdlib Require Import ZArith Lia.
From Stdlib Require QArith_base.
From stdpp Require Import base list gmap.
Local Open Scope Z_scope.

(** ** Statements *)

Definition pgSelectExists : bytes :=
  str "SELECT 1 FROM torrents WHERE info_hash = $1;".

Definition pgInsertTorrent : bytes :=
  str "
		INSERT INTO torrents (
			info_hash,
			name,
			total_size,
			discovered_on
		) VALUES ($1, $2, $3, $4)
		RETURNING id;
	".

Definition pgInsertFile : bytes :=
  str "INSERT INTO files (torrent_id, size, path) VALUES ($1, $2, $3);".

Definition pgSelectCount : bytes :=
  str "SELECT reltuples::BIGINT AS estimate_count FROM pg_class WHERE relname='torrents';".

Definition pgSelectTorrent : bytes :=
  str "
		SELECT
			t.info_hash,
			t.name,
			t.total_size,
			t.discovered_on,
			(SELECT COUNT(" ++ str "*" ++ str ") FROM files f WHERE f.torrent_id = t.id) AS n_files
		FROM torrents t
		WHERE t.info_hash = $1;".

Definition pgSelectFiles : bytes :=
  str "
		SELECT
       		f.size,
       		f.path 
		FROM files f, torrents t WHERE f.torrent_id = t.id AND t.info_hash = $1;".

Definition pgSelectTrgm : bytes :=
  str "SELECT 1 FROM pg_extension WHERE extname = 'pg_trgm';".

Definition pgSchema (schema : bytes) : bytes :=
  str "
		CREATE SCHEMA IF NOT EXISTS " ++ schema ++ str ";		

		-- Torrents ID sequence generator
		CREATE SEQUENCE IF NOT EXISTS seq_torrents_id;
		-- Files ID sequence generator
		CREATE SEQUENCE IF NOT EXISTS seq_files_id;

		CREATE TABLE IF NOT EXISTS torrents (
			id             INTEGER PRIMARY KEY DEFAULT nextval('seq_torrents_id'),
			info_hash      bytea NOT NULL UNIQUE,
			name           TEXT NOT NULL,
			total_size     BIGINT NOT NULL CHECK(total_size > 0),
			discovered_on  INTEGER NOT NULL CHECK(discovered_on > 0)
		);

		-- Indexes for search sorting options
		CREATE INDEX IF NOT EXISTS idx_torrents_total_size ON torrents (total_size);
		CREATE INDEX IF NOT EXISTS idx_torrents_discovered_on ON torrents (discovered_on);

		-- Using pg_trgm GIN index for fast ILIKE queries
		-- You need to execute " ++ dq ++ str "CREATE EXTENSION pg_trgm" ++ dq ++ str " on your database for this index to work
		-- Be aware that using this type of index implies that making ILIKE queries with less that
		-- 3 character values will cause full table scan instead of using index.
		-- You can try to avoid that by doing 'SET enable_seqscan=off'.
		CREATE INDEX IF NOT EXISTS idx_torrents_name_gin_trgm ON torrents USING GIN (name gin_trgm_ops);

		CREATE TABLE IF NOT EXISTS files (
			id          INTEGER PRIMARY KEY DEFAULT nextval('seq_files_id'),
			torrent_id  INTEGER REFERENCES torrents ON DELETE CASCADE ON UPDATE RESTRICT,
			size        BIGINT NOT NULL,
			path        TEXT NOT NULL
		);

		CREATE INDEX IF NOT EXISTS idx_files_torrent_id ON files (torrent_id);

		CREATE TABLE IF NOT EXISTS migrations (
		    schema_version		SMALLINT NOT NULL UNIQUE 
		);

		INSERT INTO migrations (schema_version) VALUES (0) ON CONFLICT DO NOTHING;
	".

Definition pgSelectVersion : bytes :=
  str "SELECT MAX(schema_version) FROM migrations;".

(** ** The engine *)

(** Of the URL the engine looks at the parameters of the query only.
    The parameter schema, and the parameters of the URL that is opened.
    url_.Query() makes a new map at each call, so Set and Del on it do not
    change the URL. *)
Definition postgresURL (params : urlValues) : bytes * urlValues :=
  let schema := Values_Get params (str "schema") in
  (if bool_decide (schema = []) then str "magneticod" else schema, params).

Section Engine.
Context {R : Driver}.

Definition postgres_Engine : databaseEngine := Postgres.

Definition postgres_DoesTorrentExist (infoHash : bytes) : DB bool :=
  rowExists pgSelectExists [ABytes infoHash].

(** [tx.QueryRow(...).Scan(&id)] of an INSERT ... RETURNING id: the identifier
    is the result of [exec]. *)
Definition tx_QueryRow (sql : bytes) (args : list arg) : DB Z := tx_Exec sql args.

(** The loop over the files; [false] is the early [return nil]. *)
Fixpoint pgInsertFiles (lastInsertId : Z) (files : list File) : DB bool :=
  match files with
  | [] => mret true
  | file :: files =>
      if negb (ValidString (f_Path file)) then mret false
      else
        _ ← wrap (tx_Exec pgInsertFile [AInt64 lastInsertId; AInt64 (f_Size file); AString (f_Path file)])
              (str "tx.Exec (INSERT INTO files)");
        pgInsertFiles lastInsertId files
  end.

Definition pgStoreTorrent (now : Z) (infoHash name : bytes) (total : Z) (files : list File) : DB unit :=
  lastInsertId ← wrap (tx_QueryRow pgInsertTorrent
                         [ABytes infoHash; AString name; AUint64 total; AInt64 now])
                   (str "tx.QueryRow (INSERT INTO torrents)");
  all ← pgInsertFiles lastInsertId files;
  if all : bool then wrap tx_Commit (str "tx.Commit") else mret tt.

Definition postgres_AddNewTorrent (now : Z) (infoHash name : bytes) (files : list File) : DB unit :=
  if negb (ValidString name) then mret tt
  else
    _ ← wrap conn_Begin (str "conn.Begin");
    defer_Rollback (
      let total := totalSize 0 files in
      if total =? 0 then mret tt
      else
        exist ← postgres_DoesTorrentExist infoHash;
        if exist : bool then mret tt
        else pgStoreTorrent now infoHash name total files).

Definition postgres_GetNumberOfTorrents : DB Z :=
  rows ← conn_Query pgSelectCount [];
  match rows_Next rows with
  | (None, _) =>
      fail (ErrText (str "no rows returned from `SELECT reltuples::BIGINT AS estimate_count`"))
  | (Some [VNull], _) => mret 0
  | (Some [v], _) => lift (scanUint64 v)
  | (Some _, _) => fail errScan
  end.

Definition postgres_QueryTorrents : DB (list TorrentMetadata) := fail NotImplementedError.
Definition postgres_GetStatistics : DB Statistics := fail NotImplementedError.

Definition postgres_GetTorrent (infoHash : bytes) : DB (option TorrentMetadata) :=
  rows ← try (conn_Query pgSelectTorrent [ABytes infoHash]);
  defer_closeRows rows
    match rows with
    | Err e => fail e
    | Ok rows =>
        match rows_Next rows with
        | (None, _) => mret None
        | (Some row, _) => tm ← lift (scanDetails row); mret (Some tm)
        end
    end.

Definition postgres_GetFiles (infoHash : bytes) : DB (list File) :=
  rows ← try (conn_Query pgSelectFiles [ABytes infoHash]);
  defer_closeRows rows
    match rows with
    | Err e => fail e
    | Ok rows => lift (scanAll scanFile (r_rows rows))
    end.

(** The statements of version 0 and the version found. *)
Definition pgReadVersion : DB Z :=
  rows ← wrap (tx_Query pgSelectVersion []) (str "sql.Tx.Query (SELECT MAX(version) FROM migrations)");
  match rows_Next rows with
  | (None, _) =>
      fail (ErrText (str "sql.Rows.Next (SELECT MAX(version) FROM migrations): Query did not return any rows"))
  | (Some row, _) =>
      wrap (lift match row with [v] => scanInt64 v | _ => Err errScan end)
        (str "sql.Rows.Scan (MAX(version))")
  end.

(** When the rows of the first query end with an error, [err] is nil and set-up
    ends without one. *)
Definition postgres_setupDatabase (schema : bytes) : DB unit :=
  _ ← wrap conn_Begin (str "sql.DB.Begin");
  defer_Rollback (
    rows ← conn_Query pgSelectTrgm [];
    let '(next, rows) := rows_Next rows in
    match rows_Err next rows with
    | Some _ => mret tt
    | None =>
        match next with
        | None => fail (ErrText (str "pg_trgm extension is not enabled. You need to execute 'CREATE EXTENSION pg_trgm' on this database"))
        | Some _ =>
            _ ← wrap (tx_Exec (pgSchema schema) []) (str "sql.Tx.Exec (v0)");
            schemaVersion ← pgReadVersion;
            wrap tx_Commit (str "sql.Tx.Commit")
        end
    end).

(** [open] is the outcome of sql.Open. *)
Definition makePostgresDatabase (params : urlValues) (open : urlValues -> res error unit) : DB unit :=
  let '(schema, params) := postgresURL params in
  _ ← wrap (lift (open params)) (str "sql.Open");
  _ ← wrap conn_Ping (str "sql.DB.Ping");
  wrap (postgres_setupDatabase schema) (str "setupDatabase").

Definition postgres_Close : DB unit := conn_Close.

Definition postgresDatabase : Database := {|
  db := tables;
  io := Z * list outcome;
  Engine _ := postgres_Engine;
  DoesTorrentExist w t ih := (run (postgres_DoesTorrentExist ih) t w.2).2;
  AddNewTorrent w t ih name files := run (postgres_AddNewTorrent w.1 ih name files) t w.2;
  Close w t := (run postgres_Close t w.2).2;
  GetNumberOfTorrents w t := (run postgres_GetNumberOfTorrents t w.2).2;
  QueryTorrents w t _ _ _ _ _ _ _ := (run postgres_QueryTorrents t w.2).2;
  GetTorrent w t ih := (run (postgres_GetTorrent ih) t w.2).2;
  GetFiles w t ih := (run (postgres_GetFiles ih) t w.2).2;
  GetStatistics w t _ _ := (run postgres_GetStatistics t w.2).2 |}.

End Engine.
