(* ===== verification/PostgresProps.v ===== *)
(** Laws of the PostgreSQL statements and properties of the engine: AddNewTorrent
    refines the same abstract operation as that of SQLite, only valid text is
    stored, a NUL byte is an error, and set-up. [pg_model] follows the laws. *)

From S2P Require Import Prelude GoLib Encoding Persistence Sql Keyset TorrentTables Sqlite3 Sqlite3Laws Postgres.
From Stdlib Require Import ZArith Lia.
From stdpp Require Import base list gmap.
Local Open Scope Z_scope.

(** ** Laws *)

(** Values of type TEXT are valid UTF-8 without NUL. *)
Definition pg_text (s : bytes) : bool := ValidString s && bool_decide (Byte.x00 ∉ s).

(** The constraints on a row of torrents; discovered_on is a 32-bit INTEGER. *)
Definition pg_insertable (rows : list torrentRow) (ih name : bytes) (size now : Z) : bool :=
  bool_decide (ih ∉ map tr_info_hash rows) && pg_text name && (0 <? size) && (0 <? now) && (now <? 2 ^ 31).

(** [pg_ready] means that the tables exist and [pg_trgm] that the extension is
    installed; [pg_torrent_ids] and [pg_file_ids] are the identifiers that the
    sequences of the two tables still have, of type INTEGER. *)
Class PgLaws (R : Driver) := {
  pg_ready : tables -> bool;
  pg_trgm : tables -> bool;
  pg_torrent_ids : tables -> Z;
  pg_file_ids : tables -> Z;
  pg_torrents : tables -> list torrentRow;
  pg_files : tables -> list fileRow;
  pg_exists_law t ih : pg_ready t = true ->
    query t pgSelectExists [VBlob ih] = Ok (map (fun _ => [VInt 1]) (with_hash (pg_torrents t) ih));
  pg_insert_torrent_law t ih name size now : pg_ready t = true ->
    match exec t pgInsertTorrent [VBlob ih; VText name; VInt size; VInt now] with
    | Ok (t', id) =>
        pg_insertable (pg_torrents t) ih name size now = true /\
        (id ∉ map tr_id (pg_torrents t)) /\ pg_ready t' = true /\ pg_files t' = pg_files t /\
        pg_torrents t' = pg_torrents t ++ [new_row id ih name size now] /\
        pg_file_ids t' = pg_file_ids t
    | Err _ => pg_insertable (pg_torrents t) ih name size now = false \/ pg_torrent_ids t <= 0
    end;
  pg_insert_file_law t id size path : pg_ready t = true -> id ∈ map tr_id (pg_torrents t) ->
    match exec t pgInsertFile [VInt id; VInt size; VText path] with
    | Ok (t', _) =>
        pg_text path = true /\ pg_ready t' = true /\ pg_torrents t' = pg_torrents t /\
        pg_files t' = pg_files t ++ [{| fr_torrent_id := id; fr_size := size; fr_path := path |}] /\
        pg_file_ids t' = pg_file_ids t - 1
    | Err _ => pg_text path = false \/ pg_file_ids t <= 0
    end;
  pg_torrent_law t ih : pg_ready t = true ->
    query t pgSelectTorrent [VBlob ih] =
    Ok (map (detail_values (pg_files t)) (with_hash (pg_torrents t) ih));
  (** Without ORDER BY the order of rows is unspecified. *)
  pg_select_files_law t ih : pg_ready t = true ->
    exists fs, (fs ≡ₚ concat (map (fun r => files_of (pg_files t) (tr_id r))
                        (with_hash (pg_torrents t) ih))) /\
      query t pgSelectFiles [VBlob ih] = Ok (map file_values fs);
  pg_trgm_law t : query t pgSelectTrgm [] = Ok (if pg_trgm t then [[VInt 1]] else []);
  pg_schema_law t schema : pg_trgm t = true ->
    exists t' n, exec t (pgSchema schema) [] = Ok (t', n) /\ pg_ready t' = true /\
      (pg_ready t = true -> pg_torrents t' = pg_torrents t /\ pg_files t' = pg_files t) /\
      (pg_ready t = false -> pg_torrents t' = [] /\ pg_files t' = []);
  pg_version_law t : pg_ready t = true -> exists v, query t pgSelectVersion [] = Ok [[VInt v]] }.

Section Props.
Context {R : Driver} `{!PgLaws R}.

Record pg_wf (t : tables) : Prop := {
  pw_ready : pg_ready t = true;
  pw_keys : keys_ok (pg_torrents t) (pg_files t);
  pw_names : Forall (fun r => pg_text (tr_name r) = true) (pg_torrents t);
  pw_paths : Forall (fun f => pg_text (fr_path f) = true) (pg_files t) }.

Definition postgres_torrents (t : tables) : gmap bytes (bytes * list File) :=
  torrents_of (pg_torrents t) (pg_files t).

(** ** AddNewTorrent *)

(** Why the insertion of files can fail, and that of a torrent. *)
Definition pg_refused (c : Conn) (t : tables) (files : list File) : Prop :=
  script c <> [] \/ ~ Forall (fun f => pg_text (f_Path f) = true) files \/ pg_file_ids t < len files.

(** The files loop ends with all files inserted, with an error, or early at a
    path that is not UTF-8. *)
Lemma pgInsertFiles_run id files c t :
  tx c = Some t -> pg_ready t = true -> id ∈ map tr_id (pg_torrents t) ->
  exists c' r, pgInsertFiles id files c = (c', Ret r) /\ quiet c c' /\
    (r = Ok true -> exists t', tx c' = Some t' /\ pg_ready t' = true /\
       pg_torrents t' = pg_torrents t /\ pg_files t' = pg_files t ++ map (new_file id) files /\
       Forall (fun f => pg_text (f_Path f) = true) files) /\
    (r <> Ok true -> pg_refused c t files).
Proof.
  revert c t. induction files as [|f files IH]; intros c t Ht Hv Hid; cbn [pgInsertFiles].
  - eexists c, _. split_and!; [done|done| |done]. intros _. exists t. by rewrite app_nil_r.
  - destruct (ValidString (f_Path f)) eqn:Ev; cbn [negb].
    2:{ eexists c, _. split_and!; [done..|]. intros _. right. left. intros [H _]%Forall_cons.
        unfold pg_text in H. by rewrite Ev in H. }
    pose proof (pg_insert_file_law t id (f_Size f) (f_Path f) Hv Hid) as Hlaw.
    destruct (tx_Exec_run pgInsertFile [AInt64 id; AInt64 (f_Size f); AString (f_Path f)] _ c t Ht eq_refl)
      as [(e & c1 & He & Hq & Hs)|(t1 & n & c1 & Hx & He & Hq & Ht1)].
    + eexists c1, _. erewrite bind_err by (by apply wrap_err). split_and!; [done..|]. intros _.
      destruct Hs as [Hs|Hs]; [by left|]. rewrite Hs in Hlaw. right.
      destruct Hlaw as [Hlaw|Hlaw].
      * left. intros [H _]%Forall_cons. congruence.
      * right. rewrite len_cons. pose proof (len_nonneg files). lia.
    + rewrite Hx in Hlaw. destruct Hlaw as (Htext & Hv1 & Hr1 & Hf1 & Hids).
      erewrite bind_ok by (by apply wrap_ok).
      destruct (IH c1 t1 Ht1 Hv1) as (c' & r & Hr & Hq' & HH & Hwhy); [by rewrite Hr1|].
      exists c', r. split_and!; [done|by eapply quiet_trans| |].
      * intros E. destruct (HH E) as (t' & H1 & H2 & H3 & H4 & H5). exists t'.
        split_and!; [done|done|congruence| |by constructor].
        rewrite H4, Hf1. simpl. by rewrite <- app_assoc.
      * intros [Hs|[Hn|Hn]]%Hwhy; [left; intros E; by apply Hs, Hq|right; left|].
        -- by intros [_ H]%Forall_cons.
        -- right. right. rewrite len_cons. lia.
Qed.

(** The torrent and its files are appended, and all text is valid. *)
Definition pg_added (now : Z) (ih name : bytes) (files : list File) (t t' : tables) : Prop :=
  exists id, pg_insertable (pg_torrents t) ih name (totalSize 0 files) now = true /\
    (id ∉ map tr_id (pg_torrents t)) /\ Forall (fun f => pg_text (f_Path f) = true) files /\
    pg_ready t' = true /\
    pg_torrents t' = pg_torrents t ++ [new_row id ih name (totalSize 0 files) now] /\
    pg_files t' = pg_files t ++ map (new_file id) files.

Lemma pgStoreTorrent_run now ih name files c :
  pg_ready (committed c) = true -> tx c = Some (committed c) ->
  exists c' r, pgStoreTorrent now ih name (totalSize 0 files) files c = (c', Ret r) /\
    (committed c' = committed c /\
       (pg_refused c (committed c) files \/ pg_torrent_ids (committed c) <= 0 \/
        2 ^ 63 <= totalSize 0 files \/
        pg_insertable (pg_torrents (committed c)) ih name (totalSize 0 files) now = false) \/
     r = Ok tt /\ pg_added now ih name files (committed c) (committed c')).
Proof.
  intros Hw Htx. unfold pgStoreTorrent, tx_QueryRow.
  destruct (convertArgs [ABytes ih; AString name; AUint64 (totalSize 0 files); AInt64 now])
    as [vs|e] eqn:Ha; cbn [convertArgs convert] in Ha; unfold convertUint64 in Ha;
    destruct (Z.leb_spec (2 ^ 63) (totalSize 0 files)) as [Hbig|Hsmall]; try done.
  2:{ eexists c, _. erewrite bind_err; [split; [done|left; auto]|]. apply wrap_err.
      unfold tx_Exec. rewrite Htx. cbn [convertArgs convert]. unfold convertUint64.
      by rewrite (proj2 (Z.leb_le _ _) Hbig). }
  injection Ha as <-.
  assert (convertArgs [ABytes ih; AString name; AUint64 (totalSize 0 files); AInt64 now] =
          Ok [VBlob ih; VText name; VInt (totalSize 0 files); VInt now]) as Ha.
  { cbn [convertArgs convert]. unfold convertUint64. by rewrite (proj2 (Z.leb_gt _ _) Hsmall). }
  pose proof (pg_insert_torrent_law (committed c) ih name (totalSize 0 files) now Hw) as Hlaw.
  destruct (tx_Exec_run pgInsertTorrent _ _ c _ Htx Ha)
    as [(e & c1 & He & Hq & Hs)|(t1 & id & c1 & Hx & He & Hq & Ht1)].
  { erewrite bind_err by (by apply wrap_err). eexists c1, _. split; [done|]. left. split; [apply Hq|].
    destruct Hs as [Hs|Hs]; [by left; left|]. rewrite Hs in Hlaw.
    destruct Hlaw as [Hlaw|Hlaw]; [by right; right; right|by right; left]. }
  erewrite bind_ok by (by apply wrap_ok). rewrite Hx in Hlaw.
  destruct Hlaw as (Hins & Hid & Hv1 & Hf1 & Hr1 & Hids).
  destruct (pgInsertFiles_run id files c1 t1 Ht1 Hv1) as (c2 & r2 & Hi & Hq2 & HH & Hwhy).
  { rewrite Hr1, map_app. apply elem_of_app. right. by left. }
  assert (committed c2 = committed c) as Hc2 by (rewrite (proj1 Hq2); apply Hq).
  assert (r2 <> Ok true -> pg_refused c (committed c) files) as Hwhy'.
  { intros [Hs|Hs]%Hwhy; [left; intros E; by apply Hs, Hq|right]. by rewrite <- Hids. }
  destruct r2 as [[]|e].
  - rewrite (bind_ok _ _ _ _ _ Hi). destruct (HH eq_refl) as (t2 & Ht2 & Hv2 & Hr2 & Hf2 & Htext).
    destruct (tx_Commit_run c2 t2 Ht2) as [(e & c3 & Hc & Hq3 & Hs)|(c3 & Hc & Hcom)].
    + erewrite wrap_err by done. eexists c3, _. split; [done|]. left. split; [by rewrite (proj1 Hq3)|].
      left. left. intros E. by apply Hs, Hq2, Hq.
    + erewrite wrap_ok by done. eexists c3, _. split; [done|]. right. split; [done|]. exists id.
      rewrite Hcom. split_and!; [done..|by rewrite Hr2, Hr1|by rewrite Hf2, Hf1].
  - rewrite (bind_ok _ _ _ _ _ Hi). eexists c2, _. split; [done|]. left. split; [done|]. by left; apply Hwhy'.
  - rewrite (bind_err _ _ _ _ _ Hi). eexists c2, _. split; [done|]. left. split; [done|]. by left; apply Hwhy'.
Qed.

Lemma pg_DoesTorrentExist_run ih c :
  pg_ready (committed c) = true ->
  exists c' r, postgres_DoesTorrentExist ih c = (c', Ret r) /\ quiet c c' /\ tx c' = tx c /\
    (r = Ok true -> ih ∈ map tr_info_hash (pg_torrents (committed c))) /\
    (script c = [] -> r = Ok (bool_decide (ih ∈ map tr_info_hash (pg_torrents (committed c))))).
Proof. intros Hv. by apply rowExists_hash, pg_exists_law. Qed.

Lemma pg_run_Add now ih name files t o :
  pg_ready t = true ->
  exists t' r, run (postgres_AddNewTorrent now ih name files) t o = (t', Ret r) /\
    (t' = t /\
       (r = Ok tt /\ (ValidString name = false \/ totalSize 0 files = 0 \/
                      ih ∈ map tr_info_hash (pg_torrents t)) \/
        pg_refused (connect_to t o) t files \/ pg_torrent_ids t <= 0 \/
        totalSize 0 files <> 0 /\ (ih ∉ map tr_info_hash (pg_torrents t)) /\
          (2 ^ 63 <= totalSize 0 files \/
           pg_insertable (pg_torrents t) ih name (totalSize 0 files) now = false)) \/
     r = Ok tt /\ pg_added now ih name files t t').
Proof.
  intros Hw. unfold run, postgres_AddNewTorrent.
  destruct (ValidString name) eqn:Ev; cbn [negb]; [|eexists t, _; split; [done|left; auto]].
  destruct (conn_Begin_run (connect_to t o)) as [(e & c1 & Hb & Hq1 & _ & Hs)|(c1 & Hb & Hq1 & Ht1)].
  { erewrite bind_err by (by apply wrap_err). eexists _, _. split; [done|]. left. split; [apply Hq1|].
    right. left. by left. }
  erewrite bind_ok by (by apply wrap_ok). unfold defer_Rollback. cbv zeta.
  destruct (Z.eqb_spec (totalSize 0 files) 0) as [Hz|Hz].
  { eexists _, _. split; [done|left]. split; [apply Hq1|auto]. }
  assert (committed c1 = t) as Hc1 by apply Hq1.
  destruct (pg_DoesTorrentExist_run ih c1) as (c2 & r & Hex & Hq2 & Ht2 & Htrue & Hexact); [by rewrite Hc1|].
  assert (committed c2 = t) as Hc2 by (rewrite (proj1 Hq2); done). rewrite Hc1 in Htrue, Hexact.
  destruct r as [[]|e].
  - rewrite (bind_ok _ _ _ _ _ Hex). eexists _, _. split; [done|]. left. split; [done|]. left. auto.
  - rewrite (bind_ok _ _ _ _ _ Hex).
    destruct (pgStoreTorrent_run now ih name files c2) as (c3 & r3 & Hst & HH);
      [by rewrite Hc2|rewrite Ht2, Ht1; by rewrite Hc2|].
    rewrite Hst. eexists _, _. split; [done|]. rewrite Hc2 in HH.
    destruct HH as [[HH Hwhy]|HH]; [left; split; [exact HH|right]|by right].
    destruct Hwhy as [[Hs|Hs]|[Hids|Hwhy]];
      [left; left; intros E; by apply Hs, Hq2, Hq1|by left; right|by right; left|].
    destruct (decide (o = [])) as [E|E]; [|by left; left]. right. right. split_and!; [done| |done].
    specialize (Hexact (proj2 Hq1 E)). injection Hexact as Hin. symmetry in Hin.
    by apply bool_decide_eq_false in Hin.
  - rewrite (bind_err _ _ _ _ _ Hex). eexists _, _. split; [done|left]. split; [done|].
    right. left. left. intros E. by specialize (Hexact (proj2 Hq1 E)).
Qed.

Lemma pg_insertable_true rows ih name size now :
  pg_insertable rows ih name size now = true ->
  (ih ∉ map tr_info_hash rows) /\ pg_text name = true /\ 0 < size /\ 0 < now < 2 ^ 31.
Proof.
  unfold pg_insertable. rewrite !andb_true_iff, bool_decide_eq_true, !Z.ltb_lt. intuition.
Qed.

Lemma pg_added_wf now ih name files t t' : pg_wf t -> pg_added now ih name files t t' -> pg_wf t'.
Proof.
  intros [H1 H2 H3 H4] (id & Hins & Hid & Htext & Hv & Hrows & Hfiles).
  apply pg_insertable_true in Hins as (Hih & Hname & _ & _). split; [done|..]; rewrite ?Hrows, ?Hfiles.
  - by apply keys_ok_add.
  - apply Forall_app_2; [done|]. by apply Forall_singleton.
  - apply Forall_app_2; [done|]. by apply Forall_map.
Qed.

Lemma pg_added_torrents now ih name files t t' :
  pg_wf t -> pg_added now ih name files t t' ->
  postgres_torrents t !! ih = None /\
  postgres_torrents t' = <[ih := (name, files)]> (postgres_torrents t).
Proof.
  intros Hw (id & Hins & Hid & Htext & Hv & Hrows & Hfiles).
  apply pg_insertable_true in Hins as (Hih & _). unfold postgres_torrents. rewrite Hrows, Hfiles.
  apply torrents_of_add; [apply Hw|done..].
Qed.

(** C23. AddNewTorrent of the PostgreSQL engine refines the same abstract
    operation as that of SQLite: whatever fails, the keys stay unique, every
    stored name and path is valid UTF-8 without NUL, and either nothing changes
    or, on success only, the whole torrent is added. *)
Theorem postgres_refines now ih name files t o t' r :
  pg_wf t -> run (postgres_AddNewTorrent now ih name files) t o = (t', r) ->
  pg_wf t' /\ exists a, r = Ret a /\
    abstract_add ih name files (postgres_torrents t) (postgres_torrents t') a.
Proof.
  intros Hw H. destruct (pg_run_Add now ih name files t o (pw_ready t Hw)) as (t1 & a & H1 & Ho).
  rewrite H1 in H. injection H as <- <-. destruct Ho as [[-> _]|[-> Hadd]].
  - split; [done|]. exists a. split; [done|]. destruct a as [[]|]; constructor.
  - split; [by eapply pg_added_wf|]. eexists. split; [done|].
    destruct (pg_added_torrents _ _ _ _ _ _ Hw Hadd) as [Hn ->]. by constructor.
Qed.

#[global] Instance postgres_laws : DatabaseLaws postgresDatabase.
Proof.
  refine {| db_wf := pg_wf : db (Database := postgresDatabase) -> Prop;
            torrents := postgres_torrents : db (Database := postgresDatabase) -> _ |}.
  - intros w t ih Hw H. cbn in H. unfold run in H.
    destruct (pg_DoesTorrentExist_run ih (connect_to t w.2)) as (c' & r & Hr & _ & _ & Ht & _);
      [apply Hw|]. rewrite Hr in H. injection H as ->. specialize (Ht eq_refl).
    apply not_eq_None_Some. intros Hn%torrents_None. done.
  - intros w t ih name files Hw. cbn.
    destruct (pg_run_Add w.1 ih name files t w.2 (pw_ready t Hw)) as (t' & r & -> & Ho). simpl.
    destruct Ho as [[-> _]|[_ Hadd]]; [done|by eapply pg_added_wf].
  - intros w t ih name files t' r Hw H. cbn in H.
    destruct (pg_run_Add w.1 ih name files t w.2 (pw_ready t Hw)) as (t1 & a & H1 & Ho).
    rewrite H1 in H. injection H as <- _.
    destruct Ho as [[-> _]|[_ Hadd]]; [by left|right; by apply (pg_added_torrents w.1)].
  - intros w t. apply conn_Close_returns.
Defined.

(** A NUL byte is valid UTF-8, so it passes the check of the name, but
    PostgreSQL refuses it: a torrent with a NUL in its name makes AddNewTorrent
    fail even though nothing outside the program does. *)
Theorem postgres_nul_fails now ih name files t :
  pg_wf t -> ValidString name = true -> Byte.x00 ∈ name ->
  sum_sizes files mod 2 ^ 64 <> 0 -> ih ∉ map tr_info_hash (pg_torrents t) ->
  exists e, run (postgres_AddNewTorrent now ih name files) t [] = (t, Ret (Err e)).
Proof.
  intros Hw Hname Hnul Htot Hih. unfold run, postgres_AddNewTorrent. rewrite Hname. cbn [negb].
  erewrite bind_ok by (by apply wrap_ok). unfold defer_Rollback. cbv zeta.
  change (sum_sizes files mod 2 ^ 64) with (to_u64 (sum_sizes files)) in Htot.
  rewrite <- totalSize_0 in Htot. rewrite (proj2 (Z.eqb_neq _ _) Htot).
  set (c1 := set_tx (Some (committed (connect_to t []))) (connect_to t [])).
  destruct (pg_DoesTorrentExist_run ih c1 (pw_ready t Hw)) as (c2 & r & Hex & Hq2 & Ht2 & _ & Hr).
  specialize (Hr eq_refl). rewrite bool_decide_eq_false_2 in Hr by done. subst r.
  rewrite (bind_ok _ _ _ _ _ Hex).
  assert (committed c2 = t) as Hc2 by apply Hq2.
  destruct (pgStoreTorrent_run now ih name files c2) as (c3 & r3 & Hst & HH);
    [rewrite Hc2; apply Hw|rewrite Ht2; by rewrite Hc2|].
  assert (r3 <> Ok tt) as Hne.
  2:{ rewrite Hst. destruct HH as [[HH _]|[-> _]]; [|done]. cbn [set_tx committed]. rewrite HH, Hc2.
      destruct r3 as [[]|e]; [done|by exists e]. }
  intros ->. revert Hst. unfold pgStoreTorrent, tx_QueryRow.
  assert (tx c2 = Some t) as Htx by (by rewrite Ht2).
  assert (pg_insertable (pg_torrents t) ih name (totalSize 0 files) now = false) as Hfalse.
  { unfold pg_insertable, pg_text. rewrite (bool_decide_eq_false_2 (Byte.x00 ∉ name)) by auto.
    by rewrite !andb_false_r. }
  pose proof (pg_insert_torrent_law t ih name (totalSize 0 files) now (pw_ready t Hw)) as Hlaw.
  rewrite Hfalse in Hlaw.
  unfold mbind, DB_bind, wrap, tx_Exec. rewrite Htx. cbn [convertArgs convert]. unfold convertUint64.
  destruct (2 ^ 63 <=? totalSize 0 files); [intros; simplify_eq|].
  destruct (next_outcome_run c2) as (o & c' & -> & _ & _ & Ho).
  rewrite (Ho ltac:(apply Hq2; done)). cbn [perform].
  destruct (exec t _ _) as [[t' id]|]; [by destruct Hlaw|intros; simplify_eq].
Qed.

(** ** Set-up *)

(** setupDatabase of PostgreSQL creates the tables, or keeps those that
    exist, when the extension pg_trgm is installed, and reports its absence;
    but an error while the rows of that first query arrive is lost, and set-up
    ends with success although nothing was created. *)
Theorem postgres_setup schema t :
  run (postgres_setupDatabase schema) t [Fine; Breaks 0 (ErrDriver 1)] = (t, Ret (Ok tt)) /\
  if pg_trgm t then
    exists t', run (postgres_setupDatabase schema) t [] = (t', Ret (Ok tt)) /\ pg_ready t' = true /\
      (pg_ready t = true -> pg_torrents t' = pg_torrents t /\ pg_files t' = pg_files t)
  else exists e, run (postgres_setupDatabase schema) t [] = (t, Ret (Err e)).
Proof.
  pose proof (pg_trgm_law t) as Hq. unfold run, postgres_setupDatabase. split.
  - assert (conn_Query pgSelectTrgm [] {| committed := t; tx := Some t; script := [Breaks 0 (ErrDriver 1)] |} =
      ({| committed := t; tx := Some t; script := [] |},
       Ret (Ok {| r_rows := []; r_err := Some (ErrDriver 1) |}))) as E.
    { unfold conn_Query, next_outcome. cbn [convertArgs script committed deliver tx]. rewrite Hq.
      by destruct (pg_trgm t). }
    erewrite bind_ok by (apply wrap_ok; reflexivity). unfold defer_Rollback.
    by rewrite (bind_ok _ _ _ _ _ E).
  - assert (conn_Query pgSelectTrgm [] {| committed := t; tx := Some t; script := [] |} =
      ({| committed := t; tx := Some t; script := [] |},
       Ret (Ok {| r_rows := if pg_trgm t then [[VInt 1]] else []; r_err := None |}))) as E.
    { unfold conn_Query, next_outcome. cbn [convertArgs script committed deliver tx]. by rewrite Hq. }
    destruct (pg_trgm t) eqn:Et; (erewrite bind_ok by (apply wrap_ok; reflexivity));
      unfold defer_Rollback; rewrite (bind_ok _ _ _ _ _ E); cbn [rows_Next r_rows rows_Err r_err].
    2:{ by eexists. }
    destruct (pg_schema_law t schema Et) as (t' & n & Hx & Hr & Hk & _).
    destruct (pg_version_law t' Hr) as (v & Hv). exists t'. split; [|done].
    erewrite bind_ok by (apply wrap_ok; unfold tx_Exec, next_outcome; cbn [convertArgs script committed perform tx];
      rewrite Hx; reflexivity).
    assert (pgReadVersion {| committed := t; tx := Some t'; script := [] |} =
            ({| committed := t; tx := Some t'; script := [] |}, Ret (Ok v))) as Ev.
    { unfold pgReadVersion. erewrite bind_ok by (apply wrap_ok; unfold tx_Query, next_outcome;
        cbn [convertArgs script committed tx]; rewrite Hv; reflexivity). reflexivity. }
    unfold set_tx. cbn [committed tx script]. by rewrite (bind_ok _ _ _ _ _ Ev).
Qed.

End Props.

(** ** A database that follows the laws *)

Record pgMemory := {
  pm_ready : bool;
  pm_trgm : bool;
  pm_torrents : list torrentRow;
  pm_files : list fileRow }.

Definition same_sql (a b : bytes) : bool := bool_decide (a = b).

(** Both sequences count up to 2^31 - 1. *)
Definition left_ids {A} (rows : list A) : Z := 2 ^ 31 - 1 - len rows.

Definition pg_exec (m : pgMemory) (sql : bytes) (args : list value) : res error (pgMemory * Z) :=
  match args with
  | [VBlob ih; VText name; VInt size; VInt now] =>
      let id := foldr (fun r n => Z.max (tr_id r) n) 0 (pm_torrents m) + 1 in
      if same_sql sql pgInsertTorrent && pg_insertable (pm_torrents m) ih name size now &&
         (0 <? left_ids (pm_torrents m))
      then Ok ({| pm_ready := pm_ready m; pm_trgm := pm_trgm m;
                  pm_torrents := pm_torrents m ++ [new_row id ih name size now];
                  pm_files := pm_files m |}, id)
      else Err (ErrText (str "constraint"))
  | [VInt id; VInt size; VText path] =>
      if same_sql sql pgInsertFile && pg_text path && (0 <? left_ids (pm_files m))
      then Ok ({| pm_ready := pm_ready m; pm_trgm := pm_trgm m; pm_torrents := pm_torrents m;
                  pm_files := pm_files m ++
                    [{| fr_torrent_id := id; fr_size := size; fr_path := path |}] |}, 0)
      else Err (ErrText (str "constraint"))
  | _ =>
      Ok (if pm_ready m then m
          else {| pm_ready := true; pm_trgm := pm_trgm m; pm_torrents := []; pm_files := [] |}, 0)
  end.

Definition pg_query (m : pgMemory) (sql : bytes) (args : list value) : res error (list (list value)) :=
  match args with
  | [VBlob ih] =>
      let found := with_hash (pm_torrents m) ih in
      if same_sql sql pgSelectExists then Ok (map (fun _ => [VInt 1]) found)
      else if same_sql sql pgSelectTorrent then Ok (map (detail_values (pm_files m)) found)
      else Ok (map file_values (concat (map (fun r => files_of (pm_files m) (tr_id r)) found)))
  | _ =>
      if same_sql sql pgSelectTrgm then Ok (if pm_trgm m then [[VInt 1]] else [])
      else Ok [[VInt 0]]
  end.

Definition pg_model : Driver :=
  {| tables := pgMemory; exec := pg_exec; query := pg_query; formatFloat _ := [] |}.

Lemma max_fresh (rows : list torrentRow) :
  foldr (fun r n => Z.max (tr_id r) n) 0 rows + 1 ∉ map tr_id rows.
Proof.
  intros H. apply list_elem_of_fmap in H as (r & E & Hr).
  assert (tr_id r <= foldr (fun r n => Z.max (tr_id r) n) 0 rows); [|lia].
  clear E. induction Hr; simpl in *; lia.
Qed.

#[global] Instance pg_model_laws : PgLaws pg_model.
Proof.
  refine {| pg_ready := pm_ready : tables (Driver := pg_model) -> bool;
            pg_trgm := pm_trgm : tables (Driver := pg_model) -> bool;
            pg_torrent_ids := (fun m => left_ids (pm_torrents m)) : tables (Driver := pg_model) -> Z;
            pg_file_ids := (fun m => left_ids (pm_files m)) : tables (Driver := pg_model) -> Z;
            pg_torrents := pm_torrents : tables (Driver := pg_model) -> _;
            pg_files := pm_files : tables (Driver := pg_model) -> _ |};
    unfold exec, query, pg_model.
  - intros t ih Hr. unfold pg_query.
    by rewrite (bool_decide_eq_true_2 (pgSelectExists = _) eq_refl : same_sql _ _ = true).
  - intros t ih name size now Hr. unfold pg_exec.
    rewrite (bool_decide_eq_true_2 (pgInsertTorrent = _) eq_refl : same_sql _ _ = true).
    cbn [andb]. destruct (pg_insertable _ _ _ _ _) eqn:E; [|by left]. cbn [andb].
    destruct (Z.ltb_spec 0 (left_ids (pm_torrents t))); [|by right]. split_and!; try done. apply max_fresh.
  - intros t id size path Hr Hid. unfold pg_exec.
    rewrite (bool_decide_eq_true_2 (pgInsertFile = _) eq_refl : same_sql _ _ = true).
    cbn [andb]. destruct (pg_text path) eqn:E; [|by left]. cbn [andb].
    destruct (Z.ltb_spec 0 (left_ids (pm_files t))); [|by right]. split_and!; try done.
    unfold left_ids, len. cbn. rewrite length_app. cbn. lia.
  - intros t ih Hr. unfold pg_query.
    rewrite (bool_decide_eq_false_2 (pgSelectTorrent = pgSelectExists) ltac:(vm_compute; discriminate)
      : same_sql _ _ = false).
    by rewrite (bool_decide_eq_true_2 (pgSelectTorrent = _) eq_refl : same_sql _ _ = true).
  - intros t ih Hr. eexists. split; [reflexivity|]. unfold pg_query.
    rewrite (bool_decide_eq_false_2 (pgSelectFiles = pgSelectExists) ltac:(vm_compute; discriminate)
      : same_sql _ _ = false).
    by rewrite (bool_decide_eq_false_2 (pgSelectFiles = pgSelectTorrent) ltac:(vm_compute; discriminate)
      : same_sql _ _ = false).
  - intros t. unfold pg_query.
    by rewrite (bool_decide_eq_true_2 (pgSelectTrgm = _) eq_refl : same_sql _ _ = true).
  - intros t schema Ht. unfold pg_exec. eexists _, _. split; [done|].
    destruct (pm_ready t) eqn:E; by split_and!.
  - intros t Hr. exists 0. unfold pg_query.
    by rewrite (bool_decide_eq_false_2 (pgSelectVersion = pgSelectTrgm) ltac:(vm_compute; discriminate)
      : same_sql _ _ = false).
Defined.

(** ** Witnesses *)

Definition pg_empty : tables (Driver := pg_model) :=
  {| pm_ready := true; pm_trgm := true; pm_torrents := []; pm_files := [] |}.
Definition pg_hash : bytes := replicate 20 Byte.x62.
Definition pg_file : File := {| f_Size := 5; f_Path := str "a" |}.

Lemma pg_empty_wf : pg_wf pg_empty.
Proof. split; [reflexivity|split; constructor|constructor|constructor]. Qed.

Definition pg_one : tables (Driver := pg_model) :=
  (run (R := pg_model) (postgres_AddNewTorrent 1500000000 pg_hash (str "debian") [pg_file]) pg_empty []).1.

Lemma postgres_refines_witness :
  pg_wf pg_one /\ exists a, Ret (Ok tt) = Ret a /\
    abstract_add pg_hash (str "debian") [pg_file] (postgres_torrents pg_empty) (postgres_torrents pg_one) a.
Proof.
  apply (postgres_refines (R := pg_model) 1500000000 pg_hash (str "debian") [pg_file] pg_empty [] pg_one
    (Ret (Ok tt)) pg_empty_wf).
  vm_compute. reflexivity.
Defined.

Lemma postgres_nul_fails_witness :
  exists e, run (R := pg_model) (postgres_AddNewTorrent 1500000000 pg_hash [Byte.x61; Byte.x00] [pg_file])
    pg_empty [] = (pg_empty, Ret (Err e)).
Proof.
  apply (postgres_nul_fails (R := pg_model) 1500000000 pg_hash [Byte.x61; Byte.x00] [pg_file] pg_empty pg_empty_wf).
  - reflexivity.
  - right. left.
  - vm_compute. discriminate.
  - intros H. inversion H.
Defined.
