(* ===== verification/Engines.v ===== *)
(** The two SQL engines behind one interface: what the methods of both answer is
    a function of the list of torrents stored, and AddNewTorrent extends that
    list the same way. *)

From S2P Require Import Prelude GoLib Encoding Persistence Sql Keyset TorrentTables Sqlite3 Sqlite3Laws Sqlite3Props Sqlite3Model Postgres PostgresProps.
From Stdlib Require Import ZArith Lia.
From Stdlib Require QArith_base.
From stdpp Require Import base list gmap.
Local Open Scope Z_scope.

(** ** The list of stored torrents *)

(** A torrent without the identifier its engine gave it. *)
Record stored := {
  s_hash : bytes; s_name : bytes; s_size : Z; s_on : Z; s_files : list File }.

Definition see (files : list fileRow) (r : torrentRow) : stored :=
  {| s_hash := tr_info_hash r; s_name := tr_name r; s_size := tr_total_size r;
     s_on := tr_discovered_on r; s_files := map file_of (files_of files (tr_id r)) |}.

Definition view (rows : list torrentRow) (files : list fileRow) : list stored := map (see files) rows.

Definition named (v : list stored) (ih : bytes) : list stored := filter (fun s => s_hash s = ih) v.

Definition details (s : stored) : TorrentMetadata :=
  {| tm_ID := 0; tm_InfoHash := s_hash s; tm_Name := s_name s; tm_Size := s_size s;
     tm_DiscoveredOn := s_on s; tm_NFiles := len (s_files s); tm_Relevance := QArith_base.inject_Z 0 |}.

Definition add_stored (now : Z) (ih name : bytes) (files : list File) (v : list stored) : list stored :=
  if bool_decide (to_u64 (sum_sizes files) = 0 \/ ih ∈ map s_hash v) then v
  else v ++ [{| s_hash := ih; s_name := name; s_size := to_u64 (sum_sizes files); s_on := now;
               s_files := files |}].

(** Torrents both engines take: text that PostgreSQL can hold, a total below
    2^63 and a clock that fits 32 bits. *)
Definition clean (now : Z) (name : bytes) (files : list File) : Prop :=
  pg_text name = true /\ Forall (fun f => pg_text (f_Path f) = true) files /\
  0 < now < 2 ^ 31 /\ to_u64 (sum_sizes files) < 2 ^ 63.

(** ** The interface

    [fine now] is a call at time [now] during which nothing outside the program
    fails; [room] means that identifiers are left for a torrent with these files. *)
Class Shelf (D : Database) := {
  good : db -> Prop;
  room : db -> list File -> Prop;
  listed : db -> list stored;
  fine : Z -> io;
  shelf_exists now d ih : good d ->
    DoesTorrentExist (fine now) d ih = Ret (Ok (bool_decide (ih ∈ map s_hash (listed d))));
  shelf_get now d ih : good d ->
    GetTorrent (fine now) d ih = Ret (Ok (details <$> head (named (listed d) ih)));
  shelf_files now d ih : good d ->
    exists fs, GetFiles (fine now) d ih = Ret (Ok fs) /\
      (fs ≡ₚ concat (map s_files (named (listed d) ih)));
  shelf_add now d ih name files : good d -> room d files -> clean now name files ->
    exists d', AddNewTorrent (fine now) d ih name files = (d', Ret (Ok tt)) /\ good d' /\
      listed d' = add_stored now ih name files (listed d) }.

(** ** Rows *)

Lemma view_hashes rows files : map s_hash (view rows files) = map tr_info_hash rows.
Proof. unfold view. by rewrite map_map. Qed.

Lemma named_view rows files ih : named (view rows files) ih = map (see files) (with_hash rows ih).
Proof.
  unfold named, view, with_hash. induction rows as [|r rows IH]; [done|].
  cbn [map]. rewrite !filter_cons. cbn [s_hash see]. case_decide; [|done]. cbn [map]. by rewrite IH.
Qed.

Lemma concat_view rows files ih :
  concat (map s_files (named (view rows files) ih)) =
  map file_of (concat (map (fun r => files_of files (tr_id r)) (with_hash rows ih))).
Proof. rewrite named_view, map_map, concat_map, map_map. done. Qed.

(** Adding rows under a fresh identifier adds one torrent. *)
Lemma view_add rows files id ih name size now fs :
  keys_ok rows files -> id ∉ map tr_id rows ->
  view (rows ++ [new_row id ih name size now]) (files ++ map (new_file id) fs) =
  view rows files ++ [{| s_hash := ih; s_name := name; s_size := size; s_on := now; s_files := fs |}].
Proof.
  intros Hk Hid. unfold view. rewrite map_app. cbn [map]. f_equal.
  - apply map_ext_in. intros r Hin%list_elem_of_In. unfold see. f_equal.
    rewrite files_of_app, files_of_new, decide_False, app_nil_r; [done|].
    intros ->. apply Hid, list_elem_of_fmap. by exists r.
  - unfold see. cbn [tr_id new_row tr_info_hash tr_name tr_total_size tr_discovered_on].
    by rewrite (files_of_added rows files id fs Hk Hid), map_file_of.
Qed.

(** The reading methods, which differ only in their statements. *)
Section Reads.
Context {R : Driver}.

Lemma scan_details files r :
  0 <= tr_total_size r -> scanDetails (detail_values files r) = Ok (details (see files r)).
Proof.
  intros H. unfold scanDetails, detail_values, details. cbn [see s_hash s_name s_size s_on s_files].
  rewrite !scanUint64_int by (try apply len_nonneg; lia). unfold n_files, len. by rewrite length_map.
Qed.

Lemma scan_files fs : scanAll scanFile (map file_values fs) = Ok (map file_of fs).
Proof. apply scanAll_map. by apply Forall_true. Qed.

Lemma get_run sql t ih files rows :
  query t sql [VBlob ih] = Ok (map (detail_values files) (with_hash rows ih)) ->
  Forall (fun r => 0 <= tr_total_size r) rows ->
  run (rs ← try (conn_Query sql [ABytes ih]);
       defer_closeRows rs
         match rs with
         | Err e => fail e
         | Ok rs => match rows_Next rs with
                    | (None, _) => mret None
                    | (Some row, _) => tm ← lift (scanDetails row); mret (Some tm)
                    end
         end) t [] = (t, Ret (Ok (details <$> head (named (view rows files) ih)))).
Proof.
  intros Hq Hs. eapply (query_closed None); [done|exact Hq|]. rewrite named_view.
  cbn [received r_rows rows_Next].
  assert (Forall (fun r => 0 <= tr_total_size r) (with_hash rows ih)) as Hs'.
  { apply Forall_forall. intros r [_ Hr]%list_elem_of_filter. rewrite Forall_forall in Hs. by apply Hs. }
  destruct (with_hash rows ih) as [|r l]; [done|]. apply Forall_cons in Hs' as [Hr _]. cbn [map rows_Next r_rows].
  erewrite bind_ok by (unfold lift; by rewrite scan_details). done.
Qed.

Lemma files_run sql t ih files rows fs :
  (fs ≡ₚ concat (map (fun r => files_of files (tr_id r)) (with_hash rows ih))) ->
  query t sql [VBlob ih] = Ok (map file_values fs) ->
  run (rs ← try (conn_Query sql [ABytes ih]);
       defer_closeRows rs
         match rs with
         | Err e => fail e
         | Ok rs => lift (scanAll scanFile (r_rows rs))
         end) t [] = (t, Ret (Ok (map file_of fs))) /\
  (map file_of fs ≡ₚ concat (map s_files (named (view rows files) ih))).
Proof.
  intros Hp Hq. split; [|rewrite concat_view; by rewrite Hp].
  eapply (query_closed None); [done|exact Hq|]. unfold lift. cbn [received r_rows]. by rewrite scan_files.
Qed.
End Reads.

(** ** The engines *)

#[global] Program Instance sqlite3_shelf {R : Driver} `{!SqliteLaws R} : Shelf sqlite3Database := {|
  good := wf : db (Database := sqlite3Database) -> Prop;
  room := (fun t _ => ~ full (torrent_rows t)) : db (Database := sqlite3Database) -> list File -> Prop;
  listed := (fun t => view (torrent_rows t) (file_rows t)) : db (Database := sqlite3Database) -> list stored;
  fine := (fun now => (now, [])) : Z -> io (Database := sqlite3Database) |}.
Next Obligation.
  intros R L now t ih Hw. cbn. unfold run. rewrite view_hashes.
  destruct (DoesTorrentExist_run ih (connect_to t [])) as (c' & r & -> & _ & _ & _ & Hr); [apply Hw|].
  cbn. by rewrite (Hr eq_refl).
Qed.
Next Obligation.
  intros R L now t ih Hw. cbn. unfold sqlite3_GetTorrent. erewrite get_run; [done|apply torrent_law, Hw|].
  eapply Forall_impl; [apply (wf_rows t Hw)|]. intros r (_ & H & _). lia.
Qed.
Next Obligation.
  intros R L now t ih Hw. cbn. destruct (files_law t ih (wf_version t Hw)) as (fs & Hp & Hq).
  destruct (files_run _ t ih _ _ fs Hp Hq) as [H1 H2]. unfold sqlite3_GetFiles. rewrite H1. by eexists.
Qed.
Next Obligation.
  intros R L now t ih name files Hw Hroom (_ & _ & Hnow & Hsize). cbn. unfold add_stored. rewrite view_hashes.
  destruct (run_Add now ih name files t [] Hw) as (t' & c' & r & -> & Hc & Ho). rewrite <- totalSize_0 in *.
  destruct Ho as [Hs Hwhy|e Hs Hwhy|Hadd]; cbn [committed connect_to script] in *.
  - exists t'. rewrite <- Hc, Hs. by rewrite bool_decide_eq_true_2.
  - exfalso. unfold modifiedDefault in Hwhy. intuition lia.
  - rewrite Hc in Hadd. exists t'. split_and!; [done|by eapply added_wf|].
    destruct Hadd as (id & Hins & Hid & _ & _ & _ & -> & ->).
    apply insertable_true in Hins as (Hih & Hpos & _). rewrite view_add by (apply Hw || done).
    by rewrite bool_decide_eq_false_2 by (intros [?|?]; [lia|done]).
Qed.

(** A PostgreSQL database as well-formed as the schema makes it. *)
Definition pg_good {R : Driver} `{!PgLaws R} (t : tables) : Prop :=
  pg_wf t /\ Forall (fun r => 0 <= tr_total_size r) (pg_torrents t).

#[global] Program Instance postgres_shelf {R : Driver} `{!PgLaws R} : Shelf postgresDatabase := {|
  good := pg_good : db (Database := postgresDatabase) -> Prop;
  room := (fun t files => 0 < pg_torrent_ids t /\ len files <= pg_file_ids t)
    : db (Database := postgresDatabase) -> list File -> Prop;
  listed := (fun t => view (pg_torrents t) (pg_files t)) : db (Database := postgresDatabase) -> list stored;
  fine := (fun now => (now, [])) : Z -> io (Database := postgresDatabase) |}.
Next Obligation.
  intros R L now t ih [Hw _]. cbn. unfold run. rewrite view_hashes.
  destruct (pg_DoesTorrentExist_run ih (connect_to t [])) as (c' & r & -> & _ & _ & _ & Hr); [apply Hw|].
  cbn. by rewrite (Hr eq_refl).
Qed.
Next Obligation.
  intros R L now t ih [Hw Hs]. cbn. unfold postgres_GetTorrent.
  by erewrite get_run; [|apply pg_torrent_law, Hw|].
Qed.
Next Obligation.
  intros R L now t ih [Hw _]. cbn. destruct (pg_select_files_law t ih (pw_ready t Hw)) as (fs & Hp & Hq).
  destruct (files_run _ t ih _ _ fs Hp Hq) as [H1 H2]. unfold postgres_GetFiles. rewrite H1. by eexists.
Qed.
Next Obligation.
  intros R L now t ih name files [Hw Hs] Hroom (Hname & Hpaths & Hnow & Hsize). cbn.
  unfold add_stored. rewrite view_hashes, <- totalSize_0 in *.
  assert (ValidString name = true) as Hvalid by (unfold pg_text in Hname; by destruct (ValidString name)).
  destruct (pg_run_Add now ih name files t [] (pw_ready t Hw)) as (t' & r & -> & Ho).
  pose proof (to_u64_range (sum_sizes files)) as Hrange. rewrite <- totalSize_0 in Hrange.
  destruct Ho as [[-> Hwhy]|[-> Hadd]].
  - exists t. destruct Hroom as [Htids Hfids].
    destruct Hwhy as [[-> Hwhy]|[[Hwhy|[Hwhy|Hwhy]]|[Hwhy|(Hz & Hih & Hwhy)]]]; [|done|done|lia|lia|].
    + split_and!; [done|done|]. rewrite bool_decide_eq_true_2; [done|]. destruct Hwhy as [?|?]; [congruence|done].
    + exfalso. destruct Hwhy as [Hwhy|Hwhy]; [lia|]. revert Hwhy. unfold pg_insertable.
      rewrite bool_decide_eq_true_2, Hname by done. rewrite !(proj2 (Z.ltb_lt _ _)) by lia. done.
  - exists t'. assert (pg_wf t') as Hw' by (by eapply pg_added_wf).
    destruct Hadd as (id & Hins & Hid & _ & _ & Hr & Hf).
    apply pg_insertable_true in Hins as (Hih & _ & Hpos & _). split_and!; [done|split; [done|]|].
    + rewrite Hr. apply Forall_app_2; [done|]. apply Forall_singleton. cbn. lia.
    + rewrite Hr, Hf, view_add by (apply Hw || done).
      by rewrite bool_decide_eq_false_2 by (intros [?|?]; [lia|done]).
Qed.

(** ** Sequences of calls *)

Inductive call : Type :=
  | Add (now : Z) (ih name : bytes) (files : list File)
  | Has (ih : bytes)
  | Get (ih : bytes)
  | Files (ih : bytes).

Inductive reply : Type :=
  | RAdd (r : go (res error unit))
  | RExists (r : go (res error bool))
  | RGet (r : go (res error (option TorrentMetadata)))
  | RFiles (r : go (res error (list File))).

(** The same answer; files may come in another order. *)
Inductive same_reply : reply -> reply -> Prop :=
  | same_equal r : same_reply r r
  | same_files fs fs' : fs ≡ₚ fs' -> same_reply (RFiles (Ret (Ok fs))) (RFiles (Ret (Ok fs'))).

Definition clean_call (c : call) : Prop :=
  match c with Add now _ name files => clean now name files | _ => True end.

Section Calls.
Context {D : Database} {S : Shelf D}.

(** One call while nothing outside the program fails. *)
Definition perform (d : db) (c : call) : db * reply :=
  match c with
  | Add now ih name files => let '(d', r) := AddNewTorrent (fine now) d ih name files in (d', RAdd r)
  | Has ih => (d, RExists (DoesTorrentExist (fine 0) d ih))
  | Get ih => (d, RGet (GetTorrent (fine 0) d ih))
  | Files ih => (d, RFiles (GetFiles (fine 0) d ih))
  end.

Fixpoint replies (d : db) (cs : list call) : list reply :=
  match cs with
  | [] => []
  | c :: cs => let '(d', r) := perform d c in r :: replies d' cs
  end.

(** Identifiers are left whenever a torrent is added. *)
Definition room_for (d : db) (c : call) : Prop :=
  match c with Add _ _ _ files => room d files | _ => True end.

Fixpoint roomy (d : db) (cs : list call) : Prop :=
  match cs with
  | [] => True
  | c :: cs => room_for d c /\ roomy (perform d c).1 cs
  end.

Lemma perform_spec d c d' r :
  good d -> room_for d c -> clean_call c -> perform d c = (d', r) ->
  good d' /\
  match c with
  | Add now ih name files => r = RAdd (Ret (Ok tt)) /\ listed d' = add_stored now ih name files (listed d)
  | Has ih => d' = d /\ r = RExists (Ret (Ok (bool_decide (ih ∈ map s_hash (listed d)))))
  | Get ih => d' = d /\ r = RGet (Ret (Ok (details <$> head (named (listed d) ih))))
  | Files ih => d' = d /\ exists fs, r = RFiles (Ret (Ok fs)) /\
      (fs ≡ₚ concat (map s_files (named (listed d) ih)))
  end.
Proof.
  intros Hg Hroom Hc H. destruct c as [now ih name files|ih|ih|ih]; cbn [perform clean_call room_for] in *.
  - destruct (shelf_add now d ih name files Hg Hroom Hc) as (d1 & E & Hg1 & Hl).
    rewrite E in H. by injection H as <- <-.
  - rewrite (shelf_exists 0 d ih Hg) in H. by injection H as <- <-.
  - rewrite (shelf_get 0 d ih Hg) in H. by injection H as <- <-.
  - destruct (shelf_files 0 d ih Hg) as (fs & E & Hp). rewrite E in H. injection H as <- <-. eauto.
Qed.
End Calls.

(** Two shelves with the same content stay in step. *)
Lemma shelves_agree {D1 D2 : Database} {S1 : Shelf D1} {S2 : Shelf D2} cs
    (d1 : db (Database := D1)) (d2 : db (Database := D2)) :
  good d1 -> good d2 -> listed d1 = listed d2 -> Forall clean_call cs -> roomy d1 cs -> roomy d2 cs ->
  Forall2 same_reply (replies d1 cs) (replies d2 cs).
Proof.
  revert d1 d2. induction cs as [|c cs IH]; intros d1 d2 H1 H2 Hl Hc Hr1 Hr2; [constructor|].
  apply Forall_cons in Hc as [Hc Hcs]. cbn [replies roomy] in *. destruct Hr1 as [Hr1 Hs1], Hr2 as [Hr2 Hs2].
  destruct (perform d1 c) as [d1' r1] eqn:E1, (perform d2 c) as [d2' r2] eqn:E2.
  destruct (perform_spec d1 c d1' r1 H1 Hr1 Hc E1) as [Hg1 Ha1].
  destruct (perform_spec d2 c d2' r2 H2 Hr2 Hc E2) as [Hg2 Ha2].
  assert (listed d1' = listed d2' /\ same_reply r1 r2) as [Hl' Hsame].
  { destruct c; rewrite <- Hl in Ha2; destruct Ha1 as [E1' Ha1], Ha2 as [E2' Ha2]; subst;
      [split; [congruence|constructor]|split; [done|constructor]..|].
    destruct Ha1 as (fs1 & -> & Hp1), Ha2 as (fs2 & -> & Hp2). split; [done|]. constructor.
    by rewrite Hp1, Hp2. }
  constructor; [done|]. by apply IH.
Qed.

(** C15. The SQL engines are interchangeable for the daemon and for the pages of
    single torrents: started from databases with the same torrents, SQLite and
    PostgreSQL give the same answers to every sequence of AddNewTorrent,
    DoesTorrentExist, GetTorrent and GetFiles, files up to their order, as
    long as both have identifiers left for what is added, names and paths are
    valid UTF-8 without NUL, totals are below 2^63 and the clock is before
    2038. *)
Theorem engines_agree {R1 R2 : Driver} `{!SqliteLaws R1} `{!PgLaws R2} cs
    (t : tables (Driver := R1)) (p : tables (Driver := R2)) :
  wf t -> pg_good p -> view (torrent_rows t) (file_rows t) = view (pg_torrents p) (pg_files p) ->
  Forall clean_call cs ->
  roomy (D := sqlite3Database) t cs -> roomy (D := postgresDatabase) p cs ->
  Forall2 same_reply (replies (D := sqlite3Database) t cs) (replies (D := postgresDatabase) p cs).
Proof.
  intros Hw Hp Hv Hc Hr Hroom. by apply (shelves_agree (D1 := sqlite3Database) (D2 := postgresDatabase)).
Qed.

(** ** Witness: one torrent stored and read in both *)

Definition wit_calls : list call :=
  [Add 1500000000 hash_a ubuntu files_a; Has hash_a; Get hash_a; Files hash_a].

Lemma engines_agree_witness :
  Forall2 same_reply
    (replies (D := sqlite3Database (R := sqlite_model)) (empty_mem 3) wit_calls)
    (replies (D := postgresDatabase (R := pg_model)) pg_empty wit_calls) /\
  match replies (D := postgresDatabase (R := pg_model)) pg_empty wit_calls with
  | [_; _; RGet (Ret (Ok (Some m))); _] => tm_Name m = ubuntu
  | _ => False
  end.
Proof.
  split; [|vm_compute; reflexivity].
  apply (engines_agree (R1 := sqlite_model) (R2 := pg_model)).
  - apply empty_mem_wf.
  - split; [apply pg_empty_wf|constructor].
  - reflexivity.
  - repeat constructor.
  - cbn [wit_calls roomy room_for]. split_and!; [apply not_full_empty|exact I..].
  - cbn [wit_calls roomy room_for]. split_and!; [vm_compute; split; [reflexivity|discriminate]|exact I..].
Defined.
