(* ===== verification/Outputs.v ===== *)
(** pkg/persistence/stdout.go, beanstalkd.go and the rest of interface.go: the
    JSON form of torrents, the two engines that only write, and MakeDatabase. *)

From S2P Require Import Prelude GoLib Encoding Persistence.
From Stdlib Require Import ZArith Lia.
From stdpp Require Import base list sets.
Local Open Scope Z_scope.

(** ** JSON *)

Definition quoted (s : bytes) : bytes := [Byte.x22] ++ s ++ [Byte.x22].
Definition json_key (k : bytes) : bytes := quoted k ++ str ":".

(** Elements separated by commas. *)
Fixpoint commas (l : list bytes) : bytes :=
  match l with
  | [] => []
  | [x] => x
  | x :: l => x ++ str "," ++ commas l
  end.

Definition json_file (f : File) : bytes :=
  str "{" ++ json_key (str "size") ++ fmt_d (f_Size f) ++ str "," ++
  json_key (str "path") ++ json_string (f_Path f) ++ str "}".

(** A list without files is a nil slice. *)
Definition json_files (files : list File) : bytes :=
  match files with [] => str "null" | _ => str "[" ++ commas (map json_file files) ++ str "]" end.

(** json.Marshal of a SimpleTorrentSummary. *)
Definition json_summary (s : SimpleTorrentSummary) : bytes :=
  str "{" ++ json_key (str "infoHash") ++ json_string (ts_InfoHash s) ++ str "," ++
  json_key (str "name") ++ json_string (ts_Name s) ++ str "," ++
  json_key (str "files") ++ json_files (ts_Files s) ++ str "}".

(** TorrentMetadata.MarshalJSON; [json_float] is the float64 encoder. The info
    hash of the outer struct hides that of the embedded one. *)
Definition TorrentMetadata_MarshalJSON (json_float : float64 -> bytes) (tm : TorrentMetadata) : bytes :=
  str "{" ++ json_key (str "infoHash") ++ json_string (EncodeToString (tm_InfoHash tm)) ++ str "," ++
  json_key (str "id") ++ fmt_d (tm_ID tm) ++ str "," ++
  json_key (str "name") ++ json_string (tm_Name tm) ++ str "," ++
  json_key (str "size") ++ fmt_d (tm_Size tm) ++ str "," ++
  json_key (str "discoveredOn") ++ fmt_d (tm_DiscoveredOn tm) ++ str "," ++
  json_key (str "nFiles") ++ fmt_d (tm_NFiles tm) ++ str "," ++
  json_key (str "relevance") ++ json_float (tm_Relevance tm) ++ str "}".

Definition summary (infoHash name : bytes) (files : list File) : SimpleTorrentSummary :=
  {| ts_InfoHash := EncodeToString infoHash; ts_Name := name; ts_Files := files |}.

(** ** stdout.go

    The state is the encoder: what it has written and the error that it keeps. A
    failing write may have written a part; [w] is the number of bytes written
    and the error, if any. *)

Definition newline : bytes := [Byte.x0a].

Record Encoder := { written : bytes; enc_err : option error }.

(** json.NewEncoder, and Encode of a summary: after an error it does nothing but
    return it. *)
Definition NewEncoder : Encoder := {| written := []; enc_err := None |}.

Definition Encode (w : option (nat * error)) (enc : Encoder) (s : SimpleTorrentSummary)
    : Encoder * res error unit :=
  match enc_err enc with
  | Some e => (enc, Err e)
  | None =>
      let line := json_summary s ++ newline in
      match w with
      | None => ({| written := written enc ++ line; enc_err := None |}, Ok tt)
      | Some (n, e) => ({| written := written enc ++ take n line; enc_err := Some e |}, Err e)
      end
  end.

Definition stdout_AddNewTorrent (w : option (nat * error)) (enc : Encoder) (infoHash name : bytes)
    (files : list File) : Encoder * go (res error unit) :=
  let '(enc, r) := Encode w enc (summary infoHash name files) in
  (enc, Ret match r with Ok _ => Ok tt | Err e => Err (ErrWrap e (str "DB engine stdout encode error")) end).

Definition stdout_DoesTorrentExist (infoHash : bytes) : res error bool := Ok false.

(** os.Stdout.Sync. *)
Definition stdout_Close (w : option (nat * error)) : res error unit :=
  match w with None => Ok tt | Some (_, e) => Err e end.

Definition stdout_Engine : databaseEngine := Stdout.

Definition makeStdoutDatabase : res error Encoder := Ok NewEncoder.

Definition stdoutDatabase : Database := {|
  db := Encoder;
  io := option (nat * error);
  Engine _ := stdout_Engine;
  DoesTorrentExist _ _ ih := Ret (stdout_DoesTorrentExist ih);
  AddNewTorrent := stdout_AddNewTorrent;
  Close w _ := Ret (stdout_Close w);
  GetNumberOfTorrents _ _ := Ret (Err NotImplementedError);
  QueryTorrents _ _ _ _ _ _ _ _ _ := Ret (Err NotImplementedError);
  GetTorrent _ _ _ := Ret (Err NotImplementedError);
  GetFiles _ _ _ := Ret (Err NotImplementedError);
  GetStatistics _ _ _ _ := Ret (Err NotImplementedError) |}.

(** ** beanstalkd.go

    The state is the queue: payload, priority, delay and time to run in
    nanoseconds of each job. [io] is the result of Put. *)

Record job := { j_payload : bytes; j_pri : Z; j_delay : Z; j_ttr : Z }.

Definition beanstalkd_AddNewTorrent (w : res error Z) (queue : list job) (infoHash name : bytes)
    (files : list File) : list job * go (res error unit) :=
  let payloadJson := json_summary (summary infoHash name files) in
  match w with
  | Ok jobId =>
      (queue ++ [{| j_payload := payloadJson; j_pri := 0; j_delay := 0; j_ttr := 30000000000 |}],
       Ret (Ok tt))
  | Err e => (queue, Ret (Err (ErrWrap e (str "DB engine beanstalkd Put() error"))))
  end.

Definition beanstalkd_DoesTorrentExist (infoHash : bytes) : res error bool := Ok false.

(** The result of Quit is not looked at. *)
Definition beanstalkd_Close : res error unit := Ok tt.

Definition beanstalkd_Engine : databaseEngine := Beanstalkd.

Definition beanstalkdDatabase : Database := {|
  db := list job;
  io := res error Z;
  Engine _ := beanstalkd_Engine;
  DoesTorrentExist _ _ ih := Ret (beanstalkd_DoesTorrentExist ih);
  AddNewTorrent := beanstalkd_AddNewTorrent;
  Close _ _ := Ret beanstalkd_Close;
  GetNumberOfTorrents _ _ := Ret (Err NotImplementedError);
  QueryTorrents _ _ _ _ _ _ _ _ _ := Ret (Err NotImplementedError);
  GetTorrent _ _ _ := Ret (Err NotImplementedError);
  GetFiles _ _ _ := Ret (Err NotImplementedError);
  GetStatistics _ _ _ _ := Ret (Err NotImplementedError) |}.

(** strings.CutPrefix and strings.TrimPrefix. *)
Definition CutPrefix (p s : bytes) : option bytes :=
  if bool_decide (take (length p) s = p) then Some (drop (length p) s) else None.
Definition TrimPrefix (s p : bytes) : bytes := default s (CutPrefix p s).

(** [dial] and [use] are the outcomes of gobeanstalk.Dial and Conn.Use; the
    result is the empty view of the queue of that tube. *)
Definition makeBeanstalkDatabase (hostname port path : bytes)
    (dial use : bytes -> res error unit) : res error (list job) :=
  match dial (hostname ++ str ":" ++ port) with
  | Err e => Err (ErrWrap e (str "Beanstalkd connection error"))
  | Ok _ =>
      match use (TrimPrefix path (str "/")) with
      | Err e => Err (ErrWrap e (str "Beanstalkd tube set error"))
      | Ok _ => Ok []
      end
  end.

(** ** MakeDatabase *)

Definition is_letter (b : byte) : bool := within 97 122 b || within 65 90 b.

(** net/url's getscheme: the scheme, or [None] for an error; [i] counts the
    bytes before [s]. *)
Fixpoint getscheme (acc s : bytes) : option bytes :=
  match s with
  | [] => Some []
  | c :: r =>
      if is_letter c then getscheme (acc ++ [c]) r
      else if is_digit c || bool_decide (c ∈ str "+-.")
      then if bool_decide (acc = []) then Some [] else getscheme (acc ++ [c]) r
      else if bool_decide (c = Byte.x3a)
      then if bool_decide (acc = []) then None else Some acc
      else Some []
  end.

Definition ToLower (s : bytes) : bytes :=
  map (fun b => if within 65 90 b then byte_of (byte_val b + 32) else b) s.

(** The engine that is opened; [parseRest] is whether url.Parse accepts the part
    after the scheme. *)
Definition MakeDatabase (rawURL : bytes) (parseRest : bool) : res error databaseEngine :=
  match getscheme [] rawURL, parseRest with
  | None, _ | _, false => Err (ErrWrap (ErrText rawURL) (str "url.Parse"))
  | Some scheme, true =>
      let scheme := ToLower scheme in
      if bool_decide (scheme = str "sqlite3") then Ok Sqlite3
      else if bool_decide (scheme = str "postgres") then Ok Postgres
      else if bool_decide (scheme = str "stdout") then Ok Stdout
      else if bool_decide (scheme = str "beanstalk" \/ scheme = str "beanstalkd") then Ok Beanstalkd
      else if bool_decide (scheme = str "mysql") then Err (ErrText (str "mysql is not yet supported"))
      else Err (ErrText (str "unknown URI scheme: `" ++ scheme ++ str "`"))
  end.

(** The scheme of a URL: its text up to the first colon, in any case. *)
Definition has_scheme (rawURL scheme : bytes) : Prop :=
  exists s rest, rawURL = s ++ Byte.x3a :: rest /\ ToLower s = scheme.

(** The schemes of each engine. *)
Definition schemes (e : databaseEngine) : list bytes :=
  match e with
  | Sqlite3 => [str "sqlite3"]
  | Postgres => [str "postgres"]
  | Stdout => [str "stdout"]
  | Beanstalkd => [str "beanstalk"; str "beanstalkd"]
  end.

Lemma ToLower_letter b : is_letter (if within 65 90 b then byte_of (byte_val b + 32) else b) = is_letter b.
Proof. by destruct b. Qed.

Lemma ToLower_digit b : is_digit (if within 65 90 b then byte_of (byte_val b + 32) else b) = is_digit b.
Proof. by destruct b. Qed.

Lemma getscheme_loop acc s rest :
  acc <> [] -> Forall (fun b => is_letter b || is_digit b = true) s ->
  getscheme acc (s ++ Byte.x3a :: rest) = Some (acc ++ s).
Proof.
  revert acc. induction s as [|b s IH]; intros acc Ha Hs; cbn [app getscheme].
  - change (bool_decide (Byte.x3a ∈ str "+-.")) with false. change (is_letter Byte.x3a) with false.
    cbn [is_digit orb]. rewrite (bool_decide_eq_true_2 (Byte.x3a = _)), bool_decide_eq_false_2 by done.
    by rewrite app_nil_r.
  - apply Forall_cons in Hs as [Hb Hs]. specialize (IH (acc ++ [b])).
    rewrite <- app_assoc in IH. cbn in IH. destruct (is_letter b); [by apply IH; [destruct acc|]|].
    cbn in Hb. rewrite Hb. cbn. rewrite bool_decide_eq_false_2 by done. by apply IH; [destruct acc|].
Qed.

(** A scheme of letters and digits that starts with a letter is found. *)
Lemma has_scheme_getscheme rawURL c scheme :
  is_letter c = true -> Forall (fun b => is_letter b || is_digit b = true) scheme ->
  has_scheme rawURL (c :: scheme) -> ToLower <$> getscheme [] rawURL = Some (c :: scheme).
Proof.
  intros Hc Hs (s & rest & -> & E). destruct s as [|b s]; [done|]. unfold ToLower in E. cbn in E.
  injection E as Eb Es. cbn [app getscheme]. rewrite <- Eb, ToLower_letter in Hc. rewrite Hc. cbn [app].
  rewrite getscheme_loop; [cbn; by rewrite Eb, Es|done|].
  rewrite <- Es, List.Forall_map in Hs. eapply Forall_impl; [exact Hs|]. intros x. cbn.
  by rewrite ToLower_letter, ToLower_digit.
Qed.

Lemma getscheme_prefix acc s scheme :
  getscheme acc s = Some scheme -> scheme = [] \/ exists s' rest, scheme = acc ++ s' /\ s = s' ++ Byte.x3a :: rest.
Proof.
  revert acc. induction s as [|c s IH]; intros acc; cbn [getscheme]; [intros [= <-]; by left|].
  assert (getscheme (acc ++ [c]) s = Some scheme -> scheme = [] \/
    exists s' rest, scheme = acc ++ s' /\ c :: s = s' ++ Byte.x3a :: rest) as Hstep.
  { intros [->|(s' & rest & -> & ->)]%IH; [by left|right]. exists (c :: s'), rest. by rewrite <- app_assoc. }
  destruct (is_letter c); [done|]. destruct (_ || _); [case_bool_decide; [intros [= <-]; by left|done]|].
  case_bool_decide as Ec; [|intros [= <-]; by left]. case_bool_decide; [done|]. intros [= <-]. right.
  exists [], s. by rewrite app_nil_r, Ec.
Qed.

(** MakeDatabase opens the engine of the table, and no other. *)
Lemma MakeDatabase_engine rawURL e :
  MakeDatabase rawURL true = Ok e <-> exists scheme, scheme ∈ schemes e /\ has_scheme rawURL scheme.
Proof.
  unfold MakeDatabase. split.
  - destruct (getscheme [] rawURL) as [s|] eqn:E; [|done]. intros H.
    assert (ToLower s ∈ schemes e) as Hin.
    { repeat case_bool_decide; try done; injection H as <-; cbn [schemes]; rewrite !elem_of_cons; tauto. }
    exists (ToLower s). split; [done|].
    apply getscheme_prefix in E as [->|(s' & rest & -> & ->)]; [exfalso; destruct e; set_solver|].
    by exists s', rest.
  - intros (scheme & Hin & Hs).
    assert (ToLower <$> getscheme [] rawURL = Some scheme) as H.
    { destruct e; apply elem_of_cons in Hin; set_unfold in Hin;
        destruct_or?; simplify_eq; (apply has_scheme_getscheme; [done|by repeat constructor|done]). }
    destruct (getscheme [] rawURL) as [s|]; [|done]. injection H as ->.
    destruct e; set_unfold in Hin; destruct_or?; simplify_eq; by vm_compute.
Qed.

(** ** Reading the output

    A consumer of the engine's output, as specification: lines, and the fields
    of each line. *)

Fixpoint lines (acc s : bytes) : list bytes :=
  match s with
  | [] => []
  | b :: r => if bool_decide (b = Byte.x0a) then acc :: lines [] r else lines (acc ++ [b]) r
  end.

(** The part before the first [c] and the part after it. *)
Fixpoint read_to (c : byte) (s : bytes) : option (bytes * bytes) :=
  match s with
  | [] => None
  | b :: r =>
      if bool_decide (b = c) then Some ([], r)
      else match read_to c r with Some (x, y) => Some (b :: x, y) | None => None end
  end.

Definition decode_file (s : bytes) : option (File * bytes) :=
  r ← CutPrefix (str "{" ++ json_key (str "size")) s;
  '(n, r) ← read_to Byte.x2c r;
  r ← CutPrefix (json_key (str "path") ++ [Byte.x22]) r;
  '(p, r) ← unquote Plain r;
  r ← CutPrefix (str "}") r;
  match ParseInt10 n 64 with
  | Ok z => Some ({| f_Size := z; f_Path := p |}, r)
  | Err _ => None
  end.

(** The rest of a non-empty list after its bracket. *)
Fixpoint decode_files (fuel : nat) (s : bytes) : option (list File * bytes) :=
  match fuel with
  | O => None
  | S fuel =>
      '(f, r) ← decode_file s;
      match r with
      | b :: r =>
          if bool_decide (b = Byte.x5d) then Some ([f], r)
          else if bool_decide (b = Byte.x2c)
          then '(fs, r) ← decode_files fuel r; Some (f :: fs, r)
          else None
      | [] => None
      end
  end.

Definition decode_summary (s : bytes) : option (bytes * bytes * list File) :=
  r ← CutPrefix (str "{" ++ json_key (str "infoHash") ++ [Byte.x22]) s;
  '(h, r) ← unquote Plain r;
  r ← CutPrefix (str "," ++ json_key (str "name") ++ [Byte.x22]) r;
  '(name, r) ← unquote Plain r;
  r ← CutPrefix (str "," ++ json_key (str "files")) r;
  ih ← DecodeString h;
  match CutPrefix (str "[") r with
  | Some r =>
      '(fs, r) ← decode_files (length r) r;
      if bool_decide (r = str "}") then Some (ih, name, fs) else None
  | None => if bool_decide (r = str "null}") then Some (ih, name, []) else None
  end.

Lemma CutPrefix_app p s : CutPrefix p (p ++ s) = Some s.
Proof.
  unfold CutPrefix. rewrite take_app_length, drop_app_length. by rewrite bool_decide_eq_true_2.
Qed.

Lemma read_to_app c a r : c ∉ a -> read_to c (a ++ c :: r) = Some (a, r).
Proof.
  induction a as [|b a IH]; intros H; cbn [app read_to].
  - by rewrite bool_decide_eq_true_2.
  - apply not_elem_of_cons in H as [Hb Ha]. rewrite bool_decide_eq_false_2 by congruence.
    by rewrite IH.
Qed.

Lemma lines_app acc l r : Byte.x0a ∉ l -> lines acc (l ++ Byte.x0a :: r) = (acc ++ l) :: lines [] r.
Proof.
  revert acc. induction l as [|b l IH]; intros acc H; cbn [app lines].
  - rewrite bool_decide_eq_true_2 by done. by rewrite app_nil_r.
  - apply not_elem_of_cons in H as [Hb Hl]. rewrite bool_decide_eq_false_2 by congruence.
    rewrite IH by done. by rewrite <- app_assoc.
Qed.

(** Decimal numbers of 64 bits are read back. *)
Lemma ParseInt10_fmt_d n : - 2 ^ 63 <= n < 2 ^ 63 -> ParseInt10 (fmt_d n) 64 = Ok n.
Proof.
  intros Hn. unfold fmt_d. destruct (Z.ltb_spec n 0) as [H|H].
  - unfold ParseInt10. rewrite decide_True by done.
    rewrite bool_decide_eq_false_2 by (apply dec_nonempty; lia).
    assert (forallb is_digit (dec (- n)) = true) as ->.
    { apply forallb_forall. intros x Hx%list_elem_of_In. pose proof (dec_digits (- n)) as Hd.
      rewrite Forall_forall in Hd by lia. apply Hd; [lia|done]. }
    cbn [negb orb]. rewrite digits_val_dec by lia. change (64 - 1) with 63.
    rewrite (proj2 (Z.leb_le _ _)) by lia. f_equal. lia.
  - rewrite ParseInt10_digits; [by rewrite digits_val_dec|by apply dec_nonempty|by apply dec_digits|].
    rewrite digits_val_dec; lia.
Qed.

Lemma fmt_d_bytes n : Forall (fun b => b = Byte.x2d \/ is_digit b = true) (fmt_d n).
Proof.
  unfold fmt_d. destruct (Z.ltb_spec n 0); [constructor; [by left|]|];
    (eapply Forall_impl; [apply dec_digits; lia|]); intros b Hb; by right.
Qed.

Definition file_ok (f : File) : Prop := - 2 ^ 63 <= f_Size f < 2 ^ 63 /\ ValidString (f_Path f) = true.

Lemma not_in_fmt_d c n : c <> Byte.x2d -> is_digit c = false -> c ∉ fmt_d n.
Proof.
  intros H1 H2 Hin. pose proof (fmt_d_bytes n) as H. rewrite Forall_forall in H.
  destruct (H c Hin); congruence.
Qed.

Lemma decode_file_json f r : file_ok f -> decode_file (json_file f ++ r) = Some (f, r).
Proof.
  intros [Hs Hp]. unfold decode_file.
  replace (json_file f ++ r) with ((str "{" ++ json_key (str "size")) ++ fmt_d (f_Size f) ++ Byte.x2c ::
    (json_key (str "path") ++ [Byte.x22]) ++ json_chars 0 true (f_Path f) ++ [Byte.x22] ++ str "}" ++ r)
    by (unfold json_file, json_string; by rewrite <- !app_assoc).
  rewrite CutPrefix_app. cbn [mbind option_bind].
  rewrite read_to_app by (by apply not_in_fmt_d). cbn [mbind option_bind].
  rewrite CutPrefix_app. cbn [mbind option_bind].
  rewrite json_string_roundtrip by done. cbn [mbind option_bind].
  rewrite CutPrefix_app. cbn [mbind option_bind]. rewrite ParseInt10_fmt_d by done. by destruct f.
Qed.

Lemma decode_files_json files f r fuel :
  file_ok f -> Forall file_ok files -> (length files < fuel)%nat ->
  decode_files fuel (commas (map json_file (f :: files)) ++ str "]" ++ r) = Some (f :: files, r).
Proof.
  revert f fuel. induction files as [|g files IH]; intros f [|fuel] Hf Hfs Hl; try (simpl in Hl; lia).
  - cbn [map commas decode_files]. by rewrite decode_file_json.
  - apply Forall_cons in Hfs as [Hg Hfs].
    change (commas (map json_file (f :: g :: files)))
      with (json_file f ++ str "," ++ commas (map json_file (g :: files))).
    rewrite <- !app_assoc. cbn [decode_files]. rewrite decode_file_json by done.
    change (str ",") with [Byte.x2c] at 1. cbn [mbind option_bind app].
    rewrite bool_decide_eq_false_2 by done. rewrite bool_decide_eq_true_2 by done.
    rewrite IH by (done || simpl in Hl; lia). done.
Qed.

Lemma commas_length l : (length l <= S (length (commas l)))%nat.
Proof.
  induction l as [|x l IH]; simpl; [lia|]. destruct l as [|y l]; [simpl; lia|].
  rewrite !length_app. simpl in *. lia.
Qed.

Lemma encodeRune_ascii r : r < 128 -> encodeRune r = [byte_of r].
Proof. intros H. unfold encodeRune. by rewrite (proj2 (Z.ltb_lt r 128) H). Qed.

Lemma hex_valid b : ValidString (EncodeToString b) = true.
Proof.
  apply ValidString_runes. exists (concat (map (fun b => [byte_val (hex_digit (byte_val b / 16));
    byte_val (hex_digit (byte_val b mod 16))]) b)).
  assert (forall v, 0 <= v < 16 -> 0 <= byte_val (hex_digit v) < 128) as Hr.
  { intros v Hv. unfold hex_digit. case_match; rewrite byte_val_small; lia. }
  split.
  - induction b as [|x b IH]; [constructor|]. simpl. pose proof (byte_val_range x).
    pose proof (Hr (byte_val x / 16) ltac:(Z.to_euclidean_division_equations; lia)).
    pose proof (Hr (byte_val x mod 16) ltac:(Z.to_euclidean_division_equations; lia)).
    repeat (constructor; [unfold scalar; lia|]). done.
  - unfold EncodeToString. induction b as [|x b IH]; [done|]. cbn [map concat app]. rewrite IH.
    pose proof (byte_val_range x).
    pose proof (Hr (byte_val x / 16) ltac:(Z.to_euclidean_division_equations; lia)).
    pose proof (Hr (byte_val x mod 16) ltac:(Z.to_euclidean_division_equations; lia)).
    rewrite !encodeRune_ascii by lia. by rewrite !byte_of_val.
Qed.

Lemma decode_summary_json ih name files :
  ValidString name = true -> Forall file_ok files ->
  decode_summary (json_summary (summary ih name files)) = Some (ih, name, files).
Proof.
  intros Hn Hf. unfold decode_summary.
  replace (json_summary (summary ih name files)) with
    ((str "{" ++ json_key (str "infoHash") ++ [Byte.x22]) ++ json_chars 0 true (EncodeToString ih) ++ [Byte.x22] ++
     (str "," ++ json_key (str "name") ++ [Byte.x22]) ++ json_chars 0 true name ++ [Byte.x22] ++
     (str "," ++ json_key (str "files")) ++ json_files files ++ str "}")
    by (unfold json_summary, json_string; by rewrite <- !app_assoc).
  rewrite CutPrefix_app. cbn [mbind option_bind].
  rewrite json_string_roundtrip by apply hex_valid. cbn [mbind option_bind].
  rewrite CutPrefix_app. cbn [mbind option_bind].
  rewrite json_string_roundtrip by done. cbn [mbind option_bind].
  rewrite CutPrefix_app. cbn [mbind option_bind]. rewrite hex_roundtrip. cbn [mbind option_bind].
  destruct files as [|f files]; [done|]. unfold json_files. rewrite <- !app_assoc, CutPrefix_app.
  apply Forall_cons in Hf as [Hf Hfs]. pose proof (commas_length (map json_file (f :: files))) as Hl.
  rewrite decode_files_json; [|done|done|].
  - cbn [mbind option_bind]. by rewrite bool_decide_eq_true_2.
  - rewrite length_map in Hl. rewrite !length_app. cbn [length] in Hl.
    assert (length (str "]") = 1%nat) by reflexivity. lia.
Qed.

Lemma printable_app (l k : bytes) :
  Forall (fun b => 32 <= byte_val b) l -> Forall (fun b => 32 <= byte_val b) k ->
  Forall (fun b => 32 <= byte_val b) (l ++ k).
Proof. apply Forall_app_2. Qed.

Lemma json_string_printable s : Forall (fun b => 32 <= byte_val b) (json_string s).
Proof.
  unfold json_string. apply printable_app; [repeat constructor; vm_compute; discriminate|].
  apply printable_app; [by apply json_chars_printable|repeat constructor; vm_compute; discriminate].
Qed.

Lemma fmt_d_printable n : Forall (fun b => 32 <= byte_val b) (fmt_d n).
Proof.
  eapply Forall_impl; [apply fmt_d_bytes|]. intros b [->|Hb]; [vm_compute; discriminate|].
  apply is_digit_range in Hb. lia.
Qed.

Lemma literal_printable l :
  forallb (fun b => 32 <=? byte_val b) l = true -> Forall (fun b => 32 <= byte_val b) l.
Proof.
  rewrite forallb_forall. intros H. apply Forall_forall. intros b Hb%list_elem_of_In. by apply Z.leb_le, H.
Qed.

Ltac printable :=
  repeat match goal with
  | |- Forall _ (json_string _) => apply json_string_printable
  | |- Forall _ (fmt_d _) => apply fmt_d_printable
  | |- Forall _ (_ ++ _) => apply printable_app
  | |- Forall _ _ => apply literal_printable; reflexivity
  end.

Lemma json_file_printable f : Forall (fun b => 32 <= byte_val b) (json_file f).
Proof. unfold json_file. printable. Qed.

Lemma commas_printable l :
  Forall (Forall (fun b => 32 <= byte_val b)) l -> Forall (fun b => 32 <= byte_val b) (commas l).
Proof.
  induction 1 as [|x l Hx Hl IH]; [constructor|]. destruct l as [|y l]; [done|].
  change (commas (x :: y :: l)) with (x ++ str "," ++ commas (y :: l)).
  apply printable_app; [done|]. apply printable_app; [printable|done].
Qed.

Lemma json_summary_printable s : Forall (fun b => 32 <= byte_val b) (json_summary s).
Proof.
  assert (Forall (fun b => 32 <= byte_val b) (json_files (ts_Files s))) as Hf.
  { unfold json_files. destruct (ts_Files s) as [|f fs]; [printable|].
    apply printable_app; [printable|]. apply printable_app; [|printable].
    apply commas_printable, Forall_map, Forall_true. apply json_file_printable. }
  unfold json_summary. repeat (apply printable_app; [first [exact Hf|printable]|]). printable.
Qed.

(** A sequence of torrents given to the stdout engine. *)
Definition print_all (enc : Encoder) (calls : list (bytes * bytes * list File)) : Encoder :=
  foldl (fun enc '(ih, name, files) => (stdout_AddNewTorrent None enc ih name files).1) enc calls.

Lemma print_all_eq out calls :
  print_all {| written := out; enc_err := None |} calls = {|
    written := out ++ concat (map (fun '(ih, name, files) =>
      json_summary (summary ih name files) ++ newline) calls);
    enc_err := None |}.
Proof.
  revert out. induction calls as [|[[ih name] files] calls IH]; intros out.
  - cbn. by rewrite app_nil_r.
  - unfold print_all in *. cbn [foldl map concat]. unfold stdout_AddNewTorrent, Encode.
    cbn [fst enc_err written]. rewrite IH. f_equal. by rewrite <- !app_assoc.
Qed.

(** C34. The output of the stdout engine is self-describing: from the bytes
    written for any sequence of torrents whose names and paths are valid UTF-8, a reader
    that splits lines and decodes each recovers exactly the info hashes, names
    and files, in order. *)
Theorem stdout_readback calls :
  Forall (fun '(ih, name, files) => ValidString name = true /\ Forall file_ok files) calls ->
  map decode_summary (lines [] (written (print_all NewEncoder calls))) = map Some calls.
Proof.
  intros Hc. unfold NewEncoder. rewrite print_all_eq. cbn [written]. rewrite app_nil_l.
  induction Hc as [|[[ih name] files] calls [Hn Hf] _ IH]; [done|]. cbn [map concat].
  rewrite <- app_assoc. unfold newline at 1. cbn [app].
  rewrite lines_app; [cbn [map app]; by rewrite decode_summary_json, IH|].
  intros Hin. pose proof (json_summary_printable (summary ih name files)) as Hp.
  rewrite Forall_forall in Hp. specialize (Hp _ Hin). vm_compute in Hp. by apply Hp.
Qed.

Lemma stdout_readback_witness :
  map decode_summary (lines [] (written (print_all NewEncoder
    [(replicate 20 Byte.xff, str "a
b", [{| f_Size := 1; f_Path := str "x" |}])]))) =
  [Some (replicate 20 Byte.xff, str "a
b", [{| f_Size := 1; f_Path := str "x" |}])].
Proof.
  apply (stdout_readback [(replicate 20 Byte.xff, str "a
b", [{| f_Size := 1; f_Path := str "x" |}])]).
  constructor; [|constructor]. split; [reflexivity|]. constructor; [|constructor].
  split; [split; [discriminate|reflexivity]|reflexivity].
Defined.
