(* ===== verification/Dispatch.v ===== *)
(** pkg/persistence/interface.go: MakeDatabase with the constructor of each
    engine, and the value of the interface type Database that it returns, whose
    methods are those of the engine behind it. *)

From S2P Require Import Prelude GoLib Persistence Sql TorrentTables Sqlite3 Sqlite3Laws Sqlite3Props HttpLib Postgres PostgresProps Outputs.
From Stdlib Require Import ZArith Lia.
From stdpp Require Import base list gmap sets.
Local Open Scope Z_scope.
Local Open Scope go_scope.

(** ** Operations that do not panic *)

Definition total {R : Driver} {A} (m : DB A) : Prop := forall c, exists c' r, m c = (c', Ret r).

Create HintDb total.

Section Total.
Context {R : Driver}.

Lemma total_ret {A} (a : A) : total (mret a).
Proof. intros c. by eexists _, _. Qed.

Lemma total_fail {A} e : total (fail (A := A) e).
Proof. intros c. by eexists _, _. Qed.

Lemma total_lift {A} (r : res error A) : total (lift r).
Proof. intros c. by eexists _, _. Qed.

Lemma total_bind {A B} (m : DB A) (f : A -> DB B) :
  total m -> (forall a, total (f a)) -> total (m ≫= f).
Proof.
  intros Hm Hf c. destruct (Hm c) as (c1 & [a|e] & E).
  - destruct (Hf a c1) as (c2 & r & E2). exists c2, r. by rewrite (bind_ok _ _ _ _ _ E).
  - exists c1, (Err e). by rewrite (bind_err _ _ _ _ _ E).
Qed.

Lemma total_wrap {A} (m : DB A) msg : total m -> total (wrap m msg).
Proof.
  intros Hm c. destruct (Hm c) as (c1 & [a|e] & E); eexists _, _; [by apply wrap_ok|by apply wrap_err].
Qed.

Lemma total_Rollback {A} (m : DB A) : total m -> total (defer_Rollback m).
Proof. intros Hm c. destruct (Hm c) as (c1 & r & E). unfold defer_Rollback. rewrite E. by eexists _, _. Qed.

Lemma total_Query sql args : total (conn_Query sql args).
Proof. intros c. unfold conn_Query. repeat case_match; by eexists _, _. Qed.

Lemma total_Exec sql args : total (conn_Exec sql args).
Proof. intros c. unfold conn_Exec. repeat case_match; by eexists _, _. Qed.

Lemma total_Ping : total conn_Ping.
Proof. intros c. unfold conn_Ping. repeat case_match; by eexists _, _. Qed.

Lemma total_Begin : total conn_Begin.
Proof. intros c. unfold conn_Begin. repeat case_match; by eexists _, _. Qed.

Lemma total_tx_Exec sql args : total (tx_Exec sql args).
Proof. intros c. unfold tx_Exec. repeat case_match; by eexists _, _. Qed.

Lemma total_tx_Query sql args : total (tx_Query sql args).
Proof. intros c. unfold tx_Query. repeat case_match; by eexists _, _. Qed.

Lemma total_Commit : total tx_Commit.
Proof. intros c. unfold tx_Commit. repeat case_match; by eexists _, _. Qed.

Lemma total_run {A} (m : DB A) t o : total m -> exists t' r, run m t o = (t', Ret r).
Proof. intros Hm. unfold run. destruct (Hm (connect_to t o)) as (c & r & ->). by eexists _, _. Qed.
End Total.

#[export] Hint Resolve total_ret total_fail total_lift total_bind total_wrap total_Rollback total_Query
  total_Exec total_Ping total_Begin total_tx_Exec total_tx_Query total_Commit : total.

(** Operations made of these are total, case by case. *)
Ltac total := repeat first [progress intros | case_match | solve [eauto with total]
  | apply total_bind | apply total_wrap | apply total_Rollback].

Lemma makeSqlite3Database_total {R : Driver} u mkdir open : total (makeSqlite3Database u mkdir open).
Proof.
  unfold makeSqlite3Database, sqlite3_setupDatabase, setupSchema, readUserVersion, upgradeSchema,
    upgradeFrom0, upgradeFrom1, upgradeFrom2, upgrade. total.
Qed.

Lemma makePostgresDatabase_total {R : Driver} params open : total (makePostgresDatabase params open).
Proof. unfold makePostgresDatabase, postgres_setupDatabase, pgReadVersion. total. Qed.

Section Dispatch.
(** The drivers of SQLite and PostgreSQL. *)
Context {RS RP : Driver}.

Inductive interface : Type :=
  | OfSqlite3 (t : tables (Driver := RS))
  | OfPostgres (t : tables (Driver := RP))
  | OfStdout (out : Encoder)
  | OfBeanstalkd (queue : list job).

(** The answers of the world to a call, for each engine. *)
Record answers := {
  a_sql : Z * list outcome;
  a_stdout : option (nat * error);
  a_put : res error Z }.

Definition anyDatabase : Database := {|
  db := interface;
  io := answers;
  Engine d := match d with
    | OfSqlite3 t => Engine (Database := sqlite3Database) t
    | OfPostgres t => Engine (Database := postgresDatabase) t
    | OfStdout out => Engine (Database := stdoutDatabase) out
    | OfBeanstalkd queue => Engine (Database := beanstalkdDatabase) queue
    end;
  DoesTorrentExist w d ih := match d with
    | OfSqlite3 t => DoesTorrentExist (Database := sqlite3Database) (a_sql w) t ih
    | OfPostgres t => DoesTorrentExist (Database := postgresDatabase) (a_sql w) t ih
    | OfStdout out => DoesTorrentExist (Database := stdoutDatabase) (a_stdout w) out ih
    | OfBeanstalkd queue => DoesTorrentExist (Database := beanstalkdDatabase) (a_put w) queue ih
    end;
  AddNewTorrent w d ih name files := match d with
    | OfSqlite3 t => let '(t, r) := AddNewTorrent (Database := sqlite3Database) (a_sql w) t ih name files in
        (OfSqlite3 t, r)
    | OfPostgres t => let '(t, r) := AddNewTorrent (Database := postgresDatabase) (a_sql w) t ih name files in
        (OfPostgres t, r)
    | OfStdout out => let '(out, r) := AddNewTorrent (Database := stdoutDatabase) (a_stdout w) out ih name files in
        (OfStdout out, r)
    | OfBeanstalkd queue =>
        let '(queue, r) := AddNewTorrent (Database := beanstalkdDatabase) (a_put w) queue ih name files in
        (OfBeanstalkd queue, r)
    end;
  Close w d := match d with
    | OfSqlite3 t => Close (Database := sqlite3Database) (a_sql w) t
    | OfPostgres t => Close (Database := postgresDatabase) (a_sql w) t
    | OfStdout out => Close (Database := stdoutDatabase) (a_stdout w) out
    | OfBeanstalkd queue => Close (Database := beanstalkdDatabase) (a_put w) queue
    end;
  GetNumberOfTorrents w d := match d with
    | OfSqlite3 t => GetNumberOfTorrents (Database := sqlite3Database) (a_sql w) t
    | OfPostgres t => GetNumberOfTorrents (Database := postgresDatabase) (a_sql w) t
    | OfStdout out => GetNumberOfTorrents (Database := stdoutDatabase) (a_stdout w) out
    | OfBeanstalkd queue => GetNumberOfTorrents (Database := beanstalkdDatabase) (a_put w) queue
    end;
  QueryTorrents w d q epoch orderBy asc limit lov lid := match d with
    | OfSqlite3 t => QueryTorrents (Database := sqlite3Database) (a_sql w) t q epoch orderBy asc limit lov lid
    | OfPostgres t => QueryTorrents (Database := postgresDatabase) (a_sql w) t q epoch orderBy asc limit lov lid
    | OfStdout out => QueryTorrents (Database := stdoutDatabase) (a_stdout w) out q epoch orderBy asc limit lov lid
    | OfBeanstalkd queue =>
        QueryTorrents (Database := beanstalkdDatabase) (a_put w) queue q epoch orderBy asc limit lov lid
    end;
  GetTorrent w d ih := match d with
    | OfSqlite3 t => GetTorrent (Database := sqlite3Database) (a_sql w) t ih
    | OfPostgres t => GetTorrent (Database := postgresDatabase) (a_sql w) t ih
    | OfStdout out => GetTorrent (Database := stdoutDatabase) (a_stdout w) out ih
    | OfBeanstalkd queue => GetTorrent (Database := beanstalkdDatabase) (a_put w) queue ih
    end;
  GetFiles w d ih := match d with
    | OfSqlite3 t => GetFiles (Database := sqlite3Database) (a_sql w) t ih
    | OfPostgres t => GetFiles (Database := postgresDatabase) (a_sql w) t ih
    | OfStdout out => GetFiles (Database := stdoutDatabase) (a_stdout w) out ih
    | OfBeanstalkd queue => GetFiles (Database := beanstalkdDatabase) (a_put w) queue ih
    end;
  GetStatistics w d from n := match d with
    | OfSqlite3 t => GetStatistics (Database := sqlite3Database) (a_sql w) t from n
    | OfPostgres t => GetStatistics (Database := postgresDatabase) (a_sql w) t from n
    | OfStdout out => GetStatistics (Database := stdoutDatabase) (a_stdout w) out from n
    | OfBeanstalkd queue => GetStatistics (Database := beanstalkdDatabase) (a_put w) queue from n
    end |}.

(** ** Opening *)

(** What is behind the URLs: os.MkdirAll and sql.Open with the file of SQLite,
    sql.Open with the database of PostgreSQL, gobeanstalk's Dial and Use, and
    the outcomes of the calls that the constructor makes. *)
Record backends := {
  b_mkdir : bytes -> res error unit;
  b_open : bytes -> res error unit;
  b_sqlite3 : tables (Driver := RS);
  b_pgopen : urlValues -> res error unit;
  b_postgres : tables (Driver := RP);
  b_dial : bytes -> res error unit;
  b_use : bytes -> res error unit;
  b_outcomes : list outcome }.

(** The value that a constructor returns. *)
Definition returns {A} (value : A -> interface) (x : A * go (res error unit)) : go (res error interface) :=
  let! r := x.2 in
  Ret match r with Ok _ => Ok (value x.1) | Err e => Err e end.

(** MakeDatabase with the constructor that it calls; [parsed] is what url.Parse
    makes of the part after the scheme. *)
Definition openDatabase (parsed : option URL) (b : backends) (rawURL : bytes) : go (res error interface) :=
  match MakeDatabase rawURL (bool_decide (is_Some parsed)) with
  | Err e => Ret (Err e)
  | Ok engine =>
      match parsed with
      | None => Panic
      | Some u =>
          match engine with
          | Sqlite3 => returns OfSqlite3
              (run (makeSqlite3Database u (b_mkdir b) (b_open b))
                 (b_sqlite3 b) (b_outcomes b))
          | Postgres => returns OfPostgres
              (run (makePostgresDatabase (u_Query u) (b_pgopen b)) (b_postgres b) (b_outcomes b))
          | Stdout => Ret (match makeStdoutDatabase with Ok out => Ok (OfStdout out) | Err e => Err e end)
          | Beanstalkd => Ret
              (match makeBeanstalkDatabase (u_Hostname u) (u_Port u) (u_Path u) (b_dial b) (b_use b) with
               | Ok queue => Ok (OfBeanstalkd queue)
               | Err e => Err e
               end)
          end
      end
  end.

(** ** The contract of the daemon

    The two engines that only write keep no torrents and are outside of it. *)
#[global] Instance anyDatabase_laws `{!SqliteLaws RS} `{!PgLaws RP} : DatabaseLaws anyDatabase.
Proof.
  refine {| db_wf := fun d : db (Database := anyDatabase) =>
              match d with OfSqlite3 t => wf t | OfPostgres t => pg_wf t | _ => False end;
            torrents := fun d : db (Database := anyDatabase) =>
              match d with OfSqlite3 t => sqlite3_torrents t | OfPostgres t => postgres_torrents t
              | _ => ∅ end |}.
  - intros w [t|t|out|queue] ih Hw H; [| |done..].
    + exact (exist_spec (D := sqlite3Database) (a_sql w) t ih Hw H).
    + exact (exist_spec (D := postgresDatabase) (a_sql w) t ih Hw H).
  - intros w [t|t|out|queue] ih name files Hw; [| |done..].
    + pose proof (add_wf (D := sqlite3Database) (a_sql w) t ih name files Hw) as H.
      cbn [AddNewTorrent anyDatabase]. by destruct (AddNewTorrent (Database := sqlite3Database) (a_sql w) t ih name files).
    + pose proof (add_wf (D := postgresDatabase) (a_sql w) t ih name files Hw) as H.
      cbn [AddNewTorrent anyDatabase]. by destruct (AddNewTorrent (Database := postgresDatabase) (a_sql w) t ih name files).
  - intros w [t|t|out|queue] ih name files d' r Hw H; [| |done..]; cbn [AddNewTorrent anyDatabase] in H.
    + destruct (AddNewTorrent (Database := sqlite3Database) (a_sql w) t ih name files) as [t' r'] eqn:E.
      injection H as <- <-. exact (add_spec (D := sqlite3Database) _ _ _ _ _ _ _ Hw E).
    + destruct (AddNewTorrent (Database := postgresDatabase) (a_sql w) t ih name files) as [t' r'] eqn:E.
      injection H as <- <-. exact (add_spec (D := postgresDatabase) _ _ _ _ _ _ _ Hw E).
  - intros w [t|t|out|queue]; [apply (close_returns (D := sqlite3Database))
      |apply (close_returns (D := postgresDatabase))|by eexists..].
Defined.

(** ** Files of SQLite *)

Section Files.
Context `{!SqliteLaws RS} `{!PgLaws RP}.

(** A file of version 0 to 3 in which the constraints of its schema hold. *)
Definition core_ok (c : Z * bytes * bytes * Z * Z) : Prop :=
  let '(id, _, _, total_size, discovered_on) := c in
  0 < id < 2 ^ 63 /\ 0 < total_size < 2 ^ 63 /\ 0 < discovered_on <= modifiedDefault.

Record sound (t : tables (Driver := RS)) : Prop := {
  sd_version : 0 <= user_version t <= 3;
  sd_keys : keys_ok (torrent_rows t) (file_rows t);
  sd_rows : Forall core_ok (map core (torrent_rows t));
  sd_modified : user_version t = 3 -> Forall (fun r => tr_discovered_on r <= tr_modified_on r) (torrent_rows t) }.

Lemma sound_upgradable t : sound t -> upgradable t.
Proof.
  intros [_ Hk Hr _]. split; [apply Hk|]. rewrite List.Forall_map in Hr.
  eapply Forall_impl; [exact Hr|]. intros r Hc. unfold core_ok, core in Hc. lia.
Qed.

(** Keys and content depend on the columns of version 0 only. *)
Lemma core_keys rows rows' files :
  map core rows' = map core rows -> keys_ok rows files -> keys_ok rows' files.
Proof.
  intros E [H1 H2 H3].
  assert (forall l, map tr_id l = map (fun c => c.1.1.1.1) (map core l)) as Hid
    by (intros l; by rewrite map_map).
  assert (forall l, map tr_info_hash l = map (fun c => c.1.1.1.2) (map core l)) as Hih
    by (intros l; by rewrite map_map).
  split; [rewrite Hid, E, <- Hid; done|rewrite Hih, E, <- Hih; done|].
  eapply Forall_impl; [exact H3|]. intros f. by rewrite (Hid rows'), E, <- Hid.
Qed.

Lemma core_torrents rows rows' files :
  map core rows' = map core rows -> torrents_of rows' files = torrents_of rows files.
Proof.
  intros E. unfold torrents_of. f_equal.
  assert (forall l, map (entry files) l =
    map (fun c => (c.1.1.1.2, (c.1.1.2, map file_of (files_of files c.1.1.1.1)))) (map core l)) as He
    by (intros l; by rewrite map_map).
  by rewrite He, E, <- He.
Qed.

Lemma rows_ok rows :
  Forall core_ok (map core rows) -> Forall (fun r => tr_discovered_on r <= tr_modified_on r) rows ->
  Forall row_ok rows.
Proof.
  intros Hc Hm. rewrite List.Forall_map in Hc. apply Forall_forall. intros r Hr.
  rewrite Forall_forall in Hc, Hm. specialize (Hc r Hr). specialize (Hm r Hr).
  unfold core_ok, core in Hc. unfold row_ok. lia.
Qed.

Lemma set_up_wf t t' : sound t -> set_up t t' -> wf t' /\ sqlite3_torrents t' = sqlite3_torrents t.
Proof.
  intros [Hv Hk Hr Hm] H. unfold set_up in H. unfold sqlite3_torrents.
  destruct (Z.ltb_spec (user_version t) 3) as [Hlt|Hge].
  - destruct H as (H1 & H2 & H3 & H4). rewrite H3. split; [|by apply core_torrents].
    split; [done|rewrite H3; by eapply core_keys|]. apply rows_ok; [by rewrite H2|done].
  - destruct H as (H1 & H2 & H3). rewrite H2, H3. split; [|done].
    split; [lia|by rewrite H2, H3|]. rewrite H2. apply rows_ok; [done|]. apply Hm. lia.
Qed.

Lemma openDatabase_sqlite3 u b rawURL :
  has_scheme rawURL (str "sqlite3") -> sound (b_sqlite3 b) ->
  exists r, openDatabase (Some u) b rawURL = Ret r /\
    match r with
    | Ok d => db_wf (D := anyDatabase) d /\ torrents (D := anyDatabase) d = sqlite3_torrents (b_sqlite3 b)
    | Err _ => b_outcomes b <> [] \/ is_ok (b_mkdir b (splitDir (u_Path u))) = false \/
        is_ok (b_open b (file_url u)) = false
    end.
Proof.
  intros Hs Hsound. unfold openDatabase. rewrite bool_decide_eq_true_2 by (by eexists).
  rewrite (proj2 (MakeDatabase_engine rawURL Sqlite3)) by (eexists; split; [by left|exact Hs]). unfold returns. destruct (run _ _ _) as [t' r] eqn:Er.
  destruct (sd_version _ Hsound) as [Hv _].
  destruct (makeSqlite3Database_run _ _ _ _ _ _ _ Hv (sound_upgradable _ Hsound) Er)
    as [(e & -> & _ & Hf)|[-> Hset]]; cbn; (eexists; split; [done|]); cbn.
  - destruct Hf as [?|[?|?]]; eauto.
  - by apply set_up_wf.
Qed.

Lemma openDatabase_engine parsed b rawURL d :
  openDatabase parsed b rawURL = Ret (Ok d) ->
  is_Some parsed /\ MakeDatabase rawURL true = Ok (Engine (Database := anyDatabase) d).
Proof.
  unfold openDatabase. destruct parsed as [u|].
  2:{ unfold MakeDatabase. rewrite bool_decide_eq_false_2 by (by intros [? ?]).
      by destruct (getscheme [] rawURL). }
  rewrite bool_decide_eq_true_2 by (by eexists). intros H. split; [by eexists|]. revert H.
  destruct (MakeDatabase rawURL true) as [[]|e]; unfold returns; [| | | |done].
  - destruct (run _ _ _) as [t [[]|]]; cbn; [|done..]. by intros [= <-].
  - destruct (run _ _ _) as [t [[]|]]; cbn; [|done..]. by intros [= <-].
  - destruct (makeBeanstalkDatabase _ _ _ _ _); [|done]. by intros [= <-].
  - by intros [= <-].
Qed.

(** MakeDatabase does not panic. *)
Lemma openDatabase_returns parsed b rawURL : exists r, openDatabase parsed b rawURL = Ret r.
Proof.
  unfold openDatabase. destruct parsed as [u|].
  2:{ unfold MakeDatabase. rewrite bool_decide_eq_false_2 by (by intros [? ?]).
      destruct (getscheme [] rawURL); by eexists. }
  destruct (MakeDatabase _ _) as [[]|e]; unfold returns; [| |by eexists..].
  - destruct (total_run _ (b_sqlite3 b) (b_outcomes b)
      (makeSqlite3Database_total u (b_mkdir b) (b_open b))) as (t & r & ->). by eexists.
  - destruct (total_run _ (b_postgres b) (b_outcomes b)
      (makePostgresDatabase_total (u_Query u) (b_pgopen b))) as (t & r & ->). by eexists.
Qed.

(** The engines that only write open as their constructors say. *)
Lemma openDatabase_writers u b rawURL :
  (has_scheme rawURL (str "stdout") -> openDatabase (Some u) b rawURL = Ret (Ok (OfStdout NewEncoder))) /\
  (has_scheme rawURL (str "beanstalk") \/ has_scheme rawURL (str "beanstalkd") ->
   is_ok (b_dial b (u_Hostname u ++ str ":" ++ u_Port u)) = true ->
   is_ok (b_use b (TrimPrefix (u_Path u) (str "/"))) = true ->
   openDatabase (Some u) b rawURL = Ret (Ok (OfBeanstalkd []))).
Proof.
  unfold openDatabase. rewrite bool_decide_eq_true_2 by (by eexists). split.
  - intros H. assert (MakeDatabase rawURL true = Ok Stdout) as ->; [|done].
    apply MakeDatabase_engine. exists (str "stdout"). split; [by left|done].
  - intros H Hd Hu. assert (MakeDatabase rawURL true = Ok Beanstalkd) as ->.
    { apply MakeDatabase_engine. destruct H as [H|H]; eexists; (split; [|exact H]); [by left|right; by left]. }
    unfold makeBeanstalkDatabase. destruct (b_dial _ _); [|done]. by destruct (b_use _ _).
Qed.

(** C22. MakeDatabase does not panic, whatever fails, and the scheme of the URL, in
    any case, decides which engine it opens: sqlite3 SQLite, postgres
    PostgreSQL, stdout the standard output, beanstalk and beanstalkd
    Beanstalkd, and any other scheme none. The standard output always opens,
    and Beanstalkd if the server accepts the connection and the tube. A
    database of SQLite is well-formed and holds the torrents of the file, of
    whichever version; it fails only if the directory, sql.Open or a call of
    the driver does. *)
Theorem openDatabase_spec parsed b rawURL :
  exists r, openDatabase parsed b rawURL = Ret r /\
    (forall d, r = Ok d -> is_Some parsed /\ exists scheme, has_scheme rawURL scheme /\
       match d with
       | OfSqlite3 _ => scheme = str "sqlite3"
       | OfPostgres _ => scheme = str "postgres"
       | OfStdout _ => scheme = str "stdout"
       | OfBeanstalkd _ => scheme = str "beanstalk" \/ scheme = str "beanstalkd"
       end) /\
    (forall u, parsed = Some u ->
       (has_scheme rawURL (str "stdout") -> r = Ok (OfStdout NewEncoder)) /\
       (has_scheme rawURL (str "beanstalk") \/ has_scheme rawURL (str "beanstalkd") ->
        is_ok (b_dial b (u_Hostname u ++ str ":" ++ u_Port u)) = true ->
        is_ok (b_use b (TrimPrefix (u_Path u) (str "/"))) = true -> r = Ok (OfBeanstalkd [])) /\
       (has_scheme rawURL (str "sqlite3") -> sound (b_sqlite3 b) ->
        match r with
        | Ok d => db_wf (D := anyDatabase) d /\ torrents (D := anyDatabase) d = sqlite3_torrents (b_sqlite3 b)
        | Err _ => b_outcomes b <> [] \/ is_ok (b_mkdir b (splitDir (u_Path u))) = false \/
            is_ok (b_open b (file_url u)) = false
        end)).
Proof.
  destruct (openDatabase_returns parsed b rawURL) as [r Hr]. exists r. split; [done|]. split.
  - intros d ->. apply openDatabase_engine in Hr as [Hp Hr]. split; [done|].
    apply MakeDatabase_engine in Hr as (scheme & Hin & Hs). exists scheme. split; [done|].
    destruct d; repeat (apply elem_of_cons in Hin as [Hin|Hin]; [auto|]); by apply elem_of_nil in Hin.
  - intros u ->. destruct (openDatabase_writers u b rawURL) as [Ho Hb]. split_and!.
    + intros H%Ho. congruence.
    + intros H1 H2 H3. specialize (Hb H1 H2 H3). congruence.
    + intros Hs Hsound. destruct (openDatabase_sqlite3 u b rawURL Hs Hsound) as (r' & Hr' & H).
      rewrite Hr in Hr'. by injection Hr' as <-.
Qed.
End Files.
End Dispatch.
