(* ===== verification/Xml.v ===== *)
(** A strict reader of XML 1.0 documents, as specification of what a consumer
    makes of templates/feed.xml: characters, line ends, references, tags with
    attributes, and the nesting of elements. Comments, CDATA sections, document
    types and processing instructions other than the declaration are refused. *)

From S2P Require Import Prelude GoLib Encoding HttpLib Outputs.
From Stdlib Require Import ZArith Lia.
From stdpp Require Import base list.
Local Open Scope Z_scope.

(** ** Characters *)

(** The characters that a document may hold. *)
Definition xmlChar (r : Z) : bool :=
  (r =? 9) || (r =? 10) || (r =? 13) || ((32 <=? r) && (r <=? 55295)) ||
  ((57344 <=? r) && (r <=? 65533)) || ((65536 <=? r) && (r <=? 1114111)).

(** UTF-8 of such characters; [skip] bytes belong to a character already read. *)
Fixpoint chars_from (skip : nat) (s : bytes) : bool :=
  match s with
  | [] => (skip =? 0)%nat
  | _ :: r =>
      match skip with
      | S k => chars_from k r
      | O => match decodeRune s with Some (c, S k) => xmlChar c && chars_from k r | _ => false end
      end
  end.

Definition xmlChars (s : bytes) : bool := chars_from 0 s.

(** Line ends are read as line feeds. *)
Fixpoint lineEnds (s : bytes) : bytes :=
  match s with
  | [] => []
  | b :: r =>
      if bool_decide (b = Byte.x0d) then
        match r with
        | c :: _ => if bool_decide (c = Byte.x0a) then lineEnds r else Byte.x0a :: lineEnds r
        | [] => [Byte.x0a]
        end
      else b :: lineEnds r
  end.

Definition blank (s : bytes) : bool := forallb (fun b => bool_decide (b ∈ [Byte.x09; Byte.x0a; Byte.x0d; Byte.x20])) s.

(** ** References *)

Definition entity (e : bytes) : option byte :=
  if bool_decide (e = str "amp") then Some Byte.x26
  else if bool_decide (e = str "lt") then Some Byte.x3c
  else if bool_decide (e = str "gt") then Some Byte.x3e
  else if bool_decide (e = str "quot") then Some Byte.x22
  else if bool_decide (e = str "apos") then Some Byte.x27
  else match e with
       | Byte.x23 :: ds => match ParseUint10 ds 7 with Ok v => Some (byte_of v) | Err _ => None end
       | _ => None
       end.

(** [ent] is the reference being read. *)
Fixpoint unescape (ent : option bytes) (s : bytes) : option bytes :=
  match s with
  | [] => match ent with None => Some [] | Some _ => None end
  | b :: r =>
      match ent with
      | None => if bool_decide (b = Byte.x26) then unescape (Some []) r
                else rest ← unescape None r; Some (b :: rest)
      | Some e => if bool_decide (b = Byte.x3b)
                  then c ← entity e; rest ← unescape None r; Some (c :: rest)
                  else unescape (Some (e ++ [b])) r
      end
  end.

(** The text between tags, and the value of an attribute, in which white space
    is read as spaces. *)
Definition charData (s : bytes) : option bytes := unescape None (lineEnds s).
Definition attValue (s : bytes) : option bytes :=
  unescape None (map (fun b => if blank [b] then Byte.x20 else b) (lineEnds s)).

(** ** Tags *)

(** The texts of a document with the tag after each, and the text at its end;
    [tag] is the tag being read, with whether it is inside of quotes. *)
Fixpoint tokens (txt : bytes) (tag : option (bytes * bool)) (s : bytes) : option (list (bytes * bytes) * bytes) :=
  match s with
  | [] => match tag with None => Some ([], txt) | Some _ => None end
  | b :: r =>
      match tag with
      | None => if bool_decide (b = Byte.x3c) then tokens txt (Some ([], false)) r
                else tokens (txt ++ [b]) None r
      | Some (t, q) =>
          if bool_decide (b = Byte.x3c) then None
          else if bool_decide (b = Byte.x3e) && negb q
          then '(l, e) ← tokens [] None r; Some ((txt, t) :: l, e)
          else tokens txt (Some (t ++ [b], xorb q (bool_decide (b = Byte.x22)))) r
      end
  end.

Definition nameChar (b : byte) : bool :=
  within 97 122 b || within 65 90 b || within 48 57 b || bool_decide (b ∈ str "-._:").

Definition isName (s : bytes) : bool := negb (bool_decide (s = [])) && forallb nameChar s.

Fixpoint attributes (fuel : nat) (s : bytes) : option (list (bytes * bytes)) :=
  match fuel with
  | O => None
  | S fuel =>
      match s with
      | [] => Some []
      | b :: r =>
          if bool_decide (b = Byte.x20) then attributes fuel r
          else
            '(k, r) ← read_to Byte.x3d s;
            r ← CutPrefix [Byte.x22] r;
            '(v, r) ← read_to Byte.x22 r;
            v ← attValue v;
            l ← attributes fuel r;
            if isName k then Some ((k, v) :: l) else None
      end
  end.

Inductive tag : Type :=
  | Start (name : bytes) (attrs : list (bytes * bytes))
  | End_ (name : bytes)
  | EmptyElem (name : bytes) (attrs : list (bytes * bytes)).

(** [fuel]: each round of [attributes] takes at least one byte. *)
Definition readTag (t : bytes) : option tag :=
  match t with
  | Byte.x2f :: name => if isName name then Some (End_ name) else None
  | _ =>
      let empty := bool_decide (last t = Some Byte.x2f) in
      let t := if empty then removelast t else t in
      let '(name, r) := default (t, []) (read_to Byte.x20 t) in
      attrs ← attributes (S (length r)) r;
      if isName name then Some (if empty then EmptyElem name attrs else Start name attrs) else None
  end.

(** ** Elements *)

Inductive xml : Type :=
  | Elem (name : bytes) (attrs : list (bytes * bytes)) (content : list xml)
  | CharData (s : bytes).

(** The element being read with what has been read of it, and those around it. *)
Definition frame : Type := (bytes * list (bytes * bytes) * list xml)%type.

Definition close (f : frame) (stack : list frame) : xml + list frame :=
  let '(n, a, c) := f in
  match stack with
  | [] => inl (Elem n a c)
  | (n', a', c') :: stack => inr ((n', a', c' ++ [Elem n a c]) :: stack)
  end.

Fixpoint build (stack : list frame) (ts : list (bytes * bytes)) : option xml :=
  match ts with
  | [] => None
  | (txt, t) :: ts =>
      match stack with
      | [] =>
          if negb (blank txt) then None
          else match readTag t with
               | Some (Start n a) => build [(n, a, [])] ts
               | Some (EmptyElem n a) => if bool_decide (ts = []) then Some (Elem n a []) else None
               | _ => None
               end
      | (n, a, c) :: stack =>
          d ← charData txt;
          let c := c ++ [CharData d] in
          match readTag t with
          | Some (Start n' a') => build ((n', a', []) :: (n, a, c) :: stack) ts
          | Some (EmptyElem n' a') => build ((n, a, c ++ [Elem n' a' []]) :: stack) ts
          | Some (End_ n') =>
              if bool_decide (n' = n) then
                match close (n, a, c) stack with
                | inl root => if bool_decide (ts = []) then Some root else None
                | inr stack => build stack ts
                end
              else None
          | None => None
          end
      end
  end.

(** The declaration at the start of a document. *)
Definition isDeclaration (t : bytes) : bool :=
  bool_decide (take 5 t = str "?xml ") && bool_decide (last t = Some Byte.x3f).

(** The root element of a document. *)
Definition readXml (s : bytes) : option xml :=
  if negb (xmlChars s) then None
  else
    '(ts, tail) ← tokens [] None s;
    if negb (blank tail) then None
    else match ts with
         | (txt, t) :: ts' => if bool_decide (txt = []) && isDeclaration t then build [] ts' else build [] ts
         | [] => None
         end.

(** ** Contents *)

Definition children (name : bytes) (x : xml) : list xml :=
  match x with
  | Elem _ _ c => List.filter (fun y => match y with Elem n _ _ => bool_decide (n = name) | CharData _ => false end) c
  | CharData _ => []
  end.

(** The text of an element that holds nothing else. *)
Definition textOf (x : xml) : option bytes :=
  match x with Elem _ _ [CharData s] => Some s | _ => None end.

Definition attribute (name : bytes) (x : xml) : option bytes :=
  match x with
  | Elem _ attrs _ => snd <$> head (filter (fun p => p.1 = name) attrs)
  | CharData _ => None
  end.

(** ** Characters of a text and of its parts *)

Lemma is_cont_false b : is_cont b = false <-> byte_val b < 128 \/ 192 <= byte_val b.
Proof. unfold is_cont. rewrite within_false. lia. Qed.

(** A byte that starts a character ends the one before. *)
Lemma decodeRune_cut s c r : s <> [] -> is_cont c = false -> decodeRune (s ++ c :: r) = decodeRune s.
Proof.
  intros Hs Hc. destruct s as [|b0 s]; [done|]. cbn [app decodeRune]. cbv zeta.
  assert (forall lo hi, 128 <= lo -> hi <= 191 -> within lo hi c = false) as Hw.
  { intros lo hi ? ?. apply is_cont_false in Hc. apply within_false. lia. }
  assert (forall v, 128 <= (second3 v).1 /\ (second3 v).2 <= 191) as H3 by (intros v; unfold second3; repeat case_match; cbn; lia).
  assert (forall v, 128 <= (second4 v).1 /\ (second4 v).2 <= 191) as H4 by (intros v; unfold second4; repeat case_match; cbn; lia).
  destruct (_ <? 128); [done|]. destruct (within 194 223 b0); [destruct s; cbn [app]; by rewrite ?Hc|].
  destruct (within 224 239 b0).
  { destruct s as [|b1 [|b2 s]]; cbn [app]; [destruct r; [done|]|by rewrite Hc, andb_false_r|done].
    by rewrite Hw by apply H3. }
  destruct (within 240 244 b0); [|done].
  destruct s as [|b1 [|b2 [|b3 s]]]; cbn [app];
    [destruct r as [|? [|? r]]; [done..|]|destruct r; [done|]|by rewrite Hc, andb_false_r|done].
  - by rewrite Hw by apply H4.
  - by rewrite Hc, andb_false_r.
Qed.

Lemma chars_cut k s c r :
  (k <= length s)%nat -> is_cont c = false ->
  chars_from k (s ++ c :: r) = chars_from k s && chars_from 0 (c :: r).
Proof.
  intros Hk Hc. revert k Hk. induction s as [|b s IH]; intros k Hk.
  { cbn in Hk. by assert (k = 0%nat) as -> by lia. }
  destruct k as [|k]; [|cbn in *; apply IH; lia].
  rewrite <- app_comm_cons. cbn [chars_from]. rewrite app_comm_cons, decodeRune_cut by done.
  destruct (decodeRune (b :: s)) as [[x [|k]]|] eqn:E; [done| |done].
  apply decodeRune_sound in E as (_ & rest & E & En). rewrite IH; [by rewrite andb_assoc|].
  assert (length (b :: s) = (S k + length rest)%nat) as Hlen by (by rewrite E, length_app, En).
  cbn in Hlen. lia.
Qed.

Lemma xmlChars_cut s c r : is_cont c = false -> xmlChars (s ++ c :: r) = xmlChars s && xmlChars (c :: r).
Proof. intros H. apply chars_cut; [lia|done]. Qed.

(** Characters of one byte. *)
Definition xmlByte (b : byte) : bool := (byte_val b <? 128) && xmlChar (byte_val b).

Lemma xmlChars_bytes a s : forallb xmlByte a = true -> xmlChars (a ++ s) = xmlChars s.
Proof.
  induction a as [|b a IH]; [done|]. cbn [forallb app]. intros [[Hb Hx]%andb_true_iff Ha]%andb_true_iff.
  unfold xmlChars. cbn [chars_from decodeRune]. cbv zeta. rewrite Hb, Hx. by apply IH.
Qed.

Lemma xmlBytes_Forall a : Forall (fun b => xmlByte b = true) a -> forallb xmlByte a = true.
Proof. induction 1 as [|b a Hb _ IH]; [done|]. cbn [forallb]. by rewrite Hb. Qed.

Lemma xmlByte_not_cont b : xmlByte b = true -> is_cont b = false.
Proof. intros [H _]%andb_true_iff. apply is_cont_false. lia. Qed.

(** ** Line ends *)

Lemma lineEnds_cut s c r : c <> Byte.x0a -> c <> Byte.x0d -> lineEnds (s ++ c :: r) = lineEnds s ++ c :: lineEnds r.
Proof.
  intros H1 H2. induction s as [|b s IH]; cbn [app lineEnds]; [by rewrite bool_decide_eq_false_2|].
  destruct (bool_decide (b = Byte.x0d)); [|by rewrite IH].
  destruct s as [|d s]; cbn [app] in *; [by rewrite bool_decide_eq_false_2, IH|].
  destruct (bool_decide (d = Byte.x0a)); by rewrite IH.
Qed.

Lemma lineEnds_none s : Byte.x0d ∉ s -> lineEnds s = s.
Proof.
  induction s as [|b s IH]; [done|]. intros [Hb Hs]%not_elem_of_cons. cbn [lineEnds].
  rewrite bool_decide_eq_false_2 by congruence. by rewrite IH.
Qed.

(** ** Tokens of a text *)

Lemma tokens_text txt a r : Byte.x3c ∉ a -> tokens txt None (a ++ r) = tokens (txt ++ a) None r.
Proof.
  revert txt. induction a as [|b a IH]; intros txt H; [by rewrite app_nil_r|].
  apply not_elem_of_cons in H as [Hb Ha]. cbn [app tokens].
  rewrite bool_decide_eq_false_2 by congruence. by rewrite IH, <- app_assoc.
Qed.

(** Whether the end of a tag without angle brackets is inside of quotes. *)
Definition quoted (q : bool) (t : bytes) : bool := foldl (fun q b => xorb q (bool_decide (b = Byte.x22))) q t.

Lemma tokens_tag txt t0 q t r :
  Byte.x3c ∉ t -> Byte.x3e ∉ t -> quoted q t = false ->
  tokens txt (Some (t0, q)) (t ++ Byte.x3e :: r) =
  ('(l, e) ← tokens [] None r; Some ((txt, t0 ++ t) :: l, e)).
Proof.
  revert t0 q. induction t as [|b t IH]; intros t0 q Hl Hg Hq; cbn [app tokens].
  - cbn in Hq. subst q. by rewrite app_nil_r.
  - apply not_elem_of_cons in Hl as [Hl Hlt]. apply not_elem_of_cons in Hg as [Hg Hgt].
    rewrite !bool_decide_eq_false_2 by congruence. cbn [andb]. rewrite IH; [by rewrite <- app_assoc|done..].
Qed.

(** Text up to a tag, and the tag. *)
Definition seg (a t r : bytes) : bytes := a ++ Byte.x3c :: t ++ Byte.x3e :: r.

Lemma tokens_seg a t r :
  Byte.x3c ∉ a -> Byte.x3c ∉ t -> Byte.x3e ∉ t -> quoted false t = false ->
  tokens [] None (seg a t r) = ('(l, e) ← tokens [] None r; Some ((a, t) :: l, e)).
Proof.
  intros Ha Hl Hg Hq. unfold seg. rewrite tokens_text by done. cbn [tokens app].
  rewrite bool_decide_eq_true_2 by done. by rewrite tokens_tag.
Qed.

Lemma xmlChars_seg a t r :
  forallb xmlByte t = true -> xmlChars (seg a t r) = xmlChars a && xmlChars r.
Proof.
  intros Ht. unfold seg. rewrite xmlChars_cut by done. f_equal.
  change (Byte.x3c :: t ++ Byte.x3e :: r) with ([Byte.x3c] ++ t ++ [Byte.x3e] ++ r).
  by rewrite !xmlChars_bytes.
Qed.
