(* ===== verification/Templates.v ===== *)
(** The two templates that magneticow executes, templates/feed.xml and
    templates/homepage.html, with the functions main.go gives them and the
    escaping of html/template; and what a feed reader makes of the feed. *)

From S2P Require Import Prelude GoLib GoTime Iso8601 Encoding HttpLib Persistence Outputs Xml.
From Stdlib Require Import ZArith Lia.
From stdpp Require Import base list.
Local Open Scope Z_scope.

(** ** html/template

    The escapers that the package chooses for the actions of the templates: in
    an element ([title] holds RCDATA), and in the query of a URL that is the
    value of a quoted attribute. *)

Definition htmlReplacement (b : byte) : bytes :=
  match b with
  | Byte.x00 => [Byte.xef; Byte.xbf; Byte.xbd]
  | Byte.x22 => str "&#34;"
  | Byte.x26 => str "&amp;"
  | Byte.x27 => str "&#39;"
  | Byte.x2b => str "&#43;"
  | Byte.x3c => str "&lt;"
  | Byte.x3e => str "&gt;"
  | _ => [b]
  end.

(** The replaced runes are ASCII, so that the text can be read by bytes. *)
Definition htmlReplacer (s : bytes) : bytes := concat (map htmlReplacement s).

Definition htmlEscaper : bytes -> bytes := htmlReplacer.
Definition rcdataEscaper : bytes -> bytes := htmlReplacer.
Definition attrEscaper : bytes -> bytes := htmlReplacer.

Definition urlUnreserved (b : byte) : bool :=
  within 97 122 b || within 65 90 b || within 48 57 b || bool_decide (b ∈ str "-._~").

(** processURLOnto without normalisation. *)
Definition urlEscaper (s : bytes) : bytes :=
  concat (map (fun b => if urlUnreserved b then [b]
                        else [Byte.x25; hex_digit (byte_val b / 16); hex_digit (byte_val b mod 16)]) s).

(** ** The functions of the templates *)

Definition add (augend addends : Z) : Z := to_i64 (augend + addends).
Definition subtract (minuend subtrahend : Z) : Z := to_i64 (minuend - subtrahend).
Definition bytesToHex (b : bytes) : bytes := EncodeToString b.

(** Time.Format of "02/01/2006" in the local time zone, which is [zone]
    seconds ahead of UTC at a time; years have at least four digits. *)
Definition formatYear (y : Z) : bytes :=
  let digits := dec (Z.abs y) in
  (if y <? 0 then str "-" else []) ++ replicate (4 - length digits) Byte.x30 ++ digits.

Definition unixTimeToYearMonthDay (zone : Z -> Z) (s : Z) : bytes :=
  let '(y, m, d) := civil (s + zone s) in
  Iso8601.pad 2 d ++ str "/" ++ Iso8601.pad 2 m ++ str "/" ++ formatYear y.

(** [IBytes] and [Comma] are go-humanize's. *)
Definition humanizeSize (IBytes : Z -> bytes) (s : Z) : bytes := IBytes s.
Definition humanizeSizeF (IBytes : Z -> bytes) (s : Z) : bytes := if s <? 0 then [] else IBytes (to_u64 s).
Definition comma (Comma : Z -> bytes) (s : Z) : bytes := Comma (to_i64 s).

(** ** The templates

    In the texts below backquotes stand for double quotes; the comment of the
    homepage is not in what html/template writes. *)
Definition tq (s : bytes) : bytes := map (fun b => if bool_decide (b = Byte.x60) then Byte.x22 else b) s.

(** One element of the range. *)
Definition feedItem (m : TorrentMetadata) : bytes :=
  tq (str "
        <item>
            <title>") ++
  rcdataEscaper (tm_Name m) ++
  tq (str "</title>
            <guid>") ++
  htmlEscaper (bytesToHex (tm_InfoHash m)) ++
  tq (str "</guid>
            <enclosure url=`magnet:?xt=urn:btih:") ++
  attrEscaper (urlEscaper (bytesToHex (tm_InfoHash m))) ++
  tq (str "&amp;dn=") ++
  attrEscaper (urlEscaper (tm_Name m)) ++
  tq (str "` type=`application/x-bittorrent` />
        </item>
        ").

Definition feed (Title : bytes) (Torrents : list TorrentMetadata) : bytes :=
  tq (str "<rss version=`2.0`>
    <channel>
        <title>") ++
  rcdataEscaper Title ++
  tq (str "</title>
        ") ++
  concat (map feedItem Torrents) ++
  tq (str "
    </channel>
</rss>").

(** What feedHandler writes before the template. *)
Definition xmlDeclaration : bytes :=
  let q := [Byte.x22] in
  str "<?xml version=" ++ q ++ str "1.0" ++ q ++ str " encoding=" ++ q ++ str "utf-8" ++ q ++
  str " standalone=" ++ q ++ str "yes" ++ q ++ str "?>".

Definition homepage (Comma : Z -> bytes) (NTorrents : Z) : bytes :=
  tq (str "<!DOCTYPE html>
<html lang=`en`>
<head>
    <meta charset=`utf-8`>
    <meta name=`viewport` content=`width=device-width, initial-scale=1`>
    <title>magneticow</title>
    <link rel=`stylesheet` href=`static/styles/reset.css`>
    <link rel=`stylesheet` href=`static/styles/essential.css`>
    <link rel=`stylesheet` href=`static/styles/homepage.css`>
    
</head>
<body>
<main>
    <div><b>magnetico<sup>w</sup></b>&#8203;<sub>(pre-alpha)</sub></div>
    <form action=`/torrents` method=`get` autocomplete=`off` role=`search`>
        <input type=`search` name=`query` placeholder=`Search the BitTorrent DHT` autofocus>
    </form>
</main>

<footer>
    ~") ++
  htmlEscaper (comma Comma NTorrents) ++
  tq (str " torrents available (see the <a href=`/statistics`>statistics</a>).
</footer>
</body>
</html>
").

(** ** A feed reader, as specification

    The title of the channel, and the titles, guids and enclosures of its items,
    in a document that is well-formed XML. *)

(** The parameters of a magnet link. *)
Definition magnetParams (url : bytes) : option urlValues :=
  ParseQuery <$> CutPrefix (str "magnet:?") url.

(** An item: title, info hash of the guid, name and info hash of the link. *)
Definition readItem (x : xml) : option (bytes * bytes * bytes * bytes) :=
  title ← head (children (str "title") x) ≫= textOf;
  guid ← head (children (str "guid") x) ≫= textOf;
  ih ← DecodeString guid;
  url ← head (children (str "enclosure") x) ≫= attribute (str "url");
  q ← magnetParams url;
  Some (title, ih, Values_Get q (str "dn"), Values_Get q (str "xt")).

(** The title of the channel and its items. *)
Definition readChannel (s : bytes) : option (bytes * list (bytes * bytes * bytes * bytes)) :=
  root ← readXml s;
  channel ← head (children (str "channel") root);
  title ← head (children (str "title") channel) ≫= textOf;
  items ← mapM readItem (children (str "item") channel);
  Some (title, items).

(** ** Escaping *)

(** U+FFFD for NUL. *)
Definition denul (s : bytes) : bytes :=
  concat (map (fun b => if bool_decide (b = Byte.x00) then [Byte.xef; Byte.xbf; Byte.xbd] else [b]) s).

Definition special (b : byte) : bool := bool_decide (b ∈ [Byte.x00; Byte.x22; Byte.x26; Byte.x27; Byte.x2b; Byte.x3c; Byte.x3e]).

Lemma htmlReplacement_plain b : special b = false -> htmlReplacement b = [b].
Proof. destruct b; done. Qed.

Lemma special_cases b :
  special b = true -> b = Byte.x00 \/ b = Byte.x22 \/ b = Byte.x26 \/ b = Byte.x27 \/ b = Byte.x2b \/
  b = Byte.x3c \/ b = Byte.x3e.
Proof. unfold special. rewrite bool_decide_eq_true, !elem_of_cons, elem_of_nil. tauto. Qed.

Lemma unescape_replacement b r :
  unescape None (htmlReplacement b ++ r) =
  (rest ← unescape None r;
   Some ((if bool_decide (b = Byte.x00) then [Byte.xef; Byte.xbf; Byte.xbd] else [b]) ++ rest)).
Proof.
  destruct (special b) eqn:E.
  - apply special_cases in E as [->|[->|[->|[->|[->|[->| ->]]]]]]; try reflexivity.
    change (htmlReplacement Byte.x00) with [Byte.xef; Byte.xbf; Byte.xbd]. cbn [app unescape].
    rewrite !bool_decide_eq_false_2 by done. rewrite bool_decide_eq_true_2 by done.
    by destruct (unescape None r).
  - rewrite htmlReplacement_plain by done. cbn [app unescape].
    by rewrite !bool_decide_eq_false_2 by (intros ->; done).
Qed.

Lemma unescape_htmlReplacer s : unescape None (htmlReplacer s) = Some (denul s).
Proof.
  induction s as [|b s IH]; [done|]. unfold htmlReplacer, denul in *. cbn [map concat].
  by rewrite unescape_replacement, IH.
Qed.

(** Escaped text has no markup. *)
Definition no_markup (b : byte) : Prop := b <> Byte.x3c /\ b <> Byte.x3e /\ b <> Byte.x22.

Lemma no_markup_not_in s b : Forall no_markup s -> ~ no_markup b -> b ∉ s.
Proof. intros H Hb Hin. rewrite Forall_forall in H. by apply Hb, H. Qed.

Lemma htmlReplacer_no_markup s : Forall no_markup (htmlReplacer s).
Proof.
  apply Forall_concat, Forall_map, Forall_true. intros b. destruct (special b) eqn:E.
  - apply special_cases in E as [->|[->|[->|[->|[->|[->| ->]]]]]]; repeat constructor; discriminate.
  - rewrite htmlReplacement_plain by done. apply Forall_singleton. split_and!; intros ->; done.
Qed.

(** Escaped URLs are plain text for HTML. *)
Lemma htmlReplacer_plain s : Forall (fun b => special b = false) s -> htmlReplacer s = s.
Proof.
  unfold htmlReplacer. induction 1 as [|b s Hb _ IH]; [done|]. cbn [map concat].
  by rewrite htmlReplacement_plain, IH.
Qed.

Lemma hex_digit_plain v : 0 <= v < 16 -> urlUnreserved (hex_digit v) = true.
Proof.
  intros H. assert (v ∈ [0;1;2;3;4;5;6;7;8;9;10;11;12;13;14;15]) as Hv by (rewrite !elem_of_cons; lia).
  repeat (apply elem_of_cons in Hv as [->|Hv]; [reflexivity|]). by apply not_elem_of_nil in Hv.
Qed.

Lemma urlUnreserved_plain b : urlUnreserved b = true -> special b = false /\ b <> Byte.x25 /\ b <> Byte.x3b.
Proof. destruct b; done. Qed.

Lemma urlEscaper_Forall (P : byte -> Prop) s :
  (forall b, urlUnreserved b = true -> P b) -> P Byte.x25 -> Forall P (urlEscaper s).
Proof.
  intros HP H25. apply Forall_concat, Forall_map, Forall_true. intros b. pose proof (byte_val_range b).
  destruct (urlUnreserved b) eqn:E; [by apply Forall_singleton, HP|].
  repeat constructor; [done|..]; apply HP, hex_digit_plain; Z.to_euclidean_division_equations; lia.
Qed.

Lemma urlEscaper_plain s : Forall (fun b => special b = false) (urlEscaper s).
Proof. apply urlEscaper_Forall; [|done]. intros b H. by apply urlUnreserved_plain. Qed.

Lemma urlEscaper_param s : Forall (fun b => b <> Byte.x26 /\ b <> Byte.x3b) (urlEscaper s).
Proof.
  apply urlEscaper_Forall; [|done]. intros b (H1 & _ & H3)%urlUnreserved_plain. split; [by intros ->|done].
Qed.

Lemma hex_unreserved s : Forall (fun b => urlUnreserved b = true) (bytesToHex s).
Proof.
  apply Forall_concat, Forall_map, Forall_true. intros b. pose proof (byte_val_range b).
  repeat constructor; apply hex_digit_plain; Z.to_euclidean_division_equations; lia.
Qed.

Lemma urlEscaper_unreserved s : Forall (fun b => urlUnreserved b = true) s -> urlEscaper s = s.
Proof. unfold urlEscaper. induction 1 as [|b s Hb _ IH]; [done|]. cbn [map concat]. by rewrite Hb, IH. Qed.

Lemma QueryUnescape_urlEscaper s : QueryUnescape (urlEscaper s) = Some s.
Proof.
  apply (QueryUnescape_percent urlUnreserved hex_digit); [|apply fromHexChar_digit].
  intros b (H & Hb & _)%urlUnreserved_plain. split; [done|]. by intros ->.
Qed.

(** The characters of an escaped text are those of the text. *)
Lemma xmlChars_replaced n s :
  Forall (fun b => special b = false) n -> xmlChars (n ++ htmlReplacer s) = xmlChars (n ++ denul s).
Proof.
  revert n. induction s as [|b s IH]; intros n Hn; [done|]. unfold htmlReplacer, denul in *. cbn [map concat].
  destruct (special b) eqn:E.
  - assert (forall a r, a <> [] -> forallb xmlByte a = true -> xmlChars (n ++ a ++ r) = xmlChars n && xmlChars r)
      as Hbytes.
    { intros [|c a] r Ha Hx; [done|]. cbn [app]. rewrite xmlChars_cut.
      - f_equal. by apply (xmlChars_bytes (c :: a)).
      - cbn in Hx. apply andb_true_iff in Hx as [Hx _]. by apply xmlByte_not_cont. }
    specialize (IH [] ltac:(constructor)). cbn [app] in IH.
    apply special_cases in E as [->|E].
    { cbn [htmlReplacement]. rewrite bool_decide_eq_true_2 by done. cbn [app].
      rewrite !(xmlChars_cut n Byte.xef) by done. f_equal. exact IH. }
    rewrite !Hbytes; [by rewrite IH|..];
      destruct E as [->|[->|[->|[->|[->| ->]]]]]; done.
  - rewrite htmlReplacement_plain, bool_decide_eq_false_2 by (done || by intros ->). cbn [app].
    specialize (IH (n ++ [b])). rewrite <- !app_assoc in IH. cbn [app] in IH. apply IH.
    apply Forall_app_2; [done|by constructor].
Qed.

Lemma xmlChars_htmlReplacer s : xmlChars (htmlReplacer s) = xmlChars (denul s).
Proof. apply (xmlChars_replaced []). constructor. Qed.

Lemma lineEnds_CR x :
  lineEnds (Byte.x0d :: x) = if bool_decide (head x = Some Byte.x0a) then lineEnds x else Byte.x0a :: lineEnds x.
Proof.
  cbn [lineEnds]. rewrite bool_decide_eq_true_2 by done. destruct x as [|c x]; [done|]. cbn [head].
  rewrite (bool_decide_ext (Some c = Some Byte.x0a) (c = Byte.x0a)) by (split; congruence). done.
Qed.

Lemma lineEnds_app a r : Byte.x0d ∉ a -> lineEnds (a ++ r) = a ++ lineEnds r.
Proof.
  induction a as [|b a IH]; [done|]. intros [Hb Ha]%not_elem_of_cons. cbn [app lineEnds].
  rewrite bool_decide_eq_false_2 by congruence. by rewrite IH.
Qed.

Lemma htmlReplacement_head b r : head (htmlReplacement b ++ r) = Some Byte.x0a <-> b = Byte.x0a.
Proof. destruct b; split; done. Qed.

Lemma htmlReplacement_no_CR b : b <> Byte.x0d -> Byte.x0d ∉ htmlReplacement b.
Proof. intros H. apply (bool_decide_unpack _). by destruct b. Qed.

Lemma lineEnds_htmlReplacer s : lineEnds (htmlReplacer s) = htmlReplacer (lineEnds s).
Proof.
  induction s as [|b s IH]; [done|]. unfold htmlReplacer in *. cbn [map concat].
  destruct (decide (b = Byte.x0d)) as [->|Hb].
  - cbn [htmlReplacement app]. rewrite !lineEnds_CR.
    rewrite (bool_decide_ext _ (head s = Some Byte.x0a)).
    + destruct (bool_decide _); [done|]. cbn [map concat htmlReplacement app]. by rewrite IH.
    + destruct s as [|c s]; [done|]. cbn [map concat]. rewrite htmlReplacement_head. cbn. split; congruence.
  - rewrite lineEnds_app by (by apply htmlReplacement_no_CR). cbn [lineEnds].
    rewrite bool_decide_eq_false_2 by done. cbn [map concat]. by rewrite IH.
Qed.

(** What a reader shows of a text: U+FFFD for NUL, line feeds for line ends. *)
Definition displayed (s : bytes) : bytes := denul (lineEnds s).

Lemma charData_htmlReplacer s : charData (htmlReplacer s) = Some (displayed s).
Proof. unfold charData. by rewrite lineEnds_htmlReplacer, unescape_htmlReplacer. Qed.

(** ** Reading the feed *)

(** The magnet link of a torrent. *)
Definition magnetOf (m : TorrentMetadata) : bytes :=
  str "magnet:?xt=urn:btih:" ++ bytesToHex (tm_InfoHash m) ++ str "&dn=" ++ urlEscaper (tm_Name m).

Lemma hex_html s : htmlReplacer (bytesToHex s) = bytesToHex s.
Proof.
  apply htmlReplacer_plain. eapply Forall_impl; [apply hex_unreserved|]. intros b H. by apply urlUnreserved_plain.
Qed.

Lemma link_html s : attrEscaper (urlEscaper s) = urlEscaper s.
Proof. apply htmlReplacer_plain, urlEscaper_plain. Qed.

Lemma hex_url s : urlEscaper (bytesToHex s) = bytesToHex s.
Proof. apply urlEscaper_unreserved, hex_unreserved. Qed.

Lemma plain_no_markup s : Forall (fun b => special b = false) s -> Forall no_markup s.
Proof. intros H. eapply Forall_impl; [exact H|]. intros b Hb. split_and!; intros ->; done. Qed.

Lemma hex_no_markup s : Forall no_markup (bytesToHex s).
Proof. rewrite <- hex_html. apply htmlReplacer_no_markup. Qed.

(** The text of the enclosure's attributes. *)
Definition enclosureTag (m : TorrentMetadata) : bytes :=
  tq (str "enclosure url=`") ++ (str "magnet:?xt=urn:btih:" ++ bytesToHex (tm_InfoHash m) ++ str "&amp;dn=" ++
  urlEscaper (tm_Name m)) ++ tq (str "` type=`application/x-bittorrent` /").

(** The white space of the template. *)
Definition sp4 : bytes := str "
    ".
Definition sp8 : bytes := str "
        ".
Definition sp12 : bytes := str "
            ".

Definition itemSegs (m : TorrentMetadata) (r : bytes) : bytes :=
  seg (sp8 ++ sp8) (str "item") (seg sp12 (str "title") (seg (htmlReplacer (tm_Name m)) (str "/title")
    (seg sp12 (str "guid") (seg (bytesToHex (tm_InfoHash m)) (str "/guid")
      (seg sp12 (enclosureTag m) (seg sp8 (str "/item") r)))))).

Lemma feedItem_segs m r : sp8 ++ feedItem m ++ r = itemSegs m (sp8 ++ r).
Proof.
  unfold feedItem, itemSegs, enclosureTag, seg. unfold htmlEscaper, rcdataEscaper.
  rewrite hex_html, hex_url, !link_html, <- !app_assoc.
  change (attrEscaper (bytesToHex (tm_InfoHash m))) with (htmlReplacer (bytesToHex (tm_InfoHash m))).
  by rewrite hex_html.
Qed.

Lemma feedItems_segs ms r : sp8 ++ concat (map feedItem ms) ++ r = foldr itemSegs (sp8 ++ r) ms.
Proof.
  induction ms as [|m ms IH]; [done|]. cbn [map concat foldr]. by rewrite <- app_assoc, feedItem_segs, IH.
Qed.

(** The feed as it is sent. *)
Lemma feed_segs title ms :
  xmlDeclaration ++ feed title ms =
  seg [] (tq (str "?xml version=`1.0` encoding=`utf-8` standalone=`yes`?"))
    (seg [] (tq (str "rss version=`2.0`")) (seg sp4 (str "channel") (seg sp8 (str "title")
      (seg (htmlReplacer title) (str "/title")
        (foldr itemSegs (seg (sp8 ++ sp4) (str "/channel") (seg [Byte.x0a] (str "/rss") [])) ms))))).
Proof.
  change (seg (sp8 ++ sp4) (str "/channel") (seg [Byte.x0a] (str "/rss") []))
    with (sp8 ++ seg sp4 (str "/channel") (seg [Byte.x0a] (str "/rss") [])).
  by rewrite <- feedItems_segs.
Qed.

(** An entity inside plain text. *)
Lemma unescape_plain a r :
  Forall (fun b => special b = false) a -> unescape None (a ++ r) = (rest ← unescape None r; Some (a ++ rest)).
Proof.
  induction 1 as [|b a Hb _ IH]; cbn [app unescape]; [by destruct (unescape None r)|].
  rewrite bool_decide_eq_false_2 by (intros ->; done). rewrite IH. by destruct (unescape None r).
Qed.

Lemma attValue_link m :
  attValue (str "magnet:?xt=urn:btih:" ++ bytesToHex (tm_InfoHash m) ++ str "&amp;dn=" ++ urlEscaper (tm_Name m)) =
  Some (magnetOf m).
Proof.
  assert (Forall (fun b => special b = false) (bytesToHex (tm_InfoHash m))) as Hh
    by (rewrite <- hex_url; apply urlEscaper_plain).
  set (link := _ ++ _).
  assert (Forall (fun b => blank [b] = false) link) as Hl.
  { unfold link. repeat apply Forall_app_2; [by repeat constructor| |by repeat constructor|].
    - eapply Forall_impl; [apply hex_unreserved|]. intros b. by destruct b.
    - apply urlEscaper_Forall; [|done]. intros b. by destruct b. }
  unfold attValue. rewrite lineEnds_none.
  2:{ intros Hin. rewrite Forall_forall in Hl. by apply Hl in Hin. }
  replace (map _ link) with link.
  2:{ symmetry. rewrite <- (map_id link) at 2. apply map_ext_Forall. eapply Forall_impl; [exact Hl|].
      intros b Hb. cbn. cbn in Hb. by rewrite Hb. }
  unfold link, magnetOf. rewrite unescape_plain by (by repeat constructor). rewrite unescape_plain by done.
  change (str "&amp;dn=" ++ ?x) with (str "&amp;" ++ str "dn=" ++ x).
  change (unescape None (str "&amp;" ++ ?x)) with (rest ← unescape None x; Some (Byte.x26 :: rest)).
  rewrite <- (app_nil_r (urlEscaper (tm_Name m))) at 1.
  rewrite unescape_plain by (by repeat constructor). rewrite unescape_plain by apply urlEscaper_plain.
  cbn [unescape mbind option_bind]. by rewrite app_nil_r.
Qed.

(** A byte is not in a text that is known. *)
Ltac absent := solve [assumption | apply (bool_decide_unpack _); vm_compute; exact I].

Lemma enclosureTag_closed m : Byte.x3e ∉ enclosureTag m.
Proof.
  assert (Byte.x3e ∉ bytesToHex (tm_InfoHash m)) as Hh
    by (apply no_markup_not_in; [apply hex_no_markup|intros (_ & H & _); done]).
  assert (Byte.x3e ∉ urlEscaper (tm_Name m)) as Hn
    by (apply no_markup_not_in; [apply plain_no_markup, urlEscaper_plain|intros (_ & H & _); done]).
  unfold enclosureTag. rewrite !not_elem_of_app. split_and!; absent.
Qed.

Lemma unescape_hex s : unescape None (bytesToHex s) = Some (bytesToHex s).
Proof.
  rewrite <- (app_nil_r (bytesToHex s)) at 1. rewrite unescape_plain.
  - cbn [unescape mbind option_bind]. by rewrite app_nil_r.
  - rewrite <- hex_url. apply urlEscaper_plain.
Qed.

(** A fact about every byte of the enclosure's text. *)
Lemma enclosureTag_Forall (P : byte -> Prop) m :
  (forall b, urlUnreserved b = true -> P b) -> Forall P (tq (str "enclosure url=`magnet:?xt=urn:btih:&amp;dn=` type=`application/x-bittorrent` /")) ->
  P Byte.x25 -> Forall P (enclosureTag m).
Proof.
  intros HP Hc H25. rewrite Forall_forall in Hc.
  assert (forall l, Forall (fun b => b ∈ tq (str "enclosure url=`magnet:?xt=urn:btih:&amp;dn=` type=`application/x-bittorrent` /")) l ->
    Forall P l) as Hl by (intros l Hl; eapply Forall_impl; [exact Hl|exact Hc]).
  unfold enclosureTag. repeat apply Forall_app_2.
  all: first [apply urlEscaper_Forall; done
             |eapply Forall_impl; [apply hex_unreserved|exact HP]
             |apply Hl; apply (bool_decide_unpack _); vm_compute; exact I].
Qed.

Lemma quoted_app q a b : quoted q (a ++ b) = quoted (quoted q a) b.
Proof. unfold quoted. apply foldl_app. Qed.

Lemma quoted_none q a : Byte.x22 ∉ a -> quoted q a = q.
Proof.
  revert q. induction a as [|b a IH]; intros q; [done|]. intros [Hb Ha]%not_elem_of_cons.
  unfold quoted in *. cbn [foldl]. rewrite bool_decide_eq_false_2, xorb_false_r by congruence. by apply IH.
Qed.

(** The address of the enclosure as it is written. *)
Definition linkText (m : TorrentMetadata) : bytes :=
  str "magnet:?xt=urn:btih:" ++ bytesToHex (tm_InfoHash m) ++ str "&amp;dn=" ++ urlEscaper (tm_Name m).

Lemma linkText_unquoted m : Byte.x22 ∉ linkText m.
Proof.
  apply no_markup_not_in; [|intros (_ & _ & H); done].
  repeat apply Forall_app_2; [by repeat constructor|apply hex_no_markup|by repeat constructor|].
  apply plain_no_markup, urlEscaper_plain.
Qed.

Lemma enclosureTag_quoted m : quoted false (enclosureTag m) = false.
Proof.
  unfold enclosureTag. fold (linkText m). rewrite !quoted_app.
  change (quoted false (tq (str "enclosure url=`"))) with true.
  rewrite (quoted_none true) by apply linkText_unquoted. done.
Qed.

Definition bittorrent : bytes := str "application/x-bittorrent".

Lemma readTag_enclosure m :
  readTag (enclosureTag m) = Some (EmptyElem (str "enclosure") [(str "url", magnetOf m); (str "type", bittorrent)]).
Proof.
  set (rest := str "url=" ++ Byte.x22 :: linkText m ++ Byte.x22 :: tq (str " type=`application/x-bittorrent` ")).
  assert (enclosureTag m = (str "enclosure" ++ Byte.x20 :: rest) ++ [Byte.x2f]) as E.
  { transitivity (tq (str "enclosure url=`") ++ (linkText m ++ tq (str "` type=`application/x-bittorrent` ")) ++ [Byte.x2f]);
      [by rewrite <- app_assoc|done]. }
  assert (readTag (enclosureTag m) =
    (attrs ← attributes (S (length rest)) rest; Some (EmptyElem (str "enclosure") attrs))) as ->.
  { transitivity (let t := if bool_decide (last (enclosureTag m) = Some Byte.x2f)
                           then removelast (enclosureTag m) else enclosureTag m in
      let '(name, r) := default (t, []) (read_to Byte.x20 t) in
      attrs ← attributes (S (length r)) r;
      if isName name then Some (if bool_decide (last (enclosureTag m) = Some Byte.x2f)
        then EmptyElem name attrs else Start name attrs) else None); [done|].
    rewrite E, last_snoc, removelast_last, bool_decide_eq_true_2 by done. cbv zeta.
    rewrite read_to_app by absent. done. }
  assert (exists n, length rest = (5 + n)%nat) as [n ->].
  { exists (length (linkText m) + 34)%nat. unfold rest. rewrite !length_app. cbn. rewrite length_app. cbn. lia. }
  change (rest) with (str "url" ++ Byte.x3d :: Byte.x22 :: linkText m ++ Byte.x22 :: tq (str " type=`application/x-bittorrent` ")).
  cbn [attributes Nat.add]. change (str "url" ++ ?x) with (Byte.x75 :: str "rl" ++ x) at 1. cbn iota.
  rewrite bool_decide_eq_false_2 by done. rewrite read_to_app by absent. cbn [mbind option_bind].
  match goal with |- context [CutPrefix ?p (Byte.x22 :: ?x)] => change (CutPrefix p (Byte.x22 :: x)) with (CutPrefix p (p ++ x)) end.
  rewrite CutPrefix_app. cbn [mbind option_bind].
  rewrite read_to_app by apply linkText_unquoted. cbn [mbind option_bind]. unfold linkText at 1. rewrite attValue_link. done.
Qed.

(** *** Tokens and characters *)

Definition itemTokens (m : TorrentMetadata) : list (bytes * bytes) :=
  [(sp8 ++ sp8, str "item"); (sp12, str "title"); (htmlReplacer (tm_Name m), str "/title"); (sp12, str "guid");
   (bytesToHex (tm_InfoHash m), str "/guid"); (sp12, enclosureTag m); (sp8, str "/item")].

Lemma tokens_items ms r :
  tokens [] None (foldr itemSegs r ms) =
  ('(l, e) ← tokens [] None r; Some (concat (map itemTokens ms) ++ l, e)).
Proof.
  induction ms as [|m ms IH]; cbn [foldr map concat]; [by destruct (tokens _ _ _) as [[]|]|].
  assert (Byte.x3c ∉ bytesToHex (tm_InfoHash m)) as Hh
    by (apply no_markup_not_in; [apply hex_no_markup|intros (H & _); done]).
  assert (Byte.x3c ∉ htmlReplacer (tm_Name m)) as Hn
    by (apply no_markup_not_in; [apply htmlReplacer_no_markup|intros (H & _); done]).
  pose proof (enclosureTag_closed m) as He. pose proof (enclosureTag_quoted m) as Hq.
  assert (Byte.x3c ∉ enclosureTag m) as Hl.
  { intros Hin. assert (Forall (fun b => b <> Byte.x3c) (enclosureTag m)) as HF.
    { apply enclosureTag_Forall; [by intros [] |by repeat constructor|done]. }
    rewrite Forall_forall in HF. by apply HF in Hin. }
  set (x := foldr itemSegs r ms) in *. unfold itemSegs. rewrite !tokens_seg by (absent || done). rewrite IH.
  by destruct (tokens [] None r) as [[]|].
Qed.

Lemma xmlChars_items ms r :
  xmlChars (foldr itemSegs r ms) = forallb (fun m => xmlChars (denul (tm_Name m))) ms && xmlChars r.
Proof.
  induction ms as [|m ms IH]; cbn [foldr forallb]; [done|].
  assert (forallb xmlByte (enclosureTag m) = true) as He.
  { apply xmlBytes_Forall, enclosureTag_Forall; [by intros []|by repeat constructor|done]. }
  assert (xmlChars (bytesToHex (tm_InfoHash m)) = true) as Hh.
  { rewrite <- (app_nil_r (bytesToHex _)), xmlChars_bytes; [done|]. apply xmlBytes_Forall.
    eapply Forall_impl; [apply hex_unreserved|]. by intros []. }
  set (x := foldr itemSegs r ms) in *. unfold itemSegs. rewrite !xmlChars_seg by done. rewrite IH, Hh, xmlChars_htmlReplacer.
  change (xmlChars (sp8 ++ sp8)) with true. change (xmlChars sp12) with true. change (xmlChars sp8) with true.
  cbn [andb]. apply andb_assoc.
Qed.

(** *** Elements *)

Lemma build_start n a c stack txt d t n' a' ts :
  charData txt = Some d -> readTag t = Some (Start n' a') ->
  build ((n, a, c) :: stack) ((txt, t) :: ts) = build ((n', a', []) :: (n, a, c ++ [CharData d]) :: stack) ts.
Proof. intros H1 H2. cbn [build]. rewrite H1. cbn [mbind option_bind]. by rewrite H2. Qed.

Lemma build_end n a c n' a' c' stack txt d t ts :
  charData txt = Some d -> readTag t = Some (End_ n) ->
  build ((n, a, c) :: (n', a', c') :: stack) ((txt, t) :: ts) =
  build ((n', a', c' ++ [Elem n a (c ++ [CharData d])]) :: stack) ts.
Proof.
  intros H1 H2. cbn [build]. rewrite H1. cbn [mbind option_bind]. rewrite H2, bool_decide_eq_true_2 by done. done.
Qed.

Lemma build_empty n a c stack txt d t n' a' ts :
  charData txt = Some d -> readTag t = Some (EmptyElem n' a') ->
  build ((n, a, c) :: stack) ((txt, t) :: ts) = build ((n, a, (c ++ [CharData d]) ++ [Elem n' a' []]) :: stack) ts.
Proof. intros H1 H2. cbn [build]. rewrite H1. cbn [mbind option_bind]. by rewrite H2. Qed.

Definition itemNode (m : TorrentMetadata) : xml :=
  Elem (str "item") []
    [CharData sp12; Elem (str "title") [] [CharData (displayed (tm_Name m))];
     CharData sp12; Elem (str "guid") [] [CharData (bytesToHex (tm_InfoHash m))];
     CharData sp12; Elem (str "enclosure") [(str "url", magnetOf m); (str "type", bittorrent)] [];
     CharData sp8].

Lemma charData_hex s : charData (bytesToHex s) = Some (bytesToHex s).
Proof.
  unfold charData. rewrite lineEnds_none; [apply unescape_hex|]. intros Hin.
  pose proof (hex_unreserved s) as H. rewrite Forall_forall in H. by apply H in Hin.
Qed.

Lemma build_items n a c stack ms ts :
  build ((n, a, c) :: stack) (concat (map itemTokens ms) ++ ts) =
  build ((n, a, c ++ concat (map (fun m => [CharData (sp8 ++ sp8); itemNode m]) ms)) :: stack) ts.
Proof.
  revert c. induction ms as [|m ms IH]; intros c; cbn [map concat]; [by rewrite app_nil_r|].
  unfold itemTokens at 1. cbn [app].
  rewrite (build_start _ _ _ _ _ (sp8 ++ sp8) _ (str "item") []) by reflexivity.
  rewrite (build_start _ _ _ _ _ sp12 _ (str "title") []) by reflexivity.
  rewrite (build_end _ _ _ _ _ _ _ _ (displayed (tm_Name m))) by (apply charData_htmlReplacer || reflexivity).
  rewrite (build_start _ _ _ _ _ sp12 _ (str "guid") []) by reflexivity.
  rewrite (build_end _ _ _ _ _ _ _ _ (bytesToHex (tm_InfoHash m))) by (apply charData_hex || reflexivity).
  rewrite (build_empty _ _ _ _ sp12 sp12 _ _ _ _ eq_refl (readTag_enclosure m)).
  rewrite (build_end _ _ _ _ _ _ _ _ sp8) by reflexivity.
  rewrite IH. cbn [app]. by rewrite <- !app_assoc.
Qed.

Lemma QueryUnescape_plain s : Forall (fun b => b <> Byte.x25 /\ b <> Byte.x2b) s -> QueryUnescape s = Some s.
Proof.
  induction 1 as [|b s [H1 H2] _ IH]; [done|]. cbn [QueryUnescape].
  by rewrite !bool_decide_eq_false_2, IH by done.
Qed.

Lemma magnetParams_of m :
  magnetParams (magnetOf m) =
  Some [(str "xt", str "urn:btih:" ++ bytesToHex (tm_InfoHash m)); (str "dn", tm_Name m)].
Proof.
  assert (QueryUnescape (str "urn:btih:" ++ bytesToHex (tm_InfoHash m)) =
          Some (str "urn:btih:" ++ bytesToHex (tm_InfoHash m))) as Hx.
  { apply QueryUnescape_plain, Forall_app_2; [by repeat constructor|].
    eapply Forall_impl; [apply hex_unreserved|].
    intros b (H & Hb & _)%urlUnreserved_plain. split; [done|]. by intros ->. }
  unfold magnetParams, magnetOf.
  change (str "magnet:?xt=urn:btih:" ++ ?x) with (str "magnet:?" ++ str "xt=urn:btih:" ++ x).
  rewrite CutPrefix_app. cbn [fmap option_fmap option_map]. f_equal. unfold ParseQuery.
  change (str "&dn=" ++ ?x) with (Byte.x26 :: str "dn=" ++ x). rewrite app_assoc, SplitAny_app.
  2:{ apply Forall_app_2; [by repeat constructor|]. rewrite <- hex_url. apply urlEscaper_param. }
  rewrite SplitAny_none by (apply Forall_app_2; [by repeat constructor|apply urlEscaper_param]).
  cbn [map concat]. rewrite app_nil_r.
  change (parsePair (str "xt=urn:btih:" ++ bytesToHex (tm_InfoHash m))) with
    (match QueryUnescape (str "urn:btih:" ++ bytesToHex (tm_InfoHash m)) with
     | Some v => [(str "xt", v)] | None => [] end).
  change (parsePair (str "dn=" ++ urlEscaper (tm_Name m))) with
    (match QueryUnescape (urlEscaper (tm_Name m)) with Some v => [(str "dn", v)] | None => [] end).
  by rewrite Hx, QueryUnescape_urlEscaper.
Qed.

Lemma readItem_node m :
  readItem (itemNode m) =
  Some (displayed (tm_Name m), tm_InfoHash m, tm_Name m, str "urn:btih:" ++ bytesToHex (tm_InfoHash m)).
Proof.
  transitivity (ih ← DecodeString (bytesToHex (tm_InfoHash m)); q ← magnetParams (magnetOf m);
    Some (displayed (tm_Name m), ih, Values_Get q (str "dn"), Values_Get q (str "xt"))); [reflexivity|].
  unfold bytesToHex at 1. rewrite hex_roundtrip. cbn [mbind option_bind]. by rewrite magnetParams_of.
Qed.

Lemma mapM_readItem ms :
  mapM readItem (map itemNode ms) =
  Some (map (fun m => (displayed (tm_Name m), tm_InfoHash m, tm_Name m,
                       str "urn:btih:" ++ bytesToHex (tm_InfoHash m))) ms).
Proof.
  induction ms as [|m ms IH]; [done|]. cbn [map mapM]. rewrite readItem_node. cbn [mbind option_bind]. by rewrite IH.
Qed.

Lemma children_items c d ms :
  children (str "item") (Elem (str "channel") []
    ([CharData c; Elem (str "title") [] [CharData d]] ++
     concat (map (fun m => [CharData (sp8 ++ sp8); itemNode m]) ms) ++ [CharData (sp8 ++ sp4)])) = map itemNode ms.
Proof.
  cbn [children]. rewrite !List.filter_app. change (List.filter _ [CharData (sp8 ++ sp4)]) with (@nil xml).
  change (List.filter _ [CharData c; _]) with (@nil xml). rewrite app_nil_r. cbn [app].
  induction ms as [|m ms IH]; [done|]. cbn [map concat]. rewrite List.filter_app, IH. done.
Qed.

(** The feed is read back exactly if the texts in it are characters that XML
    allows: the title of the channel and of every item as they are displayed,
    the info hash, and a magnet link with the exact name. *)
Lemma readChannel_feed title ms :
  readChannel (xmlDeclaration ++ feed title ms) =
  if xmlChars (denul title) && forallb (fun m => xmlChars (denul (tm_Name m))) ms
  then Some (displayed title, map (fun m => (displayed (tm_Name m), tm_InfoHash m, tm_Name m,
                                             str "urn:btih:" ++ bytesToHex (tm_InfoHash m))) ms)
  else None.
Proof.
  assert (Byte.x3c ∉ htmlReplacer title) as Hn
    by (apply no_markup_not_in; [apply htmlReplacer_no_markup|intros (H & _); done]).
  unfold readChannel, readXml. rewrite feed_segs.
  rewrite !xmlChars_seg, xmlChars_items, !xmlChars_seg, xmlChars_htmlReplacer by done.
  change (xmlChars sp4) with true. change (xmlChars sp8) with true. change (xmlChars (sp8 ++ sp4)) with true.
  change (xmlChars [Byte.x0a]) with true. change (xmlChars []) with true. cbn [andb]. rewrite andb_true_r.
  destruct (_ && _); [|done]. cbn [negb].
  rewrite !tokens_seg, tokens_items, !tokens_seg by (absent || done). cbn [tokens mbind option_bind].
  change (blank []) with true. cbn [negb].
  match goal with |- context [isDeclaration ?t] => change (isDeclaration t) with true end.
  rewrite bool_decide_eq_true_2 by done. cbn [andb].
  match goal with |- context [build [] ((?x, ?t) :: ?ts)] =>
    change (build [] ((x, t) :: ts)) with (build [(str "rss", [(str "version", str "2.0")], [])] ts) end.
  rewrite (build_start _ _ _ _ _ sp4 _ (str "channel") []) by reflexivity.
  rewrite (build_start _ _ _ _ _ sp8 _ (str "title") []) by reflexivity.
  rewrite (build_end _ _ _ _ _ _ _ _ (displayed title)) by (apply charData_htmlReplacer || reflexivity).
  rewrite build_items. rewrite (build_end _ _ _ _ _ _ _ _ (sp8 ++ sp4)) by reflexivity.
  match goal with |- context [build ?st [([Byte.x0a], ?t)]] =>
    change (build st [([Byte.x0a], t)]) with (Some (Elem (str "rss") [(str "version", str "2.0")]
      ([CharData sp4; Elem (str "channel") [] (([CharData sp8; Elem (str "title") [] [CharData (displayed title)]] ++
        concat (map (fun m => [CharData (sp8 ++ sp8); itemNode m]) ms)) ++ [CharData (sp8 ++ sp4)])] ++
       [CharData [Byte.x0a]]))) end.
  rewrite <- app_assoc. cbn [mbind option_bind].
  match goal with |- context [Elem (str "channel") [] ?c] => set (channel := Elem (str "channel") [] c) end.
  change (head (children (str "channel") _)) with (Some channel). cbn [mbind option_bind].
  change (head (children (str "title") channel)) with (Some (Elem (str "title") [] [CharData (displayed title)])).
  cbn [mbind option_bind textOf]. unfold channel. rewrite children_items, mapM_readItem. done.
Qed.
