(* ===== verification/Credentials.v ===== *)
(** cmd/magneticow/main.go, the access control: the credentials file, its
    reloading on SIGHUP, the command line flags and Basic authentication. *)

From S2P Require Import Prelude GoLib Regex Encoding HttpLib Persistence.
From Stdlib Require Import ZArith Lia.
From stdpp Require Import base list gmap relations.
Local Open Scope Z_scope.

(** ** The credentials file *)

Definition lower : byte -> bool := within 97 122.
Definition lower_digit (b : byte) : bool := within 97 122 b || within 48 57 b.
Definition bcrypt_char (b : byte) : bool :=
  bool_decide (b = Byte.x2e \/ b = Byte.x2f) || within 65 90 b || within 97 122 b || within 48 57 b.

Definition colon : byte := Byte.x3a.
Definition dollar : byte := Byte.x24.
Definition underscore : byte := Byte.x5f.
Definition LF : byte := Byte.x0a.

(** The regular expression of a line. *)
Definition credentialRe : re :=
  Seq Bol (Seq (Chr lower) (Seq (Star (Seq (Opt (chr underscore)) (Chr lower_digit)))
  (Seq (chr colon) (Seq (lit (str "$2")) (Seq (Opt (Chr (fun b => bool_decide (b ∈ str "aby"))))
  (Seq (chr dollar) (Seq (Chr is_digit) (Seq (Opt (Chr is_digit)) (Seq (chr dollar)
  (Seq (Rep 53 (Chr bcrypt_char)) Eol)))))))))).

Abbreviation credentials := (gmap bytes bytes).

(** What reading the file yields: bytes, then the end of the file or an error. *)
Record credFile := { cf_content : bytes; cf_error : option error }.

(** bufio.Reader.ReadBytes: up to and including the delimiter; without one the
    reader's error, and what was read is not looked at. *)
Definition ReadBytes (s : bytes) (c : byte) : option (bytes * bytes) :=
  '(l, r) ← Cut s c; Some (l ++ [c], r).

Definition badLine (lineno : Z) (line : bytes) : error :=
  ErrText (str "on line " ++ fmt_d lineno ++
           str ": format should be: <USERNAME>:<BCRYPT HASH>, instead got: " ++ line).

(** The loop of loadCred. A nil map panics on assignment. Every line takes a
    byte, so the length of the file is enough fuel. *)
Fixpoint loadLines (fuel : nat) (lineno : Z) (ends : option error) (s : bytes)
    (creds : option credentials) : option credentials * go (res error unit) :=
  match fuel with
  | O => (creds, Panic)
  | S fuel =>
      match ReadBytes s LF with
      | None =>
          (creds, Ret match ends with
                      | None => Ok tt
                      | Some e => Err (ErrWrap e (str "while reading line " ++ fmt_d lineno))
                      end)
      | Some (line, s) =>
          match slice line 0 (len line - 1) with
          | Panic => (creds, Panic)
          | Ret line =>
              if negb (Match credentialRe line) then (creds, Ret (Err (badLine lineno line)))
              else
                match Split line colon, creds with
                | user :: hash :: _, Some m =>
                    loadLines fuel (lineno + 1) ends s (Some (<[user := hash]> m))
                | _, _ => (creds, Panic)
                end
          end
      end
  end.

(** [open] is the result of os.Open. *)
Definition loadCred (open : res error credFile) (creds : option credentials) :
    option credentials * go (res error unit) :=
  match open with
  | Err e => (creds, Ret (Err e))
  | Ok file => loadLines (S (length (cf_content file))) 1 (cf_error file) (cf_content file) creds
  end.

(** ** Flags *)

(** path.Clean and path.Join. *)
Definition slash : byte := Byte.x2f.

Definition clean_step (rooted : bool) (out : list bytes) (x : bytes) : list bytes :=
  if bool_decide (x = [] \/ x = str ".") then out
  else if bool_decide (x = str "..") then
    match out with
    | y :: out' => if bool_decide (y = str "..") then x :: out else out'
    | [] => if rooted then [] else [x]
    end
  else x :: out.

Definition Clean (p : bytes) : bytes :=
  let rooted := bool_decide (head p = Some slash) in
  let out := foldr (fun x acc => if bool_decide (acc = []) then x else x ++ slash :: acc) []
               (rev (foldl (clean_step rooted) [] (Split p slash))) in
  if rooted then slash :: out else if bool_decide (out = []) then str "." else out.

Definition Join2 (a b : bytes) : bytes :=
  if bool_decide (a = []) then if bool_decide (b = []) then [] else Clean b
  else Clean (a ++ slash :: b).

Record cmdFlags := {
  fl_Addr : bytes; fl_Database : bytes; fl_Cred : bytes; fl_NoAuth : bool; fl_Verbose : nat }.

Record opts := {
  Addr : bytes; o_Database : bytes; Credentials : option credentials; CredentialsPath : bytes;
  Verbosity : nat }.

Definition opts0 : opts :=
  {| Addr := []; o_Database := []; Credentials := None; CredentialsPath := []; Verbosity := 0 |}.

(** [parsed] is what go-flags makes of the command line; [dataDir] and
    [configDir] are appdirs' directories, [open] is os.Open. *)
Definition parseFlags (parsed : res error cmdFlags) (dataDir configDir : bytes)
    (open : bytes -> res error credFile) : opts * go (res error unit) :=
  match parsed with
  | Err e => (opts0, Ret (Err e))
  | Ok f =>
      if negb (bool_decide (fl_Cred f = [])) && fl_NoAuth f
      then (opts0, Ret (Err (ErrText (str "`credentials` and `no-auth` cannot be supplied together"))))
      else
        let database :=
          if bool_decide (fl_Database f = [])
          then str "sqlite3://" ++ dataDir ++ str "/database.sqlite3" ++ str "?_journal_mode=WAL"
          else fl_Database f in
        let done path creds v :=
          {| Addr := fl_Addr f; o_Database := database; Credentials := creds;
             CredentialsPath := path; Verbosity := v |} in
        if fl_NoAuth f then (done [] None (fl_Verbose f), Ret (Ok tt))
        else
          let path := if bool_decide (fl_Cred f = []) then Join2 configDir (str "credentials")
                      else fl_Cred f in
          match loadCred (open path) (Some ∅) with
          | (creds, Ret (Ok tt)) => (done path creds (fl_Verbose f), Ret (Ok tt))
          | (creds, r) => (done path creds O, r)
          end
  end.

(** ** Basic authentication *)

Definition Handler : Type := ResponseWriter -> Request -> go ResponseWriter.

Definition authenticate (w : ResponseWriter) (realm : bytes) : ResponseWriter :=
  let w := Header_Set w (str "WWW-Authenticate")
             (str "Basic realm=" ++ [Byte.x22] ++ realm ++ [Byte.x22]) in
  Write (WriteHeader w 401) (str "Unauthorised." ++ [LF]).

(** [compare] is bcrypt.CompareHashAndPassword, without its reasons. *)
Definition BasicAuth (compare : bytes -> bytes -> bool) (creds : option credentials)
    (handler : Handler) (realm : bytes) : Handler := fun w r =>
  match creds with
  | None => handler w r
  | Some m =>
      match Request_BasicAuth r with
      | None => Ret (authenticate w realm)
      | Some (username, password) =>
          match m !! username with
          | None => Ret (authenticate w realm)
          | Some hashedPassword =>
              if compare hashedPassword password then handler w r
              else Ret (authenticate w realm)
          end
      end
  end.

(** ** Reloading

    The state that the goroutine of SIGHUP and the requests share. [signalled]
    is the channel, of capacity one; [locked] is the write lock. Requests read:
    one that has to look up a user waits for the lock. *)

Inductive sighup : Type :=
  | Waiting
  | Received
  | Cleared.

Record server := {
  creds : option credentials; locked : bool; signalled : bool; goroutine : sighup }.

Definition start (o : opts) : server :=
  {| creds := Credentials o; locked := false; signalled := false; goroutine := Waiting |}.

(** [F] is what the credentials file holds at one time or another. *)
Section Reload.
Variable F : res error credFile -> Prop.

Inductive server_step : server -> server -> Prop :=
  | sv_signal s :
      server_step s {| creds := creds s; locked := locked s; signalled := true; goroutine := goroutine s |}
  | sv_receive m l : 
      server_step {| creds := m; locked := l; signalled := true; goroutine := Waiting |}
                  {| creds := m; locked := l; signalled := false; goroutine := Received |}
  (** Lock, then [continue] without Unlock. *)
  | sv_noauth g :
      server_step {| creds := None; locked := false; signalled := g; goroutine := Received |}
                  {| creds := None; locked := true; signalled := g; goroutine := Waiting |}
  (** Lock, clear, Unlock. *)
  | sv_clear m g :
      server_step {| creds := Some m; locked := false; signalled := g; goroutine := Received |}
                  {| creds := Some ∅; locked := false; signalled := g; goroutine := Cleared |}
  (** loadCred locks for as long as it runs. *)
  | sv_load m g file m' r :
      F file -> loadCred file m = (m', Ret r) ->
      server_step {| creds := m; locked := false; signalled := g; goroutine := Cleared |}
                  {| creds := m'; locked := false; signalled := g; goroutine := Waiting |}.
End Reload.

(** Whether a request can be answered without waiting for the lock. *)
Definition answered (s : server) (r : Request) : Prop :=
  locked s = false \/ creds s = None \/ Request_BasicAuth r = None.

(** ** What a line of the file is *)

(** Letters, digits and underscores, each underscore followed by a letter or
    a digit. *)
Definition name_tail (u : bytes) : Prop := forall i c, u !! i = Some c ->
  lower_digit c = true \/ c = underscore /\ exists d, u !! S i = Some d /\ lower_digit d = true.

Definition user_name (u : bytes) : Prop :=
  exists b r, u = b :: r /\ lower b = true /\ name_tail r.

Definition bcrypt_hash (h : bytes) : Prop :=
  exists v cost rest, h = str "$2" ++ v ++ [dollar] ++ cost ++ [dollar] ++ rest /\
    (v = [] \/ exists b, v = [b] /\ b ∈ str "aby") /\
    (1 <= length cost <= 2)%nat /\ Forall (fun b => is_digit b = true) cost /\
    length rest = 53%nat /\ Forall (fun b => bcrypt_char b = true) rest.

Definition credential (line user hash : bytes) : Prop :=
  line = user ++ colon :: hash /\ user_name user /\ bcrypt_hash hash.

Lemma name_tail_cons c u : name_tail (c :: u) <->
  (lower_digit c = true \/ c = underscore /\ exists d u', u = d :: u' /\ lower_digit d = true) /\
  name_tail u.
Proof.
  split.
  - intros H. split; [|intros i; apply (H (S i))].
    destruct (H 0%nat c eq_refl) as [Hc|(-> & d & Hd & Hl)]; [by left|]. right. split; [done|].
    destruct u as [|d' u]; [done|]. injection Hd as ->. eauto.
  - intros [Hc Hu] [|i] x Hx; [|by apply (Hu i)]. injection Hx as <-.
    destruct Hc as [Hc|(-> & d & u' & -> & Hd)]; [by left|]. right. eauto.
Qed.

Abbreviation tailRe := (Star (Seq (Opt (chr underscore)) (Chr lower_digit))).

Lemma takes_tail_sound n0 s s' : takes n0 tailRe s s' -> exists u, s = u ++ s' /\ name_tail u.
Proof.
  intros H. remember tailRe as r eqn:Er. induction H as [| | | | |? s|? s s1 s2 H1 _ _ IH| | |]; try done.
  - exists []. split; [done|]. intros i c. by rewrite lookup_nil.
  - injection Er as ->. destruct IH as (u & -> & Hu); [done|].
    apply takes_Seq_iff in H1 as (s3 & H1 & (c & -> & Hc)%takes_Chr_iff).
    assert (name_tail (c :: u)) as Hcu by (apply name_tail_cons; auto).
    apply takes_Opt_iff in H1 as [->%takes_chr_iff| ->]; [|by exists (c :: u)].
    exists (underscore :: c :: u). split; [done|]. apply name_tail_cons. split; [right|done]. eauto.
Qed.

Lemma takes_tail_complete n0 u s' : name_tail u -> takes n0 tailRe (u ++ s') s'.
Proof.
  induction u as [u IH] using (induction_ltof1 _ (@length byte)). unfold ltof in IH.
  destruct u as [|c u]; intros Hu; [constructor|].
  apply name_tail_cons in Hu as [[Hc|(-> & d & u' & -> & Hd)] Hu].
  - eapply takes_Star_cons; [|apply (IH u); [simpl; lia|done]].
    eapply takes_Seq; [by apply takes_Opt_iff; right|]. by apply takes_Chr.
  - apply name_tail_cons in Hu as [_ Hu].
    eapply takes_Star_cons; [|apply (IH u'); [simpl; lia|done]].
    eapply takes_Seq; [apply takes_Opt_iff; left; by apply takes_chr_iff|]. by apply takes_Chr.
Qed.

Lemma takes_Opt_Chr n0 p s s' : takes n0 (Opt (Chr p)) s s' <->
  exists v, s = v ++ s' /\ (v = [] \/ exists b, v = [b] /\ p b = true).
Proof.
  rewrite takes_Opt_iff, takes_Chr_iff. split.
  - intros [(b & -> & Hb)| ->]; [exists [b]; eauto|exists []; eauto].
  - intros (v & -> & [->|(b & -> & Hb)]); [by right|left; eauto].
Qed.

(** What follows the anchor of the pattern. *)
Definition lineRe : re := match credentialRe with Seq Bol r => r | r => r end.

Lemma line_sound n0 line s' : takes n0 lineRe line s' -> exists user hash, credential line user hash.
Proof.
  intros H. cbv [lineRe credentialRe] in H.
  repeat match goal with
  | H : takes _ (Seq _ _) _ _ |- _ => apply takes_Seq_iff in H as (? & ? & H)
  end.
  repeat match goal with
  | H : takes _ (chr _) _ _ |- _ => apply takes_chr_iff in H as ->
  | H : takes _ (lit _) _ _ |- _ => apply takes_lit_iff in H as ->
  | H : takes _ (Chr _) _ _ |- _ => apply takes_Chr_iff in H as (? & -> & ?)
  | H : takes _ (Rep _ (Chr _)) _ _ |- _ => apply takes_Rep_iff in H as (? & -> & ? & ?)
  | H : takes _ Eol _ _ |- _ => apply takes_Eol_iff in H as [-> ->]
  | H : takes _ (Star _) _ _ |- _ => apply takes_tail_sound in H as (? & -> & ?)
  | H : takes _ (Opt _) _ _ |- _ => apply takes_Opt_Chr in H as (? & -> & ?)
  end.
  cbv beta in *. match goal with
  | Hv' : ?v' = [] \/ (exists b, ?v' = [b] /\ bool_decide _ = true),
    Hc' : ?c' = [] \/ (exists b, ?c' = [b] /\ is_digit b = true),
    Hd' : is_digit ?d' = true, Hr' : length ?r' = 53%nat |- _ =>
      rename v' into v, c' into c, d' into d, r' into r, Hv' into Hv, Hc' into Hc
  end.
  eexists (_ :: _), (str "$2" ++ v ++ [dollar] ++ (d :: c) ++ [dollar] ++ r). split_and!.
  - by rewrite app_nil_r.
  - eexists _, _. eauto.
  - exists v, (d :: c), r. split_and!; try done.
    + destruct Hv as [->|(x & -> & Hx%bool_decide_eq_true)]; eauto.
    + simpl. lia.
    + destruct Hc as [->|(x & -> & _)]; simpl; lia.
    + destruct Hc as [->|(x & -> & Hx)]; auto.
Qed.

Lemma line_complete n0 line user hash : credential line user hash -> takes n0 lineRe line [].
Proof.
  intros (-> & (b & t & -> & Hb & Ht) & v & cost & rest & -> & Hv & Hl & Hc & H53 & Hr).
  destruct cost as [|d c]; [simpl in Hl; lia|]. apply Forall_cons in Hc as [Hd Hc].
  eapply takes_Seq; [by apply takes_Chr|]. eapply takes_Seq; [by apply takes_tail_complete|].
  eapply takes_Seq; [by apply takes_chr_iff|]. eapply takes_Seq; [by apply takes_lit_iff|].
  eapply takes_Seq; [apply takes_Opt_Chr; exists v; split; [done|]|].
  { destruct Hv as [->|(x & -> & Hx)]; [by left|]. right. exists x. by rewrite bool_decide_eq_true_2. }
  eapply takes_Seq; [by apply takes_chr_iff|]. eapply takes_Seq; [by apply takes_Chr|].
  eapply takes_Seq; [apply takes_Opt_Chr; exists c; split; [done|]|].
  { destruct c as [|x [|y c]]; [by left| |simpl in Hl; lia]. right. apply Forall_cons in Hc as [Hx _]. eauto. }
  eapply takes_Seq; [by apply takes_chr_iff|]. eapply takes_Seq; [|constructor].
  apply takes_Rep_iff. exists rest. by rewrite app_nil_r.
Qed.

(** The pattern accepts exactly the lines of a user name and a bcrypt hash. *)
Lemma credential_line line : Match credentialRe line = true <-> exists user hash, credential line user hash.
Proof.
  change credentialRe with (Seq Bol lineRe). rewrite Match_Bol. split.
  - intros [s' H]. by eapply line_sound.
  - intros (user & hash & H). eexists. by eapply line_complete.
Qed.

Lemma no_colon_tail u : name_tail u -> colon ∉ u.
Proof. intros H Hin. apply list_elem_of_lookup in Hin as [i Hi]. destruct (H i _ Hi) as [?|[? _]]; done. Qed.

Lemma no_colon_class (p : byte -> bool) l : Forall (fun b => p b = true) l -> p colon = false -> colon ∉ l.
Proof. intros H Hp Hin. rewrite Forall_forall in H. specialize (H _ Hin). congruence. Qed.

Lemma credential_split line user hash : credential line user hash -> Split line colon = [user; hash].
Proof.
  intros (-> & (b & t & -> & Hb & Ht) & v & cost & rest & -> & Hv & _ & Hc & _ & Hr).
  rewrite Split_app, Split_none; [done|..].
  - apply (no_colon_class is_digit) in Hc; [|done]. apply (no_colon_class bcrypt_char) in Hr; [|done].
    assert (colon ∉ v) as Hv'.
    { destruct Hv as [->|(x & -> & Hx)]; [apply not_elem_of_nil|]. intros <-%list_elem_of_singleton.
      revert Hx. apply (no_colon_class (fun b => bool_decide (b ∈ str "aby"))); [repeat constructor|done]. }
    rewrite !elem_of_app, !list_elem_of_singleton.
    intros [H|[H|[H|[H|[H|H]]]]]; try done.
    revert H. apply (no_colon_class (fun b => bool_decide (b ∈ str "$2"))); [repeat constructor|done].
  - apply not_elem_of_cons. split; [intros <-; done|by apply no_colon_tail].
Qed.

(** The lines that end in a newline. *)
Definition complete_lines (s : bytes) : list bytes := removelast (Split s LF).

Lemma Split_nonempty s c : Split s c <> [].
Proof. destruct s as [|b s]; simpl; [done|]. case_bool_decide; [done|]. by destruct (Split s c). Qed.

Lemma complete_lines_cons l s : LF ∉ l -> complete_lines (l ++ LF :: s) = l :: complete_lines s.
Proof.
  intros H. unfold complete_lines. rewrite Split_app by done. cbn [removelast].
  pose proof (Split_nonempty s LF). by destruct (Split s LF).
Qed.

Definition add_entries (m : credentials) (entries : list (bytes * bytes)) : credentials :=
  foldl (fun m e => <[e.1 := e.2]> m) m entries.

Lemma strip_newline l : slice (l ++ [LF]) 0 (len (l ++ [LF]) - 1) = Ret l.
Proof.
  replace (len (l ++ [LF]) - 1) with (Z.of_nat (length l)) by (unfold len; rewrite length_app; simpl; lia).
  change (slice (l ++ [LF]) (Z.of_nat 0) (Z.of_nat (0 + length l)) = Ret l).
  rewrite slice_nat by (rewrite length_app; simpl; lia). by rewrite drop_0, take_app_length.
Qed.

Lemma loadLines_spec fuel lineno ends s m :
  (length s < fuel)%nat ->
  exists entries r,
    loadLines fuel lineno ends s (Some m) = (Some (add_entries m entries), Ret r) /\
    Forall2 (fun l e => credential l e.1 e.2) (take (length entries) (complete_lines s)) entries /\
    match complete_lines s !! length entries with
    | Some l => (forall user hash, ~ credential l user hash) /\ r = Err (badLine (lineno + len entries) l)
    | None =>
        r = match ends with
            | None => Ok tt
            | Some e => Err (ErrWrap e (str "while reading line " ++ fmt_d (lineno + len entries)))
            end
    end.
Proof.
  revert lineno s m. induction fuel as [|fuel IH]; intros lineno s m Hf; [lia|].
  cbn [loadLines]. unfold ReadBytes. destruct (Cut s LF) as [[l s']|] eqn:E; cbn [mbind option_bind].
  - apply Cut_Some in E as [-> Hl]. rewrite strip_newline, complete_lines_cons by done.
    destruct (Match credentialRe l) eqn:EM; cbn [negb].
    + apply credential_line in EM as (user & hash & Hc). rewrite (credential_split _ _ _ Hc).
      rewrite length_app in Hf. simpl in Hf.
      destruct (IH (lineno + 1) s' (<[user := hash]> m) ltac:(lia)) as (es & r & -> & H2 & H3).
      exists ((user, hash) :: es), r. split_and!; [done|by constructor|]. cbn [length lookup list_lookup].
      replace (lineno + len ((user, hash) :: es)) with (lineno + 1 + len es) by (unfold len; simpl; lia).
      done.
    + eexists [], _. split_and!; [done|constructor|]. cbn [length lookup list_lookup].
      rewrite Z.add_0_r. split; [|done]. intros user hash Hc.
      assert (Match credentialRe l = true) by (apply credential_line; eauto). congruence.
  - apply Cut_None in E. unfold complete_lines. rewrite Split_none by done.
    eexists [], _. split_and!; [done|constructor|]. cbn. by rewrite Z.add_0_r.
Qed.

(** C33. loadCred reads the complete lines of the file in order, stores one
    user and hash for each, and stops with an error at the first line that is
    not a user name, a colon and a bcrypt hash, keeping what it has stored. A
    last line without newline is not looked at. *)
Theorem loadCred_spec file m :
  let ls := complete_lines (cf_content file) in
  exists entries r,
    loadCred (Ok file) (Some m) = (Some (add_entries m entries), Ret r) /\
    Forall2 (fun l e => credential l e.1 e.2) (take (length entries) ls) entries /\
    match ls !! length entries with
    | Some l => (forall user hash, ~ credential l user hash) /\ r = Err (badLine (1 + len entries) l)
    | None =>
        r = match cf_error file with
            | None => Ok tt
            | Some e => Err (ErrWrap e (str "while reading line " ++ fmt_d (1 + len entries)))
            end
    end.
Proof. apply loadLines_spec. lia. Qed.

(** ** Who is served *)

(** The hash of a user is from a line of a file that was loaded. *)
Definition listed (F : res error credFile -> Prop) (user hash : bytes) : Prop :=
  exists file, F (Ok file) /\ (user ++ colon :: hash) ∈ complete_lines (cf_content file) /\
    user_name user /\ bcrypt_hash hash.

Definition from_files (F : res error credFile -> Prop) (m : credentials) : Prop :=
  forall user hash, m !! user = Some hash -> listed F user hash.

Lemma add_entries_from F entries m :
  from_files F m -> Forall (fun e => listed F e.1 e.2) entries -> from_files F (add_entries m entries).
Proof.
  intros Hm H. revert m Hm. induction H as [|[u h] es He _ IH]; intros m Hm; [done|].
  apply IH. intros user hash. destruct (decide (user = u)) as [->|Hne].
  - rewrite lookup_insert_eq. by intros [= <-].
  - rewrite lookup_insert_ne by done. apply Hm.
Qed.

(** Loading always returns, and adds listed entries only. *)
Lemma loadCred_from (F : res error credFile -> Prop) open m :
  F open -> from_files F m ->
  exists m' r, loadCred open (Some m) = (Some m', Ret r) /\ from_files F m'.
Proof.
  intros HF Hm. destruct open as [file|e]; [|by eexists m, _].
  destruct (loadLines_spec (S (length (cf_content file))) 1 (cf_error file) (cf_content file) m)
    as (es & r & Hr & Hes & _); [lia|].
  exists (add_entries m es), r. split; [done|]. apply add_entries_from; [done|].
  apply Forall_lookup. intros i [u h] Hi. destruct (Forall2_lookup_r _ _ _ _ _ Hes Hi) as (l & Hl & Hc & Hu & Hh).
  exists file. split_and!; [done| |done..]. cbn [fst snd] in *. rewrite <- Hc.
  apply lookup_take_Some in Hl as [Hl _]. by eapply list_elem_of_lookup_2.
Qed.

(** With authentication, the table is never nil, holds listed users only and
    is never left locked. *)
Definition server_ok (F : res error credFile -> Prop) (s : server) : Prop :=
  locked s = false /\ exists m, creds s = Some m /\ from_files F m.

Lemma from_files_empty F : from_files F ∅.
Proof. intros user hash H. by rewrite lookup_empty in H. Qed.

Lemma server_step_ok F s s' : server_ok F s -> server_step F s s' -> server_ok F s'.
Proof.
  intros (Hl & m & Hm & Hf) H. destruct H as [s|m0 l|g|m0 g|m0 g file m' r HF Hr]; cbn in *; subst.
  - split; [done|]. by exists m.
  - split; [done|]. by exists m.
  - done.
  - split; [done|]. exists ∅. split; [done|apply from_files_empty].
  - split; [done|]. destruct (loadCred_from F file m HF Hf) as (m1 & r1 & H1 & Hf1).
    rewrite H1 in Hr. injection Hr as <- _. by exists m1.
Qed.

Lemma server_run_ok F s s' : server_ok F s -> rtc (server_step F) s s' -> server_ok F s'.
Proof. intros H Hs. induction Hs; eauto using server_step_ok. Qed.

Lemma parseFlags_auth F f dataDir configDir open o :
  (forall path, F (open path)) ->
  parseFlags (Ok f) dataDir configDir open = (o, Ret (Ok tt)) -> fl_NoAuth f = false ->
  server_ok F (start o).
Proof.
  intros HF H Hn. unfold parseFlags in H. rewrite Hn, andb_false_r in H.
  destruct (loadCred_from F (open (if bool_decide (fl_Cred f = []) then Join2 configDir (str "credentials")
    else fl_Cred f)) ∅ (HF _) (from_files_empty F)) as (m & r & Hr & Hm).
  rewrite Hr in H. destruct r as [[]|e]; [|done]. injection H as <-. split; [done|]. by exists m.
Qed.

Lemma BasicAuth_cases compare m handler realm w r :
  BasicAuth compare (Some m) handler realm w r = Ret (authenticate w realm) \/
  exists user password hash,
    Request_BasicAuth r = Some (user, password) /\ m !! user = Some hash /\
    compare hash password = true /\ BasicAuth compare (Some m) handler realm w r = handler w r.
Proof.
  unfold BasicAuth. destruct (Request_BasicAuth r) as [[user password]|]; [|by left].
  destruct (m !! user) as [hash|] eqn:E; [|by left].
  destruct (compare hash password) eqn:Ec; [|by left]. right. by exists user, password, hash.
Qed.

(** With --no-auth the first SIGHUP leaves the credentials locked for good:
    the goroutine never gets past the second, although requests are still
    answered. *)
Theorem sighup_noauth_stuck F o :
  Credentials o = None ->
  exists s, rtc (server_step F) (start o) s /\
    forall s', rtc (server_step F) s s' ->
      goroutine s' = Received /\ locked s' = true /\
      forall compare handler realm w r, answered s' r /\
        BasicAuth compare (creds s') handler realm w r = handler w r.
Proof.
  intros Hc. exists {| creds := None; locked := true; signalled := false; goroutine := Received |}. split.
  - unfold start. rewrite Hc. eapply rtc_l; [apply sv_signal|]. cbn.
    eapply rtc_l; [apply sv_receive|]. eapply rtc_l; [apply sv_noauth|].
    eapply rtc_l; [apply sv_signal|]. cbn. eapply rtc_l; [apply sv_receive|]. done.
  - intros s' Hs.
    assert (creds s' = None /\ locked s' = true /\ goroutine s' = Received) as (H1 & H2 & H3).
    { set (s := Build_server _ _ _ _) in Hs.
      assert (creds s = None /\ locked s = true /\ goroutine s = Received) as H by done. clearbody s.
      induction Hs as [|s s1 s2 H1 _ IH]; [done|]. apply IH.
      destruct H as (Ha & Hb & Hd). by destruct H1; cbn in *. }
    split_and!; [done..|]. intros compare handler realm w r. rewrite H1. split; [by right; left|done].
Qed.

(** A server with one user. *)
Definition wit_open (path : bytes) : res error credFile :=
  Ok {| cf_content := str "alice:$2a$10$" ++ replicate 53 Byte.x78 ++ [LF] ++ str "bob";
        cf_error := None |}.
Definition wit_flags (noAuth : bool) : cmdFlags :=
  {| fl_Addr := str ":8080"; fl_Database := []; fl_Cred := []; fl_NoAuth := noAuth; fl_Verbose := 1 |}.
Definition wit_opts (noAuth : bool) : opts :=
  (parseFlags (Ok (wit_flags noAuth)) (str "/data") (str "/config") wit_open).1.
Definition wit_request : Request :=
  {| r_Path := str "/"; r_RawQuery := []; r_Authorization := basicAuth (str "alice") (str "secret");
     r_Vars := [] |}.
Definition wit_compare (hash password : bytes) : bool := bool_decide (password = str "secret").

Lemma wit_parsed : parseFlags (Ok (wit_flags false)) (str "/data") (str "/config") wit_open =
  (wit_opts false, Ret (Ok tt)).
Proof. unfold wit_opts. rewrite (surjective_pairing (parseFlags _ _ _ _)) at 1. by f_equal. Qed.

Lemma sighup_noauth_stuck_witness :
  exists s, rtc (server_step (fun open => open = wit_open [])) (start (wit_opts true)) s /\
    forall s', rtc (server_step (fun open => open = wit_open [])) s s' ->
      goroutine s' = Received /\ locked s' = true /\
      forall compare handler realm w r, answered s' r /\
        BasicAuth compare (creds s') handler realm w r = handler w r.
Proof. refine (sighup_noauth_stuck (fun open => open = wit_open []) (wit_opts true) _). vm_compute. reflexivity. Defined.
