(* ===== verification/Web.v ===== *)
(** cmd/magneticow: the handlers of api.go and handlers.go, their routes, and
    the helpers of main.go and util.go. *)

From S2P Require Import Prelude GoLib Encoding HttpLib Persistence Outputs Templates Credentials.
From Stdlib Require Import ZArith Lia.
From stdpp Require Import base list gmap sorting.
Local Open Scope Z_scope.

(** The parameters of /api/v0.1/torrents. *)
Record torrentsQuery := {
  tq_Epoch : option Z;
  tq_Query : option bytes;
  tq_OrderBy : option bytes;
  tq_Ascending : option bool;
  tq_LastOrderedValue : option float64;
  tq_LastID : option Z;
  tq_Limit : option Z }.

(** A file of a torrent in the BitTorrent client, and what reading all of it
    gives; a torrent that was added, and whether its metadata arrive in time. *)
Record tfile := { t_Path : bytes; t_Length : Z; t_Read : res error bytes }.
Record magnet := { m_GotInfo : bool; m_Files : list tfile }.

(** Paths of the router: as they are, around an info hash, or as prefix. *)
Inductive pattern : Type :=
  | Exactly (p : bytes)
  | Around (pre suf : bytes)
  | PathPrefix (p : bytes).

Definition hash_char (b : byte) : bool := within 97 102 b || within 48 57 b.

(** What a route accepts, with its variables. *)
Inductive accepts : pattern -> bytes -> urlValues -> Prop :=
  | acc_Exactly p : accepts (Exactly p) p []
  | acc_Around pre suf h :
      length h = 40%nat -> Forall (fun b => hash_char b = true) h ->
      accepts (Around pre suf) (pre ++ h ++ suf) [(str "infohash", h)]
  | acc_PathPrefix p s : accepts (PathPrefix p) (p ++ s) [].

(** A path in canonical form: it starts with a slash, and none of its segments
    is a dot, two dots or, but for the last, empty. *)
Definition dots (seg : bytes) : bool := bool_decide (seg = str "." \/ seg = str "..").

Fixpoint canonical_from (seg s : bytes) : bool :=
  match s with
  | [] => negb (dots seg)
  | c :: s =>
      if bool_decide (c = Byte.x2f)
      then negb (bool_decide (seg = [])) && negb (dots seg) && canonical_from [] s
      else canonical_from (seg ++ [c]) s
  end.

Definition canonical (path : bytes) : bool :=
  match path with
  | c :: s => bool_decide (c = Byte.x2f) && canonical_from [] s
  | [] => false
  end.

(** What the handlers call outside the repository: the texts of errors and
    fmt.Sprintf, numbers in JSON, gorilla/schema and gorilla/mux, bcrypt, the
    embedded files, go-humanize, content sniffing, the BitTorrent client and
    the code page of .nfo files. Unless it is told otherwise, mux redirects
    requests whose path is not in canonical form to the canonical path, before
    it looks at the routes: [redirect] is the location it gives. *)
Class Outside := {
  explain : bytes -> bytes -> bytes;
  driverText : Z -> bytes;
  Sprintf : bytes -> list bytes -> bytes;
  json_float : float64 -> bytes;
  schemaDecode : urlValues -> res error torrentsQuery;
  redirect : Request -> option bytes;
  redirect_unclean r : is_Some (redirect r) <-> canonical (r_Path r) = false;
  dispatch : list pattern -> bytes -> option (nat * urlValues);
  dispatch_accepts ps path i v :
    dispatch ps path = Some (i, v) -> exists p, ps !! i = Some p /\ accepts p path v;
  CompareHashAndPassword : bytes -> bytes -> bool;
  Asset : bytes -> option bytes;
  Comma : Z -> bytes;
  DetectContentType : bytes -> bytes;
  AddMagnet : bytes -> res error magnet;
  CodePage437 : bytes -> res error bytes }.

(** ** Helpers *)

(** encoding/json: elements of a slice that is not nil; maps by sorted key. *)
Fixpoint bytes_le (a b : bytes) : bool :=
  match a, b with
  | [], _ => true
  | _ :: _, [] => false
  | x :: a, y :: b =>
      (byte_val x <? byte_val y) || ((byte_val x =? byte_val y) && bytes_le a b)
  end.

Definition entry_le (p q : bytes * Z) : Prop := bytes_le p.1 q.1 = true.
#[global] Instance entry_le_dec p q : Decision (entry_le p q).
Proof. unfold entry_le. apply _. Defined.

Definition json_map (m : gmap bytes Z) : bytes :=
  str "{" ++ commas (map (fun p => json_string p.1 ++ str ":" ++ fmt_d p.2)
                       (merge_sort entry_le (map_to_list m))) ++ str "}".

Definition json_statistics (s : Statistics) : bytes :=
  str "{" ++ json_key (str "nDiscovered") ++ json_map (NDiscovered s) ++ str "," ++
  json_key (str "nFiles") ++ json_map (st_NFiles s) ++ str "," ++
  json_key (str "totalSize") ++ json_map (TotalSize s) ++ str "}".

Section Handlers.
Context {O : Outside}.

Definition json_torrents (l : list TorrentMetadata) : bytes :=
  str "[" ++ commas (map (TorrentMetadata_MarshalJSON json_float) l) ++ str "]".

Fixpoint Error (e : error) : bytes :=
  match e with
  | NotImplementedError => str "Function not implemented"
  | ErrDriver code => driverText code
  | ErrText msg => msg
  | ErrWrap e msg => msg ++ str ": " ++ Error e
  end.

Definition respondError (w : ResponseWriter) (statusCode : Z) (format : bytes) (a : list bytes) :
    ResponseWriter :=
  Write (WriteHeader w statusCode) (Sprintf format a).

(** util.go *)
Definition handlerError (e : error) (w : ResponseWriter) : ResponseWriter :=
  Write (WriteHeader w 500) (Error e).

Definition mustAsset (name : bytes) : go bytes :=
  match Asset name with Some data => Ret data | None => Panic end.

(** The two lines that end the handlers of the API. *)
Definition respondJSON (w : ResponseWriter) (json : bytes) : ResponseWriter :=
  Write (Header_Set w (str "Content-Type") (str "application/json; charset=utf-8"))
    (json ++ newline).

Definition NotFound (w : ResponseWriter) : ResponseWriter :=
  let w := Header_Set w (str "Content-Type") (str "text/plain; charset=utf-8") in
  let w := Header_Set w (str "X-Content-Type-Options") (str "nosniff") in
  Write (WriteHeader w 404) (str "404 page not found" ++ newline).

(** ** api.go *)

Definition parseOrderBy (s : bytes) : res error OrderingCriteria :=
  if bool_decide (s = str "RELEVANCE") then Ok ByRelevance
  else if bool_decide (s = str "TOTAL_SIZE") then Ok ByTotalSize
  else if bool_decide (s = str "DISCOVERED_ON") then Ok ByDiscoveredOn
  else if bool_decide (s = str "N_FILES") then Ok ByNFiles
  else if bool_decide (s = str "UPDATED_ON") then Ok ByUpdatedOn
  else if bool_decide (s = str "N_SEEDERS") then Ok ByNSeeders
  else if bool_decide (s = str "N_LEECHERS") then Ok ByNLeechers
  else Err (ErrText (str "unknown orderBy string: " ++ s)).

Definition decodeInfohash (r : Request) : option bytes :=
  DecodeString (Values_Get (r_Vars r) (str "infohash")).

Definition respondHash (w : ResponseWriter) (r : Request) : ResponseWriter :=
  respondError w 400 (str "couldn't decode infohash: %s")
    [explain (str "hex.DecodeString") (Values_Get (r_Vars r) (str "infohash"))].

(** The criterion of a request that names none. *)
Definition defaultOrder (query : bytes) : OrderingCriteria :=
  if bool_decide (query = []) then ByDiscoveredOn else ByRelevance.

Context {D : Database}.
(** What the world answers during the request: the clock and the database. *)
Variables (now : Z) (x : io) (database : db).

Definition apiTorrents : Handler := fun w r =>
  let q := ParseQuery (r_RawQuery r) in
  let given k := negb (bool_decide (Values_Get q k = [])) in
  if negb ((given (str "lastOrderedValue") && given (str "lastID")) ||
           (negb (given (str "lastOrderedValue")) && negb (given (str "lastID"))))
  then Ret (respondError w 400
              (str "`lastOrderedValue`, `lastID` must be supplied altogether, if supplied.") [])
  else
    match schemaDecode q with
    | Err e => Ret (respondError w 400 (str "error while parsing the URL: %s") [Error e])
    | Ok tq =>
        let query := default [] (tq_Query tq) in
        let epoch := default now (tq_Epoch tq) in
        if match tq_Epoch tq with Some e => e <=? 0 | None => false end
        then Ret (respondError w 400 (str "epoch must be greater than 0") [])
        else
          let ascending := default true (tq_Ascending tq) in
          match match tq_OrderBy tq with
                | None => Ok (defaultOrder query)
                | Some s => parseOrderBy s
                end with
          | Err e => Ret (respondError w 400 (Error e) [])
          | Ok orderBy =>
              let limit := default 20 (tq_Limit tq) in
              let! torrents := QueryTorrents x database query epoch orderBy ascending limit
                                 (tq_LastOrderedValue tq) (tq_LastID tq) in
              Ret match torrents with
                  | Err e => respondError w 400 (str "query error: %s") [Error e]
                  | Ok torrents => respondJSON w (json_torrents torrents)
                  end
          end
    end%go.

Definition apiTorrent : Handler := fun w r =>
  match decodeInfohash r with
  | None => Ret (respondHash w r)
  | Some infohash =>
      let! torrent := GetTorrent x database infohash in
      Ret match torrent with
          | Err e => respondError w 500 (str "couldn't get torrent: %s") [Error e]
          | Ok None => respondError w 404 (str "not found") []
          | Ok (Some torrent) => respondJSON w (TorrentMetadata_MarshalJSON json_float torrent)
          end
  end%go.

(** The engines return a nil slice when there are no files. *)
Definition apiFilelist : Handler := fun w r =>
  match decodeInfohash r with
  | None => Ret (respondHash w r)
  | Some infohash =>
      let! files := GetFiles x database infohash in
      Ret match files with
          | Err e => respondError w 500 (str "couldn't get files: %s") [Error e]
          | Ok [] => respondError w 404 (str "not found") []
          | Ok files => respondJSON w (json_files files)
          end
  end%go.

Definition apiStatistics : Handler := fun w r =>
  let q := ParseQuery (r_RawQuery r) in
  let from := Values_Get q (str "from") in
  let nStr := Values_Get q (str "n") in
  let query n :=
    (let! stats := GetStatistics x database from (to_u64 n) in
     Ret match stats with
         | Err e => respondError w 400 (str "error while getting statistics: %s") [Error e]
         | Ok stats => respondJSON w (json_statistics stats)
         end)%go in
  if bool_decide (nStr = []) then query 0
  else
    match ParseInt10 nStr 32 with
    | Err _ => Ret (respondError w 400 (str "couldn't parse n: %s") [explain (str "strconv.ParseInt") nStr])
    | Ok n =>
        if n <=? 0 then Ret (respondError w 400 (str "n must be a positive number") [])
        else query n
    end.

(** *** ApiReadmeHandler *)

Fixpoint HasPrefix (s p : bytes) : bool :=
  match p, s with
  | [], _ => true
  | _ :: _, [] => false
  | a :: p, b :: s => bool_decide (a = b) && HasPrefix s p
  end.

Fixpoint Contains (s p : bytes) : bool :=
  HasPrefix s p || match s with [] => false | _ :: s => Contains s p end.

Definition HasSuffix (s p : bytes) : bool := HasPrefix (rev s) (rev p).

Definition isReadme (path : bytes) : bool := HasSuffix path (str ".nfo") || Contains path (str "read").

(** The loop variable keeps the last file when none matches. *)
Fixpoint chooseFile (file : option tfile) (files : list tfile) : option tfile :=
  match files with
  | [] => file
  | f :: files => if isReadme (t_Path f) then Some f else chooseFile (Some f) files
  end.

(** bytes.TrimRight of NULs. *)
Definition TrimRight (s : bytes) : bytes :=
  foldr (fun b acc => if bool_decide (acc = [] /\ b = Byte.x00) then [] else b :: acc) [] s.

(** ServeHTTP. GetFiles' error does not return, but leaves no files. *)
Definition apiReadme : Handler := fun w r =>
  let infohashHex := Values_Get (r_Vars r) (str "infohash") in
  match decodeInfohash r with
  | None => Ret (respondHash w r)
  | Some infohash =>
      let! answer := GetFiles x database infohash in
      let '(w, files) :=
        match answer with
        | Err _ => (respondError w 500 (str "Internal Server Error") [], [])
        | Ok files => (w, files)
        end in
      if negb (existsb (fun f => isReadme (f_Path f)) files) then Ret (WriteHeader w 404)
      else
        match AddMagnet (str "magnet:?xt=urn:btih:" ++ infohashHex) with
        | Err _ => Ret (WriteHeader w 400)
        | Ok t =>
            if negb (m_GotInfo t) then Ret (respondError w 500 (str "Timeout") [])
            else
              match chooseFile None (m_Files t) with
              | None => Ret (WriteHeader w 404)
              | Some file =>
                  if 50 * 1024 <? t_Length file then Ret (WriteHeader w 413)
                  else if t_Length file <? 0 then Panic
                  else
                    match t_Read file with
                    | Err _ => Ret (WriteHeader w 500)
                    | Ok content =>
                        match (if HasSuffix (t_Path file) (str ".nfo")
                               then CodePage437 content else Ok content) with
                        | Err _ => Ret (WriteHeader w 500)
                        | Ok content =>
                            Ret (Write (Header_Set w (str "Content-Type") (str "text/plain;charset=UTF-8"))
                                   (TrimRight content))
                        end
                    end
              end
        end
  end%go.

(** ** handlers.go *)

Definition rootHandler : Handler := fun w r =>
  let! nTorrents := GetNumberOfTorrents x database in
  Ret match nTorrents with
      | Err e => handlerError (ErrWrap e (str "GetNumberOfTorrents")) w
      | Ok nTorrents => Write w (homepage Comma nTorrents)
      end%go.

(** The pages that are embedded files. *)
Definition respondPage (name : bytes) : Handler := fun w r =>
  let! data := mustAsset name in
  let w := Header_Set w (str "Content-Type") (str "text/html; charset=utf-8") in
  let w := Header_Set w (str "Cache-Control") (str "max-age=86400") in
  Ret (Write w data)%go.

Definition torrentsHandler : Handler := respondPage (str "templates/torrents.html").
Definition torrentsInfohashHandler : Handler := respondPage (str "templates/torrent.html").
Definition statisticsHandler : Handler := respondPage (str "templates/statistics.html").

Definition feedTitle (query : bytes) : bytes :=
  if bool_decide (query = []) then str "Most recent torrents - magneticow"
  else str "`" ++ query ++ str "` - magneticow".

Definition feedHandler : Handler := fun w r =>
  let answer query :=
    (let! torrents := QueryTorrents x database query now ByDiscoveredOn false 20 None None in
     Ret match torrents with
         | Err e => handlerError (ErrWrap e (str "query torrent")) w
         | Ok torrents => Write (Write w xmlDeclaration) (feed (feedTitle query) torrents)
         end)%go in
  match Values_All (ParseQuery (r_RawQuery r)) (str "query") with
  | [] => answer []
  | [query] => answer query
  | _ => Ret (respondError w 400 (str "query supplied multiple times!") [])
  end.

Definition staticHandler : Handler := fun w r =>
  let! name := slice_from (r_Path r) 1 in
  Ret match Asset name with
      | None => NotFound w
      | Some data =>
          let contentType :=
            if HasSuffix (r_Path r) (str ".css") then str "text/css; charset=utf-8"
            else if HasSuffix (r_Path r) (str ".js") then str "text/javascript; charset=utf-8"
            else DetectContentType data in
          let w := Header_Set w (str "Content-Type") contentType in
          let w := Header_Set w (str "Cache-Control") (str "max-age=86400") in
          Write w data
      end%go.

(** ** The routes of main *)

Variable creds : option credentials.

Definition routes : list (pattern * Handler) :=
  let auth handler := BasicAuth CompareHashAndPassword creds handler (str "magneticow") in
  [(Exactly (str "/"), auth rootHandler);
   (Exactly (str "/api/v0.1/statistics"), auth apiStatistics);
   (Exactly (str "/api/v0.1/torrents"), auth apiTorrents);
   (Around (str "/api/v0.1/torrents/") [], auth apiTorrent);
   (Around (str "/api/v0.1/torrents/") (str "/filelist"), auth apiFilelist);
   (Around (str "/api/v0.1/torrents/") (str "/readme"), apiReadme);
   (Exactly (str "/feed"), auth feedHandler);
   (PathPrefix (str "/static"), auth staticHandler);
   (Exactly (str "/statistics"), auth statisticsHandler);
   (Exactly (str "/torrents"), auth torrentsHandler);
   (Around (str "/torrents/") [], auth torrentsInfohashHandler)].

Definition with_vars (r : Request) (v : urlValues) : Request :=
  {| r_Path := r_Path r; r_RawQuery := r_RawQuery r; r_Authorization := r_Authorization r; r_Vars := v |}.

(** The answer to a request whose path is not in canonical form. *)
Definition movedPermanently (w : ResponseWriter) (location : bytes) : ResponseWriter :=
  WriteHeader (Header_Set w (str "Location") location) 301.

(** A request to the router: a redirection, or the handler of the route it
    picks. *)
Definition router_ServeHTTP : Handler := fun w r =>
  match redirect r with
  | Some location => Ret (movedPermanently w location)
  | None =>
      match dispatch (map fst routes) (r_Path r) with
      | None => Ret (NotFound w)
      | Some (i, vars) =>
          match routes !! i with
          | Some (_, handler) => handler w (with_vars r vars)
          | None => Panic
          end
      end
  end.
End Handlers.
