(* ===== verification/WebProps.v ===== *)
(** Theorems about the web interface: who reaches the handlers, and what the
    API answers on an SQLite database. *)

From S2P Require Import Prelude GoLib Encoding HttpLib Persistence Sql Keyset TorrentTables GoTime Iso8601 Sqlite3 Sqlite3Laws Sqlite3Props Outputs Credentials Web.
From Stdlib Require Import ZArith Lia.
From Stdlib Require QArith_base.
From stdpp Require Import base list gmap relations.
Local Open Scope Z_scope.

(** ** Access *)

Section Access.
Context {O : Outside} {D : Database}.

(** A route that is not the sixth is behind BasicAuth. *)
Lemma routes_auth now x d m i p handler :
  routes now x d m !! i = Some (p, handler) ->
  (exists h, handler = BasicAuth CompareHashAndPassword m h (str "magneticow")) \/
  p = Around (str "/api/v0.1/torrents/") (str "/readme") /\ handler = apiReadme x d.
Proof.
  intros H. do 11 (destruct i as [|i]; [injection H as <- <-; by eauto|]). done.
Qed.

(** C8. Without --no-auth, whatever signals arrive and whatever the
    credentials file holds when it is reloaded: a request is answered before
    any handler runs, with 401, with 404 or, if its path has an empty or a dot
    segment, with a redirection to the clean path; or it carries the name of a
    user listed in a file that was loaded with a password that matches the hash
    listed there, or its path is that of the readme of a torrent, which is
    served without looking at the credentials. *)
Theorem site_protected F f dataDir configDir open o s now x d w r :
  (forall path, F (open path)) ->
  parseFlags (Ok f) dataDir configDir open = (o, Ret (Ok tt)) -> fl_NoAuth f = false ->
  rtc (server_step F) (start o) s ->
  let answer := router_ServeHTTP now x d (creds s) w r in
  answered s r /\
  (answer = Ret (authenticate w (str "magneticow")) \/ answer = Ret (NotFound w) \/
   (canonical (r_Path r) = false /\ exists location, answer = Ret (movedPermanently w location)) \/
   (exists user password hash,
      Request_BasicAuth r = Some (user, password) /\ listed F user hash /\
      CompareHashAndPassword hash password = true) \/
   (exists h v, length h = 40%nat /\ r_Path r = str "/api/v0.1/torrents/" ++ h ++ str "/readme" /\
      answer = apiReadme x d w (with_vars r v))).
Proof.
  intros HF Hp Hn Hs answer.
  destruct (server_run_ok F _ _ (parseFlags_auth F _ _ _ _ _ HF Hp Hn) Hs) as (Hl & m & Hm & Hf).
  split; [by left|]. subst answer. unfold router_ServeHTTP. rewrite Hm.
  destruct (redirect r) as [location|] eqn:Ered.
  { right. right. left. split; [apply redirect_unclean; by rewrite Ered|by exists location]. }
  destruct (dispatch _ (r_Path r)) as [[i v]|] eqn:Ed; [|by right; left].
  apply dispatch_accepts in Ed as (p & Hi & Hacc). rewrite list_lookup_fmap in Hi.
  destruct (routes now x d (Some m) !! i) as [[p' handler]|] eqn:Er; [|done]. injection Hi as ->.
  destruct (routes_auth _ _ _ _ _ _ _ Er) as [[h ->]|[-> ->]].
  - destruct (BasicAuth_cases CompareHashAndPassword m h (str "magneticow") w (with_vars r v))
      as [H|(u & pw & hash & H1 & H2 & H3 & _)]; [by left|].
    right. right. right. left. exists u, pw, hash. auto.
  - right. right. right. right. inversion Hacc as [|? ? h Hl40 _|]; subst. by exists h, [(str "infohash", h)].
Qed.
End Access.

(** ** The API on an SQLite database *)

Section Api.
Context {O : Outside} {R : Driver} {L : SqliteLaws R}.

Definition order_of (tq : torrentsQuery) : res error OrderingCriteria :=
  match tq_OrderBy tq with
  | None => Ok (defaultOrder (default [] (tq_Query tq)))
  | Some s => parseOrderBy s
  end.

(** Both parameters of a page, or neither. *)
Definition paired (q : urlValues) : Prop :=
  Values_Get q (str "lastOrderedValue") = [] <-> Values_Get q (str "lastID") = [].

Definition epoch_ok (tq : torrentsQuery) : Prop := forall e, tq_Epoch tq = Some e -> 0 < e.

(** A request whose parameters are accepted comes down to a query. *)
Lemma apiTorrents_query {D : Database} now x d w r tq ob :
  paired (ParseQuery (r_RawQuery r)) -> schemaDecode (ParseQuery (r_RawQuery r)) = Ok tq ->
  epoch_ok tq -> order_of tq = Ok ob ->
  apiTorrents now x d w r =
  (let! torrents := QueryTorrents x d (default [] (tq_Query tq)) (default now (tq_Epoch tq)) ob
     (default true (tq_Ascending tq)) (default 20 (tq_Limit tq)) (tq_LastOrderedValue tq) (tq_LastID tq) in
   Ret match torrents with
       | Err e => respondError w 400 (str "query error: %s") [Error e]
       | Ok torrents => respondJSON w (json_torrents torrents)
       end)%go.
Proof.
  intros Hp Hd He Ho. unfold apiTorrents. rewrite Hd. fold (order_of tq). rewrite Ho.
  replace (negb _) with false.
  2:{ unfold paired in Hp. symmetry. destruct (decide (Values_Get (ParseQuery (r_RawQuery r)) (str "lastID") = []));
      [rewrite !bool_decide_eq_true_2 by tauto|rewrite !bool_decide_eq_false_2 by tauto]; done. }
  destruct (tq_Epoch tq) as [e|] eqn:E; [|done]. by rewrite (proj2 (Z.leb_gt e 0) (He e E)).
Qed.

(** The position of a page. *)
Definition tq_pos (tq : torrentsQuery) : option key :=
  match tq_LastOrderedValue tq, tq_LastID tq with Some v, Some id => Some (v, id) | _, _ => None end.

Definition page_ok (tq : torrentsQuery) : Prop :=
  is_nil (tq_LastOrderedValue tq) = is_nil (tq_LastID tq) /\
  forall id, tq_LastID tq = Some id -> 0 <= id < 2 ^ 63.

Definition limit_of (tq : torrentsQuery) : Z := default 20 (tq_Limit tq).
Definition query_of (tq : torrentsQuery) : bytes := default [] (tq_Query tq).

(** The torrents a request lists. *)
Definition listing (now : Z) (t : tables) (tq : torrentsQuery) (ob : OrderingCriteria) : list TorrentMetadata :=
  map (metadata_of t (query_of tq))
    (select (fts_rank t) (torrent_rows t) (file_rows t) (query_of tq) (default now (tq_Epoch tq)) ob
       (default true (tq_Ascending tq)) (limit_of tq) (tq_pos tq)).

Lemma apiTorrents_run now c t w r tq ob on :
  wf t -> paired (ParseQuery (r_RawQuery r)) -> schemaDecode (ParseQuery (r_RawQuery r)) = Ok tq ->
  epoch_ok tq -> order_of tq = Ok ob -> orderOn ob = Ret on -> query_ok (query_of tq) ob ->
  0 <= limit_of tq < 2 ^ 63 -> page_ok tq ->
  apiTorrents (D := sqlite3Database) now (c, []) t w r =
  Ret (respondJSON w (json_torrents (listing now t tq ob))).
Proof.
  intros Hw Hp Hd He Ho Hon Hq Hl [Hn Hid]. erewrite apiTorrents_query by done. cbn [QueryTorrents sqlite3Database snd].
  assert (tq_LastOrderedValue tq = fst <$> tq_pos tq /\ tq_LastID tq = snd <$> tq_pos tq) as [-> ->].
  { unfold tq_pos. by destruct (tq_LastOrderedValue tq), (tq_LastID tq). }
  rewrite (QueryTorrents_run None t _ _ ob on _ (limit_of tq) (tq_pos tq)); [done..|].
  intros k Hk. apply Hid. unfold tq_pos in Hk.
  destruct (tq_LastOrderedValue tq), (tq_LastID tq); try done. by injection Hk as <-.
Qed.

(** The API accepts orders the engine does not: a request to order by
    UPDATED_ON, N_SEEDERS or N_LEECHERS panics the handler, as does a limit of
    2^63 or more, whatever the database holds. *)
Theorem apiTorrents_panics now x t w r tq :
  paired (ParseQuery (r_RawQuery r)) -> schemaDecode (ParseQuery (r_RawQuery r)) = Ok tq ->
  epoch_ok tq -> is_nil (tq_LastOrderedValue tq) = is_nil (tq_LastID tq) ->
  (exists s, tq_OrderBy tq = Some s /\ s ∈ [str "UPDATED_ON"; str "N_SEEDERS"; str "N_LEECHERS"]) \/
  (tq_OrderBy tq = None /\ 2 ^ 63 <= limit_of tq) ->
  apiTorrents (D := sqlite3Database) now x t w r = Panic.
Proof.
  intros Hp Hd He Hn H.
  assert (negb (Bool.eqb (is_nil (tq_LastOrderedValue tq)) (is_nil (tq_LastID tq))) = false) as E2
    by (rewrite Hn; by destruct (tq_LastID tq)).
  destruct H as [(s & Hs & Hin)|[Hnone Hl]].
  - assert (exists ob, parseOrderBy s = Ok ob /\ orderOn ob = Panic /\ bool_decide (ob = ByRelevance) = false)
      as (ob & Hob & Hon & E1).
    { rewrite !elem_of_cons, elem_of_nil in Hin. destruct Hin as [->|[->|[->|[]]]]; by eexists. }
    erewrite apiTorrents_query by (done || unfold order_of; by rewrite Hs).
    cbn [QueryTorrents sqlite3Database]. unfold sqlite3_QueryTorrents, run.
    by rewrite E1, andb_false_r, E2, Hon.
  - assert (bool_decide (query_of tq = []) && bool_decide (defaultOrder (query_of tq) = ByRelevance) = false) as E1.
    { unfold defaultOrder. by destruct (bool_decide (query_of tq = [])). }
    assert (exists on, orderOn (defaultOrder (query_of tq)) = Ret on) as [on Hon].
    { unfold defaultOrder. case_bool_decide; by eexists. }
    erewrite apiTorrents_query by (done || unfold order_of; by rewrite Hnone).
    cbn [QueryTorrents sqlite3Database]. unfold sqlite3_QueryTorrents. fold (query_of tq) (limit_of tq).
    rewrite E1, E2, Hon.
    destruct (convertArgs_err (AUint64 (limit_of tq)) (queryArgs (query_of tq) (default now (tq_Epoch tq))
      (tq_LastOrderedValue tq) (tq_LastID tq) (limit_of tq))) as [e He'].
    + unfold queryArgs. rewrite !elem_of_app. right. right. right. by left.
    + cbn. unfold convertUint64. by rewrite (proj2 (Z.leb_le _ _) Hl).
    + erewrite query_panics; [done|]. unfold conn_Query. by rewrite He'.
Qed.

(** ** One torrent *)

Definition infohash_request (ih : bytes) : Request :=
  {| r_Path := str "/api/v0.1/torrents/" ++ EncodeToString ih; r_RawQuery := []; r_Authorization := [];
     r_Vars := [(str "infohash", EncodeToString ih)] |}.

Lemma decodeInfohash_request ih : decodeInfohash (infohash_request ih) = Some ih.
Proof. unfold decodeInfohash. cbn. apply hex_roundtrip. Qed.

Lemma absent_read ih t :
  wf t -> ih ∉ map tr_info_hash (torrent_rows t) ->
  run (sqlite3_GetTorrent ih) t [] = (t, Ret (Ok None)) /\ run (sqlite3_GetFiles ih) t [] = (t, Ret (Ok [])).
Proof.
  intros Hw Hih. apply with_hash_nil in Hih. pose proof (wf_version t Hw) as Hv. split.
  - unfold sqlite3_GetTorrent. eapply (query_closed None); [done|by apply torrent_law|]. by rewrite Hih.
  - destruct (files_law t ih Hv) as (frs & Hp & Hq). rewrite Hih in Hp. apply Permutation_nil_r in Hp as ->.
    unfold sqlite3_GetFiles. by eapply (query_closed None); [done|exact Hq|].
Qed.

(** C16. What is stored is served: the API answers 404 for a torrent that is not
    stored, and after AddNewTorrent of a torrent of sane size it answers with
    its name, total size, discovery time, number of files, and its files, in
    some order. *)
Theorem stored_then_served now ih name files t w :
  wf t -> ~ full (torrent_rows t) -> ih ∉ map tr_info_hash (torrent_rows t) -> 0 < sum_sizes files < 2 ^ 63 ->
  0 < now <= modifiedDefault ->
  let r := infohash_request ih in
  apiTorrent (D := sqlite3Database) (now, []) t w r = Ret (respondError w 404 (str "not found") []) /\
  apiFilelist (D := sqlite3Database) (now, []) t w r = Ret (respondError w 404 (str "not found") []) /\
  exists t' fs, run (sqlite3_AddNewTorrent now ih name files) t [] = (t', Ret (Ok tt)) /\
    run (sqlite3_DoesTorrentExist ih) t' [] = (t', Ret (Ok true)) /\
    apiTorrent (D := sqlite3Database) (now, []) t' w r =
      Ret (respondJSON w (TorrentMetadata_MarshalJSON json_float
        {| tm_ID := 0; tm_InfoHash := ih; tm_Name := name; tm_Size := sum_sizes files;
           tm_DiscoveredOn := now; tm_NFiles := len files;
           tm_Relevance := QArith_base.inject_Z 0 |})) /\
    apiFilelist (D := sqlite3Database) (now, []) t' w r = Ret (respondJSON w (json_files fs)) /\
    (fs ≡ₚ files).
Proof.
  intros Hw Hfull Hih Hsum Hnow r. subst r. destruct (absent_read ih t Hw Hih) as [Ht Hf].
  unfold apiTorrent, apiFilelist. rewrite decodeInfohash_request. cbn [GetTorrent GetFiles sqlite3Database snd].
  rewrite Ht, Hf. split_and!; [done..|].
  destruct (stored_readable now ih name files t Hw Hfull Hih Hsum Hnow) as (t' & fs & H1 & H2 & H3 & H4 & H5).
  exists t', fs. rewrite H3, H4. split_and!; [done..| |done].
  destruct fs; [|done]. apply Permutation_nil_l in H5. subst files. cbn in Hsum. lia.
Qed.

(** ** Statistics *)

(** The statistics API: for a number of periods that is positive and has 32
    bits it asks for the torrents discovered between the instant that [from]
    denotes and so many periods later, and answers with exactly the numbers of
    the database for every label of the period. For hours this needs fewer
    than 2562048. *)
Lemma apiStatistics_run now t w r from gran n l :
  let q := ParseQuery (r_RawQuery r) in
  ParseISO8601 (Values_Get q (str "from")) = Ret (Ok (from, gran)) ->
  ParseInt10 (Values_Get q (str "n")) 32 = Ok n -> 0 < n < 2 ^ 31 -> (gran = Hour -> n <= 2562047) ->
  query t (selectStatistics (time_format gran)) [VInt from; VInt (period_end from gran n)] =
    Ok (map stats_values l) ->
  NoDup (map stats_label l) ->
  Forall (fun x => let '(dT, tS, nD, nF) := x in 0 <= tS /\ 0 <= nD /\ 0 <= nF) l ->
  apiStatistics (D := sqlite3Database) (now, []) t w r = Ret (respondJSON w (json_statistics (stats_of l))).
Proof.
  intros q Hfrom Hn Hr Hh Hq Hl Hp. subst q.
  pose proof (GetStatistics_run t _ from gran n l Hfrom ltac:(lia) Hh Hq Hl Hp) as Hs. unfold apiStatistics. rewrite Hn, (proj2 (Z.leb_gt n 0)) by lia.
  rewrite bool_decide_eq_false_2 by (intros E; by rewrite E in Hn).
  cbn [GetStatistics sqlite3Database snd]. rewrite to_u64_id by lia. by rewrite Hs.
Qed.
End Api.

(** ** Readmes *)

Section Readme.
Context {O : Outside} {D : Database}.

Lemma chooseFile_spec cur files f :
  chooseFile cur files = Some f ->
  (exists before after, files = before ++ f :: after /\ isReadme (t_Path f) = true /\
     Forall (fun g => isReadme (t_Path g) = false) before) \/
  (Forall (fun g => isReadme (t_Path g) = false) files /\ from_option Some cur (last files) = Some f).
Proof.
  revert cur. induction files as [|g files IH]; intros cur H; cbn [chooseFile] in H; [by right|].
  destruct (isReadme (t_Path g)) eqn:E.
  - injection H as ->. left. by exists [], files.
  - destruct (IH (Some g) H) as [(before & after & -> & Hf & Hb)|[Hall Hlast]]; [left|right].
    + exists (g :: before), after. split_and!; [done..|by constructor].
    + split; [by constructor|]. rewrite last_cons. by destruct (last files).
Qed.

Lemma TrimRight_spec s : exists n, s = TrimRight s ++ replicate n Byte.x00.
Proof.
  induction s as [|b s [n IH]]; [by exists 0%nat|]. cbn [TrimRight foldr]. fold (TrimRight s).
  case_bool_decide as H; [destruct H as [E ->]; exists (S n); cbn; f_equal; by rewrite IH, E|].
  exists n. cbn. by f_equal.
Qed.

Lemma TrimRight_last s : last (TrimRight s) <> Some Byte.x00.
Proof.
  induction s as [|b s IH]; [done|]. cbn [TrimRight foldr] in *. fold (TrimRight s) in *.
  case_bool_decide as H; [done|]. rewrite last_cons. destruct (last (TrimRight s)) as [y|] eqn:E; [done|].
  apply last_None in E. intros [= ->]. by apply H.
Qed.

(** C38. A readme is served (with status 200) only if the database lists a file
    of the torrent that looks like one; what is served is a file of the torrent
    of at most 50 KiB, decoded if it is an .nfo and without the NULs at its
    end: the first that looks like a readme or, if none does, the last one. *)
Theorem readme_served x d r w :
  apiReadme x d newResponse r = Ret w -> w_status w = Some 200 ->
  exists ih files t f content text n,
    decodeInfohash r = Some ih /\ GetFiles x d ih = Ret (Ok files) /\
    (exists g, g ∈ files /\ isReadme (f_Path g) = true) /\
    AddMagnet (str "magnet:?xt=urn:btih:" ++ Values_Get (r_Vars r) (str "infohash")) = Ok t /\
    ((exists before after, m_Files t = before ++ f :: after /\ isReadme (t_Path f) = true /\
        Forall (fun g => isReadme (t_Path g) = false) before) \/
     Forall (fun g => isReadme (t_Path g) = false) (m_Files t) /\ last (m_Files t) = Some f) /\
    0 <= t_Length f <= 51200 /\ t_Read f = Ok content /\
    (if HasSuffix (t_Path f) (str ".nfo") then CodePage437 content else Ok content) = Ok text /\
    text = w_body w ++ replicate n Byte.x00 /\ last (w_body w) <> Some Byte.x00.
Proof.
  intros H Hs. unfold apiReadme in H. destruct (decodeInfohash r) as [ih|]; [|by injection H as <-].
  change (50 * 1024) with 51200 in H.
  destruct (GetFiles x d ih) as [[files|e]|] eqn:Eg; cbn iota beta zeta in H; [|by injection H as <-|done].
  destruct (existsb _ files) eqn:Ef; cbn [negb] in H; [|by injection H as <-].
  destruct (AddMagnet _) as [t|e] eqn:Em; [|by injection H as <-].
  destruct (m_GotInfo t); cbn [negb] in H; [|by injection H as <-].
  destruct (chooseFile None (m_Files t)) as [f|] eqn:Ec; [|by injection H as <-].
  destruct (Z.ltb_spec 51200 (t_Length f)); [by injection H as <-|].
  destruct (Z.ltb_spec (t_Length f) 0); [done|].
  destruct (t_Read f) as [content|e] eqn:Er; [|by injection H as <-].
  destruct (if HasSuffix _ _ then _ else _) as [text|e] eqn:Et; injection H as <-; [|done].
  apply existsb_exists in Ef as (g & Hg%list_elem_of_In & Hg').
  apply chooseFile_spec in Ec as Hc. destruct (TrimRight_spec text) as [n Hn].
  exists ih, files, t, f, content, text, n. split_and!; try done.
  - by exists g.
  - destruct Hc as [Hc|[Hall Hl]]; [by left|right]. split; [done|]. by destruct (last (m_Files t)).
  - apply TrimRight_last.
Qed.
End Readme.
