(* ===== verification/FeedProps.v ===== *)
(** The feed from the database to the reader: feedHandler on an SQLite database,
    the template, and what a feed reader finds in the answer. *)

From S2P Require Import Prelude GoLib Encoding HttpLib Persistence Sql Keyset TorrentTables Sqlite3 Sqlite3Laws Sqlite3Props Sqlite3Model Outputs Xml Templates Credentials Web WebProps.
From Stdlib Require Import ZArith Lia.
From stdpp Require Import base list gmap.
Local Open Scope Z_scope.

Lemma forallb_map {A B} (f : A -> B) (p : B -> bool) l : forallb p (map f l) = forallb (fun x => p (f x)) l.
Proof. induction l as [|x l IH]; [done|]. cbn [map forallb]. by rewrite IH. Qed.

Section Feed.
Context {O : Outside} {R : Driver} `{!SqliteLaws R}.

(** The search of a request: no parameter, or one. *)
Definition feed_query (r : Request) (q : bytes) : Prop :=
  Values_All (ParseQuery (r_RawQuery r)) (str "query") = [] /\ q = [] \/
  Values_All (ParseQuery (r_RawQuery r)) (str "query") = [q].

(** The twenty most recent torrents that fit a search. *)
Definition recent (t : tables) (now : Z) (q : bytes) : list torrentRow :=
  take 20 (ordered (sort_key (fts_rank t) (file_rows t) q ByDiscoveredOn) false
             (fitting (fts_rank t) (torrent_rows t) q now)).

(** The texts that XML can hold: valid UTF-8 without control characters other than
    tab and line ends; the template replaces NUL. *)
Definition xml_text (s : bytes) : bool := xmlChars (denul s).

(** C17. The feed: if the search and the names of the twenty most recently
    discovered torrents that fit it are texts that XML can hold, a strict
    reader of XML finds in the answer the title of the search and one item for
    each of these torrents, most recent first, with its info hash and a magnet
    link that carries the info hash and the exact name; titles are the names
    with U+FFFD for NUL and line feeds for line ends. If one of them is not,
    the reader refuses the whole feed. *)
Theorem feed_shows_recent now c t r q :
  wf t -> feed_query r q -> q = [] \/ fts_syntax q = true ->
  exists w, feedHandler (D := sqlite3Database) now (c, []) t newResponse r = Ret w /\
    w_status w = Some 200 /\
    readChannel (w_body w) =
    if xml_text (feedTitle q) && forallb (fun row => xml_text (tr_name row)) (recent t now q)
    then Some (displayed (feedTitle q),
           map (fun row => (displayed (tr_name row), tr_info_hash row, tr_name row,
                            str "urn:btih:" ++ bytesToHex (tr_info_hash row))) (recent t now q))
    else None.
Proof.
  intros Hw Hr Hq.
  assert (run (sqlite3_QueryTorrents q now ByDiscoveredOn false 20 None None) t [] =
          (t, Ret (Ok (map (metadata_of t q) (recent t now q))))) as Hrun.
  { pose proof (QueryTorrents_run None t q now ByDiscoveredOn (str "discovered_on") false 20 None Hw eq_refl) as H.
    cbn [fmap option_fmap option_map broken received] in H. rewrite H; [|..|done|done].
    - unfold select, page, recent. change (Z.to_nat 20) with 20%nat. do 7 f_equal.
      by apply filter_all, Forall_true.
    - destruct (decide (q = [])) as [->|Hne]; [by left|right]. split; [done|]. by destruct Hq. }
  assert (feedHandler (D := sqlite3Database) now (c, []) t newResponse r =
          Ret (Write (Write newResponse xmlDeclaration)
                 (feed (feedTitle q) (map (metadata_of t q) (recent t now q))))) as ->.
  { unfold feedHandler. destruct Hr as [[-> ->]| ->]; cbn [QueryTorrents sqlite3Database snd]; by rewrite Hrun. }
  eexists. split; [done|]. split; [done|]. cbn [Write WriteHeader newResponse w_status w_body app].
  rewrite readChannel_feed, map_map. unfold xml_text.
  by rewrite (forallb_map (metadata_of t q) (fun m => xmlChars (denul (tm_Name m)))).
Qed.
End Feed.
