(* ===== verification/Client.v ===== *)
(** cmd/magneticow/data/static/scripts/torrents.js and encodeQueryData of
    common.js: the page that lists torrents, which asks the API for one page
    after the other, and the theorem that it shows every torrent once. *)

From S2P Require Import Prelude GoLib Encoding HttpLib Persistence Sql Keyset TorrentTables Sqlite3 Sqlite3Laws Sqlite3Props Outputs Credentials Web WebProps.
From Stdlib Require Import ZArith Lia.
From Stdlib Require QArith_base Qreduction.
From stdpp Require Import base list gmap.
Local Open Scope Z_scope.

(** ** The script *)

(** A torrent as JSON.parse makes it: numbers are doubles. *)
Record jsTorrent := {
  js_infoHash : bytes; js_id : float64; js_name : bytes; js_size : float64;
  js_discoveredOn : float64; js_nFiles : float64; js_relevance : float64 }.

(** The numbers of the browser: those of JSON.parse, and String. *)
Class Js := {
  parseNumber : bytes -> option float64;
  numberText : float64 -> bytes }.

Definition upper_hex (v : Z) : byte := byte_of (if v <? 10 then 48 + v else 55 + v).

Definition unreserved (b : byte) : bool :=
  within 65 90 b || within 97 122 b || within 48 57 b || bool_decide (b ∈ str "-_.!~*'()").

Definition encodeURIComponent (s : bytes) : bytes :=
  concat (map (fun b => if unreserved b then [b]
                        else [Byte.x25; upper_hex (byte_val b / 16); upper_hex (byte_val b mod 16)]) s).

(** The entries that are not null or undefined. *)
Definition present (data : list (bytes * option bytes)) : urlValues :=
  omap (fun p => v ← p.2; Some (p.1, v)) data.

Fixpoint join (sep : byte) (l : list bytes) : bytes :=
  match l with
  | [] => []
  | [x] => x
  | x :: l => x ++ sep :: join sep l
  end.

Definition encodeQueryData (data : list (bytes * option bytes)) : bytes :=
  join Byte.x26 (map (fun p => encodeURIComponent p.1 ++ Byte.x3d :: encodeURIComponent p.2) (present data)).

Section Script.
Context {J : Js}.

(** The global variables, the list on the page and the state of the button. *)
Record client := {
  c_query : option bytes; c_epoch : Z; c_orderBy : bytes; c_ascending : option bool;
  c_lastOrderedValue : option float64; c_lastID : option float64;
  c_shown : list jsTorrent; c_more : bool }.

Definition validValues : list bytes :=
  [str "TOTAL_SIZE"; str "DISCOVERED_ON"; str "UPDATED_ON"; str "N_FILES"; str "N_SEEDERS"; str "N_LEECHERS";
   str "RELEVANCE"].

(** The new value of [orderBy]; an exception is [Panic]. *)
Definition setOrderBy (x : bytes) : go bytes := if bool_decide (x ∈ validValues) then Ret x else Panic.

(** What window.onload writes into the page: the title, the value of the search
    field and the link to the feed, if it sets them. *)
Definition heading (query : option bytes) : bytes * option bytes * option bytes :=
  match query with
  | None | Some [] => (str "Most recent torrents - magneticow", None, None)
  | Some query =>
      (query ++ str " - magneticow", Some query, Some (str "/feed?query=" ++ encodeURIComponent query))
  end.

(** The variables it sets before it calls load. *)
Definition onload (query : option bytes) (epoch : Z) : client :=
  let searching := negb (bool_decide (default [] query = [])) in
  {| c_query := query; c_epoch := epoch;
     c_orderBy := if searching then str "RELEVANCE" else str "DISCOVERED_ON";
     c_ascending := if searching then None else Some false;
     c_lastOrderedValue := None; c_lastID := None; c_shown := []; c_more := true |}.

(** [None] is undefined. *)
Definition orderedValue (orderBy : bytes) (t : jsTorrent) : option float64 :=
  if bool_decide (orderBy = str "TOTAL_SIZE") then Some (js_size t)
  else if bool_decide (orderBy = str "DISCOVERED_ON") then Some (js_discoveredOn t)
  else if bool_decide (orderBy = str "UPDATED_ON") then None
  else if bool_decide (orderBy = str "N_FILES") then Some (js_nFiles t)
  else if bool_decide (orderBy = str "N_SEEDERS") then None
  else if bool_decide (orderBy = str "N_LEECHERS") then None
  else if bool_decide (orderBy = str "RELEVANCE") then Some (js_relevance t)
  else None.

Definition boolText (b : bool) : bytes := if b then str "true" else str "false".

Definition requestData (c : client) : list (bytes * option bytes) :=
  [(str "query", c_query c); (str "epoch", Some (fmt_d (c_epoch c)));
   (str "lastID", numberText <$> c_lastID c);
   (str "lastOrderedValue", numberText <$> c_lastOrderedValue c);
   (str "orderBy", Some (c_orderBy c)); (str "ascending", boolText <$> c_ascending c)].

(** JSON.parse of the answers of the API. *)
Definition read_number (stop : byte) (s : bytes) : option (float64 * bytes) :=
  '(n, r) ← read_to stop s; v ← parseNumber n; Some (v, r).

Definition read_torrent (s : bytes) : option (jsTorrent * bytes) :=
  r ← CutPrefix (str "{" ++ json_key (str "infoHash") ++ [Byte.x22]) s;
  '(h, r) ← unquote Plain r;
  r ← CutPrefix (str "," ++ json_key (str "id")) r;
  '(id, r) ← read_number Byte.x2c r;
  r ← CutPrefix (json_key (str "name") ++ [Byte.x22]) r;
  '(name, r) ← unquote Plain r;
  r ← CutPrefix (str "," ++ json_key (str "size")) r;
  '(size, r) ← read_number Byte.x2c r;
  r ← CutPrefix (json_key (str "discoveredOn")) r;
  '(on, r) ← read_number Byte.x2c r;
  r ← CutPrefix (json_key (str "nFiles")) r;
  '(nf, r) ← read_number Byte.x2c r;
  r ← CutPrefix (json_key (str "relevance")) r;
  '(rel, r) ← read_number Byte.x7d r;
  Some ({| js_infoHash := h; js_id := id; js_name := name; js_size := size;
           js_discoveredOn := on; js_nFiles := nf; js_relevance := rel |}, r).

(** The elements after the bracket of a list that has some. *)
Fixpoint read_items {A} (read : bytes -> option (A * bytes)) (fuel : nat) (s : bytes) : option (list A * bytes) :=
  match fuel with
  | O => None
  | S fuel =>
      '(t, r) ← read s;
      match r with
      | b :: r =>
          if bool_decide (b = Byte.x5d) then Some ([t], r)
          else if bool_decide (b = Byte.x2c)
          then '(ts, r) ← read_items read fuel r; Some (t :: ts, r)
          else None
      | [] => None
      end
  end.

Definition JSON_list {A} (read : bytes -> option (A * bytes)) (s : bytes) : option (list A) :=
  if bool_decide (s = str "[]" ++ newline) then Some []
  else
    r ← CutPrefix (str "[") s;
    '(ts, r) ← read_items read (length r) r;
    if bool_decide (r = newline) then Some ts else None.

Definition JSON_parse : bytes -> option (list jsTorrent) := JSON_list read_torrent.

(** [server] answers a query with a status and a body, or breaks the
    connection. A body that JSON.parse rejects is an exception, which leaves
    the page as it is. *)
Variable server : bytes -> option (Z * bytes).

Definition load (c : client) : client :=
  let body := match server (encodeQueryData (requestData c)) with Some (_, b) => b | None => [] end in
  match JSON_parse body with
  | None => c
  | Some torrents =>
      match last torrents with
      | None =>
          {| c_query := c_query c; c_epoch := c_epoch c; c_orderBy := c_orderBy c;
             c_ascending := c_ascending c; c_lastOrderedValue := c_lastOrderedValue c;
             c_lastID := c_lastID c; c_shown := c_shown c; c_more := false |}
      | Some t =>
          {| c_query := c_query c; c_epoch := c_epoch c; c_orderBy := c_orderBy c;
             c_ascending := c_ascending c; c_lastOrderedValue := orderedValue (c_orderBy c) t;
             c_lastID := Some (js_id t); c_shown := c_shown c ++ torrents; c_more := true |}
      end
  end.

(** The button is pressed until there is nothing more, or [n] times. *)
Fixpoint load_all (n : nat) (c : client) : client :=
  match n with
  | O => c
  | S n => if c_more c then load_all n (load c) else c
  end.
End Script.

(** ** The URL *)

Lemma upper_hex_spec v : 0 <= v < 16 -> fromHexChar (upper_hex v) = Some v.
Proof.
  intros H. unfold fromHexChar, upper_hex. destruct (Z.ltb_spec v 10).
  - pose proof (byte_val_small (48 + v) ltac:(lia)). solve_within. f_equal. lia.
  - pose proof (byte_val_small (55 + v) ltac:(lia)). solve_within. f_equal. lia.
Qed.

Lemma unreserved_plain b : unreserved b = true -> b <> Byte.x25 /\ b <> Byte.x2b.
Proof. intros H. split; intros ->; done. Qed.

Lemma QueryUnescape_escaped s : QueryUnescape (encodeURIComponent s) = Some s.
Proof. apply (QueryUnescape_percent unreserved upper_hex); [apply unreserved_plain|apply upper_hex_spec]. Qed.

(** Escaped text has none of the bytes that structure a query. *)
Definition structural (b : byte) : Prop := b = Byte.x26 \/ b = Byte.x3b \/ b = Byte.x3d.

Lemma upper_hex_structural v : 0 <= v < 16 -> ~ structural (upper_hex v).
Proof. intros H Hs. pose proof (upper_hex_spec v H) as E. by destruct Hs as [Hs|[Hs|Hs]]; rewrite Hs in E. Qed.

Lemma escaped_clean s : Forall (fun b => ~ structural b) (encodeURIComponent s).
Proof.
  induction s as [|b s IH]; [constructor|]. unfold encodeURIComponent in *. cbn [map concat].
  apply Forall_app. split; [|done]. pose proof (byte_val_range b). destruct (unreserved b) eqn:E.
  - apply Forall_singleton. by intros [->|[->| ->]].
  - repeat constructor; [by intros [?|[?|?]]|..]; apply upper_hex_structural;
      Z.to_euclidean_division_equations; lia.
Qed.

Definition pairText (p : bytes * bytes) : bytes := encodeURIComponent p.1 ++ Byte.x3d :: encodeURIComponent p.2.

Lemma parsePair_text p : parsePair (pairText p) = [p].
Proof.
  unfold parsePair, pairText. rewrite bool_decide_eq_false_2 by (by destruct (encodeURIComponent p.1)).
  rewrite Cut_app. { change (default _ (Some ?x)) with x. cbn iota. rewrite !QueryUnescape_escaped. by destruct p. }
  intros Hin. pose proof (escaped_clean p.1) as H. rewrite Forall_forall in H.
  apply (H _ Hin). by right; right.
Qed.

Lemma pairText_clean p : Forall (fun b => b <> Byte.x26 /\ b <> Byte.x3b) (pairText p).
Proof.
  unfold pairText. apply Forall_app. split; [|constructor; [done|]];
    (eapply Forall_impl; [apply escaped_clean|]); unfold structural; intros b Hb; tauto.
Qed.

(** What the script encodes is what the handler reads. *)
Lemma ParseQuery_encoded data : ParseQuery (encodeQueryData data) = present data.
Proof.
  unfold encodeQueryData. change (fun p : bytes * bytes => _) with pairText.
  induction (present data) as [|p l IH]; [done|]. unfold ParseQuery in *.
  destruct l as [|p' l].
  - cbn [map join]. rewrite SplitAny_none by apply pairText_clean. cbn [map concat].
    by rewrite parsePair_text.
  - change (join Byte.x26 (map pairText (p :: p' :: l)))
      with (pairText p ++ Byte.x26 :: join Byte.x26 (map pairText (p' :: l))).
    rewrite SplitAny_app by apply pairText_clean. cbn [map concat] in *.
    by rewrite IH, parsePair_text.
Qed.

(** The link to the feed asks for the query of the page, whatever bytes it has. *)
Lemma heading_feed q title input link :
  heading (Some q) = (title, input, Some link) ->
  exists raw, link = str "/feed?" ++ raw /\ ParseQuery raw = [(str "query", q)].
Proof.
  unfold heading. destruct q as [|b q]; [done|]. intros [= _ _ <-]. eexists. split; [reflexivity|].
  apply (ParseQuery_encoded [(str "query", Some (b :: q))]).
Qed.

(** Both orders it sets are valid. *)
Lemma onload_order query epoch : setOrderBy (c_orderBy (onload query epoch)) = Ret (c_orderBy (onload query epoch)).
Proof. unfold onload. cbn [c_orderBy]. by destruct (negb _). Qed.

(** ** Numbers *)

(** A finite double, in lowest terms. *)
Definition double (v : float64) : Prop :=
  Qreduction.Qred v = v /\
  exists m e, Z.abs m <= 2 ^ 53 /\
    QArith_base.Qeq v (QArith_base.Qmult (QArith_base.inject_Z m) (QArith_base.Qpower (QArith_base.inject_Z 2) e)).

Lemma double_int n : Z.abs n <= 2 ^ 53 -> double (QArith_base.inject_Z n).
Proof.
  intros H. split.
  - unfold Qreduction.Qred, QArith_base.inject_Z. pose proof (Z.ggcd_gcd n 1) as Hg.
    pose proof (Z.ggcd_correct_divisors n 1) as Hd. destruct (Z.ggcd n 1) as [g [a b]].
    cbn [fst] in Hg. rewrite Z.gcd_1_r in Hg. subst g. destruct Hd as [Ha Hb].
    cbn [snd]. rewrite Z.mul_1_l in Ha, Hb. by subst.
  - exists n, 0. split; [done|]. by rewrite QArith_base.Qmult_1_r.
Qed.

(** The request of the page at a position. *)
Definition pageData {J : Js} (q : option bytes) (e : Z) (pos : option key) (ob : bytes) (asc : option bool) :
    list (bytes * option bytes) :=
  [(str "query", q); (str "epoch", Some (fmt_d e));
   (str "lastID", (fun k => numberText (QArith_base.inject_Z k.2)) <$> pos);
   (str "lastOrderedValue", (fun k => numberText k.1) <$> pos);
   (str "orderBy", Some ob); (str "ascending", boolText <$> asc)].

Definition pageQuery (q : option bytes) (e : Z) (pos : option key) (ob : bytes) (asc : option bool) : torrentsQuery :=
  {| tq_Epoch := Some e; tq_Query := q; tq_OrderBy := Some ob; tq_Ascending := asc;
     tq_LastOrderedValue := fst <$> pos; tq_LastID := snd <$> pos; tq_Limit := None |}.

Definition key_ok (k : key) : Prop := double k.1 /\ 0 <= k.2 <= 2 ^ 53.

(** Doubles survive their JSON form and String; integers up to 2^53 are doubles;
    gorilla/schema fills the fields named by the parameters (an empty search
    is given or not). *)
Class JsLaws (O : Outside) (J : Js) := {
  json_float_law v : double v -> parseNumber (json_float v) = Some v /\ (Byte.x7d ∉ json_float v);
  int_law n : Z.abs n <= 2 ^ 53 -> parseNumber (fmt_d n) = Some (QArith_base.inject_Z n);
  text_law v : double v -> numberText v <> [];
  schema_law q e pos ob asc : 0 < e < 2 ^ 63 -> (forall k, pos = Some k -> key_ok k) -> ob <> [] ->
    exists q', default [] q' = default [] q /\
      schemaDecode (present (pageData q e pos ob asc)) = Ok (pageQuery q' e pos ob asc) }.

(** ** The answers *)

(** Lists of whatever is read back. *)
Section Lists.
Context {A C : Type}.
Variables (read : bytes -> option (C * bytes)) (json : A -> bytes) (f : A -> C) (ok : A -> Prop).
Hypothesis Hread : forall a r, ok a -> read (json a ++ r) = Some (f a, r).
Hypothesis Hjson : forall a, head (json a) = Some Byte.x7b.

Lemma read_items_json l a r fuel :
  ok a -> Forall ok l -> (length l < fuel)%nat ->
  read_items read fuel (commas (map json (a :: l)) ++ str "]" ++ r) = Some (map f (a :: l), r).
Proof.
  revert a fuel. induction l as [|b l IH]; intros a [|fuel] Ha Hl Hf; try (simpl in Hf; lia).
  - cbn [map commas read_items]. by rewrite Hread.
  - apply Forall_cons in Hl as [Hb Hl].
    change (commas (map json (a :: b :: l))) with (json a ++ str "," ++ commas (map json (b :: l))).
    rewrite <- !app_assoc. cbn [read_items]. rewrite Hread by done.
    change (str ",") with [Byte.x2c] at 1. cbn [mbind option_bind app].
    rewrite bool_decide_eq_false_2 by done. rewrite bool_decide_eq_true_2 by done.
    rewrite IH by (done || simpl in Hf; lia). done.
Qed.

Lemma JSON_list_json l :
  Forall ok l -> JSON_list read ((str "[" ++ commas (map json l) ++ str "]") ++ newline) = Some (map f l).
Proof.
  intros Hl. destruct Hl as [|a l Ha Hl]; [done|]. unfold JSON_list.
  assert (str "[" ++ commas (map json (a :: l)) ++ str "]" ++ newline <> str "[]" ++ newline) as Hne.
  { intros H. apply (app_inj_1 (str "[") (str "[")) in H as [_ H]; [|done].
    pose proof (Hjson a) as Hh. cbn [map commas] in H. destruct (json a) as [|b s]; [done|]. injection Hh as ->.
    by destruct l. }
  rewrite <- !app_assoc, bool_decide_eq_false_2, CutPrefix_app by done. cbn [mbind option_bind].
  rewrite read_items_json; [|done..|].
  - cbn [mbind option_bind]. by rewrite bool_decide_eq_true_2.
  - rewrite length_app. pose proof (commas_length (map json (a :: l))) as H.
    rewrite length_map in H. cbn [length] in H. change (length (str "]" ++ newline)) with 2%nat. lia.
Qed.
End Lists.

Section Client.
Context {O : Outside} {J : Js} `{!JsLaws O J}.

Definition js_of (m : TorrentMetadata) : jsTorrent :=
  {| js_infoHash := EncodeToString (tm_InfoHash m); js_id := QArith_base.inject_Z (tm_ID m);
     js_name := tm_Name m; js_size := QArith_base.inject_Z (tm_Size m);
     js_discoveredOn := QArith_base.inject_Z (tm_DiscoveredOn m);
     js_nFiles := QArith_base.inject_Z (tm_NFiles m); js_relevance := tm_Relevance m |}.

(** What survives JSON and doubles. *)
Definition meta_ok (m : TorrentMetadata) : Prop :=
  ValidString (tm_Name m) = true /\ double (tm_Relevance m) /\
  Forall (fun n => Z.abs n <= 2 ^ 53) [tm_ID m; tm_Size m; tm_DiscoveredOn m; tm_NFiles m].

Lemma read_int n r : Z.abs n <= 2 ^ 53 -> read_number Byte.x2c (fmt_d n ++ Byte.x2c :: r) = Some (QArith_base.inject_Z n, r).
Proof.
  intros H. unfold read_number. rewrite read_to_app by (by apply not_in_fmt_d).
  cbn [mbind option_bind]. by rewrite int_law.
Qed.

Lemma read_torrent_json m r :
  meta_ok m -> read_torrent (TorrentMetadata_MarshalJSON json_float m ++ r) = Some (js_of m, r).
Proof.
  intros (Hname & Hrel & Hn). apply Forall_cons in Hn as [H1 Hn]. apply Forall_cons in Hn as [H2 Hn].
  apply Forall_cons in Hn as [H3 Hn]. apply Forall_cons in Hn as [H4 _].
  destruct (json_float_law _ Hrel) as [Hf1 Hf2]. unfold read_torrent.
  replace (TorrentMetadata_MarshalJSON json_float m ++ r) with
    ((str "{" ++ json_key (str "infoHash") ++ [Byte.x22]) ++
     json_chars 0 true (EncodeToString (tm_InfoHash m)) ++ [Byte.x22] ++
     (str "," ++ json_key (str "id")) ++ fmt_d (tm_ID m) ++ Byte.x2c ::
     (json_key (str "name") ++ [Byte.x22]) ++ json_chars 0 true (tm_Name m) ++ [Byte.x22] ++
     (str "," ++ json_key (str "size")) ++ fmt_d (tm_Size m) ++ Byte.x2c ::
     json_key (str "discoveredOn") ++ fmt_d (tm_DiscoveredOn m) ++ Byte.x2c ::
     json_key (str "nFiles") ++ fmt_d (tm_NFiles m) ++ Byte.x2c ::
     json_key (str "relevance") ++ json_float (tm_Relevance m) ++ Byte.x7d :: r)
    by (unfold TorrentMetadata_MarshalJSON, json_string; by rewrite <- !app_assoc).
  repeat first
    [ rewrite CutPrefix_app; cbn [mbind option_bind]
    | rewrite json_string_roundtrip by (apply hex_valid || done); cbn [mbind option_bind]
    | rewrite read_int by done; cbn [mbind option_bind] ].
  unfold read_number. rewrite read_to_app by done. cbn [mbind option_bind]. by rewrite Hf1.
Qed.

(** The script reads back what the API writes. *)
Lemma JSON_parse_torrents l :
  Forall meta_ok l -> JSON_parse (json_torrents l ++ newline) = Some (map js_of l).
Proof. intros Hl. apply (JSON_list_json _ _ _ meta_ok); [|done..]. intros m r Hm. by apply read_torrent_json. Qed.
End Client.

(** ** All pages *)

Section Pages.
Context {O : Outside} {J : Js} `{!JsLaws O J} {R : Driver} `{!SqliteLaws R}.
Variables (now c : Z) (t : tables) (q : option bytes) (epoch : Z).

(** The API on an SQLite database, as the script sees it. *)
Definition site (rawQuery : bytes) : option (Z * bytes) :=
  match apiTorrents (D := sqlite3Database) now (c, []) t newResponse
          {| r_Path := str "/api/v0.1/torrents"; r_RawQuery := rawQuery; r_Authorization := [];
             r_Vars := [] |} with
  | Ret w => Some (default 200 (w_status w), w_body w)
  | Panic => None
  end.

Definition text : bytes := default [] q.
Definition searching : bool := negb (bool_decide (text = [])).
(** Best matches first, or most recent first. *)
Definition criterion : OrderingCriteria := if searching then ByRelevance else ByDiscoveredOn.
Definition row_key : torrentRow -> key := sort_key (fts_rank t) (file_rows t) text criterion.
Definition results : list torrentRow := fitting (fts_rank t) (torrent_rows t) text epoch.
Definition item (r : torrentRow) : jsTorrent := js_of (metadata_of t text r).

Definition showable (r : torrentRow) : Prop :=
  ValidString (tr_name r) = true /\ tr_id r <= 2 ^ 53 /\ tr_total_size r <= 2 ^ 53 /\
  n_files (file_rows t) r <= 2 ^ 53 /\ (searching = true -> double (relevance (fts_rank t) text r)).

Hypothesis Hwf : wf t.
Hypothesis Hepoch : 0 < epoch < 2 ^ 63.
Hypothesis Hsyntax : searching = true -> fts_syntax text = true.
Hypothesis Hrows : Forall showable results.

Definition state (u : list torrentRow) (more : bool) : client :=
  {| c_query := q; c_epoch := epoch;
     c_orderBy := if searching then str "RELEVANCE" else str "DISCOVERED_ON";
     c_ascending := if searching then None else Some false;
     c_lastOrderedValue := (fun r => (row_key r).1) <$> last u;
     c_lastID := (fun r => QArith_base.inject_Z (row_key r).2) <$> last u;
     c_shown := map item u; c_more := more |}.

Lemma showable_meta r : r ∈ results -> meta_ok (metadata_of t text r).
Proof.
  intros Hr. pose proof Hrows as Hs. rewrite Forall_forall in Hs.
  destruct (Hs r Hr) as (H1 & H2 & H3 & Hn & H4). unfold results, fitting in Hr.
  apply list_elem_of_filter in Hr as [_ Hr]. pose proof (wf_rows t Hwf) as Hw.
  rewrite Forall_forall in Hw. destruct (Hw r Hr) as (Hi & Hz & Hd & _). unfold modifiedDefault in Hd.
  pose proof (len_nonneg (files_of (file_rows t) (tr_id r))). fold (n_files (file_rows t) r) in *.
  split_and!; [done| |].
  - cbn [tm_Relevance metadata_of]. unfold searching in H4. case_bool_decide; [by apply double_int|by apply H4].
  - cbn. repeat constructor; lia.
Qed.

Lemma row_key_ok r : r ∈ results -> key_ok (row_key r).
Proof.
  intros Hr. destruct (showable_meta r Hr) as (_ & Hd & Hn).
  apply Forall_cons in Hn as [H1 Hn]. apply Forall_cons in Hn as [_ Hn].
  apply Forall_cons in Hn as [H3 _]. cbn in H1, H3.
  unfold results, fitting in Hr. apply list_elem_of_filter in Hr as [_ Hr].
  pose proof (wf_rows t Hwf) as Hw. rewrite Forall_forall in Hw. destruct (Hw r Hr) as (Hi & _).
  unfold row_key, sort_key, criterion, searching. cbn in Hd. split; cbn [snd]; [|lia].
  case_bool_decide; [by apply double_int|done].
Qed.

Lemma results_distinct : distinct_ids row_key results.
Proof. apply distinct_ids_filter. apply (wf_keys t Hwf). Qed.

Lemma pageData_state u :
  requestData (state u true) = pageData q epoch (row_key <$> last u)
    (if searching then str "RELEVANCE" else str "DISCOVERED_ON") (if searching then None else Some false).
Proof. unfold requestData, pageData, state. by destruct (last u). Qed.

Lemma pageData_paired pos ob asc :
  (forall k, pos = Some k -> key_ok k) -> paired (present (pageData q epoch pos ob asc)).
Proof.
  intros Hp. unfold paired. destruct pos as [[v id]|].
  - destruct (Hp _ eq_refl) as [Hv Hid].
    pose proof (text_law _ Hv). pose proof (text_law (QArith_base.inject_Z id) ltac:(apply double_int; simpl in *; lia)).
    destruct q, asc; cbn; split; by intros.
  - destruct q, asc; done.
Qed.

(** The rows of the next page. *)
Lemma listing_page u v q' ob :
  ordered row_key searching results = u ++ v -> default [] q' = default [] q ->
  listing now t (pageQuery q' epoch (row_key <$> last u) ob (if searching then None else Some false)) criterion =
  map (metadata_of t text) (take 20 v).
Proof.
  intros HL Hq'. unfold listing. change (query_of (pageQuery q' ?a ?b ?d ?e)) with (default [] q').
  change (tq_pos (pageQuery q' epoch (row_key <$> last u) ob ?e))
    with (match fst <$> (row_key <$> last u), snd <$> (row_key <$> last u) with
          | Some v, Some id => Some (v, id) | _, _ => None end).
  replace (match fst <$> (row_key <$> last u), snd <$> (row_key <$> last u) with
          | Some v, Some id => Some (v, id) | _, _ => None end) with (row_key <$> last u)
    by (by destruct (last u)).
  rewrite Hq'. fold text. f_equal. rewrite <- (page_next row_key searching results u v 20 results_distinct HL).
  unfold select, results, row_key. f_equal. cbn [tq_Ascending pageQuery]. by destruct searching.
Qed.

(** What the site answers when the rows [u] are shown and [v] are not. *)
Lemma site_page u v :
  ordered row_key searching results = u ++ v ->
  exists w, site (encodeQueryData (requestData (state u true))) = Some (200, w) /\
    JSON_parse w = Some (map item (take 20 v)).
Proof.
  intros HL. rewrite pageData_state. set (ob := if searching then str "RELEVANCE" else _).
  assert (forall r, r ∈ u ++ v -> r ∈ results) as Hin by (intros r Hr; by rewrite <- HL, ordered_perm in Hr).
  assert (forall k, row_key <$> last u = Some k -> key_ok k) as Hk.
  { intros k Hk. destruct (last u) as [r|] eqn:El; [|done]. injection Hk as <-.
    apply row_key_ok, Hin, elem_of_app. left. by apply last_Some_elem_of. }
  destruct (schema_law q epoch (row_key <$> last u) ob (if searching then None else Some false) Hepoch Hk)
    as (q' & Hq' & Hs); [subst ob; by destruct searching|].
  unfold site. erewrite (apiTorrents_run now c t _ _ _ criterion (if searching then str "idx.rank" else str "discovered_on")).
  - cbn [respondJSON Write WriteHeader Header_Set newResponse w_status w_body app].
    eexists. split; [done|]. rewrite (listing_page u v) by done. rewrite JSON_parse_torrents; [by rewrite map_map|].
    apply Forall_forall. intros m Hm. apply list_elem_of_fmap in Hm as (r & -> & Hr).
    apply showable_meta, Hin, elem_of_app. right. by eapply subseteq_take.
  - done.
  - cbn [r_RawQuery]. rewrite ParseQuery_encoded. by apply pageData_paired.
  - cbn [r_RawQuery]. rewrite ParseQuery_encoded. exact Hs.
  - intros e [= <-]. apply Hepoch.
  - unfold order_of, criterion. subst ob. cbn [tq_OrderBy pageQuery]. by destruct searching.
  - unfold criterion. by destruct searching.
  - unfold query_ok, criterion. change (query_of (pageQuery q' ?a ?b ?d ?e)) with (default [] q').
    rewrite Hq'. fold text. revert Hsyntax. unfold searching. case_bool_decide; simpl; [by left|right; auto].
  - done.
  - split; [by destruct (last u)|]. intros id Hid. cbn [tq_LastID pageQuery] in Hid.
    destruct (last u) as [r|]; [|done]. injection Hid as <-. destruct (Hk (row_key r) eq_refl) as [_ [H1 H2]].
    split; [exact H1|]. eapply Z.le_lt_trans; [exact H2|done].
Qed.

Lemma ordered_item r :
  orderedValue (if searching then str "RELEVANCE" else str "DISCOVERED_ON") (item r) = Some (row_key r).1 /\
  js_id (item r) = QArith_base.inject_Z (row_key r).2.
Proof.
  split; [|done]. unfold row_key, sort_key, item, js_of, metadata_of, criterion, searching.
  by destruct (bool_decide (text = [])).
Qed.

Lemma load_state u v :
  ordered row_key searching results = u ++ v ->
  load site (state u true) = if decide (v = []) then state u false else state (u ++ take 20 v) true.
Proof.
  intros HL. destruct (site_page u v HL) as (w & Hw & Hp). unfold load. rewrite Hw, Hp, fmap_last.
  case_decide as Hv; [by subst|]. destruct (last (take 20 v)) as [r|] eqn:El.
  - cbn [fmap option_fmap option_map]. unfold state. cbn [c_orderBy c_query c_epoch c_ascending c_shown].
    destruct (ordered_item r) as [-> ->]. by rewrite last_app, El, map_app.
  - apply last_None in El. by destruct v.
Qed.

Lemma load_all_state n u v :
  ordered row_key searching results = u ++ v -> (length v < n)%nat ->
  load_all site n (state u true) = state (u ++ v) false.
Proof.
  revert u v. induction n as [|n IH]; intros u v HL Hn; [lia|]. cbn [load_all c_more state].
  rewrite (load_state u v HL). case_decide as Hv.
  - subst. rewrite app_nil_r. by destruct n.
  - rewrite (IH (u ++ take 20 v) (drop 20 v)), <- app_assoc, take_drop; [done|..].
    + by rewrite <- app_assoc, take_drop.
    + rewrite length_drop. destruct v; [done|]. simpl in *. lia.
Qed.

(** C5. The page that lists torrents shows every torrent that fits the search
    (or every torrent, without one) exactly once, best matches or most recent
    first, when its button is pressed until there are no more results: query
    string, access to the database, JSON and the position the script remembers
    fit together. This is for valid names, and numbers that doubles hold. *)
Theorem client_shows_all n :
  (length results < n)%nat ->
  let page := load_all site n (onload q epoch) in
  c_more page = false /\ c_shown page = map item (ordered row_key searching results).
Proof.
  intros Hn. cbv zeta. change (onload q epoch) with (state [] true).
  rewrite (load_all_state n [] (ordered row_key searching results)); [done..|].
  by rewrite ordered_perm.
Qed.
End Pages.
