(* ===== verification/Live.v ===== *)
(** Browsing while the daemon works: torrents.js asks for one page after the
    other while calls of AddNewTorrent change the database between the
    requests. The epoch that the script sends keeps its pages consistent. *)

From S2P Require Import Prelude GoLib Encoding HttpLib Persistence Sql Keyset TorrentTables Sqlite3 Sqlite3Laws Sqlite3Props Outputs Credentials Web WebProps Client.
From Stdlib Require Import ZArith Lia.
From stdpp Require Import base list gmap relations.
Local Open Scope Z_scope.

(** The button is pressed once per server, while there is more; the servers are
    the site at the times of the requests. *)
Fixpoint load_live {J : Js} (servers : list (bytes -> option (Z * bytes))) (c : client) : client :=
  match servers with
  | [] => c
  | server :: servers => if c_more c then load_live servers (load server c) else c
  end.

Section Live.
Context {O : Outside} {J : Js} `{!JsLaws O J} {R : Driver} `{!SqliteLaws R}.
Variables (q : option bytes) (epoch : Z).

(** A call of AddNewTorrent after the epoch, whatever it does. *)
Definition adds (t t' : tables) : Prop :=
  exists now ih name files o r,
    epoch < now /\ run (sqlite3_AddNewTorrent now ih name files) t o = (t', r).

(** The databases at the times of the requests: before each of them AddNewTorrent
    has been called any number of times. *)
Fixpoint evolves (t : tables) (moments : list (Z * tables)) : Prop :=
  match moments with
  | [] => True
  | (_, t') :: moments => rtc adds t t' /\ evolves t' moments
  end.

(** What such calls can change. *)
Record grown (t t' : tables) : Prop := {
  gr_wf : wf t';
  gr_rows : exists rs, torrent_rows t' = torrent_rows t ++ rs /\
    Forall (fun r => epoch < tr_modified_on r) rs;
  gr_files : exists fs, file_rows t' = file_rows t ++ fs /\
    Forall (fun f => fr_torrent_id f ∉ map tr_id (torrent_rows t)) fs }.

Lemma grown_refl t : wf t -> grown t t.
Proof. intros Hw. split; [done|exists []|exists []]; by rewrite app_nil_r. Qed.

Lemma grown_trans t1 t2 t3 : grown t1 t2 -> grown t2 t3 -> grown t1 t3.
Proof.
  intros [_ (rs & Hr & Hrs) (fs & Hf & Hfs)] [Hw (rs' & Hr' & Hrs') (fs' & Hf' & Hfs')].
  split; [done|exists (rs ++ rs')|exists (fs ++ fs')].
  - rewrite Hr', Hr, app_assoc. split; [done|by apply Forall_app_2].
  - rewrite Hf', Hf, app_assoc. split; [done|]. apply Forall_app_2; [done|].
    eapply Forall_impl; [exact Hfs'|]. intros f Hn Hin. apply Hn. rewrite Hr, map_app.
    apply elem_of_app. by left.
Qed.

Lemma adds_grown t t' : wf t -> adds t t' -> grown t t'.
Proof.
  intros Hw (now & ih & name & files & o & r & Hnow & H).
  destruct (run_Add now ih name files t o Hw) as (t1 & c' & r' & H1 & Hc & Ho).
  rewrite H1 in H. injection H as <- _.
  destruct Ho as [Hs _|e Hs _|Hadd]; cbn [committed connect_to] in *;
    [rewrite <- Hc, Hs; by apply grown_refl..|].
  rewrite Hc in Hadd. pose proof (added_wf _ _ _ _ _ _ Hw Hadd) as Hw'.
  destruct Hadd as (id & _ & Hid & _ & _ & _ & Hr & Hf). split; [done|eexists; split; [exact Hr|]|eexists; split; [exact Hf|]].
  - by apply Forall_singleton.
  - by apply Forall_map, Forall_true.
Qed.

Lemma evolves_grown t t' : wf t -> rtc adds t t' -> grown t t'.
Proof.
  intros Hw H. induction H as [t|t t1 t' H _ IH]; [by apply grown_refl|].
  apply adds_grown in H; [|done]. eapply grown_trans; [done|]. by apply IH, H.
Qed.

(** ** What the script sees does not change *)

Hypothesis Hbrowse : text q = [].

Lemma not_searching : searching q = false.
Proof. unfold searching. by rewrite Hbrowse. Qed.

Lemma results_eq t : results t q epoch = filter (fun r => tr_modified_on r <= epoch) (torrent_rows t).
Proof.
  unfold results, fitting. apply list_filter_iff. intros r. unfold fits. rewrite Hbrowse, andb_true_r.
  apply Z.leb_le.
Qed.

Lemma results_grown t t' : grown t t' -> results t' q epoch = results t q epoch.
Proof.
  intros [_ (rs & Hr & Hrs) _]. rewrite !results_eq, Hr, filter_app, (filter_none _ rs), app_nil_r; [done|].
  eapply Forall_impl; [exact Hrs|]. cbn. lia.
Qed.

Lemma row_key_grown t t' r : row_key t' q r = row_key t q r.
Proof. unfold row_key, criterion. by rewrite not_searching. Qed.

Lemma n_files_grown t t' r :
  grown t t' -> r ∈ torrent_rows t -> n_files (file_rows t') r = n_files (file_rows t) r.
Proof.
  intros [_ _ (fs & Hf & Hfs)] Hr. unfold n_files. rewrite Hf, files_of_app.
  replace (files_of fs (tr_id r)) with (@nil fileRow); [by rewrite app_nil_r|].
  symmetry. apply filter_none. eapply Forall_impl; [exact Hfs|]. intros f Hn E. apply Hn. rewrite E.
  apply list_elem_of_fmap. by exists r.
Qed.

Lemma item_grown t t' r : grown t t' -> r ∈ torrent_rows t -> item t' q r = item t q r.
Proof.
  intros Hg Hr. unfold item, metadata_of. rewrite Hbrowse. do 2 f_equal.
  by apply n_files_grown.
Qed.

Lemma results_rows t r : r ∈ results t q epoch -> r ∈ torrent_rows t.
Proof. rewrite results_eq. by intros [_ H]%list_elem_of_filter. Qed.

Lemma state_grown t t' u more :
  grown t t' -> (forall r, r ∈ u -> r ∈ results t q epoch) -> state t' q epoch u more = state t q epoch u more.
Proof.
  intros Hg Hu. unfold state. f_equal.
  - destruct (last u); [|done]. cbn [fmap option_fmap option_map].
    by rewrite (row_key_grown t t').
  - apply map_ext_in. intros r Hr%list_elem_of_In. apply item_grown; [done|]. by apply results_rows, Hu.
Qed.

Lemma ordered_grown t t' :
  grown t t' ->
  ordered (row_key t' q) (searching q) (results t' q epoch) =
  ordered (row_key t q) (searching q) (results t q epoch).
Proof.
  intros Hg. rewrite (results_grown t t' Hg). unfold row_key, criterion. by rewrite not_searching.
Qed.

Lemma showable_grown t t' :
  grown t t' -> Forall (showable t q) (results t q epoch) -> Forall (showable t' q) (results t' q epoch).
Proof.
  intros Hg H. rewrite (results_grown t t' Hg), Forall_forall in *. intros r Hr.
  destruct (H r Hr) as (H1 & H2 & H3 & H4 & _). unfold showable.
  rewrite (n_files_grown t t') by (done || by apply results_rows). split_and!; try done.
  by rewrite not_searching.
Qed.

(** ** The pages *)

Hypothesis Hepoch : 0 < epoch < 2 ^ 63.

Lemma load_live_state t0 moments t u v :
  grown t0 t -> Forall (showable t0 q) (results t0 q epoch) -> evolves t moments ->
  ordered (row_key t0 q) (searching q) (results t0 q epoch) = u ++ v -> (length v < length moments)%nat ->
  load_live (map (fun m => site m.1 m.1 m.2) moments) (state t0 q epoch u true) = state t0 q epoch (u ++ v) false.
Proof.
  revert t u v. induction moments as [|[now t'] moments IH]; intros t u v Hg Hs Hev HL Hn; [cbn in Hn; lia|].
  destruct Hev as [Hsteps Hev].
  assert (grown t0 t') as Hg' by (eapply grown_trans, evolves_grown; [done|apply Hg|done]).
  assert (forall r, r ∈ u ++ v -> r ∈ results t0 q epoch) as Hin by (intros r Hr; by rewrite <- HL, ordered_perm in Hr).
  cbn [map load_live c_more state]. cbn [fst snd].
  rewrite <- (state_grown t0 t' u true Hg') by (intros r Hr; apply Hin, elem_of_app; by left).
  rewrite (load_state now now t' q epoch (gr_wf _ _ Hg') Hepoch) with (v := v).
  - case_decide as Hv.
    + subst v. rewrite app_nil_r, (state_grown t0 t') by (done || intros r Hr; apply Hin, elem_of_app; by left).
      by destruct moments as [|[]].
    + rewrite (state_grown t0 t'); [|done|].
      2:{ intros r Hr. apply Hin. rewrite elem_of_app in *. destruct Hr as [Hr|Hr]; [by left|right].
          by eapply subseteq_take. }
      rewrite (IH t' (u ++ take 20 v) (drop 20 v)), <- app_assoc, take_drop; try done.
      * by rewrite <- app_assoc, take_drop.
      * rewrite length_drop. destruct v; [done|]. cbn in *. lia.
  - by rewrite not_searching.
  - by apply (showable_grown t0).
  - by rewrite (ordered_grown t0 t' Hg').
Qed.

(** C6. Browsing is stable while the daemon works: when the list of recent
    torrents is paged through and torrents are added, or fail to be added,
    between the requests by a clock that is past the time the page was opened,
    the page shows every torrent discovered by that time exactly once, most
    recent first, as if nothing had been added. *)
Theorem client_live t0 moments :
  wf t0 -> Forall (showable t0 q) (results t0 q epoch) -> evolves t0 moments ->
  (length (results t0 q epoch) < length moments)%nat ->
  let page := load_live (map (fun m => site m.1 m.1 m.2) moments) (onload q epoch) in
  c_more page = false /\
  c_shown page = map (item t0 q) (ordered (row_key t0 q) false (results t0 q epoch)).
Proof.
  intros Hw Hs Hev Hn. cbv zeta.
  assert (onload q epoch = state t0 q epoch [] true) as ->.
  { unfold onload, state. fold (text q). fold (searching q). by rewrite not_searching. }
  rewrite (load_live_state t0 moments t0 [] (ordered (row_key t0 q) (searching q) (results t0 q epoch)));
    [|by apply grown_refl|done..|by rewrite ordered_perm].
  by rewrite not_searching.
Qed.
End Live.
