(* ===== verification/StatsPage.v ===== *)
(** cmd/magneticow/data/static/scripts/statistics.js and getWeek of common.js:
    the request of the statistics page, from the browser's clock to the period
    the database is asked for. *)

From S2P Require Import Prelude GoLib GoTime Iso8601 Encoding HttpLib Persistence Sql Keyset TorrentTables Sqlite3 Sqlite3Laws Sqlite3Props Sqlite3Model Outputs Credentials Web WebProps Client.
From Stdlib Require Import ZArith Lia.
From stdpp Require Import base list gmap.
Local Open Scope Z_scope.

(** ** Numbers and dates of the browser

    A number is an integer or NaN ([None]); a Date is its time value in
    milliseconds, NaN for an invalid one. *)
Abbreviation num := (option Z).

Definition numText (x : num) : bytes := match x with Some z => fmt_d z | None => str "NaN" end.

(** TimeClip. *)
Definition newDate (ms : num) : num :=
  match ms with Some t => if Z.abs t <=? 8640000000000000 then Some t else None | None => None end.

(** The UTC fields of a time value. *)
Definition day_of (ms : Z) : Z := ms / 86400000.
Definition year_of (ms : Z) : Z := (year_day (day_of ms + 719162)).1.
Definition utcFullYear (ms : Z) : Z := (civil (ms / 1000)).1.1.
Definition utcMonth (ms : Z) : Z := (civil (ms / 1000)).1.2 - 1.
Definition utcDate (ms : Z) : Z := (civil (ms / 1000)).2.
Definition utcHours (ms : Z) : Z := ms / 1000 mod 86400 / 3600.

(** The time zone: getTimezoneOffset in minutes at a time value, and
    [new Date(y, 0, 1)], the local midnight that begins a year from 100 on. *)
Class Zone := {
  timezoneOffset : Z -> Z;
  newYear : Z -> Z;
  newYear_law y : 100 <= y ->
    newYear y - timezoneOffset (newYear y) * 60000 = date_days y 1 1 * 86400000 }.

Section Scripts.
Context {zone : Zone}.

(** The local fields are the UTC fields of the shifted time value. *)
Definition local (ms : Z) : Z := ms - timezoneOffset ms * 60000.
Definition getFullYear (ms : Z) : Z := year_of (local ms).
Definition getDay (ms : Z) : Z := (day_of (local ms) + 4) mod 7.

(** ** common.js: getWeek

    The script is strict, so the assignment to the undeclared [nYear] throws;
    an exception is [Panic]. *)
Definition getWeek (date : num) : go num :=
  match date with
  | None => Ret None
  | Some t =>
      let first := newYear (getFullYear t) in
      let day := getDay first - 1 in
      let day := if 0 <=? day then day else day + 7 in
      let daynum := (t - first - (timezoneOffset t - timezoneOffset first) * 60000) / 86400000 + 1 in
      if day <? 4 then
        let weeknum := (daynum + day - 1) / 7 + 1 in
        if 52 <? weeknum then Panic else Ret (Some weeknum)
      else Ret (Some ((daynum + day - 1) / 7))
  end.

(** ** statistics.js *)

Definition unit2seconds (u : bytes) : num :=
  if bool_decide (u = str "hours") then Some 3600
  else if bool_decide (u = str "days") then Some 86400
  else if bool_decide (u = str "weeks") then Some 604800
  else if bool_decide (u = str "months") then Some 2592000
  else if bool_decide (u = str "years") then Some 31536000
  else None.

(** With its default arguments: at least two characters, padded with zeros. *)
Definition leftpad (x : num) : bytes :=
  let xs := numText x in replicate (2 - length xs) Byte.x30 ++ xs.

Definition fromDate (now : Z) (n : num) (unit : bytes) : num :=
  newDate (n ← n; s ← unit2seconds unit; Some (now - n * s * 1000)).

Definition fromString (now : Z) (n : num) (unit : bytes) : go bytes :=
  let from := fromDate now n unit in
  let year := numText (utcFullYear <$> from) in
  if bool_decide (unit = str "years") then Ret year
  else if bool_decide (unit = str "weeks") then
    (let! week := getWeek from in Ret (year ++ str "-W" ++ leftpad week))%go
  else
    let month := year ++ str "-" ++ leftpad ((fun t => utcMonth t + 1) <$> from) in
    if bool_decide (unit = str "months") then Ret month
    else
      let day := month ++ str "-" ++ leftpad (utcDate <$> from) in
      if bool_decide (unit = str "days") then Ret day
      else Ret (day ++ str "T" ++ leftpad (utcHours <$> from)).

(** The query of the request that load sends; [Panic] if no request is sent. *)
Definition statsQuery (now : Z) (n : num) (unit : bytes) : go bytes :=
  (let! from := fromString now n unit in
   Ret (encodeQueryData [(str "from", Some from); (str "n", Some (numText n))]))%go.

(** ** The ISO 8601 week

    Weeks begin on Monday and belong to the year of their Thursday. *)
Definition iso_week (day : Z) : Z * Z :=
  let thursday := day - (day + 3) mod 7 + 3 in
  let '(y, yday) := year_day (thursday + 719162) in (y, yday / 7 + 1).

Lemma days_before_year_mono y y' : y <= y' -> days_before_year y <= days_before_year y'.
Proof. intros H. unfold days_before_year. Z.to_euclidean_division_equations; lia. Qed.

Lemma year_day_unique y r :
  0 <= r < (if leap y then 366 else 365) -> year_day (days_before_year y + r) = (y, r).
Proof.
  intros Hr. pose proof (year_day_spec (days_before_year y + r)) as H.
  destruct (year_day _) as [y' r']. destruct H as [Hd Hr']. pose proof (leap_spec y). pose proof (leap_spec y').
  destruct (Z.lt_trichotomy y y') as [Hlt|[<-|Hlt]].
  - pose proof (days_before_year_mono (y + 1) y' ltac:(lia)). lia.
  - f_equal; lia.
  - pose proof (days_before_year_mono (y' + 1) y ltac:(lia)). lia.
Qed.

(** The weekday of January 1, Monday being 0. *)
Definition first_weekday (y : Z) : Z := (date_days y 1 1 + 3) mod 7.

(** The Thursday of a day's week, as an offset into the year. *)
Lemma iso_week_offset y k :
  let a := first_weekday y in
  let q := (k + a) / 7 in
  iso_week (date_days y 1 1 + k) =
  let '(y', yday) := year_day (days_before_year y + (7 * q - a + 3)) in (y', yday / 7 + 1).
Proof.
  intros a q. unfold iso_week.
  assert (date_days y 1 1 = days_before_year y - 719162) as E.
  { unfold date_days. change ((1 - 1) / 12) with 0. change ((1 - 1) mod 12) with 0.
    rewrite days_before_month_0. replace (y + 0) with y by lia. lia. }
  replace (date_days y 1 1 + k - (date_days y 1 1 + k + 3) mod 7 + 3 + 719162)
    with (days_before_year y + (7 * q - a + 3)); [done|].
  rewrite E in *. subst q a. unfold first_weekday. rewrite E.
  Z.to_euclidean_division_equations; lia.
Qed.

Lemma local_year t :
  let y := getFullYear t in
  let k := day_of (local t) - date_days y 1 1 in
  0 <= k < (if leap y then 366 else 365).
Proof.
  intros y k. pose proof (year_day_spec (day_of (local t) + 719162)) as H.
  subst k. assert (y = (year_day (day_of (local t) + 719162)).1) as E by done. clearbody y.
  destruct (year_day _) as [y' r]. cbn [fst] in E. subst y'. destruct H as [Hd Hr].
  unfold date_days. change ((1 - 1) / 12) with 0. change ((1 - 1) mod 12) with 0.
  rewrite days_before_month_0, !Z.add_0_r. lia.
Qed.

(** getWeek in terms of the day of the year. *)
Lemma getWeek_offset t :
  let y := getFullYear t in
  let a := first_weekday y in
  let k := day_of (local t) - date_days y 1 1 in
  100 <= y ->
  getWeek (Some t) =
  if a <? 4 then if 52 <? (k + a) / 7 + 1 then Panic else Ret (Some ((k + a) / 7 + 1))
  else Ret (Some ((k + a) / 7)).
Proof.
  intros y a k Hy. unfold getWeek. fold y. cbv zeta.
  pose proof (newYear_law y Hy) as Hn. set (f := newYear y) in *.
  assert (getDay f = (date_days y 1 1 + 4) mod 7) as ->.
  { unfold getDay, local, day_of. rewrite Hn, Z.div_mul by lia. done. }
  assert ((t - f - (timezoneOffset t - timezoneOffset f) * 60000) / 86400000 + 1 = k + 1) as ->.
  { subst k. unfold day_of, local.
    replace (t - f - (timezoneOffset t - timezoneOffset f) * 60000)
      with (t - timezoneOffset t * 60000 + - date_days y 1 1 * 86400000) by lia.
    rewrite Z.div_add by lia. lia. }
  assert ((if 0 <=? (date_days y 1 1 + 4) mod 7 - 1 then (date_days y 1 1 + 4) mod 7 - 1
           else (date_days y 1 1 + 4) mod 7 - 1 + 7) = a) as ->.
  { subst a. unfold first_weekday.
    destruct (Z.leb_spec 0 ((date_days y 1 1 + 4) mod 7 - 1)); Z.to_euclidean_division_equations; lia. }
  by replace (k + 1 + a - 1) with (k + a) by lia.
Qed.

(** C29. getWeek against its documentation ("the ISO 8601 week number"): for the
    days of the weeks 1 to 52 of their own year it is that number. In a week 53
    it throws, since the variable it assigns is not declared. On the days
    before the first week it is 0, and on those that belong to the first week of
    the next year it throws or, in a leap year that begins on a Sunday, is 53. *)
Theorem getWeek_iso t :
  100 <= getFullYear t ->
  let y := getFullYear t in
  let '(year, week) := iso_week (day_of (local t)) in
  getWeek (Some t) =
  if year =? y then if week =? 53 then Panic else Ret (Some week)
  else if year <? y then Ret (Some 0)
  else if first_weekday y =? 6 then Ret (Some 53) else Panic.
Proof.
  intros Hy y. pose proof (local_year t) as Hk. rewrite (getWeek_offset t Hy). fold y in Hk |- *.
  cbv zeta in Hk. set (k := day_of (local t) - date_days y 1 1) in *.
  replace (day_of (local t)) with (date_days y 1 1 + k) by lia. rewrite iso_week_offset. cbv zeta.
  assert (0 <= first_weekday y < 7) as Ha by (apply Z.mod_pos_bound; lia).
  set (a := first_weekday y) in *. set (q := (k + a) / 7).
  assert (7 * q <= k + a < 7 * q + 7) as Hq by (subst q; Z.to_euclidean_division_equations; lia).
  pose proof (leap_spec y) as Hl. pose proof (leap_spec (y - 1)) as Hl'. replace (y - 1 + 1) with y in Hl' by lia.
  destruct (Z.lt_ge_cases (7 * q - a + 3) 0) as [Hneg|Hpos]; [|destruct (Z.lt_ge_cases (7 * q - a + 3) (if leap y then 366 else 365)) as [Hin|Hout]].
  - replace (days_before_year y + (7 * q - a + 3))
      with (days_before_year (y - 1) + ((if leap (y - 1) then 366 else 365) + (7 * q - a + 3))) by lia.
    rewrite year_day_unique by (destruct (leap (y - 1)); lia).
    rewrite (proj2 (Z.eqb_neq (y - 1) y)), (proj2 (Z.ltb_lt (y - 1) y)), (proj2 (Z.ltb_ge a 4)) by lia.
    do 2 f_equal. lia.
  - rewrite year_day_unique by lia. rewrite Z.eqb_refl. destruct (Z.ltb_spec a 4) as [Hs|Hs].
    + assert ((7 * q - a + 3) / 7 = q) as -> by (Z.to_euclidean_division_equations; lia).
      destruct (Z.ltb_spec 52 (q + 1)), (Z.eqb_spec (q + 1) 53); try done; destruct (leap y); lia.
    + assert ((7 * q - a + 3) / 7 + 1 = q) as -> by (Z.to_euclidean_division_equations; lia).
      rewrite (proj2 (Z.eqb_neq q 53)); [done|]. destruct (leap y); lia.
  - replace (days_before_year y + (7 * q - a + 3))
      with (days_before_year (y + 1) + (7 * q - a + 3 - (if leap y then 366 else 365))) by lia.
    rewrite year_day_unique by (destruct (leap y), (leap (y + 1)); lia).
    rewrite (proj2 (Z.eqb_neq (y + 1) y)), (proj2 (Z.ltb_ge (y + 1) y)) by lia.
    destruct (Z.ltb_spec a 4) as [Hs|Hs].
    + rewrite (proj2 (Z.ltb_lt 52 (q + 1))), (proj2 (Z.eqb_neq a 6)); [done|..]; destruct (leap y); lia.
    + assert (a = 6 /\ q = 53) as [-> ->] by (destruct (leap y); lia). done.
Qed.
End Scripts.

(** ** What the page asks for *)

Lemma pad_small n v : 0 <= v < 10 -> Iso8601.pad (S n) v = replicate n Byte.x30 ++ [digit v].
Proof.
  intros Hv. cbn [Iso8601.pad]. rewrite Z.mod_small by done. f_equal. rewrite Z.div_small by done.
  clear v Hv. induction n as [|n IH]; [done|]. cbn [Iso8601.pad]. rewrite Z.div_0_l, IH by done.
  change (digit (0 mod 10)) with Byte.x30. cbn [replicate]. by rewrite replicate_cons_app.
Qed.

(** Numbers with the right number of digits are printed without padding. *)
Lemma dec_aux_pad fuel n v :
  (n < fuel)%nat -> 10 ^ Z.of_nat n <= v < 10 ^ Z.of_nat (S n) -> dec_aux fuel v = Iso8601.pad (S n) v.
Proof.
  revert n v. induction fuel as [|fuel IH]; intros n v Hf Hv; [lia|]. cbn [dec_aux].
  rewrite (Nat2Z.inj_succ n), Z.pow_succ_r in Hv by lia. destruct n as [|n].
  - change (10 ^ Z.of_nat 0) with 1 in Hv. rewrite (proj2 (Z.ltb_lt v 10)) by lia. by rewrite pad_small by lia.
  - rewrite (Nat2Z.inj_succ n), Z.pow_succ_r in Hv by lia.
    assert (0 < 10 ^ Z.of_nat n) by (apply Z.pow_pos_nonneg; lia).
    rewrite (proj2 (Z.ltb_ge v 10)) by lia.
    rewrite (IH n) by (rewrite ?Nat2Z.inj_succ, ?Z.pow_succ_r by lia; Z.to_euclidean_division_equations; lia).
    done.
Qed.

Lemma fmt_year y : 1000 <= y <= 9999 -> fmt_d y = Iso8601.pad 4 y.
Proof.
  intros H. unfold fmt_d. rewrite (proj2 (Z.ltb_ge y 0)) by lia. apply (dec_aux_pad _ 3).
  - pose proof (Z.log2_le_mono 1000 y ltac:(lia)) as Hl. change (Z.log2 1000) with 9 in Hl. lia.
  - change (Z.of_nat 3) with 3. change (Z.of_nat 4) with 4. lia.
Qed.

Lemma leftpad_two v : 0 <= v <= 99 -> leftpad (Some v) = Iso8601.pad 2 v.
Proof.
  intros H. unfold leftpad, numText, fmt_d. rewrite (proj2 (Z.ltb_ge v 0)) by lia. unfold dec.
  destruct (Z.lt_ge_cases v 10).
  - rewrite (pad_small 1) by lia. cbn [dec_aux]. by rewrite (proj2 (Z.ltb_lt v 10)) by lia.
  - rewrite (dec_aux_pad _ 1); [|pose proof (Z.log2_le_mono 10 v ltac:(lia)) as Hl; change (Z.log2 10) with 3 in Hl; lia|
      change (Z.of_nat 1) with 1; change (Z.of_nat 2) with 2; lia].
    assert (length (Iso8601.pad 2 v) = 2%nat) as -> by apply (pad_field 2 v). done.
Qed.

(** Years of four digits that the parser accepts. *)
Lemma year_bounds s :
  Date 1584 1 1 0 0 0 <= s < Date 10000 1 1 0 0 0 -> 1584 <= (civil s).1.1 <= 9999.
Proof.
  intros H. unfold civil. pose proof (year_day_spec (s / 86400 + 719162)) as Hs.
  destruct (year_day _) as [y r]. destruct Hs as [Hd Hr]. cbn [fst].
  change (Date 1584 1 1 0 0 0) with (days_before_year 1584 * 86400 - 719162 * 86400) in H.
  change (Date 10000 1 1 0 0 0) with (days_before_year 10000 * 86400 - 719162 * 86400) in H.
  pose proof (leap_spec y). split; apply Z.nlt_ge; intros Hy.
  - pose proof (days_before_year_mono (y + 1) 1584 ltac:(lia)). Z.to_euclidean_division_equations; lia.
  - pose proof (days_before_year_mono 10000 y ltac:(lia)). Z.to_euclidean_division_equations; lia.
Qed.

(** The units whose length does not depend on the calendar. *)
Definition exact_unit (unit : bytes) (len : Z) (g : Granularity) : Prop :=
  unit = str "hours" /\ len = 3600 /\ g = Hour \/ unit = str "days" /\ len = 86400 /\ g = Day.

(** The parser's reading of the date the page sends: the last second of the unit
    that holds it. *)
Lemma fromString_parsed {zone : Zone} now n unit len g :
  exact_unit unit len g -> let s := now / 1000 - n * len in
  Date 1584 1 1 0 0 0 <= s < Date 10000 1 1 0 0 0 ->
  exists text, fromString now (Some n) unit = Ret text /\
    ParseISO8601 text = Ret (Ok (s - s mod len + len - 1, g)).
Proof.
  intros Hu s Hs. pose proof (year_bounds s Hs) as Hy. pose proof (civil_spec s) as Hc.
  assert (unit2seconds unit = Some len) as El by (by destruct Hu as [(-> & -> & _)|(-> & -> & _)]).
  assert ((now - n * len * 1000) / 1000 = s) as E.
  { subst s. replace (now - n * len * 1000) with (now + - (n * len) * 1000) by lia.
    rewrite Z.div_add by lia. lia. }
  assert (fromDate now (Some n) unit = Some (now - n * len * 1000)) as Hf.
  { unfold fromDate. rewrite El. cbn [mbind option_bind newDate]. rewrite (proj2 (Z.leb_le _ _)); [done|].
    change (Date 1584 1 1 0 0 0) with (-12181017600) in Hs. change (Date 10000 1 1 0 0 0) with 253402300800 in Hs.
    Z.to_euclidean_division_equations; lia. }
  unfold fromString. rewrite Hf. cbn [fmap option_fmap option_map].
  unfold utcFullYear, utcMonth, utcDate, utcHours. rewrite E.
  destruct (civil s) as [[y m] d]. cbn [fst snd] in *. destruct Hc as (Hm & Hd & HD).
  pose proof (days_in_bound y m Hm) as Hdi. pose proof (Z.mod_pos_bound s 86400 ltac:(lia)) as Hmod.
  assert (0 <= s mod 86400 / 3600 <= 23) as Hh by (Z.to_euclidean_division_equations; lia).
  unfold Date in HD. replace (m - 1 + 1) with m by lia. cbn [numText].
  rewrite fmt_year, !leftpad_two by lia.
  destruct Hu as [(-> & -> & ->)|(-> & -> & ->)]; (eexists; split; [reflexivity|]).
  - match goal with |- ParseISO8601 ?x = _ => replace x with (print (IsoHour y m d (s mod 86400 / 3600))) end.
    + rewrite parse_valid by (cbn; lia). do 4 f_equal. cbn [instant]. unfold Date.
      Z.to_euclidean_division_equations; lia.
    + cbn [print build hourItems]. by rewrite app_nil_r, <- !app_assoc.
  - match goal with |- ParseISO8601 ?x = _ => replace x with (print (IsoDay y m d)) end.
    + rewrite parse_valid by (cbn; lia). do 4 f_equal. cbn [instant]. unfold Date.
      Z.to_euclidean_division_equations; lia.
    + cbn [print build dayItems]. by rewrite app_nil_r, <- !app_assoc.
Qed.

Lemma ParseInt10_narrow s v : ParseInt10 s 64 = Ok v -> - 2 ^ 31 <= v < 2 ^ 31 -> ParseInt10 s 32 = Ok v.
Proof.
  unfold ParseInt10. destruct (match s with [] => _ | _ => _ end) as [neg body].
  destruct (_ || _); [done|]. intros H Hv. change (32 - 1) with 31. cbv zeta in *.
  destruct neg; revert H; case_match; intros [= <-]; [rewrite (proj2 (Z.leb_le _ _)) by lia|
    rewrite (proj2 (Z.ltb_lt _ _)) by lia]; done.
Qed.

(** A request for the statistics with the query of the page. *)
Definition stats_request (q : bytes) : Request :=
  {| r_Path := str "/api/v0.1/statistics"; r_RawQuery := q; r_Authorization := []; r_Vars := [] |}.

(** From the browser's clock to the database: for the last [n] hours or days
    the page sends a request that the API accepts, whose period begins less
    than one unit after [n] units ago and ends at the end of the unit that is
    running; the answer holds exactly the numbers of the database for the
    labels of that period. *)
Lemma statistics_request {zone : Zone} {O : Outside} {R : Driver} now n unit len g t w :
  exact_unit unit len g -> 0 < n < 2 ^ 31 -> (g = Hour -> n <= 2562047) ->
  let s := now / 1000 in
  Date 1584 1 1 0 0 0 <= s - n * len < Date 10000 1 1 0 0 0 ->
  exists q from to,
    statsQuery now (Some n) unit = Ret q /\
    s - n * len <= from < s - n * len + len /\ s <= to < s + len /\ to = from + n * len /\
    forall l,
      query t (selectStatistics (time_format g)) [VInt from; VInt to] = Ok (map stats_values l) ->
      NoDup (map stats_label l) ->
      Forall (fun x => let '(dT, tS, nD, nF) := x in 0 <= tS /\ 0 <= nD /\ 0 <= nF) l ->
      apiStatistics (D := sqlite3Database) (s, []) t w (stats_request q) =
        Ret (respondJSON w (json_statistics (stats_of l))).
Proof.
  intros Hu Hn Hh s Hs. destruct (fromString_parsed now n unit len g Hu Hs) as (text & Ht & Hp). fold s in Hp.
  assert (0 < len) as Hlen by (by destruct Hu as [(_ & -> & _)|(_ & -> & _)]).
  pose proof (Z.mod_pos_bound (s - n * len) len Hlen) as Hm. set (m := (s - n * len) mod len) in *.
  eexists _, (s - n * len - m + len - 1), (s - m + len - 1). unfold statsQuery. rewrite Ht.
  split_and!; [reflexivity|lia..|].
  intros l Hq Hl Hf. eapply apiStatistics_run; try done.
  - cbn [r_RawQuery stats_request]. rewrite ParseQuery_encoded. exact Hp.
  - cbn [r_RawQuery stats_request]. rewrite ParseQuery_encoded. change (Values_Get _ _) with (fmt_d n).
    apply ParseInt10_narrow; [apply ParseInt10_fmt_d|]; lia.
  - rewrite <- Hq. do 4 f_equal. unfold period_end. destruct (civil _) as [[? ?] ?].
    destruct Hu as [(_ & -> & ->)|(_ & -> & ->)]; lia.
Qed.

(** ** Witnesses: a browser in UTC *)

#[global] Program Instance utc : Zone := {| timezoneOffset _ := 0; newYear y := date_days y 1 1 * 86400000 |}.
Next Obligation. intros y _. cbn. lia. Qed.

(** January 1, 2021 is a Friday of week 53 of 2020. *)
Lemma getWeek_iso_witness :
  iso_week (day_of 1609459200000) = (2020, 53) /\ getWeek (Some 1609459200000) = Ret (Some 0).
Proof.
  pose proof (getWeek_iso (zone := utc) 1609459200000) as H.
  assert (iso_week (day_of 1609459200000) = (2020, 53)) as E by (vm_compute; reflexivity).
  split; [exact E|]. change (local (zone := utc) 1609459200000) with 1609459200000 in H.
  rewrite E in H. rewrite H by (vm_compute; discriminate). vm_compute. reflexivity.
Defined.
