(* ===== verification/StatsPlot.v ===== *)
(** cmd/magneticow/data/static/scripts/statistics.js: the answer of the
    statistics API and the plots made of it. *)

From S2P Require Import Prelude GoLib GoTime Iso8601 Encoding HttpLib Persistence Sql Keyset TorrentTables Sqlite3 Sqlite3Laws Sqlite3Props Outputs Credentials Web WebProps Client StatsPage.
From Stdlib Require Import ZArith Lia.
From Stdlib Require QArith_base.
From stdpp Require Import base list gmap sorting.
Local Open Scope Z_scope.

(** ** Objects *)

(** An object of numbers: its properties, in the order of their creation. *)
Abbreviation object := (list (bytes * float64)).

(** The keys that are array indices come first, in ascending order. *)
Definition isIndex (k : bytes) : bool :=
  bool_decide (k <> []) && forallb is_digit k &&
  (bool_decide (k = str "0") || negb (bool_decide (head k = Some Byte.x30))) && (digits_val k <? 4294967295).

Definition index_le (p q : bytes * float64) : Prop := digits_val p.1 <= digits_val q.1.
#[global] Instance index_le_dec p q : Decision (index_le p q).
Proof. unfold index_le. apply _. Defined.

Definition ownProperties (o : object) : object :=
  merge_sort index_le (filter (fun p => isIndex p.1 = true) o) ++ filter (fun p => isIndex p.1 <> true) o.

Definition Object_keys (o : object) : list bytes := map fst (ownProperties o).
Definition Object_values (o : object) : list float64 := map snd (ownProperties o).

(** ** The script *)

Record stats := { s_nDiscovered : object; s_nFiles : object; s_totalSize : object }.

Record trace := { t_x : list bytes; t_y : list float64 }.

(** What the three calls of Plotly.newPlot are given. *)
Record plots := { pl_nDiscovered : trace; pl_nFiles : trace; pl_totalSize : trace }.

Definition plot (stats : stats) : plots :=
  {| pl_nDiscovered := {| t_x := Object_keys (s_nDiscovered stats); t_y := Object_values (s_nDiscovered stats) |};
     pl_nFiles := {| t_x := Object_keys (s_nFiles stats); t_y := Object_values (s_nFiles stats) |};
     pl_totalSize :=
       {| t_x := Object_keys (s_totalSize stats);
          t_y := map (fun v => QArith_base.Qdiv v (QArith_base.inject_Z (1024 * 1024 * 1024)))
                   (Object_values (s_totalSize stats)) |} |}.

Section Script.
Context {J : Js}.

(** The text up to the comma or brace after a number, and that byte. *)
Fixpoint read_value (s : bytes) : option (bytes * byte * bytes) :=
  match s with
  | [] => None
  | b :: r =>
      if bool_decide (b = Byte.x2c \/ b = Byte.x7d) then Some ([], b, r)
      else '(v, c, r) ← read_value r; Some (b :: v, c, r)
  end.

(** The properties after the brace of an object that has some. *)
Fixpoint read_properties (fuel : nat) (s : bytes) : option (object * bytes) :=
  match fuel with
  | O => None
  | S fuel =>
      r ← CutPrefix [Byte.x22] s;
      '(k, r) ← unquote Plain r;
      r ← CutPrefix (str ":") r;
      '(v, c, r) ← read_value r;
      v ← parseNumber v;
      if bool_decide (c = Byte.x7d) then Some ([(k, v)], r)
      else '(o, r) ← read_properties fuel r; Some ((k, v) :: o, r)
  end.

Definition read_object (s : bytes) : option (object * bytes) :=
  match CutPrefix (str "{}") s with
  | Some r => Some ([], r)
  | None => r ← CutPrefix (str "{") s; read_properties (length r) r
  end.

(** JSON.parse of an answer. *)
Definition parseStats (s : bytes) : option stats :=
  r ← CutPrefix (str "{" ++ json_key (str "nDiscovered")) s;
  '(nD, r) ← read_object r;
  r ← CutPrefix (str "," ++ json_key (str "nFiles")) r;
  '(nF, r) ← read_object r;
  r ← CutPrefix (str "," ++ json_key (str "totalSize")) r;
  '(tS, r) ← read_object r;
  if bool_decide (r = str "}" ++ newline)
  then Some {| s_nDiscovered := nD; s_nFiles := nF; s_totalSize := tS |} else None.

(** onreadystatechange at the end of a request: the alert, and the plots unless
    JSON.parse throws. *)
Definition onanswer (status : Z) (responseText : bytes) : option bytes * option plots :=
  (if bool_decide (status <> 200) then Some responseText else None, plot <$> parseStats responseText).
End Script.

(** ** Reading back what the API writes *)

Definition points (t : trace) : list (bytes * float64) := zip (t_x t) (t_y t).

Lemma own_perm o : ownProperties o ≡ₚ o.
Proof.
  unfold ownProperties. rewrite merge_sort_Permutation.
  induction o as [|p o IH]; [done|]. rewrite !filter_cons. destruct (decide (isIndex p.1 = true)) as [H|H].
  - rewrite decide_False by (intros H'; by apply H'). cbn. by rewrite IH.
  - rewrite decide_True by done. by rewrite <- Permutation_middle, IH.
Qed.

Lemma zip_own (o : object) : zip (map fst o) (map snd o) = o.
Proof. induction o as [|[k v] o IH]; [done|]. cbn. by rewrite IH. Qed.

(** Without indices among its keys an object keeps its order. *)
Lemma own_plain o : Forall (fun p => isIndex p.1 = false) o -> ownProperties o = o.
Proof.
  intros H. unfold ownProperties. rewrite (filter_none _ o), (filter_all _ o); [done|..];
    (eapply Forall_impl; [exact H|]); intros p Hp; cbn; congruence.
Qed.

Lemma bytes_le_total a b : bytes_le a b = true \/ bytes_le b a = true.
Proof.
  revert b. induction a as [|x a IH]; intros [|y b]; [by left|by left|by right|]. cbn [bytes_le].
  destruct (Z.lt_trichotomy (byte_val x) (byte_val y)) as [H|[H|H]].
  - left. by rewrite (proj2 (Z.ltb_lt _ _)).
  - rewrite H, Z.ltb_irrefl, Z.eqb_refl. apply IH.
  - right. by rewrite (proj2 (Z.ltb_lt _ _)).
Qed.

#[global] Instance entry_le_total : Total entry_le.
Proof. intros p q. apply bytes_le_total. Qed.

Section Answers.
Context {O : Outside} {J : Js} `{!JsLaws O J}.

Definition number_property (p : bytes * Z) : bytes * float64 := (p.1, QArith_base.inject_Z p.2).
Definition property_ok (p : bytes * Z) : Prop := ValidString p.1 = true /\ Z.abs p.2 <= 2 ^ 53.
Definition json_property (p : bytes * Z) : bytes := json_string p.1 ++ str ":" ++ fmt_d p.2.

Lemma read_value_app v c r :
  c = Byte.x2c \/ c = Byte.x7d -> Byte.x2c ∉ v -> Byte.x7d ∉ v -> read_value (v ++ c :: r) = Some (v, c, r).
Proof.
  intros Hc H1 H2. induction v as [|b v IH]; cbn [app read_value].
  - by rewrite bool_decide_eq_true_2.
  - apply not_elem_of_cons in H1 as [E1 H1]. apply not_elem_of_cons in H2 as [E2 H2].
    rewrite bool_decide_eq_false_2 by (intros [->| ->]; done). by rewrite IH.
Qed.

Lemma read_property p c r fuel :
  property_ok p -> c = Byte.x2c \/ c = Byte.x7d ->
  read_properties (S fuel) (json_property p ++ c :: r) =
  if bool_decide (c = Byte.x7d) then Some ([number_property p], r)
  else '(o, r) ← read_properties fuel r; Some (number_property p :: o, r).
Proof.
  intros [Hv Hn] Hc. cbn [read_properties].
  replace (json_property p ++ c :: r) with
    ([Byte.x22] ++ json_chars 0 true p.1 ++ [Byte.x22] ++ str ":" ++ fmt_d p.2 ++ c :: r)
    by (unfold json_property, json_string; by rewrite <- !app_assoc).
  rewrite CutPrefix_app. cbn [mbind option_bind]. rewrite json_string_roundtrip by done. cbn [mbind option_bind].
  rewrite CutPrefix_app. cbn [mbind option_bind]. rewrite read_value_app by (done || by apply not_in_fmt_d).
  cbn [mbind option_bind]. by rewrite int_law.
Qed.

Lemma read_properties_json l p r fuel :
  property_ok p -> Forall property_ok l -> (length l < fuel)%nat ->
  read_properties fuel (commas (map json_property (p :: l)) ++ str "}" ++ r) =
  Some (map number_property (p :: l), r).
Proof.
  revert p fuel. induction l as [|q l IH]; intros p [|fuel] Hp Hl Hf; try (cbn in Hf; lia).
  - cbn [map commas]. change (str "}" ++ r) with (Byte.x7d :: r). by rewrite read_property by auto.
  - apply Forall_cons in Hl as [Hq Hl].
    change (commas (map json_property (p :: q :: l))) with (json_property p ++ str "," ++ commas (map json_property (q :: l))).
    rewrite <- !app_assoc. change (str "," ++ ?x) with (Byte.x2c :: x). rewrite read_property by auto.
    rewrite bool_decide_eq_false_2 by done. rewrite IH by (done || cbn in Hf; lia). done.
Qed.

Lemma read_object_map (m : gmap bytes Z) r :
  (forall k v, m !! k = Some v -> property_ok (k, v)) ->
  read_object (json_map m ++ r) = Some (map number_property (merge_sort entry_le (map_to_list m)), r).
Proof.
  intros Hm. unfold json_map, read_object. fold json_property.
  assert (Forall property_ok (merge_sort entry_le (map_to_list m))) as Hl.
  { rewrite merge_sort_Permutation. apply Forall_forall. intros [k v] H%elem_of_map_to_list. by apply Hm. }
  change (fun p : bytes * Z => _) with json_property. destruct Hl as [|p l Hp Hl]; [by rewrite CutPrefix_app|].
  rewrite <- !app_assoc.
  assert (CutPrefix (str "{}") (str "{" ++ commas (map json_property (p :: l)) ++ str "}" ++ r) = None) as ->.
  { unfold CutPrefix. rewrite bool_decide_eq_false_2; [done|]. cbn [map commas]. by destruct l. }
  rewrite CutPrefix_app. cbn [mbind option_bind]. rewrite read_properties_json; [done..|].
  pose proof (commas_length (map json_property (p :: l))) as H. rewrite length_map in H. cbn [length] in H.
  rewrite !length_app. change (length (str "}")) with 1%nat. lia.
Qed.

Definition object_of (m : gmap bytes Z) : object := map number_property (merge_sort entry_le (map_to_list m)).

Lemma parseStats_json s :
  (forall m k v, m ∈ [NDiscovered s; st_NFiles s; TotalSize s] -> m !! k = Some v -> property_ok (k, v)) ->
  parseStats (json_statistics s ++ newline) =
  Some {| s_nDiscovered := object_of (NDiscovered s); s_nFiles := object_of (st_NFiles s);
          s_totalSize := object_of (TotalSize s) |}.
Proof.
  intros Hm. unfold parseStats, json_statistics.
  replace ((str "{" ++ json_key (str "nDiscovered") ++ json_map (NDiscovered s) ++ str "," ++
    json_key (str "nFiles") ++ json_map (st_NFiles s) ++ str "," ++
    json_key (str "totalSize") ++ json_map (TotalSize s) ++ str "}") ++ newline) with
    ((str "{" ++ json_key (str "nDiscovered")) ++ json_map (NDiscovered s) ++ (str "," ++
    json_key (str "nFiles")) ++ json_map (st_NFiles s) ++ (str "," ++
    json_key (str "totalSize")) ++ json_map (TotalSize s) ++ str "}" ++ newline)
    by (by rewrite <- !app_assoc).
  repeat first
    [ rewrite CutPrefix_app; cbn [mbind option_bind]
    | rewrite read_object_map by (intros k v; apply Hm; rewrite !elem_of_cons; auto); cbn [mbind option_bind] ].
  by rewrite bool_decide_eq_true_2.
Qed.
End Answers.

(** ** From the clock to the plots *)

Lemma stats_map_list f l :
  NoDup (map stats_label l) -> map_to_list (stats_map f l) ≡ₚ map (fun x => (stats_label x, f x)) l.
Proof.
  intros H. apply map_to_list_to_map. change (NoDup (map fst (map (fun x => (stats_label x, f x)) l))).
  by rewrite map_map.
Qed.

Lemma object_points f l :
  NoDup (map stats_label l) ->
  object_of (stats_map f l) ≡ₚ map (fun x => (stats_label x, QArith_base.inject_Z (f x))) l.
Proof. intros H. unfold object_of. rewrite merge_sort_Permutation, (stats_map_list f l H), map_map. done. Qed.

Lemma object_sorted m :
  Forall (fun p => isIndex p.1 = false) (object_of m) ->
  Sorted (fun a b => bytes_le a b = true) (Object_keys (object_of m)).
Proof.
  intros H. unfold Object_keys. rewrite own_plain by done. unfold object_of. rewrite map_map. cbn [number_property fst].
  pose proof (Sorted_merge_sort entry_le (map_to_list m)) as Hs.
  induction Hs as [|p l _ IH Hd]; cbn [map]; [constructor|]. constructor; [by apply IH|].
  destruct Hd as [|q l Hq]; cbn [map]; constructor. exact Hq.
Qed.

Lemma points_own (o : object) : points {| t_x := Object_keys o; t_y := Object_values o |} ≡ₚ o.
Proof. unfold points, Object_keys, Object_values. cbn [t_x t_y]. by rewrite zip_own, own_perm. Qed.

Lemma points_scaled (o : object) (g : float64 -> float64) :
  points {| t_x := Object_keys o; t_y := map g (Object_values o) |} ≡ₚ map (fun p => (p.1, g p.2)) o.
Proof.
  unfold points, Object_keys, Object_values. cbn [t_x t_y]. rewrite <- (own_perm o) at 3.
  induction (ownProperties o) as [|[k v] l IH]; [done|]. cbn. by rewrite IH.
Qed.

(** A row of the database the page can show. *)
Definition stats_showable (x : bytes * Z * Z * Z) : Prop :=
  let '(dT, tS, nD, nF) := x in
  ValidString dT = true /\ 0 <= tS <= 2 ^ 53 /\ 0 <= nD <= 2 ^ 53 /\ 0 <= nF <= 2 ^ 53.

Lemma stats_of_ok l m k v :
  Forall stats_showable l -> NoDup (map stats_label l) ->
  m ∈ [NDiscovered (stats_of l); st_NFiles (stats_of l); TotalSize (stats_of l)] -> m !! k = Some v ->
  property_ok (k, v).
Proof.
  intros Hs Hl Hm Hk. rewrite Forall_forall in Hs.
  assert (exists f, m = stats_map f l /\ forall x, stats_showable x -> property_ok (stats_label x, f x)) as (f & -> & Hf).
  { rewrite !elem_of_cons, elem_of_nil in Hm. destruct Hm as [->|[->|[->|[]]]]; (eexists; split; [reflexivity|]);
      intros [[[dT tS] nD] nF] (Hv & H1 & H2 & H3); split; cbn in *; (done || lia). }
  apply elem_of_map_to_list in Hk. rewrite (stats_map_list f l Hl) in Hk.
  apply list_elem_of_fmap in Hk as (x & [= -> ->] & Hx). by apply Hf, Hs.
Qed.

(** C19. The statistics page from the browser's clock to the plots: for the last
    [n] hours or days it sends a request that the API accepts, whose period
    begins less than one unit after [n] units ago and ends at the end of the
    unit that is running. It then plots exactly one point per label of the
    database in each of the three plots: torrents, files, and the total size
    in units of 2^30 bytes. The labels, which are not numbers, ascend. *)
Theorem statistics_page {zone : Zone} {O : Outside} {J : Js} `{!JsLaws O J} {R : Driver} now n unit len g t :
  exact_unit unit len g -> 0 < n < 2 ^ 31 -> (g = Hour -> n <= 2562047) ->
  let s := now / 1000 in
  Date 1584 1 1 0 0 0 <= s - n * len < Date 10000 1 1 0 0 0 ->
  exists q from to,
    statsQuery now (Some n) unit = Ret q /\
    s - n * len <= from < s - n * len + len /\ s <= to < s + len /\ to = from + n * len /\
    forall l,
      query t (selectStatistics (time_format g)) [VInt from; VInt to] = Ok (map stats_values l) ->
      NoDup (map stats_label l) -> Forall stats_showable l ->
      exists w p,
        apiStatistics (D := sqlite3Database) (s, []) t newResponse (stats_request q) = Ret w /\
        onanswer (default 200 (w_status w)) (w_body w) = (None, Some p) /\
        points (pl_nDiscovered p) ≡ₚ map (fun x => (stats_label x, QArith_base.inject_Z x.1.2)) l /\
        points (pl_nFiles p) ≡ₚ map (fun x => (stats_label x, QArith_base.inject_Z x.2)) l /\
        points (pl_totalSize p) ≡ₚ
          map (fun x => (stats_label x, QArith_base.Qdiv (QArith_base.inject_Z x.1.1.2) (QArith_base.inject_Z (2 ^ 30)))) l /\
        (Forall (fun x => isIndex (stats_label x) = false) l ->
         Forall (fun tr => Sorted (fun a b => bytes_le a b = true) (t_x tr))
           [pl_nDiscovered p; pl_nFiles p; pl_totalSize p]).
Proof.
  intros Hu Hn Hh s Hs. destruct (statistics_request now n unit len g t newResponse Hu Hn Hh Hs) as (q & from & to & H1 & H2 & H3 & H4 & H5).
  exists q, from, to. split; [exact H1|]. split; [exact H2|]. split; [exact H3|]. split; [exact H4|]. intros l Hq Hl Hsh.
  exists (respondJSON newResponse (json_statistics (stats_of l))). eexists. split_and!.
  - apply H5; [done..|]. eapply Forall_impl; [exact Hsh|]. intros [[[dT tS] nD] nF] (_ & ? & ? & ?). lia.
  - unfold onanswer. change (w_body (respondJSON newResponse ?x)) with (x ++ newline).
    rewrite parseStats_json; [reflexivity|]. intros m k v. by apply stats_of_ok.
  - cbn [pl_nDiscovered plot s_nDiscovered]. rewrite points_own. by apply object_points.
  - cbn [pl_nFiles plot s_nFiles]. rewrite points_own. by apply (object_points snd).
  - cbn [pl_totalSize plot s_totalSize]. rewrite points_scaled. cbn [TotalSize stats_of].
    rewrite (object_points _ l Hl), map_map. done.
  - intros Hi. assert (forall f, Forall (fun p => isIndex p.1 = false) (object_of (stats_map f l))) as Hplain.
    { intros f. rewrite (object_points f l Hl). by apply Forall_map. }
    repeat constructor; apply object_sorted, Hplain.
Qed.
