(* ===== verification/Dom.v ===== *)
(** The browser's document, as far as the scripts of magneticow use it: trees of
    nodes, references to nodes as positions, and the calls that search and
    change a tree. *)

From S2P Require Import Prelude GoLib Encoding HttpLib Client.
From Stdlib Require Import ZArith Lia.
From stdpp Require Import base list.
#[local] Set Warnings "-register-all".

(** ** Nodes *)

Inductive node : Type :=
  | Text (s : bytes)
  | Element (tag : bytes) (attrs : list (bytes * bytes)) (kids : list node).

Section NodeInd.
Variable P : node -> Prop.
Hypothesis HText : forall s, P (Text s).
Hypothesis HElement : forall tag attrs kids, Forall P kids -> P (Element tag attrs kids).

Fixpoint node_ind' (n : node) : P n :=
  match n with
  | Text s => HText s
  | Element tag attrs kids =>
      HElement tag attrs kids
        ((fix go (l : list node) : Forall P l :=
            match l with
            | [] => Forall_nil_2 P
            | k :: l => Forall_cons_2 P k l (node_ind' k) (go l)
            end) kids)
  end.
End NodeInd.

(** A text node, unless there is no text. *)
Definition text_nodes (s : bytes) : list node := match s with [] => [] | _ => [Text s] end.

Fixpoint attr (name : bytes) (attrs : list (bytes * bytes)) : option bytes :=
  match attrs with
  | [] => None
  | p :: attrs => if bool_decide (p.1 = name) then Some p.2 else attr name attrs
  end.

Definition getAttribute (name : bytes) (n : node) : option bytes :=
  match n with Text _ => None | Element _ attrs _ => attr name attrs end.

(** The tokens of the class attribute. *)
Definition classList (n : node) : list bytes :=
  filter (fun c => c <> []) (Split (default [] (getAttribute (str "class") n)) Byte.x20).

Fixpoint set_attr (name value : bytes) (attrs : list (bytes * bytes)) : list (bytes * bytes) :=
  match attrs with
  | [] => [(name, value)]
  | p :: attrs => if bool_decide (p.1 = name) then (name, value) :: attrs else p :: set_attr name value attrs
  end.

Definition setAttribute (name value : bytes) (n : node) : node :=
  match n with Text s => Text s | Element tag attrs kids => Element tag (set_attr name value attrs) kids end.

Definition classList_add (c : bytes) (n : node) : node :=
  if bool_decide (c ∈ classList n) then n
  else setAttribute (str "class") (Client.join Byte.x20 (classList n ++ [c])) n.

Definition appendChild (k : node) (n : node) : node :=
  match n with Text s => Text s | Element tag attrs kids => Element tag attrs (kids ++ [k]) end.

(** The children that are elements. *)
Definition children (n : node) : list node :=
  match n with
  | Text _ => []
  | Element _ _ kids => List.filter (fun k => match k with Text _ => false | _ => true end) kids
  end.

(** ** References

    A reference to a node is its position under the element a script starts
    from: the indices of the children on the way. *)
Abbreviation position := (list nat).

Fixpoint node_at (p : position) (n : node) : option node :=
  match p, n with
  | [], _ => Some n
  | i :: p, Element _ _ kids => kids !! i ≫= node_at p
  | _ :: _, Text _ => None
  end.

Fixpoint alter_at (f : node -> node) (p : position) (n : node) : node :=
  match p, n with
  | [], _ => f n
  | i :: p, Element tag attrs kids => Element tag attrs (alter (alter_at f p) i kids)
  | _ :: _, Text s => Text s
  end.

(** Positions under the children of a node, from positions under each of them. *)
Fixpoint number (i : nat) (l : list (list position)) : list position :=
  match l with [] => [] | x :: l => map (cons i) x ++ number (S i) l end.

(** The nodes that [f] accepts, in document order. *)
Fixpoint matches (f : node -> bool) (n : node) : list position :=
  (if f n then [[]] else []) ++
  match n with Text _ => [] | Element _ _ kids => number 0 (map (matches f) kids) end.

(** Descendants only. *)
Definition select_all (f : node -> bool) (n : node) : list position :=
  match n with Text _ => [] | Element _ _ kids => number 0 (map (matches f) kids) end.

Definition is_tag (t : bytes) (n : node) : bool :=
  match n with Text _ => false | Element tag _ _ => bool_decide (tag = t) end.
Definition has_attr (name value : bytes) (n : node) : bool := bool_decide (getAttribute name n = Some value).
Definition has_class (c : bytes) (n : node) : bool := bool_decide (c ∈ classList n).

(** ** The parameters of the model

    querySelectorAll with any selector ([None] is a SyntaxError), assignments to
    innerHTML, and the text of the numbers Math.random gives. *)
Class Browser := {
  querySelectorAll : bytes -> node -> option (list position);
  parseHTML : bytes -> list node;
  random : nat -> bytes }.

(** Bytes that stand for themselves in a string of a selector and in the text
    of a document. *)
Definition plain (b : byte) : Prop :=
  b ∉ [Byte.x00; Byte.x0a; Byte.x0c; Byte.x0d; Byte.x22; Byte.x26; Byte.x3c; Byte.x5c].

#[global] Instance plain_dec b : Decision (plain b) := not_dec _.

(** For facts about the bytes of constants. *)
Ltac decide_bytes := apply (bool_decide_unpack _); vm_compute; exact I.

Definition quoted (s : bytes) : bytes := [Byte.x22] ++ s ++ [Byte.x22].
Definition attrSelector (name value : bytes) : bytes := str "[" ++ name ++ str "=" ++ quoted value ++ str "]".

(** The character of the reference [&emsp;]. *)
Definition emsp : bytes := [Byte.xe2; Byte.x80; Byte.x83].

(** Identifiers of selectors: lower-case letters and hyphens, a letter first. *)
Definition ident (s : bytes) : bool :=
  match s with
  | [] => false
  | b :: _ => within 97 122 b && forallb (fun b => within 97 122 b || bool_decide (b = Byte.x2d)) s
  end.

(** Selectors by attribute, type and class; markup that is text, text before a
    [tt] element, and an item of a list. *)
Class BrowserLaws (B : Browser) := {
  attr_law name value n : ident name = true -> Forall plain value ->
    querySelectorAll (attrSelector name value) n = Some (select_all (has_attr name value) n);
  type_law t n : ident t = true ->
    querySelectorAll t n = Some (select_all (is_tag t) n);
  class_law c n : ident c = true ->
    querySelectorAll (str "." ++ c) n = Some (select_all (has_class c) n);
  text_html s : Forall plain s -> parseHTML s = text_nodes s;
  tt_html s t : Forall plain s -> Forall plain t ->
    parseHTML (s ++ str "&emsp;<tt>" ++ t ++ str "</tt>") =
    text_nodes (s ++ emsp) ++ [Element (str "tt") [] (text_nodes t)];
  item_html c s : Forall plain c -> Forall plain s ->
    parseHTML (str "<li class=" ++ quoted c ++ str ">" ++ s ++ str "</li>") =
    [Element (str "li") [(str "class", c)] (text_nodes s)] }.

(** ** Lemmas *)

Lemma number_nil i l : Forall (fun x => x = []) l -> number i l = [].
Proof. intros H. revert i. induction H as [|x l -> _ IH]; intros i; [done|]. apply IH. Qed.

(** [g] under every child. *)
Definition under (g : position -> position) (p : position) : position :=
  match p with [] => [] | i :: p => i :: g p end.

Lemma number_map g i l : number i (map (map g) l) = map (under g) (number i l).
Proof.
  revert i. induction l as [|x l IH]; intros i; [done|]. cbn [map number].
  rewrite IH, map_app, !map_map. done.
Qed.

Lemma elem_of_number p i l :
  p ∈ number i l <-> exists j x q, p = (i + j)%nat :: q /\ l !! j = Some x /\ q ∈ x.
Proof.
  revert i. induction l as [|x l IH]; intros i; cbn [number].
  - split; [by intros ?%elem_of_nil|by intros (j & x & q & _ & H & _)].
  - rewrite elem_of_app, IH, list_elem_of_fmap. split.
    + intros [(q & -> & Hq)|(j & y & q & -> & Hl & Hq)].
      * exists 0%nat, x, q. by rewrite Nat.add_0_r.
      * exists (S j), y, q. by rewrite Nat.add_succ_r.
    + intros (j & y & q & -> & Hl & Hq). destruct j as [|j].
      * injection Hl as ->. left. exists q. by rewrite Nat.add_0_r.
      * right. exists j, y, q. by rewrite Nat.add_succ_r.
Qed.

Lemma node_at_app p q n : node_at (p ++ q) n = node_at p n ≫= node_at q.
Proof.
  revert n. induction p as [|i p IH]; intros n; [done|]. destruct n as [s|tag attrs kids]; [done|].
  cbn [app node_at]. destruct (kids !! i); [|done]. apply IH.
Qed.

Lemma alter_at_app f p q n : alter_at f (p ++ q) n = alter_at (alter_at f q) p n.
Proof.
  revert n. induction p as [|i p IH]; intros n; [done|]. destruct n as [s|tag attrs kids]; [done|].
  cbn [app alter_at]. f_equal. by apply list_alter_ext.
Qed.

Lemma alter_at_twice f g p n : alter_at f p (alter_at g p n) = alter_at (fun n => f (g n)) p n.
Proof.
  revert n. induction p as [|i p IH]; intros n; [done|]. destruct n as [s|tag attrs kids]; [done|].
  cbn [alter_at]. f_equal. rewrite list_alter_alter_eq. apply list_alter_ext; [|done]. intros x _. apply IH.
Qed.

Lemma alter_at_id f p n : (forall m, f m = m) -> alter_at f p n = n.
Proof.
  intros Hf. revert n. induction p as [|i p IH]; intros n; [apply Hf|]. destruct n as [s|tag attrs kids]; [done|].
  cbn [alter_at]. f_equal. by apply list_alter_id.
Qed.

(** Content without the elements that a tree of files is made of. *)
Fixpoint inert (n : node) : bool :=
  match n with
  | Text _ => true
  | Element tag attrs kids => bool_decide (tag <> str "ul") && bool_decide (attrs = []) && forallb inert kids
  end.

Lemma inert_matches f n :
  (forall m, inert m = true -> f m = false) -> inert n = true -> matches f n = [].
Proof.
  intros Hf. induction n as [s|tag attrs kids IH] using node_ind'; intros Hn; cbn [matches].
  - by rewrite Hf.
  - rewrite (Hf _ Hn). cbn [inert] in Hn. apply andb_prop in Hn as [_ Hk]. rewrite forallb_forall in Hk.
    apply number_nil, Forall_map. rewrite Forall_forall in *. intros k Hin. apply IH; [done|].
    by apply Hk, list_elem_of_In.
Qed.

Lemma inert_id name value n : inert n = true -> has_attr name value n = false.
Proof.
  intros H. unfold has_attr. apply bool_decide_eq_false. destruct n as [s|tag attrs kids]; [done|].
  cbn [inert] in H. apply andb_prop in H as [H _]. apply andb_prop in H as [_ H].
  by apply bool_decide_eq_true in H as ->.
Qed.

Lemma inert_ul n : inert n = true -> is_tag (str "ul") n = false.
Proof.
  intros H. destruct n as [s|tag attrs kids]; [done|]. cbn [inert] in H.
  apply andb_prop in H as [H _]. apply andb_prop in H as [H _]. apply bool_decide_eq_true in H.
  by apply bool_decide_eq_false.
Qed.

Lemma inert_class c n : inert n = true -> has_class c n = false.
Proof.
  intros H. apply bool_decide_eq_false. destruct n as [s|tag attrs kids].
  - apply not_elem_of_nil.
  - cbn [inert] in H. apply andb_prop in H as [H _]. apply andb_prop in H as [_ H].
    apply bool_decide_eq_true in H as ->. apply not_elem_of_nil.
Qed.
