(* ===== verification/FileTree.v ===== *)
(** cmd/magneticow/data/static/scripts/vanillatree-v0.0.3.js: the tree of the
    files of a torrent in the document, and its refinement to an ordered forest
    of entries. *)

From S2P Require Import Prelude GoLib Encoding HttpLib Client Dom.
From Stdlib Require Import ZArith Lia.
From stdpp Require Import base list gmap.
#[local] Set Warnings "-register-all".

(** ** vanillatree-v0.0.3.js *)

(** What torrent.js passes to add. It always opens the leaf and never selects
    it, so that add calls neither close nor select. *)
Record options := { o_id : bytes; o_parent : option bytes; o_label : bytes }.

(** The element [tree] (its position is empty), the property [leafs], and the
    number of calls of Math.random so far. *)
Record vtree := { t_tree : node; t_placeholder : bytes; t_leafs : gmap bytes options; t_random : nat }.

Definition with_tree (t : vtree) (n : node) : vtree :=
  {| t_tree := n; t_placeholder := t_placeholder t; t_leafs := t_leafs t; t_random := t_random t |}.

Definition create (tag className : bytes) (kids : list node) : node :=
  Element tag [(str "class", className)] kids.

Section Vanilla.
Context {B : Browser}.

(** [$(selector, context)] with an element as context. A string with a [<] is
    taken for markup: [createElement] then throws on the name of the context. *)
Definition dollar (selector : bytes) (context : node) : go (list position) :=
  if bool_decide (Byte.x3c ∈ selector) then Panic
  else match querySelectorAll selector context with Some l => Ret l | None => Panic end.

Definition getLeaf (tree : node) (id : bytes) (notThrow : bool) : go (option position) :=
  (let! l := dollar (attrSelector (str "data-vtree-id") id) tree in
   match head l with
   | None => if notThrow then Ret None else Panic
   | leaf => Ret leaf
   end)%go.

Definition childNodes (n : node) : list node := match n with Text _ => [] | Element _ _ kids => kids end.

(** An empty id is falsy, like none. *)
Definition getChildList (tree : node) (id : option bytes) : go (node * position) :=
  match id with
  | None | Some [] => Ret (tree, [])
  | Some id =>
      let! leaf := getLeaf tree id false in
      match leaf ≫= fun p => pair p <$> node_at p tree with
      | None => Panic
      | Some (p, parent) =>
          let! list := dollar (str "ul") parent in
          match head list with
          | Some q => Ret (tree, p ++ q)
          | None =>
              Ret (alter_at (appendChild (create (str "ul") (str "vtree-subtree") [])) p tree,
                   p ++ [length (childNodes parent)])
          end
      end
  end%go.

Definition placeholder_item (text : bytes) : bytes :=
  str "<li class=" ++ quoted (str "vtree-placeholder") ++ str ">" ++ text ++ str "</li>".

(** removeChild throws unless the node is a child. *)
Definition _placeholder (t : vtree) : go vtree :=
  match t_tree t with
  | Text s => Panic
  | Element tag attrs kids =>
      if bool_decide (children (t_tree t) = []) && negb (bool_decide (t_placeholder t = []))
      then Ret (with_tree t (Element tag attrs (parseHTML (placeholder_item (t_placeholder t)))))
      else
        match querySelectorAll (str ".vtree-placeholder") (t_tree t) with
        | None => Panic
        | Some [] => Ret t
        | Some ([i] :: _) => Ret (with_tree t (Element tag attrs (delete i kids)))
        | Some _ => Panic
        end
  end.

(** [new Tree(s, options)]: the list is made inside the container. *)
Definition newTree (placeholder : bytes) : go vtree :=
  _placeholder {| t_tree := create (str "ul") (str "vtree") []; t_placeholder := placeholder;
                  t_leafs := ∅; t_random := 0 |}.

(** The event of _dispatch has no listener; finding its target can throw. *)
Definition _dispatch (tree : node) (id : bytes) : go (option position) := getLeaf tree id true.

Definition new_leaf (id label : bytes) : node :=
  Element (str "li") [(str "class", str "vtree-leaf"); (str "data-vtree-id", id)]
    [create (str "span") (str "vtree-toggle") [];
     create (str "a") (str "vtree-leaf-label") (parseHTML label)].

(** The tree after the call, and whether it returned; it throws otherwise. *)
Definition add (t : vtree) (o : options) : vtree * bool :=
  match getLeaf (t_tree t) (o_id o) true with
  | Panic => (t, false)
  | Ret (Some _) => (t, true)
  | Ret None =>
      match getChildList (t_tree t) (o_parent o) with
      | Panic => (t, false)
      | Ret (tree, parentList) =>
          let nameless := bool_decide (o_id o = []) in
          let id := if nameless then random (t_random t) else o_id o in
          let tree := alter_at (appendChild (new_leaf id (o_label o))) parentList tree in
          let tree :=
            if bool_decide (parentList = []) then tree
            else alter_at (classList_add (str "vtree-has-children")) (removelast parentList) tree in
          let t :=
            {| t_tree := tree; t_placeholder := t_placeholder t; t_leafs := <[id := o]> (t_leafs t);
               t_random := if nameless then S (t_random t) else t_random t |} in
          match _placeholder t with
          | Panic => (t, false)
          | Ret t => (t, is_ret (_dispatch (t_tree t) id))
          end
      end
  end.

(** Calls one after the other, until one throws. *)
Fixpoint addAll (t : vtree) (l : list options) : vtree * bool :=
  match l with
  | [] => (t, true)
  | o :: l => let '(t, ok) := add t o in if ok then addAll t l else (t, false)
  end.

(** ** What the tree shows

    For every leaf with an id, in document order: the ids of the leaves on the
    way to it, itself included, and the content of its label. *)
Definition label_of (n : node) : list node :=
  match n with
  | Element _ _ (_ :: Element _ _ label :: _) => label
  | _ => []
  end.

Fixpoint dom_rows (chain : list bytes) (n : node) : list (list bytes * list node) :=
  match n with
  | Text _ => []
  | Element tag attrs kids =>
      match attr (str "data-vtree-id") attrs with
      | Some id => (chain ++ [id], label_of n) :: concat (map (dom_rows (chain ++ [id])) kids)
      | None => concat (map (dom_rows chain) kids)
      end
  end.

Definition shown (t : vtree) : list (list bytes * list node) := dom_rows [] (t_tree t).
End Vanilla.

(** ** The forest it implements *)

Inductive entry : Type := Entry (id label : bytes) (kids : list entry).

Section EntryInd.
Variable P : entry -> Prop.
Hypothesis HEntry : forall id label kids, Forall P kids -> P (Entry id label kids).

Fixpoint entry_ind' (e : entry) : P e :=
  match e with
  | Entry id label kids =>
      HEntry id label kids
        ((fix go (l : list entry) : Forall P l :=
            match l with
            | [] => Forall_nil_2 P
            | k :: l => Forall_cons_2 P k l (entry_ind' k) (go l)
            end) kids)
  end.
End EntryInd.

Definition e_id (e : entry) : bytes := match e with Entry id _ _ => id end.
Definition e_label (e : entry) : bytes := match e with Entry _ label _ => label end.
Definition e_kids (e : entry) : list entry := match e with Entry _ _ kids => kids end.

Fixpoint entry_at (p : position) (e : entry) : option entry :=
  match p with
  | [] => Some e
  | j :: p => match e with Entry _ _ kids => kids !! j ≫= entry_at p end
  end.

(** The entries with an id that [g] accepts, in document order. *)
Fixpoint find_entry (g : bytes -> bool) (e : entry) : list position :=
  match e with
  | Entry id _ kids => (if g id then [[]] else []) ++ number 0 (map (find_entry g) kids)
  end.

(** A new last child of the entry at a position. *)
Fixpoint push (x : entry) (p : position) (e : entry) : entry :=
  match e with
  | Entry id label kids =>
      match p with
      | [] => Entry id label (kids ++ [x])
      | j :: p => Entry id label (alter (push x p) j kids)
      end
  end.

(** The same in a forest; at the empty position it is a new root. *)
Definition grow (x : entry) (p : position) (F : list entry) : list entry :=
  match p with [] => F ++ [x] | i :: q => alter (push x q) i F end.

Definition find_id (id : bytes) (F : list entry) : list position :=
  number 0 (map (find_entry (fun i => bool_decide (i = id))) F).

(** The operation that add implements, [None] if there is no such parent. *)
Definition insert_entry (F : list entry) (o : options) : option (list entry) :=
  match find_id (o_id o) F with
  | _ :: _ => Some F
  | [] =>
      p ← match o_parent o with None | Some [] => Some [] | Some id => head (find_id id F) end;
      Some (grow (Entry (o_id o) (o_label o) []) p F)
  end.

Fixpoint rows (chain : list bytes) (e : entry) : list (list bytes * bytes) :=
  match e with
  | Entry id label kids => (chain ++ [id], label) :: concat (map (rows (chain ++ [id])) kids)
  end.

Definition forest_rows (F : list entry) : list (list bytes * bytes) := concat (map (rows []) F).

(** ** Refinement *)

Section Refinement.
Context {B : Browser} `{!BrowserLaws B}.

Fixpoint render (e : entry) : node :=
  match e with
  | Entry id label kids =>
      Element (str "li")
        [(str "class", match kids with [] => str "vtree-leaf" | _ => str "vtree-leaf vtree-has-children" end);
         (str "data-vtree-id", id)]
        ([create (str "span") (str "vtree-toggle") [];
          create (str "a") (str "vtree-leaf-label") (parseHTML label)] ++
         match kids with [] => [] | _ => [create (str "ul") (str "vtree-subtree") (map render kids)] end)
  end.

Definition render_forest (placeholder : bytes) (F : list entry) : node :=
  create (str "ul") (str "vtree")
    match F with [] => parseHTML (placeholder_item placeholder) | _ => map render F end.

(** Labels that do not look like parts of the tree. *)
Fixpoint calm (e : entry) : Prop :=
  match e with
  | Entry _ label kids => forallb inert (parseHTML label) = true /\ foldr (fun k P => calm k /\ P) True kids
  end.

Lemma calm_Entry id label kids :
  calm (Entry id label kids) <-> forallb inert (parseHTML label) = true /\ Forall calm kids.
Proof.
  cbn [calm]. apply and_iff_compat_l. induction kids as [|k kids IH]; cbn [foldr].
  - split; [constructor|done].
  - by rewrite IH, Forall_cons.
Qed.

(** Positions in the document. *)
Definition li_pos (p : position) : position := concat (map (fun j => [2; j]%nat) p).

(** A predicate on the nodes of the tree, in terms of ids. *)
Record sees (f : node -> bool) (g : bytes -> bool) : Prop := {
  sees_li c id kids : c = str "vtree-leaf" \/ c = str "vtree-leaf vtree-has-children" ->
    f (Element (str "li") [(str "class", c); (str "data-vtree-id", id)] kids) = g id;
  sees_span : f (create (str "span") (str "vtree-toggle") []) = false;
  sees_a kids : f (create (str "a") (str "vtree-leaf-label") kids) = false;
  sees_ul kids : f (create (str "ul") (str "vtree-subtree") kids) = false;
  sees_inert n : inert n = true -> f n = false }.

Lemma sees_id id : sees (has_attr (str "data-vtree-id") id) (fun i => bool_decide (i = id)).
Proof.
  split; try done.
  - intros c i kids _. unfold has_attr. apply bool_decide_ext.
    change (Some i = Some id <-> i = id). split; congruence.
  - apply inert_id.
Qed.

Lemma sees_placeholder : sees (has_class (str "vtree-placeholder")) (fun _ => false).
Proof. split; try done; [by intros c i kids [->| ->]|apply inert_class]. Qed.

Lemma find_entry_none e : find_entry (fun _ => false) e = [].
Proof.
  induction e as [id label kids IH] using entry_ind'. cbn. apply number_nil, Forall_map.
  eapply Forall_impl; [exact IH|done].
Qed.

Lemma matches_create f tag c kids :
  matches f (create tag c kids) = (if f (create tag c kids) then [[]] else []) ++ number 0 (map (matches f) kids).
Proof. done. Qed.

Lemma matches_render f g e : sees f g -> calm e -> matches f (render e) = map li_pos (find_entry g e).
Proof.
  intros Hs. induction e as [id label kids IH] using entry_ind'. rewrite calm_Entry. intros [Hl Hk].
  assert (matches f (create (str "a") (str "vtree-leaf-label") (parseHTML label)) = []) as Ha.
  { rewrite matches_create, (sees_a f g Hs). apply number_nil, Forall_map, Forall_forall.
    intros n Hn. apply inert_matches; [apply (sees_inert f g Hs)|]. rewrite forallb_forall in Hl.
    by apply Hl, list_elem_of_In. }
  assert (matches f (create (str "span") (str "vtree-toggle") []) = []) as Hsp.
  { by rewrite matches_create, (sees_span f g Hs). }
  cbn [render find_entry matches]. rewrite (sees_li f g Hs) by (destruct kids; auto).
  rewrite (map_app li_pos). f_equal; [by destruct (g id)|]. cbn [map app number]. rewrite Ha, Hsp. cbn [map app].
  destruct kids as [|k kids]; [done|]. set (l := k :: kids) in *. cbn [map number]. rewrite app_nil_r.
  rewrite matches_create, (sees_ul f g Hs). cbn [app].
  assert (map (matches f) (map render l) = map (map li_pos) (map (find_entry g) l)) as ->.
  { rewrite !map_map. apply map_ext_in. intros e He%list_elem_of_In.
    rewrite Forall_forall in IH, Hk. by apply IH, Hk. }
  rewrite number_map, map_map. apply map_ext_in. intros p Hp%list_elem_of_In.
  by apply elem_of_number in Hp as (j & x & q & -> & _).
Qed.

Lemma select_render f g ph F :
  F <> [] -> sees f g -> Forall calm F ->
  select_all f (render_forest ph F) = map (under li_pos) (number 0 (map (find_entry g) F)).
Proof.
  intros HF Hs Hc. unfold render_forest. destruct F as [|e F]; [done|]. set (l := e :: F) in *.
  change (select_all f (create _ _ ?k)) with (number 0 (map (matches f) k)).
  rewrite <- number_map, !map_map. f_equal. apply map_ext_in. intros x Hx%list_elem_of_In.
  rewrite Forall_forall in Hc. by apply matches_render, Hc.
Qed.

(** *** References *)

Lemma find_entry_at g e p : p ∈ find_entry g e -> exists x, entry_at p e = Some x /\ g (e_id x) = true.
Proof.
  revert p. induction e as [id label kids IH] using entry_ind'. intros p Hp. cbn [find_entry] in Hp.
  apply elem_of_app in Hp as [Hp|Hp].
  - destruct (g id) eqn:E; [|by apply elem_of_nil in Hp]. apply list_elem_of_singleton in Hp as ->.
    by exists (Entry id label kids).
  - apply elem_of_number in Hp as (j & x & q & -> & Hj & Hq). rewrite list_lookup_fmap in Hj.
    destruct (kids !! j) as [k|] eqn:Ek; [|done]. injection Hj as <-.
    rewrite Forall_lookup in IH. destruct (IH j k Ek q Hq) as (y & Hy & Hg).
    exists y. cbn [Nat.add entry_at]. by rewrite Ek.
Qed.

Lemma find_id_at id F p :
  p ∈ find_id id F -> exists i q e x, p = i :: q /\ F !! i = Some e /\ entry_at q e = Some x /\ e_id x = id.
Proof.
  intros Hp. apply elem_of_number in Hp as (j & l & q & -> & Hj & Hq). rewrite list_lookup_fmap in Hj.
  destruct (F !! j) as [e|] eqn:Ee; [|done]. injection Hj as <-.
  destruct (find_entry_at _ _ _ Hq) as (x & Hx & Hi%bool_decide_eq_true). by exists j, q, e, x.
Qed.

Lemma render_at p e x : entry_at p e = Some x -> node_at (li_pos p) (render e) = Some (render x).
Proof.
  revert e. induction p as [|j p IH]; intros [id label kids] H; [by injection H as <-|].
  cbn [entry_at] in H. destruct (kids !! j) as [k|] eqn:Ek; [|done]. cbn [mbind option_bind] in H.
  destruct kids as [|k0 kids]; [done|]. set (l := k0 :: kids) in *.
  change (node_at (li_pos (j :: p)) (render (Entry id label l)))
    with (map render l !! j ≫= node_at (li_pos p)).
  rewrite list_lookup_fmap, Ek. by apply IH.
Qed.

Lemma calm_at p e x : entry_at p e = Some x -> calm e -> calm x.
Proof.
  revert e. induction p as [|j p IH]; intros [id label kids] H Hc; [by injection H as <-|].
  cbn [entry_at] in H. destruct (kids !! j) as [k|] eqn:Ek; [|done]. apply calm_Entry in Hc as [_ Hk].
  rewrite Forall_lookup in Hk. apply (IH k H), (Hk j k Ek).
Qed.

(** A change of the document under an entry is a change of the entry. *)
Lemma alter_render G x p e y :
  entry_at p e = Some y -> G (render y) = render (push x [] y) ->
  alter_at G (li_pos p) (render e) = render (push x p e).
Proof.
  intros Hy HG. revert e Hy. induction p as [|j p IH]; intros [id label kids] Hy; [by injection Hy as ->|].
  cbn [entry_at] in Hy. destruct (kids !! j) as [k|] eqn:Ek; [|done]. cbn [mbind option_bind] in Hy.
  assert (map render (alter (push x p) j kids) = alter (alter_at G (li_pos p)) j (map render kids)) as E.
  { apply (map_alter_at _ _ _ _ _ k); [done|]. symmetry. by apply IH. }
  destruct kids as [|k0 kids]; [done|]. set (l := k0 :: kids) in *.
  change (alter_at G (li_pos (j :: p)) (render (Entry id label l))) with
    (Element (str "li") [(str "class", str "vtree-leaf vtree-has-children"); (str "data-vtree-id", id)]
      [create (str "span") (str "vtree-toggle") [];
       create (str "a") (str "vtree-leaf-label") (parseHTML label);
       create (str "ul") (str "vtree-subtree") (alter (alter_at G (li_pos p)) j (map render l))]).
  rewrite <- E. by destruct j.
Qed.
(** *** The operations *)

Lemma plain_no_angle s : Forall plain s -> Byte.x3c ∉ s.
Proof. rewrite Forall_forall. intros H Hin. apply (H _ Hin). by repeat constructor. Qed.

Lemma dollar_id id n :
  Forall plain id ->
  dollar (attrSelector (str "data-vtree-id") id) n = Ret (select_all (has_attr (str "data-vtree-id") id) n).
Proof.
  intros Hp. unfold dollar. rewrite bool_decide_eq_false_2, attr_law; [done..|].
  unfold attrSelector, quoted. rewrite !not_elem_of_app.
  split_and!; try decide_bytes. by apply plain_no_angle.
Qed.

Variable ph : bytes.
Hypothesis Hph : Forall plain ph.
Hypothesis Hph' : ph <> [].

Lemma render_empty :
  render_forest ph [] =
  create (str "ul") (str "vtree") [Element (str "li") [(str "class", str "vtree-placeholder")] (text_nodes ph)].
Proof.
  unfold render_forest, placeholder_item. rewrite item_html; [done| |done].
  decide_bytes.
Qed.

Lemma getLeaf_render F id notThrow :
  Forall plain id -> Forall calm F ->
  getLeaf (render_forest ph F) id notThrow =
  match head (find_id id F) with
  | None => if notThrow then Ret None else Panic
  | Some p => Ret (Some (under li_pos p))
  end.
Proof.
  intros Hid Hc. unfold getLeaf. rewrite dollar_id by done.
  destruct F as [|e F].
  - rewrite render_empty. by destruct ph.
  - rewrite (select_render _ _ _ (e :: F) ltac:(done) (sees_id id) Hc). fold (find_id id (e :: F)).
    by destruct (find_id id (e :: F)).
Qed.
Lemma dollar_ul x :
  calm x -> exists l, dollar (str "ul") (render x) = Ret l /\
    head l = match e_kids x with [] => None | _ => Some [2%nat] end.
Proof.
  intros Hc. eexists. split.
  { unfold dollar. rewrite bool_decide_eq_false_2 by decide_bytes. by rewrite type_law. }
  destruct x as [id label kids]. apply calm_Entry in Hc as [Hl _].
  assert (matches (is_tag (str "ul")) (create (str "a") (str "vtree-leaf-label") (parseHTML label)) = []) as Ha.
  { rewrite matches_create. apply number_nil, Forall_map, Forall_forall. intros n Hn.
    apply inert_matches; [apply inert_ul|]. rewrite forallb_forall in Hl. by apply Hl, list_elem_of_In. }
  cbn [render select_all map app number]. rewrite Ha. by destruct kids.
Qed.

(** What getChildList does to a leaf. *)
Definition under_leaf (x : entry) (n : node) : node :=
  match e_kids x with [] => appendChild (create (str "ul") (str "vtree-subtree") []) n | _ => n end.

Lemma getChildList_render F id i q e x :
  Forall plain id -> id <> [] -> Forall calm F -> head (find_id id F) = Some (i :: q) ->
  F !! i = Some e -> entry_at q e = Some x ->
  getChildList (render_forest ph F) (Some id) =
  Ret (alter_at (under_leaf x) (i :: li_pos q) (render_forest ph F), (i :: li_pos q) ++ [2%nat]).
Proof.
  intros Hid Hne Hc Hf Hi Hq. unfold getChildList. destruct id as [|b id]; [done|].
  rewrite getLeaf_render, Hf by done. cbn [under]. set (p := i :: li_pos q).
  assert (node_at p (render_forest ph F) = Some (render x)) as Hn.
  { unfold render_forest. destruct F as [|e0 F]; [done|]. subst p. cbn [create node_at].
    rewrite list_lookup_fmap, Hi. by apply render_at. }
  assert (calm x) as Hx by (eapply calm_at; [done|]; rewrite Forall_lookup in Hc; by eapply Hc).
  cbn [mbind option_bind]. rewrite Hn. change (pair p <$> Some (render x)) with (Some (p, render x)). cbn iota.
  destruct (dollar_ul x Hx) as (l & -> & Hl). rewrite Hl. unfold under_leaf.
  destruct x as [idx label [|k kids]]; [done|]. cbn [e_kids]. f_equal. f_equal.
  symmetry. by apply alter_at_id.
Qed.
Lemma placeholder_render t F :
  F <> [] -> Forall calm F -> t_tree t = render_forest ph F -> _placeholder t = Ret t.
Proof.
  intros HF Hc Ht. unfold _placeholder. rewrite Ht. pose proof (select_render _ _ ph F HF sees_placeholder Hc) as Hs.
  assert (number 0 (map (find_entry (fun _ => false)) F) = []) as E.
  { apply number_nil, Forall_map, Forall_true, find_entry_none. }
  rewrite E in Hs. change (map _ []) with (@nil position) in Hs.
  rewrite (class_law (str "vtree-placeholder")), Hs by done. destruct F as [|[id label kids] F]; [done|].
  unfold render_forest, create. rewrite bool_decide_eq_false_2; done.
Qed.
Definition leaf_under (o : options) (x : entry) (n : node) : node :=
  classList_add (str "vtree-has-children")
    (alter_at (appendChild (new_leaf (o_id o) (o_label o))) [2%nat] (under_leaf x n)).

Lemma leaf_under_render o x :
  leaf_under o x (render x) = render (push (Entry (o_id o) (o_label o) []) [] x).
Proof.
  destruct x as [id label kids]. cbn [push]. destruct kids as [|k kids]; [reflexivity|].
  cbn [app]. unfold leaf_under, under_leaf. cbn [e_kids].
  change (render (Entry id label (k :: kids ++ ?l))) with
    (Element (str "li") [(str "class", str "vtree-leaf vtree-has-children"); (str "data-vtree-id", id)]
      [create (str "span") (str "vtree-toggle") [];
       create (str "a") (str "vtree-leaf-label") (parseHTML label);
       create (str "ul") (str "vtree-subtree") (map render ((k :: kids) ++ l))]).
  rewrite map_app. reflexivity.
Qed.

(** The document after add, before _placeholder. *)
Lemma grown_render F i q e x o :
  F !! i = Some e -> entry_at q e = Some x ->
  let p := i :: li_pos q in
  alter_at (classList_add (str "vtree-has-children")) (removelast (p ++ [2%nat]))
    (alter_at (appendChild (new_leaf (o_id o) (o_label o))) (p ++ [2%nat])
      (alter_at (under_leaf x) p (render_forest ph F))) =
  render_forest ph (grow (Entry (o_id o) (o_label o) []) (i :: q) F).
Proof.
  intros Hi Hq p. rewrite removelast_last, (alter_at_app _ p), !alter_at_twice.
  change (fun n => _) with (leaf_under o x). subst p. unfold render_forest, create. cbn [alter_at].
  destruct F as [|e0 F]; [done|]. set (l := e0 :: F) in *.
  assert (map render (alter (push (Entry (o_id o) (o_label o) []) q) i l) =
          alter (alter_at (leaf_under o x) (li_pos q)) i (map render l)) as E.
  { apply (map_alter_at _ _ _ _ _ e); [done|]. symmetry.
    apply (alter_render _ _ _ _ x); [done|apply leaf_under_render]. }
  rewrite <- E. cbn [grow]. by destruct i.
Qed.

Definition represents (t : vtree) (F : list entry) : Prop :=
  t_tree t = render_forest ph F /\ t_placeholder t = ph /\ Forall calm F.
Lemma calm_push x p e : calm x -> calm e -> calm (push x p e).
Proof.
  intros Hx. revert e. induction p as [|j p IH]; intros [id label kids] He; apply calm_Entry in He as [Hl Hk];
    cbn [push]; apply calm_Entry; split; try done.
  - apply Forall_app_2; [done|by apply Forall_singleton].
  - apply Forall_alter; [done|]. intros k _ Hk'. by apply IH.
Qed.

Lemma calm_grow x p F : calm x -> Forall calm F -> Forall calm (grow x p F).
Proof.
  intros Hx HF. destruct p as [|i q]; cbn [grow].
  - apply Forall_app_2; [done|by apply Forall_singleton].
  - apply Forall_alter; [done|]. intros k _ Hk. by apply calm_push.
Qed.

(** _placeholder after a new root: it takes away the placeholder, if it is there. *)
Lemma placeholder_root t F x :
  Forall calm (F ++ [x]) -> t_placeholder t = ph ->
  t_tree t = alter_at (appendChild (render x)) [] (render_forest ph F) ->
  exists t', _placeholder t = Ret t' /\ represents t' (F ++ [x]).
Proof.
  intros Hc Hp Ht. cbn [alter_at] in Ht. destruct F as [|e F].
  - rewrite render_empty in Ht. unfold _placeholder. rewrite Ht.
    rewrite (class_law (str "vtree-placeholder")) by done. destruct x as [id label kids].
    eexists. split; [cbn; destruct ph; reflexivity|]. done.
  - exists t. assert (t_tree t = render_forest ph ((e :: F) ++ [x])) as E.
    { rewrite Ht. unfold render_forest, create, appendChild. cbn [app].
      change (e :: F ++ [x]) with ((e :: F) ++ [x]). by rewrite map_app. }
    split; [|done]. by apply (placeholder_render t ((e :: F) ++ [x])).
Qed.

Lemma dispatch_render t F id : represents t F -> Forall plain id -> is_ret (_dispatch (t_tree t) id) = true.
Proof.
  intros (Ht & _ & Hc) Hid. unfold _dispatch. rewrite Ht, getLeaf_render by done. by destruct (head _).
Qed.

(** add implements the insertion of an entry; without its parent it throws. *)
Lemma add_refines t F o :
  represents t F -> Forall plain (o_id o) -> o_id o <> [] ->
  (forall id, o_parent o = Some id -> Forall plain id) -> forallb inert (parseHTML (o_label o)) = true ->
  match insert_entry F o with
  | Some F' => exists t', add t o = (t', true) /\ represents t' F'
  | None => add t o = (t, false)
  end.
Proof.
  intros (Ht & Hp & Hc) Hid Hne Hpar Hl. unfold insert_entry, add. rewrite Ht, getLeaf_render by done.
  destruct (find_id (o_id o) F) as [|p0 ps]; cbn [head]; [|by exists t].
  set (x := Entry (o_id o) (o_label o) []).
  assert (calm x) as Hx by (apply calm_Entry; split; [done|constructor]).
  rewrite (bool_decide_eq_false_2 (o_id o = [])) by done.
  assert (forall p, Forall calm (grow x p F)) as Hg by (intros p; by apply calm_grow).
  destruct (o_parent o) as [[|b id]|] eqn:Ep.
  1,3: destruct (placeholder_root {| t_tree := alter_at (appendChild (render x)) [] (render_forest ph F);
         t_placeholder := t_placeholder t; t_leafs := <[o_id o := o]> (t_leafs t); t_random := t_random t |} F x)
         as (t' & E & Ht'); [by apply (Hg [])|done..|];
       exists t'; split; [|done]; cbn [getChildList];
       rewrite bool_decide_eq_true_2 by done; cbn iota in *;
       change (new_leaf (o_id o) (o_label o)) with (render x); rewrite E; by rewrite (dispatch_render t' (grow x [] F)).
  destruct (head (find_id (b :: id) F)) as [p|] eqn:Ef; cbn [mbind option_bind].
  - destruct (find_id_at (b :: id) F p) as (i & q & e & y & -> & Hi & Hq & _).
    { destruct (find_id (b :: id) F); [done|]. injection Ef as ->. apply list_elem_of_here. }
    rewrite (getChildList_render F (b :: id) i q e y) by (by auto).
    rewrite bool_decide_eq_false_2 by (by destruct q). rewrite (grown_render F i q e y o Hi Hq).
    set (t1 := {| t_tree := _ |}). exists t1.
    assert (represents t1 (grow x (i :: q) F)) as Hr by done.
    rewrite (placeholder_render t1 (grow x (i :: q) F)); [|by destruct F, i|done..].
    split; [|done]. by rewrite (dispatch_render t1 (grow x (i :: q) F)).
  - unfold getChildList. rewrite getLeaf_render by auto. by rewrite Ef.
Qed.
Lemma newTree_represents : exists t, newTree ph = Ret t /\ represents t [].
Proof.
  unfold newTree, _placeholder. cbn [t_tree t_placeholder create children List.filter].
  rewrite bool_decide_eq_true_2, bool_decide_eq_false_2 by done. by eexists.
Qed.

(** *** What is shown *)

Definition content (r : list bytes * bytes) : list bytes * list node := (r.1, parseHTML r.2).

Lemma inert_rows chain n : inert n = true -> dom_rows chain n = [].
Proof.
  induction n as [s|tag attrs kids IH] using node_ind'; intros Hn; [done|]. cbn [inert] in Hn.
  apply andb_prop in Hn as [Hn Hk]. apply andb_prop in Hn as [_ ->%bool_decide_eq_true].
  cbn [dom_rows attr]. apply concat_nil_Forall, Forall_map. rewrite forallb_forall in Hk.
  rewrite Forall_forall in *. intros k Hin. by apply IH, Hk, list_elem_of_In.
Qed.

Lemma dom_rows_create chain tag c kids :
  dom_rows chain (create tag c kids) = concat (map (dom_rows chain) kids).
Proof. done. Qed.

Lemma dom_rows_render chain e : calm e -> dom_rows chain (render e) = map content (rows chain e).
Proof.
  revert chain. induction e as [id label kids IH] using entry_ind'. intros chain. rewrite calm_Entry.
  intros [Hl Hk]. cbn [rows map].
  assert (dom_rows (chain ++ [id]) (create (str "a") (str "vtree-leaf-label") (parseHTML label)) = []) as Ha.
  { rewrite dom_rows_create. apply concat_nil_Forall, Forall_map, Forall_forall. intros n Hn.
    apply inert_rows. rewrite forallb_forall in Hl. by apply Hl, list_elem_of_In. }
  change (dom_rows chain (render (Entry id label kids))) with
    ((chain ++ [id], parseHTML label) :: concat (map (dom_rows (chain ++ [id])) (childNodes (render (Entry id label kids))))).
  change (content (?c, label)) with (c, parseHTML label). f_equal. cbn [render childNodes app map concat]. rewrite Ha.
  cbn [app]. destruct kids as [|k kids]; [done|]. set (l := k :: kids) in *. cbn [map concat].
  assert (map (dom_rows (chain ++ [id])) (map render l) = map (map content) (map (rows (chain ++ [id])) l)) as E.
  { rewrite !map_map. apply map_ext_in. intros x Hx%list_elem_of_In. rewrite Forall_forall in IH, Hk. by apply IH, Hk. }
  change (dom_rows ?c (create (str "span") ?d [])) with (@nil (list bytes * list node)).
  rewrite dom_rows_create, E, app_nil_r. symmetry. apply concat_map.
Qed.

Lemma shown_render t F : represents t F -> shown t = map content (forest_rows F).
Proof.
  intros (Ht & _ & Hc). unfold shown. rewrite Ht. destruct F as [|e F].
  - rewrite render_empty. by destruct ph.
  - unfold render_forest, forest_rows. rewrite dom_rows_create, concat_map, !map_map. f_equal.
    apply map_ext_in. intros x Hx%list_elem_of_In. rewrite Forall_forall in Hc. by apply dom_rows_render, Hc.
Qed.
End Refinement.

(** ** The forest as a set of rows *)

Lemma find_entry_nonempty g chain e c l :
  (c, l) ∈ rows chain e -> (exists id, last c = Some id /\ g id = true) -> find_entry g e <> [].
Proof.
  revert chain. induction e as [id label kids IH] using entry_ind'. intros chain Hin (i & Hlast & Hg).
  cbn [rows find_entry] in *. apply elem_of_cons in Hin as [Hin|Hin].
  - injection Hin as -> ->. rewrite last_snoc in Hlast. injection Hlast as ->. by rewrite Hg.
  - apply elem_of_concat_map in Hin as (k & Hk & Hin). intros Hnil. apply app_eq_nil in Hnil as [_ Hnil].
    rewrite Forall_forall in IH. pose proof (IH k Hk _ Hin ltac:(by exists i)) as Hne.
    destruct (find_entry g k) as [|p ps] eqn:Ek; [done|]. apply list_elem_of_lookup in Hk as [j Hj].
    assert (j :: p ∈ number 0 (map (find_entry g) kids)) as Hp.
    { apply elem_of_number. exists j, (find_entry g k), p. split_and!; [done|by rewrite list_lookup_fmap, Hj|].
      rewrite Ek. left. }
    rewrite Hnil in Hp. by apply elem_of_nil in Hp.
Qed.

(** The row of an entry. *)
Lemma rows_at p chain e x :
  entry_at p e = Some x -> exists c, (c, e_label x) ∈ rows chain e /\ last c = Some (e_id x) /\
    forall y, rows chain (push y p e) ≡ₚ rows chain e ++ rows c y.
Proof.
  revert chain e. induction p as [|j p IH]; intros chain [id label kids] H.
  - injection H as <-. exists (chain ++ [id]). cbn [rows e_id e_label push]. split_and!; [left|apply last_snoc|].
    intros y. rewrite map_app, concat_app. cbn. by rewrite app_nil_r.
  - cbn [entry_at] in H. destruct (kids !! j) as [k|] eqn:Ek; [|done].
    destruct (IH (chain ++ [id]) k H) as (c & Hin & Hlast & Hpush). exists c. cbn [rows push]. split_and!; [|done|].
    + right. apply elem_of_concat_map. exists k. split; [|done]. by eapply list_elem_of_lookup_2.
    + intros y. cbn [app]. constructor. by eapply concat_map_alter.
Qed.

(** An id is found if and only if a row ends in it. *)
Lemma find_id_rows id F :
  (exists c l, (c, l) ∈ forest_rows F /\ last c = Some id) <-> exists p ps, find_id id F = p :: ps.
Proof.
  unfold forest_rows. split.
  - intros (c & l & (e & He & Hin)%elem_of_concat_map & Hlast). apply list_elem_of_lookup in He as [j Hj].
    pose proof (find_entry_nonempty (fun i => bool_decide (i = id)) [] e c l Hin
      ltac:(exists id; split; [done|by apply bool_decide_eq_true])) as Hne.
    destruct (find_entry _ e) as [|p ps] eqn:Ee; [done|].
    assert (j :: p ∈ find_id id F) as Hp.
    { apply elem_of_number. eexists j, _, p. split_and!; [done|by rewrite list_lookup_fmap, Hj|]. rewrite Ee. left. }
    destruct (find_id id F) as [|p' ps']; [by apply elem_of_nil in Hp|by exists p', ps'].
  - intros (p & ps & H). destruct (find_id_at id F p) as (i & q & e & x & -> & Hi & Hq & <-); [rewrite H; left|].
    destruct (rows_at q [] e x Hq) as (c & Hin & Hlast & _). exists c, (e_label x). split; [|done].
    apply elem_of_concat_map. exists e. split; [|done]. by eapply list_elem_of_lookup_2.
Qed.

Lemma insert_known F o c l :
  (c, l) ∈ forest_rows F -> last c = Some (o_id o) -> insert_entry F o = Some F.
Proof.
  intros Hin Hlast. unfold insert_entry.
  by destruct (proj1 (find_id_rows (o_id o) F) ltac:(by exists c, l)) as (p & ps & ->).
Qed.

Definition no_row (id : bytes) (F : list entry) : Prop := forall c l, (c, l) ∈ forest_rows F -> last c <> Some id.

Lemma no_row_find id F : no_row id F -> find_id id F = [].
Proof.
  intros H. destruct (find_id id F) as [|p ps] eqn:E; [done|]. exfalso.
  destruct (proj2 (find_id_rows id F) ltac:(by exists p, ps)) as (c & l & Hin & Hlast). by apply (H c l).
Qed.

Lemma insert_root F o :
  no_row (o_id o) F -> o_parent o = None ->
  exists F', insert_entry F o = Some F' /\ forest_rows F' ≡ₚ forest_rows F ++ [([o_id o], o_label o)].
Proof.
  intros Hno Hp. unfold insert_entry. rewrite (no_row_find _ _ Hno), Hp. eexists. split; [done|].
  cbn [grow]. unfold forest_rows. by rewrite map_app, concat_app.
Qed.

Lemma insert_child F o id c0 l0 :
  no_row (o_id o) F -> o_parent o = Some id -> id <> [] -> (c0, l0) ∈ forest_rows F -> last c0 = Some id ->
  exists F' c l, insert_entry F o = Some F' /\ (c, l) ∈ forest_rows F /\ last c = Some id /\
    forest_rows F' ≡ₚ forest_rows F ++ [(c ++ [o_id o], o_label o)].
Proof.
  intros Hno Hp Hne Hin0 Hlast0. unfold insert_entry. rewrite (no_row_find _ _ Hno), Hp. destruct id as [|b id]; [done|].
  destruct (proj1 (find_id_rows (b :: id) F) ltac:(by exists c0, l0)) as (p & ps & E). rewrite E.
  destruct (find_id_at (b :: id) F p) as (i & q & e & x & -> & Hi & Hq & Hid); [rewrite E; left|].
  destruct (rows_at q [] e x Hq) as (c & Hin & Hlast & Hpush). rewrite Hid in Hlast.
  exists (grow (Entry (o_id o) (o_label o) []) (i :: q) F), c, (e_label x). split_and!; [done| |done|].
  - apply elem_of_concat_map. exists e. split; [|done]. by eapply list_elem_of_lookup_2.
  - by apply (concat_map_alter _ _ _ _ e).
Qed.
