(* ===== verification/Humanise.v ===== *)
(** cmd/magneticow/data/static/scripts/common.js: fileSize and humaniseDate,
    which the pages use to show sizes and dates. *)

From S2P Require Import Prelude GoLib GoTime Iso8601 Encoding HttpLib Persistence Sql Keyset TorrentTables Sqlite3 Sqlite3Laws Sqlite3Props Outputs Credentials Web WebProps Client StatsPage Dom.
From Stdlib Require Import ZArith Lia QArith Qround.
From stdpp Require Import base list.
Local Open Scope Z_scope.

(** ** fileSize

    The argument is the value of a double. Dividing it by 1024 changes its
    exponent only, so that the quotients of the loop are the doubles that the
    script computes, and toFixed is specified by exact arithmetic. *)

Definition byteUnits : list bytes :=
  [str " KiB"; str " MiB"; str " GiB"; str " TiB"; str " PiB"; str " EiB"; str " ZiB"; str " YiB"].

(** The loop: the size in the unit it ends with, and that unit. *)
Fixpoint unitLoop (fuel : nat) (fileSizeInBytes : Q) (i : nat) : Q * nat :=
  let fileSizeInBytes := (fileSizeInBytes / 1024)%Q in
  if Qle_bool fileSizeInBytes 1024 then (fileSizeInBytes, i)
  else match fuel with O => (fileSizeInBytes, i) | S fuel => unitLoop fuel fileSizeInBytes (S i) end.

(** The double 0.1. *)
Definition tenth : Q := 3602879701896397 # 36028797018963968.

Definition Math_max (a b : Q) : Q := if Qle_bool a b then b else a.

(** The nearest number of tenths, the larger one of two. *)
Definition tenths (x : Q) : Z := Qfloor (x * 10 + (1 # 2))%Q.

Definition toFixed1 (x : Q) : bytes :=
  let n := tenths x in fmt_d (n / 10) ++ str "." ++ fmt_d (n mod 10).

(** A size is halved at most as often as its logarithm says. *)
Definition unitFuel (x : Q) : nat := Z.to_nat (Z.log2 (Qceiling x)).

Definition fileSize (fileSizeInBytes : Q) : bytes :=
  let '(x, i) := unitLoop (unitFuel fileSizeInBytes) fileSizeInBytes 0 in
  toFixed1 (Math_max x tenth) ++ default (str "undefined") (byteUnits !! i).

Lemma unitLoop_spec fuel x i n :
  (x * inject_Z (1024 ^ Z.of_nat i) == inject_Z n)%Q -> n <= 1024 ^ Z.of_nat (i + 2 + fuel) ->
  let '(y, j) := unitLoop fuel x i in
  (y * inject_Z (1024 ^ Z.of_nat (S j)) == inject_Z n)%Q /\ n <= 1024 ^ Z.of_nat (S (S j)) /\
  (j = i \/ 1024 ^ Z.of_nat (S j) < n).
Proof.
  revert x i. induction fuel as [|fuel IH]; intros x i Hx Hn; cbn [unitLoop].
  all: assert ((x / 1024) * inject_Z (1024 ^ Z.of_nat (S i)) == inject_Z n)%Q as Hy
    by (rewrite <- Hx, Nat2Z.inj_succ, Z.pow_succ_r, inject_Z_mult by lia; field).
  all: assert (Qle_bool (x / 1024) 1024 = (n <=? 1024 ^ Z.of_nat (S (S i)))) as ->.
  1,3: apply eq_true_iff_eq; rewrite Qle_bool_iff, Z.leb_le, Zle_Qle, <- Hy, (Nat2Z.inj_succ (S i)), Z.pow_succ_r,
         inject_Z_mult by lia; symmetry; apply Qmult_le_r;
       change 0%Q with (inject_Z 0); rewrite <- Zlt_Qlt; apply Z.pow_pos_nonneg; lia.
  - rewrite (proj2 (Z.leb_le _ _)); [split_and!; [done| |by left]|];
      (eapply Z.le_trans; [exact Hn|]; apply Z.pow_le_mono_r; lia).
  - destruct (Z.leb_spec n (1024 ^ Z.of_nat (S (S i)))) as [Hle|Hgt]; [by split_and!; [| |left]|].
    specialize (IH (x / 1024)%Q (S i) Hy). destruct (unitLoop fuel (x / 1024) (S i)) as [y j].
    destruct IH as (H1 & H2 & H3); [by replace (S i + 2 + fuel)%nat with (i + 2 + S fuel)%nat by lia|].
    split_and!; [done..|]. right. destruct H3 as [->|H3]; [lia|done].
Qed.

(** The unit in which a size is shown, and the tenths of it that are shown. *)
Definition shown_unit (n : Z) (j : nat) : Prop :=
  n <= 1024 ^ Z.of_nat (S (S j)) /\ (j = 0%nat \/ 1024 ^ Z.of_nat (S j) < n).
Definition shown_tenths (n : Z) (j : nat) : Z :=
  let u := 1024 ^ Z.of_nat (S j) in Z.max 1 ((20 * n + u) / (2 * u)).

Lemma tenths_spec y u n :
  0 < u -> (y * inject_Z u == inject_Z n)%Q -> tenths y = (20 * n + u) / (2 * u).
Proof.
  intros Hu Hy. unfold tenths. destruct u as [|u|u]; [lia| |lia].
  assert (y * 10 + (1 # 2) == (20 * n + Z.pos u) # (2 * u))%Q as E.
  { assert (y == n # u)%Q as ->.
    { apply (Qmult_inj_r _ _ (inject_Z (Z.pos u))); [by unfold Qeq; cbn; lia|]. rewrite Hy. unfold Qeq. cbn. lia. }
    unfold Qeq. cbn. lia. }
  rewrite (Qfloor_comp _ _ E). done.
Qed.

Lemma tenths_mono x y : (x <= y)%Q -> tenths x <= tenths y.
Proof.
  intros H. apply Qfloor_resp_le, Qplus_le_compat; [|apply Qle_refl].
  by apply Qmult_le_compat_r.
Qed.

Lemma tenths_max y : tenths (Math_max y tenth) = Z.max 1 (tenths y).
Proof.
  unfold Math_max. destruct (Qle_bool y tenth) eqn:E.
  - apply Qle_bool_iff, tenths_mono in E. change (tenths tenth) with 1 in *. lia.
  - assert (tenth <= y)%Q as H by (apply Qlt_le_weak, Qnot_le_lt; intros H; apply Qle_bool_iff in H; congruence).
    apply tenths_mono in H. change (tenths tenth) with 1 in *. lia.
Qed.

Lemma fileSize_int n :
  0 <= n -> exists j, shown_unit n j /\
    fileSize (inject_Z n) = fmt_d (shown_tenths n j / 10) ++ str "." ++ fmt_d (shown_tenths n j mod 10) ++
      default (str "undefined") (byteUnits !! j).
Proof.
  intros Hn. unfold fileSize. pose proof (unitLoop_spec (unitFuel (inject_Z n)) (inject_Z n) 0 n) as H.
  destruct (unitLoop _ _ 0) as [y j]. destruct H as (Hy & Hle & Hj).
  - by rewrite Qmult_1_r.
  - unfold unitFuel. rewrite Qceiling_Z. destruct (Z.eq_dec n 0) as [->|Hz]; [done|].
    pose proof (Z.log2_spec n ltac:(lia)) as [_ Hl]. pose proof (Z.log2_nonneg n).
    assert (2 ^ Z.succ (Z.log2 n) <= 1024 ^ Z.of_nat (0 + 2 + Z.to_nat (Z.log2 n))); [|lia].
    transitivity (1024 ^ Z.succ (Z.log2 n)); [apply Z.pow_le_mono_l; lia|apply Z.pow_le_mono_r; lia].
  - exists j. split; [done|]. unfold toFixed1, shown_tenths. rewrite tenths_max.
    rewrite (tenths_spec y (1024 ^ Z.of_nat (S j)) n) by (done || apply Z.pow_pos_nonneg; lia).
    by rewrite <- !app_assoc.
Qed.

Lemma fmt_d_plain n : Forall plain (fmt_d n).
Proof.
  eapply Forall_impl; [apply fmt_d_bytes|]. intros b [->|Hb]; [decide_bytes|].
  intros H. repeat (apply elem_of_cons in H as [->|H]; [done|]). by apply elem_of_nil in H.
Qed.

Lemma fileSize_plain x : Forall plain (fileSize x).
Proof.
  unfold fileSize, toFixed1. destruct (unitLoop _ _ _) as [y i].
  repeat apply Forall_app_2; try apply fmt_d_plain; [decide_bytes|].
  destruct (byteUnits !! i) as [u|] eqn:E; [|decide_bytes]. cbn [default].
  assert (Forall (Forall plain) byteUnits) as H by decide_bytes. rewrite Forall_lookup in H. by apply (H i).
Qed.

(** C37. Sizes are shown to within half of the last digit: for a size of at most
    2^53 bytes, which a double holds exactly, the loop ends, the unit has a name,
    and the number of tenths that is shown is the nearest one, except that less
    than 52 bytes are shown as 0.1 KiB. The unit changes when the size is greater
    than 1024 units, so that 1 MiB is shown as 1024.0 KiB. Beyond 2^53 bytes the
    script sees the double nearest to the size, and may show its tenths. *)
Theorem fileSize_accurate n :
  0 <= n <= 2 ^ 53 -> exists j unit v,
    byteUnits !! j = Some unit /\
    fileSize (inject_Z n) = fmt_d (v / 10) ++ str "." ++ fmt_d (v mod 10) ++ unit /\
    n <= 1024 ^ Z.of_nat (S (S j)) /\ (j = 0%nat \/ 1024 ^ Z.of_nat (S j) < n) /\ 1 <= v <= 10240 /\
    (2 * Z.abs (10 * n - v * 1024 ^ Z.of_nat (S j)) <= 1024 ^ Z.of_nat (S j) \/ n < 52 /\ v = 1).
Proof.
  intros Hn. destruct (fileSize_int n ltac:(lia)) as (j & [Hle Hj] & ->).
  assert (j < 6)%nat as Hj6.
  { destruct Hj as [->|Hj]; [lia|]. assert (1024 ^ Z.of_nat (S j) < 1024 ^ 7) as H by (change (1024 ^ 7) with (2 ^ 70); lia).
    apply Z.pow_lt_mono_r_iff in H; lia. }
  assert (exists unit, byteUnits !! j = Some unit) as [unit Hu] by (apply lookup_lt_is_Some_2; cbn; lia).
  exists j, unit, (shown_tenths n j). rewrite Hu. unfold shown_tenths.
  assert (1024 ^ Z.of_nat (S (S j)) = 1024 * 1024 ^ Z.of_nat (S j)) as E
    by (rewrite (Nat2Z.inj_succ (S j)), Z.pow_succ_r by lia; done).
  assert (0 < 1024 ^ Z.of_nat (S j)) as Hpos by (apply Z.pow_pos_nonneg; lia).
  assert (j = 0%nat -> 1024 ^ Z.of_nat (S j) = 1024) as H0 by (by intros ->).
  rewrite E in *. set (u := 1024 ^ Z.of_nat (S j)) in *.
  assert (2 * u * ((20 * n + u) / (2 * u)) <= 20 * n + u < 2 * u * ((20 * n + u) / (2 * u)) + 2 * u) as Hd.
  { pose proof (Z.div_mod (20 * n + u) (2 * u) ltac:(lia)). pose proof (Z.mod_pos_bound (20 * n + u) (2 * u) ltac:(lia)). lia. }
  set (v := (20 * n + u) / (2 * u)) in *. split_and!; [done|done|lia|done|lia|nia|].
  destruct (Z.le_gt_cases 1 v) as [Hv|Hv]; [left; rewrite Z.max_r by done; lia|].
  assert (20 * n < u) as Hs by nia. destruct Hj as [->|Hj]; [|lia]. rewrite H0 in Hs by done. right. lia.
Qed.

(** ** humaniseDate *)

(** ToIntegerOrInfinity *)
Definition toInteger (x : Q) : Z := Z.quot (Qnum x) (Zpos (Qden x)).

Section Dates.
Context {zone : Zone}.

(** toLocaleDateString of the locale en-GB, with two digits for the day and
    for the month. *)
Definition humaniseDate (unixTime : Q) : bytes :=
  match newDate (Some (toInteger (unixTime * 1000))) with
  | None => str "Invalid Date"
  | Some t =>
      let '(y, m, d) := civil (StatsPage.local t / 1000) in
      leftpad (Some d) ++ str "/" ++ leftpad (Some m) ++ str "/" ++ fmt_d y
  end.
End Dates.

(** ** The items of the list of torrents *)

(** A torrent with the texts of its size and of its date, which the template of
    an item is rendered with. *)
Record itemView := {
  iv_infoHash : bytes; iv_id : float64; iv_name : bytes; iv_size : bytes; iv_discoveredOn : bytes;
  iv_nFiles : float64; iv_relevance : float64 }.

Section Items.
Context {zone : Zone}.

Definition humanise (t : jsTorrent) : itemView :=
  {| iv_infoHash := js_infoHash t; iv_id := js_id t; iv_name := js_name t; iv_size := fileSize (js_size t);
     iv_discoveredOn := humaniseDate (js_discoveredOn t); iv_nFiles := js_nFiles t; iv_relevance := js_relevance t |}.

(** What the list shows when all pages are loaded. *)
Lemma items_shown {O : Outside} {J : Js} `{!JsLaws O J} {R : Driver} `{!SqliteLaws R} now c t q epoch n :
  wf t -> 0 < epoch < 2 ^ 63 -> (searching q = true -> fts_syntax (text q) = true) ->
  Forall (showable t q) (results t q epoch) -> (length (results t q epoch) < n)%nat ->
  map humanise (c_shown (load_all (site now c t) n (Client.onload q epoch))) =
  map (fun r => humanise (js_of (metadata_of t (text q) r))) (ordered (row_key t q) (searching q) (results t q epoch)).
Proof.
  intros Hw He Hs Hr Hn. change (Client.onload q epoch) with (state t q epoch [] true).
  rewrite (load_all_state now c t q epoch Hw He Hs Hr n [] (ordered (row_key t q) (searching q) (results t q epoch)));
    [|done|by rewrite ordered_perm].
  cbn [c_shown state app]. by rewrite map_map.
Qed.
End Items.
