(* ===== verification/TorrentPage.v ===== *)
(** cmd/magneticow/data/static/scripts/torrent.js and myFetch of common.js: the
    page of one torrent, from the answers of the API to the document, and the
    theorems on the tree of its files. *)

From S2P Require Import Prelude GoLib GoTime Encoding HttpLib Persistence Sql TorrentTables Sqlite3 Sqlite3Laws Sqlite3Props Outputs Credentials Web WebProps Client StatsPage Dom FileTree Humanise.
From Stdlib Require Import ZArith Lia.
From Stdlib Require QArith_base.
From stdpp Require Import base list gmap.
Local Open Scope Z_scope.

(** ** The script *)

(** A file of the list, as JSON.parse makes it. *)
Record jsFile := { jf_size : float64; jf_path : bytes }.

Definition slash : byte := Byte.x2f.

Definition sizeMarkup (size : float64) : bytes := str "&emsp;<tt>" ++ fileSize size ++ str "</tt>".

(** The argument of add for the element [i] of a path. *)
Definition fileOptions (e : jsFile) (pathElems : list bytes) (i : nat) : options :=
  {| o_id := Client.join slash (take (i + 1) pathElems);
     o_parent := if (1 <=? i)%nat then Some (Client.join slash (take i pathElems)) else None;
     o_label := default (str "undefined") (pathElems !! i) ++
                (if bool_decide (Z.of_nat i = len pathElems - 1) then sizeMarkup (jf_size e) else []) |}.

(** The two loops: the calls of add for all files. *)
Definition fileCalls (e : jsFile) : list options :=
  let pathElems := Split (jf_path e) slash in
  map (fileOptions e pathElems) (seq 0 (length pathElems)).

Definition showFiles {B : Browser} (tree : vtree) (x : list jsFile) : vtree * bool :=
  addAll tree (concat (map fileCalls x)).

(** What a server answers. *)
Record response := { rs_status : Z; rs_statusText : bytes; rs_body : bytes }.

(** The view that the template of the page is rendered with. *)
Record torrentView := {
  v_name : bytes; v_infoHash : bytes; v_sizeHumanised : bytes; v_discoveredOnHumanised : bytes;
  v_nFiles : float64 }.

(** The parts of the page. The tree comes with whether the loop that fills it
    ended without an exception. *)
Record page := {
  p_title : bytes; p_main : option torrentView; p_tree : option (vtree * bool); p_readme : option bytes }.

Section Script.
Context {J : Js} {zone : Zone} {B : Browser}.

Definition read_file (s : bytes) : option (jsFile * bytes) :=
  r ← CutPrefix (str "{" ++ json_key (str "size")) s;
  '(size, r) ← read_number Byte.x2c r;
  r ← CutPrefix (json_key (str "path") ++ [Byte.x22]) r;
  '(path, r) ← unquote Plain r;
  r ← CutPrefix (str "}") r;
  Some ({| jf_size := size; jf_path := path |}, r).

Definition json_of_torrent (s : bytes) : option jsTorrent :=
  '(t, r) ← read_torrent s; if bool_decide (r = newline) then Some t else None.

(** fetch: an answer, or the text of the error of a connection that fails. *)
Variable fetch : bytes -> res bytes response.

Definition body (url : bytes) : option bytes :=
  match fetch url with Ok r => Some (rs_body r) | Err _ => None end.

(** The text of the error for a status that is not 2XX. *)
Definition myFetch (url : bytes) : res bytes response :=
  match fetch url with
  | Err e => Err e
  | Ok r =>
      if (200 <=? rs_status r) && (rs_status r <? 300) then Ok r
      else Err (str "Error: " ++ (if bool_decide (rs_statusText r = []) then fmt_d (rs_status r) else rs_statusText r))
  end.

Definition api : bytes := str "/api/v0.1/torrents/".

(** window.onload. A promise that is rejected leaves the rest of its chain out;
    the list of files and the readme are fetched independently. *)
Definition onload (pathname : bytes) : page :=
  let infoHash := default (str "undefined") (Split pathname slash !! 2%nat) in
  match body (api ++ infoHash) ≫= json_of_torrent with
  | None => {| p_title := str "Loading... - magneticow"; p_main := None; p_tree := None; p_readme := None |}
  | Some x =>
      {| p_title := js_name x ++ str " - magneticow";
         p_main := Some {| v_name := js_name x; v_infoHash := js_infoHash x;
                           v_sizeHumanised := fileSize (js_size x);
                           v_discoveredOnHumanised := humaniseDate (js_discoveredOn x);
                           v_nFiles := js_nFiles x |};
         p_tree := match body (api ++ infoHash ++ str "/filelist") ≫= JSON_list read_file with
                   | None => None
                   | Some x => match newTree (str "Loading...") with
                               | Ret tree => Some (showFiles tree x)
                               | Panic => None
                               end
                   end;
         p_readme := Some match myFetch (api ++ infoHash ++ str "/readme") with
                          | Ok r => rs_body r
                          | Err e => e
                          end |}
  end.
End Script.

(** ** The tree of files *)

(** The directories of a path and the path itself, as lists of names. *)
Definition prefixes (p : list bytes) : list (list bytes) := map (fun i => take (S i) p) (seq 0 (length p)).
Definition elems (e : jsFile) : list bytes := Split (jf_path e) slash.
(** The ids of the leaves on the way to a path. *)
Definition chain (p : list bytes) : list bytes := map (Client.join slash) (prefixes p).

(** The rows that belong to a file and to a directory. *)
Definition fileLeaf (e : jsFile) : list bytes * list node :=
  (chain (elems e),
   text_nodes (default [] (last (elems e)) ++ emsp) ++ [Element (str "tt") [] (text_nodes (fileSize (jf_size e)))]).
Definition dirLeaf (p : list bytes) : list bytes * list node := (chain p, text_nodes (default [] (last p))).

Definition directories (files : list jsFile) : list (list bytes) :=
  remove_dups (concat (map (fun e => prefixes (removelast (elems e))) files)).

(** Paths that the tree can hold: plain bytes, and a name that is not empty in
    front. *)
Definition path_ok (path : bytes) : Prop := Forall plain path /\ path <> [] /\ head path <> Some slash.
(** Paths that are those of a tree: all different, and none a directory of another. *)
Definition tree_like (files : list jsFile) : Prop :=
  NoDup (map elems files) /\ Forall (fun e => elems e ∉ directories files) files.

(** *** Ids *)

Definition names (p : list bytes) : Prop := p <> [] /\ head p <> Some [] /\ Forall (fun x => slash ∉ x) p.

Lemma Split_join p : p <> [] -> Forall (fun x => slash ∉ x) p -> Split (Client.join slash p) slash = p.
Proof.
  intros Hne H. induction H as [|x p Hx Hp IH]; [done|]. destruct p as [|y p].
  - by apply Split_none.
  - change (Client.join slash (x :: y :: p)) with (x ++ slash :: Client.join slash (y :: p)).
    rewrite Split_app by done. f_equal. by apply IH.
Qed.

Lemma join_inj p q : names p -> names q -> Client.join slash p = Client.join slash q -> p = q.
Proof. intros (Hp & _ & Hp') (Hq & _ & Hq') E. rewrite <- (Split_join p), <- (Split_join q), E; done. Qed.

Lemma join_nonempty p : names p -> Client.join slash p <> [].
Proof. intros (Hne & Hh & _). destruct p as [|[|b x] [|y p]]; done. Qed.

Lemma Split_clean s : Forall (fun x => slash ∉ x) (Split s slash).
Proof.
  induction s as [|b s IH]; cbn [Split]; [by repeat constructor; apply not_elem_of_nil|].
  case_bool_decide as Hb; [by constructor; [apply not_elem_of_nil|]|].
  destruct (Split s slash) as [|x l]; [constructor; [|done]; by rewrite not_elem_of_cons; split; [congruence|apply not_elem_of_nil]|].
  apply Forall_cons in IH as [Hx Hl]. constructor; [|done]. rewrite not_elem_of_cons. split; [congruence|done].
Qed.

Lemma elems_names e : path_ok (jf_path e) -> names (elems e).
Proof.
  intros (_ & Hne & Hh). split_and!; [apply Split_nonempty| |apply Split_clean]. unfold elems.
  destruct (jf_path e) as [|b s]; [done|]. cbn [Split]. rewrite bool_decide_eq_false_2 by (intros ->; done).
  by destruct (Split s slash).
Qed.

Lemma names_take p i : names p -> names (take (S i) p).
Proof.
  intros (Hne & Hh & Hs). destruct p as [|x p]; [done|]. split_and!; [done..|]. by apply Forall_take.
Qed.

Lemma elem_of_join b p : b ∈ Client.join slash p -> b = slash \/ exists x, x ∈ p /\ b ∈ x.
Proof.
  induction p as [|y p IH]; [by intros ?%elem_of_nil|]. destruct p as [|z p]; cbn [Client.join].
  - intros H. right. exists y. split; [left|done].
  - rewrite elem_of_app, elem_of_cons. intros [H|[->|H]]; [right; exists y; split; [left|done]|by left|].
    destruct (IH H) as [->|(w & Hw & Hb)]; [by left|right; exists w; split; [by right|done]].
Qed.

Lemma elem_of_Split b x s : x ∈ Split s slash -> b ∈ x -> b ∈ s.
Proof.
  revert x. induction s as [|c s IH]; intros x; cbn [Split].
  - intros ->%list_elem_of_singleton. done.
  - case_bool_decide as Hc; [rewrite elem_of_cons; intros [->|Hx] Hb; [by apply elem_of_nil in Hb|right; by eapply IH]|].
    destruct (Split s slash) as [|y l]; [intros ->%list_elem_of_singleton [->|Hb]%elem_of_cons; [left|by apply elem_of_nil in Hb]|].
    rewrite elem_of_cons. intros [->|Hx] Hb; [apply elem_of_cons in Hb as [->|Hb]; [left|right; eapply IH; [left|done]]|].
    right. eapply IH; [by right|done].
Qed.

Lemma names_plain path p :
  Forall plain path -> (forall x, x ∈ p -> x ∈ Split path slash) -> Forall plain (Client.join slash p).
Proof.
  rewrite !Forall_forall. intros H Hp b Hb. destruct (elem_of_join b p Hb) as [->|(x & Hx & Hbx)]; [decide_bytes|].
  by apply H, (elem_of_Split b x), Hbx; apply Hp.
Qed.

(** *** The calls, as paths with labels *)

Abbreviation call := (list bytes * bytes)%type.

Definition callOptions (c : call) : options :=
  {| o_id := Client.join slash c.1;
     o_parent := match removelast c.1 with [] => None | p => Some (Client.join slash p) end;
     o_label := c.2 |}.

(** The label of the first [n] elements of a path, [Some size] for the file itself. *)
Definition elemLabel (e : jsFile) (p : list bytes) : bytes :=
  default [] (last p) ++ if bool_decide (p = elems e) then sizeMarkup (jf_size e) else [].

Definition pathCalls (e : jsFile) : list call := map (fun p => (p, elemLabel e p)) (prefixes (elems e)).

Lemma last_take {A} (l : list A) i x : l !! i = Some x -> last (take (S i) l) = Some x.
Proof. intros H. by rewrite (take_S_r _ _ _ H), last_snoc. Qed.

Lemma removelast_take {A} (l : list A) i : (i < length l)%nat -> removelast (take (S i) l) = take i l.
Proof. intros H. destruct (lookup_lt_is_Some_2 l i H) as [x Hx]. by rewrite (take_S_r _ _ _ Hx), removelast_last. Qed.

Lemma fileCalls_paths e : fileCalls e = map callOptions (pathCalls e).
Proof.
  unfold fileCalls, pathCalls, prefixes. fold (elems e). rewrite !map_map. apply map_ext_in.
  intros i [_ Hi]%in_seq. cbn [Nat.add] in Hi. unfold fileOptions, callOptions, elemLabel. cbn [fst snd].
  destruct (lookup_lt_is_Some_2 (elems e) i Hi) as [x Hx].
  rewrite Nat.add_1_r, removelast_take, (last_take _ _ _ Hx), Hx by done. f_equal.
  - destruct i as [|i]; [done|]. by destruct (elems e).
  - cbn [default]. f_equal. unfold len.
    assert (Z.of_nat i = Z.of_nat (length (elems e)) - 1 <-> take (S i) (elems e) = elems e) as Hiff.
    { split; intros H; [apply take_ge; lia|]. apply (f_equal length) in H. rewrite length_take in H. lia. }
    by rewrite (bool_decide_ext _ _ Hiff).
Qed.

(** *** What the calls leave in the forest *)

(** Only the first call for a path counts. *)
Definition note (seen : list call) (c : call) : list call :=
  if decide (c.1 ∈ map fst seen) then seen else seen ++ [c].

Definition holds (seen : list call) (F : list entry) : Prop :=
  Forall (fun c => names c.1) seen /\ forest_rows F ≡ₚ map (fun c => (chain c.1, c.2)) seen.

Lemma chain_snoc q x : chain (q ++ [x]) = chain q ++ [Client.join slash (q ++ [x])].
Proof.
  unfold chain, prefixes. rewrite length_app. cbn [length]. rewrite Nat.add_1_r, seq_S, !map_app. cbn [map Nat.add].
  f_equal.
  - rewrite !map_map. apply map_ext_in. intros i [_ Hi]%in_seq. rewrite take_app_le by lia. done.
  - by rewrite (take_ge (q ++ [x])) by (rewrite length_app; cbn; lia).
Qed.

Lemma chain_last p : p <> [] -> last (chain p) = Some (Client.join slash p).
Proof. intros H. destruct p as [|x p] using rev_ind; [done|]. by rewrite chain_snoc, last_snoc. Qed.

Lemma holds_row seen F c l p :
  holds seen F -> names p -> (c, l) ∈ forest_rows F -> last c = Some (Client.join slash p) ->
  c = chain p /\ (p, l) ∈ seen.
Proof.
  intros [Hn HF] Hp Hin Hlast. rewrite HF in Hin. apply list_elem_of_fmap in Hin as ([q l'] & [= -> ->] & Hq).
  rewrite Forall_forall in Hn. pose proof (Hn _ Hq) as Hq'. cbn [fst] in *.
  rewrite chain_last in Hlast by apply Hq'. injection Hlast as E. apply join_inj in E as ->; done.
Qed.

Lemma note_step seen F c :
  holds seen F -> names c.1 -> (removelast c.1 = [] \/ removelast c.1 ∈ map fst seen) ->
  exists F', insert_entry F (callOptions c) = Some F' /\ holds (note seen c) F'.
Proof.
  intros Hh Hc Hpar. pose proof Hh as [Hn HF]. destruct c as [p l]. cbn [fst] in *. unfold note. cbn [fst].
  case_decide as Hin.
  - apply list_elem_of_fmap in Hin as ([p' l'] & -> & Hin). exists F. split; [|done].
    apply (insert_known F _ (chain p') l'); [|by apply chain_last, Hc].
    rewrite HF. apply list_elem_of_fmap. by exists (p', l').
  - assert (no_row (o_id (callOptions (p, l))) F) as Hno.
    { intros c l' Hrow Hlast. destruct (holds_row _ _ _ _ _ Hh Hc Hrow Hlast) as [_ H]. apply Hin.
      apply list_elem_of_fmap. by exists (p, l'). }
    assert (forall c F', c ++ [Client.join slash p] = chain p ->
      forest_rows F' ≡ₚ forest_rows F ++ [(c ++ [Client.join slash p], l)] -> holds (seen ++ [(p, l)]) F') as Hend.
    { intros c F' Ec HF'. split; [by apply Forall_app_2; [|apply Forall_singleton]|].
      rewrite HF', HF, Ec, map_app. done. }
    destruct p as [|x q _] using rev_ind; [by destruct Hc|]. rewrite removelast_last in Hpar.
    rewrite chain_snoc in Hend. destruct (decide (q = [])) as [->|Hq].
    + destruct (insert_root F (callOptions ([] ++ [x], l)) Hno eq_refl) as (F' & HF' & Hr). exists F'.
      split; [done|]. by apply (Hend []).
    + destruct Hpar as [|Hpar]; [done|]. apply list_elem_of_fmap in Hpar as ([q' lq] & -> & Hpar). cbn [fst] in *.
      assert (names q') as Hq' by (rewrite Forall_forall in Hn; by apply (Hn (q', lq))).
      destruct (insert_child F (callOptions (q' ++ [x], l)) (Client.join slash q') (chain q') lq Hno)
        as (F' & c & l' & HF' & Hrow & Hlast & Hr).
      * cbn. rewrite removelast_last. by destruct q'.
      * by apply join_nonempty.
      * rewrite HF. apply list_elem_of_fmap. by exists (q', lq).
      * by apply chain_last.
      * destruct (holds_row _ _ _ _ _ Hh Hq' Hrow Hlast) as [-> _]. exists F'. split; [done|]. by apply (Hend (chain q')).
Qed.

(** Every path comes after its directory. *)
Fixpoint closed (seen : list call) (l : list call) : Prop :=
  match l with
  | [] => True
  | c :: l => (removelast c.1 = [] \/ removelast c.1 ∈ map fst seen) /\ closed (note seen c) l
  end.

Lemma closed_app seen a b : closed seen a -> closed (foldl note seen a) b -> closed seen (a ++ b).
Proof. revert seen. induction a as [|c a IH]; intros seen Ha Hb; [done|]. destruct Ha as [Hc Ha]. split; [done|by apply IH]. Qed.

Lemma note_in seen c : c.1 ∈ map fst (note seen c).
Proof.
  unfold note. case_decide as H; [done|]. rewrite map_app, elem_of_app. right. cbn. left.
Qed.

Lemma closed_file e seen : closed seen (pathCalls e).
Proof.
  unfold pathCalls, prefixes. rewrite map_map. set (p := elems e).
  assert (forall n i seen, (i + n = length p)%nat -> (i = 0%nat \/ take i p ∈ map fst seen) ->
    closed seen (map (fun i => (take (S i) p, elemLabel e (take (S i) p))) (seq i n))) as H.
  { induction n as [|n IH]; intros i sn Hi Hin; [done|]. cbn [seq map closed fst]. split.
    - rewrite removelast_take by lia. destruct Hin as [->|Hin]; [by left|by right].
    - apply IH; [lia|]. right. apply (note_in sn (take (S i) p, _)). }
  apply H; [done|by left].
Qed.

Lemma closed_files files seen : closed seen (concat (map pathCalls files)).
Proof.
  revert seen. induction files as [|e files IH]; intros seen; [done|].
  apply closed_app; [apply closed_file|apply IH].
Qed.

Lemma note_keys seen c : NoDup (map fst seen) -> NoDup (map fst (note seen c)).
Proof.
  intros H. unfold note. case_decide as Hin; [done|]. rewrite map_app. apply NoDup_app. split_and!; [done| |].
  - intros x Hx ->%list_elem_of_singleton. done.
  - apply NoDup_singleton.
Qed.

Lemma notes_keys calls seen : NoDup (map fst seen) -> NoDup (map fst (foldl note seen calls)).
Proof. revert seen. induction calls as [|c calls IH]; intros seen H; [done|]. by apply IH, note_keys. Qed.

Lemma notes_in calls seen c : c ∈ foldl note seen calls -> c ∈ seen \/ c ∈ calls.
Proof.
  revert seen. induction calls as [|d calls IH]; intros seen H; [by left|]. cbn [foldl] in H.
  apply IH in H as [H|H]; [|by right; right]. unfold note in H. case_decide; [by left|].
  apply elem_of_app in H as [H|H]; [by left|]. apply list_elem_of_singleton in H as ->. right. left.
Qed.

Lemma notes_all calls seen p :
  p ∈ map fst seen \/ p ∈ map fst calls -> p ∈ map fst (foldl note seen calls).
Proof.
  revert seen. induction calls as [|d calls IH]; intros seen H; [by destruct H as [H|H%elem_of_nil]|].
  cbn [foldl]. apply IH. destruct H as [H|H]; [left|apply elem_of_cons in H as [->|H]; [|by right]].
  - unfold note. case_decide; [done|]. rewrite map_app, elem_of_app. by left.
  - left. apply note_in.
Qed.

Lemma elem_of_prefixes q p : q ∈ prefixes p <-> exists i, (i < length p)%nat /\ q = take (S i) p.
Proof.
  unfold prefixes. rewrite list_elem_of_fmap. split.
  - intros (i & -> & [_ Hi]%list_elem_of_In%in_seq). by exists i.
  - intros (i & Hi & ->). exists i. split; [done|]. apply list_elem_of_In, in_seq. lia.
Qed.

(** The prefixes of a path: the path and its directories. *)
Lemma prefixes_split p q : p <> [] -> q ∈ prefixes p <-> q = p \/ q ∈ prefixes (removelast p).
Proof.
  intros Hne. destruct p as [|x p _] using rev_ind; [done|]. rewrite removelast_last, !elem_of_prefixes, length_app.
  cbn [length]. split.
  - intros (i & Hi & ->). destruct (decide (i < length p)%nat) as [H|H].
    + right. exists i. split; [done|]. by rewrite take_app_le by lia.
    + left. apply take_ge. rewrite length_app. cbn. lia.
  - intros [->|(i & Hi & ->)].
    + exists (length p). split; [lia|]. symmetry. apply take_ge. rewrite length_app. cbn. lia.
    + exists i. split; [lia|]. by rewrite take_app_le by lia.
Qed.

Lemma elem_of_directories p files :
  p ∈ directories files <-> exists e, e ∈ files /\ p ∈ prefixes (removelast (elems e)).
Proof. unfold directories. by rewrite elem_of_remove_dups, elem_of_concat_map. Qed.

Lemma NoDup_map_inj {A C} (f : A -> C) l x y : NoDup (map f l) -> x ∈ l -> y ∈ l -> f x = f y -> x = y.
Proof.
  intros H [i Hi]%list_elem_of_lookup [j Hj]%list_elem_of_lookup E.
  assert (i = j) as ->; [|congruence]. apply (NoDup_lookup (map f l) i j (f x)); [done|..].
  - by rewrite list_lookup_fmap, Hi.
  - by rewrite list_lookup_fmap, Hj, E.
Qed.

(** Without conflicts the calls that count are one for every file and one for
    every directory. *)
Lemma notes_tree files :
  tree_like files ->
  foldl note [] (concat (map pathCalls files)) ≡ₚ
  map (fun e => (elems e, default [] (last (elems e)) ++ sizeMarkup (jf_size e))) files ++
  map (fun p => (p, default [] (last p))) (directories files).
Proof.
  intros [Hnd Hdir]. set (calls := concat _). set (target := map _ files ++ _).
  assert (NoDup (map fst target)) as Htn.
  { subst target. rewrite map_app, !map_map, map_id. apply NoDup_app. split_and!; [done| |apply NoDup_remove_dups].
    intros p (e & -> & He)%list_elem_of_fmap. rewrite Forall_forall in Hdir. by apply Hdir. }
  assert (forall c, c ∈ calls -> c ∈ target) as Hct.
  { intros c (e & He & (p & -> & Hp)%list_elem_of_fmap)%elem_of_concat_map. subst target.
    rewrite elem_of_app, !list_elem_of_fmap. unfold elemLabel.
    apply prefixes_split in Hp as [->|Hp]; [| |apply Split_nonempty].
    - left. exists e. by rewrite bool_decide_eq_true_2.
    - right. assert (p ∈ directories files) as Hd by (apply elem_of_directories; by exists e).
      exists p. rewrite bool_decide_eq_false_2, app_nil_r; [done|]. intros ->. rewrite Forall_forall in Hdir. by apply (Hdir e). }
  assert (forall p, p ∈ map fst target -> p ∈ map fst calls) as Htc.
  { intros p. subst target. rewrite map_app, !map_map, map_id, elem_of_app. intros H.
    assert (exists e, e ∈ files /\ p ∈ prefixes (elems e)) as (e & He & Hp).
    { destruct H as [(e & -> & He)%list_elem_of_fmap|(e & He & Hp)%elem_of_directories]; exists e; (split; [done|]);
        apply prefixes_split; auto; apply Split_nonempty. }
    apply list_elem_of_fmap. exists (p, elemLabel e p). split; [done|]. apply elem_of_concat_map. exists e.
    split; [done|]. apply list_elem_of_fmap. by exists p. }
  apply NoDup_Permutation; [by eapply NoDup_fmap_1, (notes_keys calls []), NoDup_nil_2|by eapply NoDup_fmap_1|].
  intros c. split.
  - intros H%notes_in. destruct H as [H%elem_of_nil|H]; [done|by apply Hct].
  - intros Hc. assert (c.1 ∈ map fst (foldl note [] calls)) as H.
    { apply notes_all. right. apply Htc. by apply list_elem_of_fmap_2. }
    apply list_elem_of_fmap in H as (d & Hd & Hin). pose proof Hin as Hin'. apply notes_in in Hin' as [?%elem_of_nil|Hd']; [done|].
    assert (c = d) as ->; [|done]. apply Hct in Hd'. by apply (NoDup_map_inj fst target).
Qed.

Section Tree.
Context {B : Browser} `{!BrowserLaws B}.
Variable ph : bytes.
Hypothesis Hph : Forall plain ph.
Hypothesis Hph' : ph <> [].

(** Calls the browser can cope with. *)
Definition harmless (c : call) : Prop :=
  names c.1 /\ Forall plain (Client.join slash c.1) /\ Forall plain (Client.join slash (removelast c.1)) /\
  forallb inert (parseHTML c.2) = true.

Lemma addAll_calls calls t seen F :
  represents ph t F -> holds seen F -> Forall harmless calls -> closed seen calls ->
  exists t' F', addAll t (map callOptions calls) = (t', true) /\ represents ph t' F' /\
    holds (foldl note seen calls) F'.
Proof.
  intros Hr Hh Hok. revert t seen F Hr Hh. induction Hok as [|c calls (Hn & H1 & H2 & H3) _ IH];
    intros t seen F Hr Hh Hcl; [by exists t, F|]. destruct Hcl as [Hpar Hcl].
  destruct (note_step seen F c Hh Hn Hpar) as (F1 & Hi & Hh1).
  pose proof (add_refines ph Hph Hph' t F (callOptions c) Hr H1) as Ha.
  rewrite Hi in Ha. destruct Ha as (t1 & Ha & Hr1).
  - by apply join_nonempty.
  - intros id Hid. cbn in Hid. destruct (removelast c.1); [done|]. by injection Hid as <-.
  - done.
  - cbn [map addAll]. rewrite Ha. by apply (IH t1 (note seen c) F1).
Qed.

Lemma path_harmless e c : path_ok (jf_path e) -> c ∈ pathCalls e -> harmless c.
Proof.
  intros Hp Hc. apply list_elem_of_fmap in Hc as (p & -> & Hin).
  apply list_elem_of_fmap in Hin as (i & -> & Hi). apply list_elem_of_In, in_seq in Hi as [_ Hi]. cbn [Nat.add] in Hi.
  assert (forall p, (forall x, x ∈ p -> x ∈ elems e) -> Forall plain (Client.join slash p)) as Hpl.
  { intros p H. apply (names_plain (jf_path e)); [apply Hp|done]. }
  destruct (lookup_lt_is_Some_2 (elems e) i Hi) as [x Hx]. split_and!; cbn [fst snd].
  - by apply names_take, elems_names.
  - apply Hpl. intros y. by apply subseteq_take.
  - apply Hpl. rewrite removelast_take by done. intros y. by apply subseteq_take.
  - assert (Forall plain x) as Hpx.
    { rewrite Forall_forall. intros b Hb. destruct Hp as [Hp _]. rewrite Forall_forall in Hp.
      apply Hp, (elem_of_Split b x); [by eapply list_elem_of_lookup_2|done]. }
    unfold elemLabel. rewrite (last_take _ _ _ Hx). cbn [default]. case_bool_decide.
    + unfold sizeMarkup. rewrite tt_html by (done || apply fileSize_plain). rewrite forallb_app.
      by destruct x, (fileSize (jf_size e)).
    + rewrite app_nil_r, text_html by done. by destruct x.
Qed.

Lemma showFiles_rows files t :
  represents ph t [] -> Forall (fun e => path_ok (jf_path e)) files ->
  exists t', showFiles t files = (t', true) /\
    shown t' ≡ₚ map (fun c => (chain c.1, parseHTML c.2)) (foldl note [] (concat (map pathCalls files))).
Proof.
  intros Hr Hp. unfold showFiles.
  assert (concat (map fileCalls files) = map callOptions (concat (map pathCalls files))) as ->.
  { rewrite concat_map, map_map. f_equal. apply map_ext. apply fileCalls_paths. }
  destruct (addAll_calls (concat (map pathCalls files)) t [] []) as (t' & F' & Ha & Hr' & [_ Hh]); [done|done| |apply closed_files|].
  - apply Forall_forall. intros c (e & He & Hc)%elem_of_concat_map. rewrite Forall_forall in Hp.
    apply (path_harmless e); [by apply Hp|done].
  - exists t'. split; [done|]. rewrite (shown_render ph Hph Hph' _ _ Hr'), Hh, map_map. done.
Qed.
End Tree.

(** *** The tree shows the files *)

Section Shown.
Context {B : Browser} `{!BrowserLaws B}.

Lemma tree_rows e p :
  path_ok (jf_path e) -> p ∈ prefixes (elems e) ->
  parseHTML (default [] (last p)) = text_nodes (default [] (last p)) /\
  parseHTML (default [] (last p) ++ sizeMarkup (jf_size e)) =
    text_nodes (default [] (last p) ++ emsp) ++ [Element (str "tt") [] (text_nodes (fileSize (jf_size e)))].
Proof.
  intros [Hp _] (i & Hi & ->)%elem_of_prefixes. destruct (lookup_lt_is_Some_2 (elems e) i Hi) as [x Hx].
  rewrite (last_take _ _ _ Hx). cbn [default].
  assert (Forall plain x) as Hpx.
  { rewrite Forall_forall in *. intros b Hb. apply Hp, (elem_of_Split b x); [by eapply list_elem_of_lookup_2|done]. }
  split; [by apply text_html|]. apply tt_html; [done|apply fileSize_plain].
Qed.

Lemma elems_prefix e : elems e ∈ prefixes (elems e).
Proof. apply prefixes_split; [apply Split_nonempty|by left]. Qed.

(** For files whose paths are those of a tree the page shows exactly them: one
    leaf for every file, with its size, and one for every directory, each
    under the leaves of the directories it is in. *)
Lemma tree_shows_files files :
  Forall (fun e => path_ok (jf_path e)) files -> tree_like files ->
  exists t0 t, newTree (str "Loading...") = Ret t0 /\ showFiles t0 files = (t, true) /\
    shown t ≡ₚ map fileLeaf files ++ map dirLeaf (directories files).
Proof.
  intros Hp Ht. assert (Forall plain (str "Loading...")) as Hph by decide_bytes.
  destruct (newTree_represents (str "Loading...") ltac:(done)) as (t0 & H0 & Hr).
  destruct (showFiles_rows _ Hph ltac:(done) files t0 Hr Hp) as (t & Hs & Hrows). exists t0, t. split_and!; [done..|].
  rewrite Hrows, (notes_tree files Ht), map_app, !map_map. cbn [fst snd]. rewrite Forall_forall in Hp.
  apply Permutation_app; apply Permutation_refl', map_ext_in; intros x Hx%list_elem_of_In.
  - unfold fileLeaf. f_equal. apply tree_rows; [by apply Hp|apply elems_prefix].
  - apply elem_of_directories in Hx as (e & He & Hx). unfold dirLeaf. f_equal. apply (tree_rows e); [by apply Hp|].
    apply prefixes_split; [apply Split_nonempty|by right].
Qed.

(** *** Names that break it *)

Lemma join_Split s : Client.join slash (Split s slash) = s.
Proof.
  induction s as [|b s IH]; cbn [Split]; [done|]. case_bool_decide as Hb.
  - subst b. destruct (Split s slash) eqn:E; [by apply Split_nonempty in E|]. cbn [Client.join app] in *. by rewrite IH.
  - destruct (Split s slash) as [|x [|y l]] eqn:E; [by apply Split_nonempty in E|..]; cbn [Client.join app] in *; by rewrite <- IH.
Qed.

Lemma addAll_app t a b :
  addAll t (a ++ b) = let '(t', ok) := addAll t a in if ok then addAll t' b else (t', false).
Proof.
  revert t. induction a as [|o a IH]; intros t; cbn [app addAll].
  - done.
  - destruct (add t o) as [t' []]; [apply IH|done].
Qed.

Lemma add_markup t o : Byte.x3c ∈ o_id o -> add t o = (t, false).
Proof.
  intros H. unfold add, getLeaf, dollar. rewrite bool_decide_eq_true_2; [done|].
  unfold attrSelector, quoted. rewrite !elem_of_app. tauto.
Qed.

Lemma addAll_markup l t : (exists o, o ∈ l /\ Byte.x3c ∈ o_id o) -> (addAll t l).2 = false.
Proof.
  revert t. induction l as [|o l IH]; intros t (o' & Hin & Ho); [by apply elem_of_nil in Hin|]. cbn [addAll].
  apply elem_of_cons in Hin as [->|Hin]; [by rewrite add_markup|].
  destruct (add t o) as [t' []]; [|done]. apply IH. by exists o'.
Qed.

Lemma fileCalls_markup t e : Byte.x3c ∈ jf_path e -> (addAll t (fileCalls e)).2 = false.
Proof.
  intros H. apply addAll_markup. rewrite fileCalls_paths. exists (callOptions (elems e, elemLabel e (elems e))).
  split; [|cbn; unfold elems; by rewrite join_Split]. apply list_elem_of_fmap_2, list_elem_of_fmap.
  exists (elems e). split; [done|apply elems_prefix].
Qed.

(** C36. A name with a [<] ends the tree: the library takes the selector for
    markup and throws, and none of the files after it is shown, whatever the
    browser does with the others. *)
Theorem tree_stops t before e after :
  Byte.x3c ∈ jf_path e ->
  (showFiles t (before ++ e :: after)).2 = false /\
  showFiles t (before ++ e :: after) = showFiles t (before ++ [e]).
Proof.
  intros H. unfold showFiles. rewrite !map_app, !concat_app. cbn [map concat]. rewrite app_nil_r, !addAll_app.
  destruct (addAll t (concat (map fileCalls before))) as [t1 []]; [|done].
  rewrite addAll_app. pose proof (fileCalls_markup t1 e H) as E.
  by destruct (addAll t1 (fileCalls e)) as [t2 []].
Qed.
End Shown.

(** ** The page on the site *)

(** gorilla/mux tries the routes in their order. *)
Class MuxLaws (O : Outside) : Prop :=
  dispatch_first ps path i p v : ps !! i = Some p -> accepts p path v ->
    (forall j q w, (j < i)%nat -> ps !! j = Some q -> ~ accepts q path w) ->
    dispatch ps path = Some (i, v).

Lemma hex_hash_char b : Forall (fun c => hash_char c = true) (EncodeToString b).
Proof.
  assert (forall v, 0 <= v < 16 -> hash_char (hex_digit v) = true) as H.
  { intros v Hv. unfold hash_char, hex_digit. destruct (Z.ltb_spec v 10).
    - pose proof (byte_val_small (48 + v) ltac:(lia)). solve_within. done.
    - pose proof (byte_val_small (87 + v) ltac:(lia)). solve_within. done. }
  unfold EncodeToString. induction b as [|c b IH]; [constructor|]. cbn [map concat]. pose proof (byte_val_range c).
  apply Forall_app_2; [|done]. repeat constructor; apply H; Z.to_euclidean_division_equations; lia.
Qed.

Lemma hex_length b : length (EncodeToString b) = (2 * length b)%nat.
Proof. unfold EncodeToString. induction b as [|c b IH]; [done|]. cbn [map concat]. rewrite length_app, IH. cbn. lia. Qed.

Lemma accepts_length p path v :
  accepts p path v ->
  match p with
  | Exactly q => length path = length q
  | Around pre suf => length path = (length pre + (40 + length suf))%nat
  | PathPrefix q => (length q <= length path)%nat
  end.
Proof. intros [q|pre suf h Hl _|q s]; rewrite ?length_app; lia. Qed.

Section Site.
Context {O : Outside} `{!MuxLaws O} {J : Js} `{!JsLaws O J} {R : Driver} `{!SqliteLaws R}.
Context {zone : Zone} {B : Browser} `{!BrowserLaws B}.
Variables (now c : Z) (t : tables) (creds : option credentials) (auth : bytes).
(** The reason phrases of HTTP, and the text of a connection that fails. *)
Variables (statusText : Z -> bytes) (networkError : bytes).

(** An answer as the browser sees it; a handler that panics breaks the connection. *)
Definition answer (w : go ResponseWriter) : res bytes response :=
  match w with
  | Ret w =>
      let status := default 200 (w_status w) in
      Ok {| rs_status := status; rs_statusText := statusText status; rs_body := w_body w |}
  | Panic => Err networkError
  end.

Definition siteFetch (url : bytes) : res bytes response :=
  answer (router_ServeHTTP (D := sqlite3Database) now (c, []) t creds newResponse
            {| r_Path := url; r_RawQuery := []; r_Authorization := auth; r_Vars := [] |}).

(** The browser sends what BasicAuth asks for. *)
Definition admitted : Prop :=
  match creds with
  | None => True
  | Some m => exists user password hash,
      auth <> [] /\ parseBasicAuth auth = Some (user, password) /\ m !! user = Some hash /\
      CompareHashAndPassword hash password = true
  end.

Lemma admitted_auth handler w r :
  admitted -> r_Authorization r = auth ->
  BasicAuth CompareHashAndPassword creds handler (str "magneticow") w r = handler w r.
Proof.
  unfold admitted, BasicAuth, Request_BasicAuth. intros H E. destruct creds as [m|]; [|done].
  destruct H as (u & p & h & Ha & Hp & Hm & Hc). rewrite E, bool_decide_eq_false_2, Hp, Hm, Hc; done.
Qed.

Lemma canonical_segment seg h s :
  Byte.x2f ∉ h -> canonical_from seg (h ++ s) = canonical_from (seg ++ h) s.
Proof.
  revert seg. induction h as [|b h IH]; intros seg Hh; cbn [app canonical_from]; [by rewrite app_nil_r|].
  apply not_elem_of_cons in Hh as [Hb Hh]. rewrite bool_decide_eq_false_2 by done.
  rewrite IH by done. by rewrite <- app_assoc.
Qed.

Lemma canonical_api h suffix :
  length h = 40%nat -> Forall (fun b => hash_char b = true) h ->
  suffix ∈ [[]; str "/filelist"; str "/readme"] -> canonical (api ++ h ++ suffix) = true.
Proof.
  intros Hl Hh Hs. transitivity (canonical_from [] (h ++ suffix)); [done|].
  assert (Byte.x2f ∉ h) as Hslash by (intros Hin; rewrite Forall_forall in Hh; by apply Hh in Hin).
  rewrite canonical_segment by done. cbn [app].
  assert (h <> [] /\ dots h = false) as [Hne Hd].
  { split; [by intros ->|]. unfold dots. apply bool_decide_eq_false_2. by intros [->| ->]. }
  assert (negb (bool_decide (h = [])) && negb (dots h) = true) as Hseg
    by (by rewrite bool_decide_eq_false_2, Hd).
  rewrite !elem_of_cons, elem_of_nil in Hs. destruct Hs as [->|[->|[->|[]]]].
  - cbn [canonical_from]. by rewrite Hd.
  - transitivity (negb (bool_decide (h = [])) && negb (dots h) && true); [reflexivity|by rewrite Hseg].
  - transitivity (negb (bool_decide (h = [])) && negb (dots h) && true); [reflexivity|by rewrite Hseg].
Qed.

(** The requests of the script reach their handlers. *)
Lemma siteFetch_torrent h suffix (handler : Handler) i :
  length h = 40%nat -> Forall (fun b => hash_char b = true) h ->
  routes (D := sqlite3Database) now (c, []) t creds !! i = Some (Around api suffix, handler) ->
  (i, suffix) ∈ [(3%nat, []); (4%nat, str "/filelist"); (5%nat, str "/readme")] ->
  siteFetch (api ++ h ++ suffix) =
  answer (handler newResponse {| r_Path := api ++ h ++ suffix; r_RawQuery := []; r_Authorization := auth;
                                 r_Vars := [(str "infohash", h)] |}).
Proof.
  intros Hl Hh Hi Hsuf. unfold siteFetch, router_ServeHTTP. cbn [r_Path].
  match goal with |- context [redirect ?r] => destruct (redirect r) eqn:Ered end.
  { exfalso. assert (canonical (api ++ h ++ suffix) = false) as Hc
      by (apply (redirect_unclean {| r_Path := api ++ h ++ suffix; r_RawQuery := []; r_Authorization := auth;
                                     r_Vars := [] |}); by rewrite Ered).
    rewrite canonical_api in Hc; [done..|]. rewrite !elem_of_cons. rewrite !elem_of_cons, elem_of_nil in Hsuf.
    destruct Hsuf as [[= _ ->]|[[= _ ->]|[[= _ ->]|[]]]]; tauto. }
  erewrite (dispatch_first _ _ i (Around api suffix) [(str "infohash", h)]).
  - cbn iota. match goal with |- answer (match ?X with _ => _ end) = _ =>
      replace X with (Some (Around api suffix, handler)) by (symmetry; exact Hi) end.
    done.
  - by rewrite list_lookup_fmap, Hi.
  - by constructor.
  - intros j q v Hj Hq Hacc. rewrite list_lookup_fmap in Hq. apply accepts_length in Hacc.
    assert (length (api ++ h ++ suffix) = (59 + length suffix)%nat) as Hlen by (rewrite !length_app, Hl; done).
    rewrite Hlen in Hacc. rewrite !elem_of_cons, elem_of_nil in Hsuf.
    destruct Hsuf as [[= -> ->]|[[= -> ->]|[[= -> ->]|[]]]];
      do 5 (destruct j as [|j]; [injection Hq as <-; done || lia|]); lia.
Qed.
End Site.

Lemma directories_perm l k : l ≡ₚ k -> directories l ≡ₚ directories k.
Proof.
  intros H. apply NoDup_Permutation; [apply NoDup_remove_dups..|]. intros p. rewrite !elem_of_directories.
  split; intros (e & He & Hp); exists e; (split; [|done]); [by rewrite <- H|by rewrite H].
Qed.

Lemma tree_like_perm l k : l ≡ₚ k -> tree_like l -> tree_like k.
Proof.
  intros H [H1 H2]. split; [by rewrite <- H|]. rewrite <- H. eapply Forall_impl; [exact H2|].
  intros e He. by rewrite <- (directories_perm _ _ H).
Qed.

(** A file of the database, as the script gets it. *)
Definition viewed (f : File) : jsFile := {| jf_size := QArith_base.inject_Z (f_Size f); jf_path := f_Path f |}.

Definition file_showable (f : File) : Prop :=
  Z.abs (f_Size f) <= 2 ^ 53 /\ ValidString (f_Path f) = true /\ path_ok (f_Path f).

Section Page.
Context {O : Outside} `{!MuxLaws O} {J : Js} `{!JsLaws O J} {R : Driver} `{!SqliteLaws R}.
Context {zone : Zone} {B : Browser} `{!BrowserLaws B}.

Lemma read_file_json f r : file_showable f -> read_file (json_file f ++ r) = Some (viewed f, r).
Proof.
  intros (Hs & Hv & _). unfold read_file.
  replace (json_file f ++ r) with ((str "{" ++ json_key (str "size")) ++ fmt_d (f_Size f) ++ Byte.x2c ::
    (json_key (str "path") ++ [Byte.x22]) ++ json_chars 0 true (f_Path f) ++ [Byte.x22] ++ str "}" ++ r)
    by (unfold json_file, json_string; by rewrite <- !app_assoc).
  repeat first
    [ rewrite CutPrefix_app; cbn [mbind option_bind]
    | rewrite json_string_roundtrip by done; cbn [mbind option_bind]
    | rewrite read_int by done; cbn [mbind option_bind] ].
  done.
Qed.

Lemma JSON_files fs :
  fs <> [] -> Forall file_showable fs -> JSON_list read_file (json_files fs ++ newline) = Some (map viewed fs).
Proof.
  intros Hne H. unfold json_files. destruct fs as [|f fs]; [done|].
  apply (JSON_list_json _ _ _ file_showable); [|done..]. intros a r Ha. by apply read_file_json.
Qed.

Lemma JSON_torrent m :
  meta_ok m -> json_of_torrent (TorrentMetadata_MarshalJSON json_float m ++ newline) = Some (js_of m).
Proof. intros Hm. unfold json_of_torrent. rewrite read_torrent_json by done. cbn [mbind option_bind]. by rewrite bool_decide_eq_true_2. Qed.

Lemma page_hash ih : Split (str "/torrents/" ++ EncodeToString ih) slash !! 2%nat = Some (EncodeToString ih).
Proof.
  change (str "/torrents/" ++ EncodeToString ih) with ([] ++ slash :: (str "torrents" ++ slash :: EncodeToString ih)).
  rewrite Split_app by apply not_elem_of_nil. rewrite Split_app by decide_bytes. cbn. rewrite Split_none; [done|].
  intros H. pose proof (hex_hash_char ih) as Hc. rewrite Forall_forall in Hc. by apply Hc in H.
Qed.

(** The request of the script that ends in [suffix]. *)
Definition script_request (ih suffix auth : bytes) : Request :=
  {| r_Path := api ++ EncodeToString ih ++ suffix; r_RawQuery := []; r_Authorization := auth;
     r_Vars := [(str "infohash", EncodeToString ih)] |}.

Lemma siteFetch_script later t ih suffix (handler : Handler) i creds auth statusText networkError :
  length ih = 20%nat ->
  routes (D := sqlite3Database) later (later, []) t creds !! i = Some (Around api suffix, handler) ->
  (i, suffix) ∈ [(3%nat, []); (4%nat, str "/filelist"); (5%nat, str "/readme")] ->
  siteFetch later later t creds auth statusText networkError (api ++ EncodeToString ih ++ suffix) =
  answer statusText networkError (handler newResponse (script_request ih suffix auth)).
Proof.
  intros Hl Hi Hs. apply (siteFetch_torrent _ _ _ _ _ _ _ (EncodeToString ih) suffix handler i); try done.
  - by rewrite hex_length, Hl.
  - apply hex_hash_char.
Qed.

Lemma stored_bodies later t ih m fs creds auth statusText networkError :
  run (sqlite3_GetTorrent ih) t [] = (t, Ret (Ok (Some m))) -> run (sqlite3_GetFiles ih) t [] = (t, Ret (Ok fs)) ->
  fs <> [] -> admitted creds auth -> length ih = 20%nat ->
  let fetch := siteFetch later later t creds auth statusText networkError in
  body fetch (api ++ EncodeToString ih) = Some (TorrentMetadata_MarshalJSON json_float m ++ newline) /\
  body fetch (api ++ EncodeToString ih ++ str "/filelist") = Some (json_files fs ++ newline) /\
  fetch (api ++ EncodeToString ih ++ str "/readme") = answer statusText networkError
    (apiReadme (D := sqlite3Database) (later, []) t newResponse (script_request ih (str "/readme") auth)).
Proof.
  intros Ht Hf Hne Ha Hl fetch. subst fetch. unfold body. split_and!.
  - rewrite <- (app_nil_r (EncodeToString ih)) at 1. erewrite (siteFetch_script later t ih [] _ 3); [|done|reflexivity|left].
    rewrite (admitted_auth creds auth) by done. unfold apiTorrent, decodeInfohash. cbn [r_Vars script_request].
    change (Values_Get _ _) with (EncodeToString ih). rewrite hex_roundtrip.
    cbn [GetTorrent sqlite3Database snd]. by rewrite Ht.
  - erewrite (siteFetch_script later t ih (str "/filelist") _ 4); [|done|reflexivity|right; left].
    rewrite (admitted_auth creds auth) by done. unfold apiFilelist, decodeInfohash. cbn [r_Vars script_request].
    change (Values_Get _ _) with (EncodeToString ih). rewrite hex_roundtrip.
    cbn [GetFiles sqlite3Database snd]. rewrite Hf. by destruct fs.
  - erewrite (siteFetch_script later t ih (str "/readme") _ 5); [done|done|reflexivity|right; right; left].
Qed.

(** The text of an answer about the readme. *)
Definition readmeText (a : res bytes response) : bytes :=
  match a with
  | Ok r =>
      if (200 <=? rs_status r) && (rs_status r <? 300) then rs_body r
      else str "Error: " ++ (if bool_decide (rs_statusText r = []) then fmt_d (rs_status r) else rs_statusText r)
  | Err e => e
  end.

(** C18. The page of a torrent shows what the daemon stored: after AddNewTorrent
    the page at the address of the torrent has its name, its info hash, its
    total size, the date and the number of files, and a tree with exactly one
    leaf for every file, labelled with its name and size, under one leaf for
    every directory; the readme is what the API answers, or the reason why
    there is none. Database, router, password check, API, JSON, script and
    tree library fit together. This is for valid names, sizes that doubles
    hold, and paths that are those of a tree and free of characters that mean
    something in HTML or in selectors. *)
Theorem torrent_page now later ih name files t creds auth statusText networkError :
  wf t -> ~ full (torrent_rows t) -> ih ∉ map tr_info_hash (torrent_rows t) -> 0 < now <= modifiedDefault ->
  length ih = 20%nat -> ValidString name = true -> 0 < sum_sizes files <= 2 ^ 53 -> len files <= 2 ^ 53 ->
  Forall file_showable files -> tree_like (map viewed files) -> admitted creds auth ->
  exists t' tree, run (sqlite3_AddNewTorrent now ih name files) t [] = (t', Ret (Ok tt)) /\
    let page := onload (siteFetch later later t' creds auth statusText networkError)
                  (str "/torrents/" ++ EncodeToString ih) in
    p_title page = name ++ str " - magneticow" /\
    p_main page = Some {| v_name := name; v_infoHash := EncodeToString ih;
      v_sizeHumanised := fileSize (QArith_base.inject_Z (sum_sizes files));
      v_discoveredOnHumanised := humaniseDate (QArith_base.inject_Z now);
      v_nFiles := QArith_base.inject_Z (len files) |} /\
    p_tree page = Some (tree, true) /\
    shown tree ≡ₚ map fileLeaf (map viewed files) ++ map dirLeaf (directories (map viewed files)) /\
    p_readme page = Some (readmeText (answer statusText networkError
      (apiReadme (D := sqlite3Database) (later, []) t' newResponse (script_request ih (str "/readme") auth)))).
Proof.
  intros Hw Hfull Hih Hnow Hlen Hname Hsum Hnf Hfiles Htree Hadm.
  destruct (stored_readable now ih name files t Hw Hfull Hih ltac:(lia) Hnow) as (t' & fs & Hrun & _ & Ht & Hf & Hp).
  assert (fs <> []) as Hne by (intros ->; apply Permutation_nil in Hp; subst; cbn in Hsum; lia).
  assert (Forall file_showable fs) as Hfs by (by rewrite Hp).
  destruct (tree_shows_files (map viewed fs)) as (t0 & tree & Hnew & Hshow & Hrows).
  { apply Forall_map. eapply Forall_impl; [exact Hfs|]. by intros f (_ & _ & H). }
  { eapply tree_like_perm; [|exact Htree]. by rewrite Hp. }
  destruct (stored_bodies later t' ih _ fs creds auth statusText networkError Ht Hf Hne Hadm Hlen) as (H1 & H2 & H3).
  exists t', tree. split; [done|]. unfold onload. rewrite page_hash.
  change (default _ (Some ?x)) with x. cbv zeta. rewrite H1. cbn [mbind option_bind].
  rewrite JSON_torrent.
  - rewrite H2. cbn [mbind option_bind p_title p_main p_tree]. rewrite JSON_files, Hnew, Hshow by done.
    split_and!; [done..| |].
    + rewrite Hrows, (directories_perm (map viewed fs) (map viewed files)); by rewrite Hp.
    + cbn [p_readme]. unfold myFetch. rewrite H3. unfold readmeText. destruct (answer _ _ _) as [rs|e]; [|done].
      by destruct (_ && _).
  - pose proof (len_nonneg files). unfold modifiedDefault in Hnow. split_and!; [done|by apply double_int|].
    repeat constructor; cbn; lia.
Qed.
End Page.
