(* ===== verification/Leech.v ===== *)
(** cmd/magneticod/bittorrent/metadata/leech.go: downloading the metadata of a
    torrent from one peer (BEP 3 handshake, BEP 10 extension handshake, BEP 9
    metadata exchange). The bytes the peer will send are an argument; the
    bencode and metainfo libraries are parameters. *)

From S2P Require Import Prelude GoLib Sha1 Persistence.
From Stdlib Require Import ZArith Lia.
From stdpp Require Import base list.
Local Open Scope Z_scope.

Definition MAX_METADATA_SIZE : Z := 10 * 1024 * 1024.

Record rootDict := { UTMetadata : Z; MetadataSize : Z }.
Record extDict := { MsgType : Z; Piece : Z }.

Record Metadata := {
  md_InfoHash : bytes;
  md_Name : bytes;
  md_TotalSize : Z;
  md_DiscoveredOn : Z;
  md_Files : list File }.

(** The fields of metainfo.Info and metainfo.FileInfo the code reads. *)
Record FileInfo := { fi_Length : Z; fi_Path : list bytes }.
Record Info := {
  i_Name : bytes;
  i_Length : Z;
  i_Pieces : bytes;
  i_PieceLength : Z;
  i_Files : list FileInfo }.

(** The bencode and metainfo libraries; [None] is an error. [DecodeExt] also
    returns the bytes the decoder left unread. *)
Class LeechLib := {
  UnmarshalRoot : bytes -> option rootDict;
  DecodeExt : bytes -> option (extDict * bytes);
  MarshalExt : extDict -> option bytes;
  UnmarshalInfo : bytes -> option Info;
  TotalLength : Info -> Z;
  NumPieces : Info -> Z;
  DisplayPath : FileInfo -> Info -> bytes }.

Class LeechLibLaws (L : LeechLib) := {
  marshal_ext_total d : is_Some (MarshalExt d);
  decode_marshal_ext d b rest : MarshalExt d = Some b -> DecodeExt (b ++ rest) = Some (d, rest) }.

(** errors.Wrap of a nil error is nil. *)
Inductive lerr : Type :=
  | ErrIO (code : Z)
  | ErrBencode
  | Errorf (msg : bytes)
  | Wrapped (e : lerr) (msg : bytes).

Definition Wrap (err : option lerr) (msg : bytes) : option lerr :=
  match err with Some e => Some (Wrapped e msg) | None => None end.

Inductive event : Type :=
  | OnSuccess (m : Metadata)
  | OnError (infoHash : bytes) (e : lerr).

(** The leech with its connection: [rx] is what the peer will still send before
    the read side ends, [tx] what was written to it, [nwrites] and [ncloses]
    count calls of Write and Close, [allocs] the sizes of the buffers
    allocated at the peer's request, [events] the calls of the handlers. *)
Record Leech := {
  l_infoHash : bytes;
  clientID : bytes;
  ut_metadata : Z;
  metadataReceived : Z;
  metadataSize : Z;
  metadata : bytes;
  connClosed : bool;
  rx : bytes;
  tx : bytes;
  nwrites : nat;
  ncloses : nat;
  allocs : list Z;
  events : list event }.

Definition NewLeech (infoHash id rx : bytes) : Leech :=
  {| l_infoHash := infoHash; clientID := copy (make_bytes 20) id; ut_metadata := 0;
     metadataReceived := 0; metadataSize := 0; metadata := []; connClosed := false;
     rx := rx; tx := []; nwrites := 0; ncloses := 0; allocs := []; events := [] |}.

(** ** The monad of the leech's methods

    A method returns with a new state and a value or an error, or panics, or
    (for a loop that exhausts its fuel) does not return. *)

Inductive outcome (A : Type) : Type :=
  | Done (l : Leech) (r : res lerr A)
  | Crash
  | Diverge.
Arguments Done {A} l r.
Arguments Crash {A}.
Arguments Diverge {A}.

Definition M (A : Type) : Type := Leech -> outcome A.

#[global] Instance M_ret : MRet M := fun A a l => Done l (Ok a).
#[global] Instance M_bind : MBind M := fun A B f m l =>
  match m l with
  | Done l (Ok a) => f a l
  | Done l (Err e) => Done l (Err e)
  | Crash => Crash
  | Diverge => Diverge
  end.

Definition fail {A} (e : lerr) : M A := fun l => Done l (Err e).
Definition crash {A} : M A := fun _ => Crash.
Definition diverge {A} : M A := fun _ => Diverge.
Definition modify (f : Leech -> Leech) : M unit := fun l => Done (f l) (Ok tt).
Definition gets {A} (f : Leech -> A) : M A := fun l => Done l (Ok (f l)).
Definition lift {A} (m : go A) : M A :=
  match m with Ret a => mret a | Panic => crash end.

(** [if err != nil { return errors.Wrap(err, msg) }] *)
Definition wrap {A} (msg : bytes) (m : M A) : M A := fun l =>
  match m l with
  | Done l (Err e) => Done l (Err (Wrapped e msg))
  | o => o
  end.

Definition errorf {A} (msg : bytes) : M A := fail (Errorf msg).

(** [return err] with an error that may be nil. *)
Definition return_error (err : option lerr) : M unit :=
  match err with Some e => fail e | None => mret tt end.

(** ** State updates *)

Definition with_conn (r t : bytes) (nw nc : nat) (cl : bool) (l : Leech) : Leech :=
  {| l_infoHash := l_infoHash l; clientID := clientID l; ut_metadata := ut_metadata l;
     metadataReceived := metadataReceived l; metadataSize := metadataSize l;
     metadata := metadata l; connClosed := cl; rx := r; tx := t; nwrites := nw;
     ncloses := nc; allocs := allocs l; events := events l |}.
Definition set_rx (r : bytes) (l : Leech) : Leech :=
  with_conn r (tx l) (nwrites l) (ncloses l) (connClosed l) l.
Definition wrote (b : bytes) (l : Leech) : Leech :=
  with_conn (rx l) (tx l ++ b) (S (nwrites l)) (ncloses l) (connClosed l) l.
Definition closed (cl : bool) (l : Leech) : Leech :=
  with_conn (rx l) (tx l) (nwrites l) (S (ncloses l)) cl l.
Definition with_log (al : list Z) (ev : list event) (l : Leech) : Leech :=
  {| l_infoHash := l_infoHash l; clientID := clientID l; ut_metadata := ut_metadata l;
     metadataReceived := metadataReceived l; metadataSize := metadataSize l;
     metadata := metadata l; connClosed := connClosed l; rx := rx l; tx := tx l;
     nwrites := nwrites l; ncloses := ncloses l; allocs := al; events := ev |}.
Definition alloc (n : Z) (l : Leech) : Leech := with_log (allocs l ++ [n]) (events l) l.
Definition emit (e : event) (l : Leech) : Leech := with_log (allocs l) (events l ++ [e]) l.
Definition with_metadata (ut rcv size : Z) (md : bytes) (l : Leech) : Leech :=
  {| l_infoHash := l_infoHash l; clientID := clientID l; ut_metadata := ut;
     metadataReceived := rcv; metadataSize := size; metadata := md;
     connClosed := connClosed l; rx := rx l; tx := tx l; nwrites := nwrites l;
     ncloses := ncloses l; allocs := allocs l; events := events l |}.

(** ** Encoding *)

Definition toBigEndian (i : Z) (n : Z) : go bytes :=
  let b := make_bytes (Z.to_nat n) in
  let m := match n with
           | 1 => Ret [byte_of i]
           | 2 => PutUint16 b (to_u16 i)
           | 4 => PutUint32 b (to_u32 i)
           | _ => Panic
           end in
  match m with
  | Ret b => if negb (len b =? n) then Panic else Ret b
  | Panic => Panic
  end.

(** ** The outside world of one download

    The outcomes of dialling, of the socket options and of Close; [write] is
    the [k]-th call of Write: bytes written and error; [readErr] is the error
    of a read past the end of [rx] (end of stream, reset or deadline). *)
Record Net := {
  dialErr : option lerr;
  lingerErr : option lerr;
  noDelayErr : option lerr;
  deadlineErr : option lerr;
  closeOk : bool;
  write : nat -> bytes -> nat * option lerr;
  readErr : lerr;
  now : Z }.

Section Methods.
Context `{L : LeechLib}.
Variable net : Net.

Definition connWrite (b : bytes) : M nat := fun l =>
  let (n, e) := write net (nwrites l) b in
  let l := wrote (take n b) l in
  match e with Some e => Done l (Err e) | None => Done l (Ok n) end.

Fixpoint writeAll_loop (fuel : nat) (b : bytes) : M unit :=
  match b with
  | [] => mret tt
  | _ :: _ =>
      match fuel with
      | O => diverge
      | S fuel =>
          n ← connWrite b;
          rest ← lift (slice_from b (Z.of_nat n));
          writeAll_loop fuel rest
      end
  end.

(** A Write that consumes nothing returns an error. *)
Definition writeAll (b : bytes) : M unit := writeAll_loop (S (length b)) b.

Definition readExactly (n : Z) : M bytes := fun l =>
  let l := alloc n l in
  if n <=? len (rx l)
  then Done (set_rx (drop (Z.to_nat n) (rx l)) l) (Ok (take (Z.to_nat n) (rx l)))
  else Done (set_rx [] l) (Err (readErr net)).

Definition protocolHeader : bytes := Byte.x13 :: str "BitTorrent protocol".
Definition reserved : bytes :=
  [Byte.x00; Byte.x00; Byte.x00; Byte.x00; Byte.x00; Byte.x10; Byte.x00; Byte.x01].

Definition doBtHandshake : M unit :=
  l ← gets id;
  let lHandshake := protocolHeader ++ reserved ++ l_infoHash l ++ clientID l in
  if negb (len lHandshake =? 68) then crash
  else
    _ ← wrap (str "writeAll lHandshake") (writeAll lHandshake);
    rHandshake ← wrap (str "readExactly rHandshake") (readExactly 68);
    if negb (bool_decide (take (length protocolHeader) rHandshake = protocolHeader)) then
      errorf (str "corrupt BitTorrent handshake received")
    else
      match rHandshake !! 25%nat with
      | None => crash
      | Some b =>
          if Z.land (byte_val b) 16 =? 0 then
            errorf (str "peer does not support the extension protocol")
          else mret tt
      end.

(** A BitTorrent message without its length prefix. *)
Definition readMessage : M bytes :=
  rLengthB ← wrap (str "readExactly rLengthB") (readExactly 4);
  rLength ← lift (Uint32 rLengthB);
  if MAX_METADATA_SIZE <? rLength then
    errorf (str "message is longer than max allowed metadata size")
  else wrap (str "readExactly rMessage") (readExactly rLength).

Fixpoint readExMessage_loop (fuel : nat) : M bytes :=
  match fuel with
  | O => diverge
  | S fuel =>
      rMessage ← wrap (str "readMessage") readMessage;
      match rMessage with
      | b :: _ :: _ => if byte_val b =? 20 then mret rMessage else readExMessage_loop fuel
      | _ => readExMessage_loop fuel
      end
  end.

(** Each round takes at least the four bytes of a length off the stream. *)
Definition readExMessage : M bytes := fun l => readExMessage_loop (S (length (rx l))) l.

Fixpoint readUmMessage_loop (fuel : nat) : M bytes :=
  match fuel with
  | O => diverge
  | S fuel =>
      rExMessage ← wrap (str "readExMessage") readExMessage;
      match rExMessage !! 1%nat with
      | None => crash
      | Some b => if byte_val b =? 1 then mret rExMessage else readUmMessage_loop fuel
      end
  end.

Definition readUmMessage : M bytes := fun l => readUmMessage_loop (S (length (rx l))) l.

Definition exHandshake : bytes :=
  [Byte.x00; Byte.x00; Byte.x00; Byte.x1a; Byte.x14; Byte.x00] ++ str "d1:md11:ut_metadatai1eee".

Definition doExHandshake : M unit :=
  _ ← wrap (str "writeAll lHandshake") (writeAll exHandshake);
  rExMessage ← wrap (str "readExMessage") readExMessage;
  match rExMessage !! 1%nat with
  | None => crash
  | Some b =>
      if negb (byte_val b =? 0) then
        return_error (Wrap None (str "first extension message is not an extension handshake"))
      else
        rest ← lift (slice_from rExMessage 2);
        match UnmarshalRoot rest with
        | None => fail (Wrapped ErrBencode (str "unmarshal rExMessage"))
        | Some d =>
            if negb ((0 <? MetadataSize d) && (MetadataSize d <? MAX_METADATA_SIZE)) then
              errorf (str "metadata too big or its size is less than or equal zero")
            else if negb ((0 <? UTMetadata d) && (UTMetadata d <? 255)) then
              errorf (str "ut_metadata is not an uint8")
            else
              modify (fun l => alloc (MetadataSize d)
                (with_metadata (UTMetadata d) (metadataReceived l) (MetadataSize d)
                   (make_bytes (Z.to_nat (MetadataSize d))) l))
        end
  end.

(** [int(math.Ceil(float64(n) / 2^14))]: exact, since n is below 2^53. *)
Definition ceil_div_2_14 (n : Z) : Z := (n + 16383) / 16384.

Fixpoint request_loop (fuel : nat) (piece : Z) : M unit :=
  match fuel with
  | O => mret tt
  | S fuel =>
      match MarshalExt {| MsgType := 0; Piece := piece |} with
      | None => crash
      | Some extDictDump =>
          l ← gets id;
          size ← lift (toBigEndian (2 + len extDictDump) 4);
          ut ← lift (toBigEndian (ut_metadata l) 1);
          _ ← wrap (str "writeAll piece request")
                (writeAll (size ++ [Byte.x14] ++ ut ++ extDictDump));
          request_loop fuel (piece + 1)
      end
  end.

Definition requestAllPieces : M unit :=
  l ← gets id;
  request_loop (Z.to_nat (ceil_div_2_14 (metadataSize l))) 0.

Definition connect : M unit :=
  let option_error (err : option lerr) (msg : bytes) : M unit :=
    match err with
    | None => mret tt
    | Some e => if closeOk net then fun l => Done (closed (connClosed l) l) (Err (Wrapped e msg))
                else crash
    end in
  _ ← return_error (Wrap (dialErr net) (str "dial"));
  _ ← option_error (lingerErr net) (str "SetLinger");
  _ ← option_error (noDelayErr net) (str "NODELAY");
  option_error (deadlineErr net) (str "SetDeadline").

Definition closeConn : M unit := fun l =>
  if connClosed l then Done l (Ok tt)
  else if closeOk net then Done (closed true l) (Ok tt)
  else Crash.

(** A data message: the piece goes to its place, whose bounds Go checks. *)
Definition storePiece (piece : Z) (metadataPiece : bytes) : M unit :=
  if 16 * 1024 <? len metadataPiece then errorf (str "metadataPiece > 16kiB")
  else
    l ← gets id;
    let lo := to_i64 (piece * 16384) in
    let hi := to_i64 (lo + len metadataPiece) in
    _ ← lift (slice (metadata l) lo hi);
    let received := to_u64 (metadataReceived l + len metadataPiece) in
    _ ← modify (with_metadata (ut_metadata l) received (metadataSize l)
                  (copy_at (metadata l) (Z.to_nat lo) metadataPiece));
    if (len metadataPiece <? 16 * 1024) && negb (received =? metadataSize l) then
      errorf (str "metadataPiece < 16 kiB but incomplete")
    else if metadataSize l <? received then errorf (str "metadataReceived > metadataSize")
    else mret tt.

(** The body of the receiving loop of Do. *)
Definition recvPiece : M unit :=
  rUmMessage ← wrap (str "readUmMessage") readUmMessage;
  buf ← lift (slice_from rUmMessage 2);
  match DecodeExt buf with
  | None => fail (Wrapped ErrBencode (str "could not decode ext msg in the loop"))
  | Some (d, metadataPiece) =>
      if MsgType d =? 2 then errorf (str "remote peer rejected sending metadata")
      else if MsgType d =? 1 then storePiece (Piece d) metadataPiece
      else mret tt
  end.

Fixpoint recv_loop (fuel : nat) : M unit := fun l =>
  if metadataReceived l <? metadataSize l then
    match fuel with
    | O => Diverge
    | S fuel => (_ ← recvPiece; recv_loop fuel) l
    end
  else Done l (Ok tt).

Definition validateInfo (info : Info) : option lerr :=
  if negb (Z.rem (len (i_Pieces info)) 20 =? 0) then Some (Errorf (str "pieces has invalid length"))
  else if i_PieceLength info =? 0 then
    if negb (TotalLength info =? 0) then Some (Errorf (str "zero piece length")) else None
  else
    let n := to_i64 (Z.quot (to_i64 (TotalLength info + i_PieceLength info - 1)) (i_PieceLength info)) in
    if negb (n =? NumPieces info) then
      Some (Errorf (str "piece count and file lengths are at odds"))
    else None.

Definition filesOf (info : Info) : list File :=
  if len (i_Files info) =? 0 then [ {| f_Size := i_Length info; f_Path := i_Name info |} ]
  else map (fun f => {| f_Size := fi_Length f; f_Path := DisplayPath f info |}) (i_Files info).

Fixpoint sumSizes (total : Z) (files : list File) : M Z :=
  match files with
  | [] => mret total
  | f :: files =>
      if f_Size f <? 0 then errorf (str "file size less than zero")
      else sumSizes (to_u64 (total + to_u64 (f_Size f))) files
  end.

(** Do from the check of the checksum on. *)
Definition checkMetadata : M Metadata :=
  l ← gets id;
  if negb (bool_decide (sha1_sum (metadata l) = l_infoHash l)) then errorf (str "infohash mismatch")
  else
    match UnmarshalInfo (metadata l) with
    | None => fail (Wrapped ErrBencode (str "unmarshal info"))
    | Some info =>
        _ ← return_error (Wrap (validateInfo info) (str "validateInfo"));
        totalSize ← sumSizes 0 (filesOf info);
        mret {| md_InfoHash := l_infoHash l; md_Name := i_Name info; md_TotalSize := totalSize;
                md_DiscoveredOn := now net; md_Files := filesOf info |}
    end.

Definition download : M Metadata :=
  _ ← wrap (str "doBtHandshake") doBtHandshake;
  _ ← wrap (str "doExHandshake") doExHandshake;
  _ ← wrap (str "requestAllPieces") requestAllPieces;
  _ ← (fun l => recv_loop (S (length (rx l))) l);
  _ ← closeConn;
  checkMetadata.

(** Do: one of the handlers is called, then the deferred closeConn runs. *)
Definition Do (l : Leech) : outcome unit :=
  match connect l with
  | Done l (Err e) => Done (emit (OnError (l_infoHash l) (Wrapped e (str "connect"))) l) (Ok tt)
  | Done l (Ok _) =>
      match download l with
      | Done l (Ok m) => closeConn (emit (OnSuccess m) l)
      | Done l (Err e) => closeConn (emit (OnError (l_infoHash l) e) l)
      | Crash => Crash
      | Diverge => Diverge
      end
  | Crash => Crash
  | Diverge => Diverge
  end.

(** ** Reasoning about methods

    [wp m l Q C]: started in [l] the method returns, with a state and result
    satisfying [Q], or panics and [C] holds; it does return. *)

Definition wp {A} (m : M A) (l : Leech) (Q : Leech -> res lerr A -> Prop) (C : Prop) : Prop :=
  match m l with Done l' r => Q l' r | Crash => C | Diverge => False end.

Lemma wp_bind {A B} (m : M A) (f : A -> M B) l Q C :
  wp m l (fun l' r => match r with Ok a => wp (f a) l' Q C | Err e => Q l' (Err e) end) C ->
  wp (m ≫= f) l Q C.
Proof. unfold wp, mbind, M_bind. by destruct (m l) as [l' [a|e]| |]. Qed.

Lemma wp_wrap {A} msg (m : M A) l Q C :
  wp m l (fun l' r => Q l' match r with Ok a => Ok a | Err e => Err (Wrapped e msg) end) C ->
  wp (wrap msg m) l Q C.
Proof. unfold wp, wrap. by destruct (m l) as [l' [a|e]| |]. Qed.

Lemma wp_mono {A} (m : M A) l (Q Q' : Leech -> res lerr A -> Prop) (C C' : Prop) :
  wp m l Q C -> (forall l' r, Q l' r -> Q' l' r) -> (C -> C') -> wp m l Q' C'.
Proof. unfold wp. destruct (m l); auto. Qed.

Lemma Uint32_total p : length p = 4%nat -> exists n, Uint32 p = Ret n /\ 0 <= n < 2 ^ 32.
Proof.
  intros Hl. do 4 (destruct p as [|? p]; [discriminate|]).
  rewrite Uint32_spec. eexists. split; [done|]. exact (Uint32_range _ _ (Uint32_spec _ _ _ _ p)).
Qed.

Lemma slice_from_2 {A} (a b : A) m : slice_from (a :: b :: m) 2 = Ret m.
Proof. apply (slice_from_nat (a :: b :: m) 2). simpl. lia. Qed.

(** Reading changes nothing but the unread input and the allocation log. *)
Definition keep (l l' : Leech) : Prop := l' = with_log (allocs l') (events l) (set_rx (rx l') l).

Record reads (l l' : Leech) : Prop := {
  reads_keep : keep l l';
  reads_rx : exists n, rx l' = drop n (rx l);
  reads_allocs : exists al, allocs l' = allocs l ++ al /\ Forall (fun n => n <= MAX_METADATA_SIZE) al }.

Lemma keep_trans l1 l2 l3 : keep l1 l2 -> keep l2 l3 -> keep l1 l3.
Proof. unfold keep. intros H1 H2. rewrite H2. rewrite H1. done. Qed.

Lemma reads_refl l : reads l l.
Proof.
  split; [by destruct l|by exists 0%nat|]. exists []. by rewrite app_nil_r.
Qed.

Lemma reads_trans l1 l2 l3 : reads l1 l2 -> reads l2 l3 -> reads l1 l3.
Proof.
  intros [K1 [n1 R1] (al1 & A1 & F1)] [K2 [n2 R2] (al2 & A2 & F2)]. split.
  - by eapply keep_trans.
  - exists (n1 + n2)%nat. rewrite R2, R1. apply drop_drop.
  - exists (al1 ++ al2). rewrite A2, A1, app_assoc. split; [done|]. by apply Forall_app_2.
Qed.

Lemma readExactly_wp n l :
  0 <= n <= MAX_METADATA_SIZE ->
  wp (readExactly n) l (fun l' r => reads l l' /\
    match r with Ok b => rx l = b ++ rx l' /\ len b = n | Err _ => True end) False.
Proof.
  intros Hn. unfold wp, readExactly. destruct (Z.leb_spec n (len (rx (alloc n l)))) as [H|H].
  - simpl in *. split; [split|split].
    + done.
    + by exists (Z.to_nat n).
    + exists [n]. split; [done|]. constructor; [lia|constructor].
    + by rewrite take_drop.
    + unfold len in *. rewrite length_take. lia.
  - split; [|done]. split; [done| |].
    + exists (length (rx l)). by rewrite drop_all.
    + exists [n]. split; [done|]. constructor; [lia|constructor].
Qed.

Lemma readMessage_wp l :
  wp readMessage l (fun l' r => reads l l' /\
    match r with Ok b => exists p, length p = 4%nat /\ rx l = p ++ b ++ rx l' | Err _ => True end) False.
Proof.
  apply wp_bind, wp_wrap. eapply wp_mono; [apply (readExactly_wp 4); unfold MAX_METADATA_SIZE; lia| |done].
  intros l1 [p|e] [H1 Hp]; [|done]. destruct Hp as [Hrx Hlen].
  assert (length p = 4%nat) as Hl by (unfold len in Hlen; lia).
  destruct (Uint32_total p Hl) as (n & Hn & Hr). apply wp_bind. rewrite Hn. unfold wp at 1. simpl.
  destruct (Z.ltb_spec MAX_METADATA_SIZE n); [done|].
  apply wp_wrap. eapply wp_mono; [apply (readExactly_wp n); lia| |done].
  intros l2 [m|e] [H2 Hm]; (split; [by eapply reads_trans|]); [|done].
  destruct Hm as [Hm _]. eexists. split; [exact Hl|]. by rewrite Hrx, Hm.
Qed.

Lemma readExMessage_loop_wp fuel l :
  (length (rx l) < fuel)%nat ->
  wp (readExMessage_loop fuel) l (fun l' r => reads l l' /\
    match r with
    | Ok m => (length (rx l') < length (rx l))%nat /\ (2 <= length m)%nat /\ m !! 0%nat = Some Byte.x14
    | Err _ => True
    end) False.
Proof.
  revert l. induction fuel as [|fuel IH]; intros l Hf; [lia|].
  apply wp_bind, wp_wrap. eapply wp_mono; [apply readMessage_wp| |done].
  intros l1 [m|e] [H1 Hm]; [|done]. destruct Hm as (p & Hp & Hrx).
  assert (length (rx l1) < length (rx l))%nat as Hlt
    by (rewrite Hrx, !length_app, Hp; lia).
  assert (wp (readExMessage_loop fuel) l1 (fun l' r => reads l l' /\
    match r with
    | Ok m => (length (rx l') < length (rx l))%nat /\ (2 <= length m)%nat /\ m !! 0%nat = Some Byte.x14
    | Err _ => True
    end) False) as Hrec.
  { eapply wp_mono; [apply IH; lia| |done]. intros l2 r [H2 Hr].
    split; [by eapply reads_trans|]. destruct r as [m'|]; [|done].
    destruct Hr as (? & ? & ?). split_and!; [lia|done|done]. }
  destruct m as [|b [|c m]]; [done|done|].
  destruct (Z.eqb_spec (byte_val b) 20) as [E|E]; [|done].
  split; [done|]. split_and!; [done|simpl; lia|].
  simpl. f_equal. by apply byte_val_inj.
Qed.

Lemma readExMessage_wp l :
  wp readExMessage l (fun l' r => reads l l' /\
    match r with
    | Ok m => (length (rx l') < length (rx l))%nat /\ (2 <= length m)%nat /\ m !! 0%nat = Some Byte.x14
    | Err _ => True
    end) False.
Proof. apply (readExMessage_loop_wp (S (length (rx l))) l). lia. Qed.

Lemma readUmMessage_loop_wp fuel l :
  (length (rx l) < fuel)%nat ->
  wp (readUmMessage_loop fuel) l (fun l' r => reads l l' /\
    match r with
    | Ok m => (length (rx l') < length (rx l))%nat /\ exists d, m = Byte.x14 :: Byte.x01 :: d
    | Err _ => True
    end) False.
Proof.
  revert l. induction fuel as [|fuel IH]; intros l Hf; [lia|].
  apply wp_bind, wp_wrap. eapply wp_mono; [apply readExMessage_wp| |done].
  intros l1 [m|e] [H1 Hm]; [|done]. destruct Hm as (Hlt & Hlen & H0).
  destruct m as [|a [|b m]]; simpl in Hlen; [lia|lia|]. simpl in H0. injection H0 as ->.
  cbn [lookup list_lookup]. destruct (Z.eqb_spec (byte_val b) 1) as [E|E].
  - split; [done|]. split; [done|]. exists m. do 2 f_equal. by apply byte_val_inj.
  - eapply wp_mono; [apply IH; lia| |done]. intros l2 r [H2 Hr].
    split; [by eapply reads_trans|]. destruct r as [m'|]; [|done].
    destruct Hr as [? ?]. split; [lia|done].
Qed.

Lemma readUmMessage_wp l :
  wp readUmMessage l (fun l' r => reads l l' /\
    match r with
    | Ok m => (length (rx l') < length (rx l))%nat /\ exists d, m = Byte.x14 :: Byte.x01 :: d
    | Err _ => True
    end) False.
Proof. apply (readUmMessage_loop_wp (S (length (rx l))) l). lia. Qed.

(** io.Writer: at most len(b) bytes are written, and all of them unless an
    error is returned. *)
Definition write_contract : Prop :=
  forall k b, (fst (write net k b) <= length b)%nat /\
              (snd (write net k b) = None -> fst (write net k b) = length b).

Definition writes (b : bytes) (l l' : Leech) : Prop :=
  l' = with_conn (rx l) (tx l ++ b) (nwrites l') (ncloses l) (connClosed l) l.

Lemma writeAll_wp b l :
  write_contract ->
  wp (writeAll b) l (fun l' r => exists w, writes w l l' /\
    match r with Ok _ => w = b | Err _ => True end) False.
Proof.
  intros Hw. unfold writeAll. destruct b as [|x b].
  { exists []. split; [|done]. unfold writes. destruct l. simpl. by rewrite app_nil_r. }
  assert (slice_from (x :: b) (Z.of_nat (length (x :: b))) = Ret []) as E.
  { rewrite slice_from_nat by done. by rewrite drop_all. }
  destruct (Hw (nwrites l) (x :: b)) as [_ Hall].
  cbn [writeAll_loop]. apply wp_bind. unfold wp, connWrite.
  destruct (write net (nwrites l) (x :: b)) as [n [e|]]; cbn [fst snd] in Hall; [by eexists|].
  rewrite (Hall eq_refl). unfold mbind, M_bind. rewrite E. cbn [lift mret M_ret].
  exists (x :: b). split; [|done]. unfold writes. by rewrite take_ge.
Qed.

(** ** Invariants of a download that started in [l0] *)

Record frame (l0 l : Leech) : Prop := {
  fr_hash : l_infoHash l = l_infoHash l0;
  fr_id : clientID l = clientID l0;
  fr_closed : connClosed l = connClosed l0;
  fr_ncloses : ncloses l = ncloses l0;
  fr_events : events l = events l0;
  fr_rx : rx l `suffix_of` rx l0;
  fr_allocs : Forall (fun n => n <= MAX_METADATA_SIZE) (allocs l0) ->
              Forall (fun n => n <= MAX_METADATA_SIZE) (allocs l) }.

Record meta (l : Leech) : Prop := {
  mt_len : len (metadata l) = metadataSize l;
  mt_size : 0 <= metadataSize l < MAX_METADATA_SIZE;
  mt_received : 0 <= metadataReceived l <= metadataSize l }.

Lemma frame_refl l : frame l l.
Proof. by split. Qed.

Lemma reads_suffix l l' : reads l l' -> rx l' `suffix_of` rx l.
Proof. intros [_ [n ->] _]. exists (take n (rx l)). by rewrite take_drop. Qed.

Lemma keep_meta l l' : keep l l' -> meta l -> meta l'.
Proof. intros K [? ? ?]. rewrite K. by split. Qed.

Lemma frame_reads l0 l l' : frame l0 l -> reads l l' -> frame l0 l'.
Proof.
  intros [] HR. pose proof (reads_suffix _ _ HR) as Hs. destruct HR as [K _ (al & Hal & Hle)].
  split; try (by rewrite K); [by etrans|rewrite Hal; intros H; apply Forall_app_2; auto].
Qed.

Lemma frame_writes l0 l l' b : frame l0 l -> writes b l l' -> frame l0 l'.
Proof. intros [] W. unfold writes in W. rewrite W. by split. Qed.

Lemma meta_writes l l' b : writes b l l' -> meta l -> meta l'.
Proof. intros W [? ? ?]. unfold writes in W. rewrite W. by split. Qed.

(** Before the first piece. *)
Definition meta0 (l : Leech) : Prop := meta l /\ metadataReceived l = 0.

(** A property of the metadata alone. *)
Class MetaProp (P : Leech -> Prop) : Prop := {
  mp_keep l l' : keep l l' -> P l -> P l';
  mp_writes b l l' : writes b l l' -> P l -> P l' }.

#[local] Instance meta_prop : MetaProp meta.
Proof. split; [apply keep_meta|intros b l l'; apply meta_writes]. Qed.

#[local] Instance meta0_prop : MetaProp meta0.
Proof.
  split.
  - intros l l' K [Hm H0]. split; [by apply (keep_meta l)|by rewrite K].
  - intros b l l' K [Hm H0]. split; [by eapply meta_writes|]. unfold writes in K. by rewrite K.
Qed.

(** A phase of the download: whatever happens the frame is kept, and if it
    succeeds so is the state of the metadata. *)
Definition phase_ok {A} (P : Leech -> Prop) (m : M A) (C : Leech -> Prop) : Prop :=
  forall l0 l, frame l0 l -> P l ->
  wp m l (fun l' r => frame l0 l' /\ (length (rx l') <= length (rx l))%nat /\
                      match r with Ok _ => P l' | Err _ => True end) (C l).

Lemma reads_length l l' : reads l l' -> (length (rx l') <= length (rx l))%nat.
Proof. intros [_ [n ->] _]. rewrite length_drop. lia. Qed.

Lemma writes_rx b l l' : writes b l l' -> rx l' = rx l.
Proof. intros W. unfold writes in W. by rewrite W. Qed.

Lemma phase_bind {A B} P (m : M A) (f : A -> M B) (C' : Prop) :
  phase_ok P m (fun _ => C') -> (forall a, phase_ok P (f a) (fun _ => C')) ->
  phase_ok P (m ≫= f) (fun _ => C').
Proof.
  intros Hm Hf l0 l Hl Hmt. apply wp_bind. eapply wp_mono; [by apply (Hm l0)| |done].
  intros l1 [a|e] (H1 & Hrx & Hm1); [|done].
  eapply wp_mono; [by apply (Hf a l0)| |done]. intros l2 r (H2 & Hrx2 & Hr).
  split_and!; [done|lia|done].
Qed.

Lemma phase_wrap {A} P msg (m : M A) C : phase_ok P m C -> phase_ok P (wrap msg m) C.
Proof.
  intros Hm l0 l Hl Hmt. apply wp_wrap. eapply wp_mono; [by apply (Hm l0)| |done].
  by intros l1 [a|e].
Qed.

Lemma phase_write P b `{!MetaProp P} : write_contract -> phase_ok P (writeAll b) (fun _ => False).
Proof.
  intros Hw l0 l Hl Hmt. eapply wp_mono; [by apply writeAll_wp| |done]. intros l1 r (w & H1 & _).
  split_and!; [by eapply frame_writes|by erewrite writes_rx|]. destruct r; [|done].
  by eapply mp_writes.
Qed.

Lemma phase_ret {A} P (a : A) C : phase_ok P (mret a) C.
Proof. intros l0 l Hl Hmt. by split_and!. Qed.

Lemma doBtHandshake_ok l0 l :
  write_contract -> length (l_infoHash l) = 20%nat -> length (clientID l) = 20%nat ->
  frame l0 l -> meta0 l ->
  wp doBtHandshake l (fun l' r => frame l0 l' /\ (length (rx l') <= length (rx l))%nat /\
    match r with Ok _ => meta0 l' | Err _ => True end) False.
Proof.
  intros Hw Hih Hid Hl Hmt. apply wp_bind. unfold wp at 1, gets, id.
  assert (len (protocolHeader ++ reserved ++ l_infoHash l ++ clientID l) = 68) as ->
    by (rewrite !len_app; unfold len; rewrite Hih, Hid; done). cbn [Z.eqb Pos.eqb negb].
  generalize (protocolHeader ++ reserved ++ l_infoHash l ++ clientID l). intros b.
  clear Hih Hid. revert l0 l Hl Hmt.
  apply (phase_bind meta0 (wrap _ (writeAll b)) _ False);
    [apply phase_wrap, phase_write; [apply meta0_prop|done]|].
  intros _ l0 l Hl Hmt. apply wp_bind, wp_wrap.
  eapply wp_mono; [apply (readExactly_wp 68); unfold MAX_METADATA_SIZE; lia| |done].
  intros l1 [r|e] [H1 Hr].
  2:{ split_and!; [by eapply frame_reads|by apply reads_length|done]. }
  assert (wp (match r !! 25%nat with
      | None => crash
      | Some b => if Z.land (byte_val b) 16 =? 0 then
          errorf (str "peer does not support the extension protocol") else mret tt
      end) l1 (fun l' r => frame l0 l' /\ (length (rx l') <= length (rx l))%nat /\
        match r with Ok _ => meta0 l' | Err _ => True end) False) as Hend.
  { destruct (lookup_lt_is_Some_2 r 25) as [x ->]; [destruct Hr as [_ Hr]; unfold len in Hr; lia|].
    pose proof (frame_reads l0 l l1 Hl H1). pose proof (reads_length l l1 H1).
    pose proof (mp_keep l l1 (reads_keep _ _ H1) Hmt). by destruct (_ =? 0); split_and!. }
  destruct (negb _); [|exact Hend].
  split_and!; [by eapply frame_reads|by apply reads_length|done].
Qed.

Lemma doExHandshake_ok l0 l :
  write_contract -> frame l0 l -> meta0 l ->
  wp doExHandshake l (fun l' r => frame l0 l' /\ (length (rx l') <= length (rx l))%nat /\
    match r with Ok _ => meta l' | Err _ => True end) False.
Proof.
  intros Hw Hl [Hmt H0]. apply wp_bind, wp_wrap. eapply wp_mono; [by apply writeAll_wp| |done].
  intros l1 r (w & W1 & _).
  assert (metadataReceived l1 = 0) as H1 by (unfold writes in W1; by rewrite W1).
  apply (frame_writes l0) in W1 as F1; [|done]. apply meta_writes in W1 as M1; [|done].
  apply writes_rx in W1. rewrite <- W1. clear Hl Hmt H0 W1.
  destruct r as [[]|e]; [|by split_and!]. apply wp_bind, wp_wrap.
  eapply wp_mono; [apply readExMessage_wp| |done]. intros l2 r [R2 Hr].
  assert (metadataReceived l2 = 0) as H2 by (rewrite (reads_keep _ _ R2); done).
  apply reads_length in R2 as Hrx. apply (frame_reads l0) in R2 as F2; [|done].
  apply reads_keep in R2. apply keep_meta in R2 as M2; [|done]. clear F1 M1 H1 R2.
  destruct r as [m|e]; [|done]. destruct Hr as (_ & Hlen & _).
  destruct m as [|a [|b m]]; simpl in Hlen; [lia|lia|]. clear Hlen. cbn [lookup list_lookup].
  destruct (byte_val b =? 0); cbn [negb]; [|by split_and!].
  apply wp_bind. rewrite slice_from_2. unfold wp at 1. cbn [lift mret M_ret].
  destruct (UnmarshalRoot m) as [d|]; [|by split_and!].
  destruct (Z.ltb_spec 0 (MetadataSize d)) as [Hd1|]; [|by split_and!].
  destruct (Z.ltb_spec (MetadataSize d) MAX_METADATA_SIZE) as [Hd2|]; [|by split_and!].
  cbn [andb negb]. destruct (negb _); [by split_and!|]. split_and!; [| done |].
  - destruct F2. split; try done. simpl. intros Hal. apply Forall_app_2; [auto|].
    constructor; [lia|constructor].
  - split; simpl; [|lia|lia]. unfold len, make_bytes. rewrite length_replicate. lia.
Qed.

Lemma toBigEndian_4 i : 0 <= i < 2 ^ 32 -> toBigEndian i 4 = Ret (be32 i).
Proof.
  intros Hi. unfold toBigEndian. rewrite PutUint32_make. unfold to_u32. by rewrite Z.mod_small.
Qed.

Lemma toBigEndian_4_total i : exists b, toBigEndian i 4 = Ret b.
Proof. unfold toBigEndian. rewrite PutUint32_make. by eexists. Qed.

Lemma request_loop_ok `{!LeechLibLaws L} fuel piece :
  write_contract -> phase_ok meta (request_loop fuel piece) (fun _ => False).
Proof.
  intros Hw. revert piece. induction fuel as [|fuel IH]; intros piece; [apply phase_ret|].
  cbn [request_loop]. destruct (marshal_ext_total {| MsgType := 0; Piece := piece |}) as [d ->].
  intros l0 l Hl Hmt. apply wp_bind. unfold wp at 1, gets, id.
  apply wp_bind. destruct (toBigEndian_4_total (2 + len d)) as [b ->]. unfold wp at 1. cbn.
  revert l0 l Hl Hmt. intros l0 l. generalize (byte_of (ut_metadata l)). intros u. revert l0 l.
  apply (phase_bind meta (wrap _ (writeAll _)));
    [apply phase_wrap, phase_write; [apply meta_prop|done]|intros _; apply IH].
Qed.

(** The destination of a piece lies inside the metadata buffer. *)
Definition in_range (l : Leech) (piece : Z) (n : Z) : Prop :=
  let lo := to_i64 (piece * 16384) in 0 <= lo <= to_i64 (lo + n) /\ to_i64 (lo + n) <= len (metadata l).

Lemma slice_in_range l piece n :
  (exists x, slice (metadata l) (to_i64 (piece * 16384)) (to_i64 (to_i64 (piece * 16384) + n)) = Ret x)
  <-> in_range l piece n.
Proof.
  unfold in_range, slice. split.
  - intros [x H]. destruct (_ && _) eqn:E; [|done].
    apply andb_true_iff in E as [[E1 E2]%andb_true_iff E3]. lia.
  - intros [[H1 H2] H3]. rewrite !(proj2 (Z.leb_le _ _)) by done. by eexists.
Qed.

Lemma slice_Panic_iff {A} (b : list A) i j :
  slice b i j = Panic <-> ~ exists x, slice b i j = Ret x.
Proof.
  destruct (slice b i j) as [x|]; split; [done| |by intros _ [y Hy]|done].
  intros H. exfalso. eauto.
Qed.

Lemma storePiece_crash piece b l :
  storePiece piece b l = Crash <-> len b <= 16384 /\ ~ in_range l piece (len b).
Proof.
  unfold storePiece. destruct (Z.ltb_spec (16 * 1024) (len b)) as [H|H].
  { split; [done|lia]. }
  unfold mbind, M_bind, gets, id. rewrite <- slice_in_range, <- slice_Panic_iff.
  destruct (slice _ _ _); cbn; [|by split].
  split; [|by intros [_ ?]]. destruct (_ && _); [done|]. by destruct (_ <? _).
Qed.

Lemma storePiece_ok piece b : phase_ok meta (storePiece piece b) (fun l => storePiece piece b l = Crash).
Proof.
  intros l0 l Hl Hmt. unfold wp. destruct (storePiece piece b l) as [l' r| |] eqn:E; [|done|].
  - unfold storePiece in E. destruct (Z.ltb_spec (16 * 1024) (len b)) as [H|H].
    { injection E as <- <-. by split_and!. }
    unfold mbind, M_bind, gets, id in E. destruct (slice _ _ _) eqn:Hs in E; [|done]. cbn in E.
    pose proof (len_nonneg b) as Hb. destruct Hmt as [M1 M2 M3]. unfold MAX_METADATA_SIZE in M2.
    rewrite to_u64_id in E by lia. apply slice_Ret in Hs as (Hlo & Hhi & _).
    match type of E with context [with_metadata ?u ?r ?n ?m l] => set (l1 := with_metadata u r n m l) in E end.
    assert (frame l0 l1) as F1 by by destruct Hl; split.
    destruct (_ && _); [injection E as <- <-; by split_and!|].
    destruct (Z.ltb_spec (metadataSize l) (metadataReceived l + len b)) as [H1|H1];
      injection E as <- <-; (split_and!; [done|done|]); [done|].
    unfold l1. split; simpl; [|unfold MAX_METADATA_SIZE; lia|lia].
    rewrite <- M1. unfold len in *. rewrite copy_at_length by lia. lia.
  - unfold storePiece in E. destruct (_ <? _); [done|]. unfold mbind, M_bind, gets, id in E.
    destruct (slice _ _ _) in E; [|done]. cbn in E.
    destruct (_ && _); [done|]. by destruct (_ <? _).
Qed.

(** What a data message does, and the only way it can panic. *)
Lemma recvPiece_crash l :
  recvPiece l = Crash <->
  exists l1 d buf piece, readUmMessage l = Done l1 (Ok (Byte.x14 :: Byte.x01 :: buf)) /\
    DecodeExt buf = Some (d, piece) /\ MsgType d = 1 /\ len piece <= 16384 /\
    ~ in_range l1 (Piece d) (len piece).
Proof.
  pose proof (readUmMessage_wp l) as Hwp. unfold wp in Hwp.
  unfold recvPiece, mbind, M_bind, wrap.
  destruct (readUmMessage l) as [l1 [m|e]| |] eqn:Er; [|split; [done|by intros (? & ? & ? & ? & ? & _)]|done|done].
  destruct Hwp as [_ [_ [buf ->]]]. rewrite slice_from_2. cbn [lift mret M_ret].
  destruct (DecodeExt buf) as [[d piece]|] eqn:Ed;
    [|split; [done|intros (? & ? & ? & ? & [= <- <-] & ? & _); congruence]].
  destruct (Z.eqb_spec (MsgType d) 2) as [E2|E2].
  { split; [done|]. intros (? & d' & ? & ? & [= <- <-] & Hd & ? & _). rewrite Hd in Ed. simplify_eq. lia. }
  destruct (Z.eqb_spec (MsgType d) 1) as [E1|E1].
  - rewrite storePiece_crash. split; [intros [? ?]; by exists l1, d, buf, piece|].
    intros (? & d' & ? & ? & [= <- <-] & Hd & ? & ?). rewrite Hd in Ed. by simplify_eq.
  - split; [done|]. intros (? & d' & ? & ? & [= <- <-] & Hd & ? & _). rewrite Hd in Ed. by simplify_eq.
Qed.

Lemma recvPiece_ok l0 l :
  frame l0 l -> meta l ->
  wp recvPiece l (fun l' r => frame l0 l' /\ match r with
    | Ok _ => meta l' /\ (length (rx l') < length (rx l))%nat | Err _ => True end)
    (recvPiece l = Crash).
Proof.
  intros Hl Hmt. set (C := recvPiece l = Crash). assert (recvPiece l = Crash -> C) as HC by done.
  clearbody C. rewrite recvPiece_crash in HC. apply wp_bind, wp_wrap.
  pose proof (readUmMessage_wp l) as Hwp. unfold wp in Hwp |- * at 1.
  destruct (readUmMessage l) as [l1 r| |]; [|done|done]. destruct Hwp as [R1 Hr].
  apply (frame_reads l0) in R1 as F1; [|done].
  apply reads_keep in R1 as K1. apply keep_meta in K1 as M1; [|done].
  destruct r as [m|e]; [|done]. destruct Hr as [Hlt [buf ->]].
  apply wp_bind. rewrite slice_from_2. unfold wp at 1. cbn [lift mret M_ret].
  destruct (DecodeExt buf) as [[d piece]|] eqn:Ed; [|done].
  destruct (_ =? 2); [done|]. destruct (Z.eqb_spec (MsgType d) 1) as [E1|E1]; [|done].
  eapply wp_mono; [by apply (storePiece_ok _ _ l0)| |].
  - intros l2 [[]|e] (F2 & Hrx & M2); split; try done. split; [done|lia].
  - rewrite storePiece_crash. intros [? ?]. apply HC. by exists l1, d, buf, piece.
Qed.

Lemma recv_loop_ok fuel l0 l :
  frame l0 l -> meta l -> (length (rx l) < fuel)%nat ->
  wp (recv_loop fuel) l (fun l' r => frame l0 l' /\ match r with
    | Ok _ => meta l' /\ metadataReceived l' = metadataSize l' | Err _ => True end)
    (exists l1, frame l0 l1 /\ meta l1 /\ recvPiece l1 = Crash).
Proof.
  revert l. induction fuel as [|fuel IH]; intros l Hl Hmt Hf.
  { lia. }
  unfold wp. cbn [recv_loop].
  destruct (Z.ltb_spec (metadataReceived l) (metadataSize l)) as [H|H].
  - apply wp_bind. eapply wp_mono; [by apply (recvPiece_ok l0)| |eauto].
    intros l1 [[]|e] [F1 Hr]; [|done]. destruct Hr as [M1 Hlt]. apply IH; [done|done|lia].
  - split; [done|]. split; [done|]. destruct Hmt. lia.
Qed.

Definition total_size (files : list File) : Z := foldr (fun f acc => f_Size f + acc) 0 files.

Lemma sumSizes_eq total files l :
  sumSizes (to_u64 total) files l =
  if forallb (fun f => 0 <=? f_Size f) files
  then Done l (Ok (to_u64 (total + total_size files)))
  else Done l (Err (Errorf (str "file size less than zero"))).
Proof.
  revert total. induction files as [|f files IH]; intros total; simpl.
  { by rewrite Z.add_0_r. }
  rewrite Z.leb_antisym. destruct (f_Size f <? 0); [done|]. simpl.
  replace (to_u64 (to_u64 total + to_u64 (f_Size f))) with (to_u64 (total + f_Size f))
    by (unfold to_u64; by rewrite Zplus_mod).
  rewrite IH. by rewrite Z.add_assoc.
Qed.

(** What a successful download reports. *)
Record reported (infoHash md : bytes) (m : Metadata) : Prop := {
  rep_hash : md_InfoHash m = infoHash;
  rep_sha1 : sha1_sum md = infoHash;
  rep_size : len md < MAX_METADATA_SIZE;
  rep_info : exists info, UnmarshalInfo md = Some info /\ validateInfo info = None /\
    md_Name m = i_Name info /\ md_Files m = filesOf info;
  rep_files : Forall (fun f => 0 <= f_Size f) (md_Files m);
  rep_total : md_TotalSize m = to_u64 (total_size (md_Files m));
  rep_time : md_DiscoveredOn m = now net }.

Lemma checkMetadata_ok l :
  len (metadata l) < MAX_METADATA_SIZE ->
  wp checkMetadata l (fun l' r => l' = l /\
    match r with Ok m => reported (l_infoHash l) (metadata l) m | Err _ => True end) False.
Proof.
  intros Hlen. apply wp_bind. unfold wp at 1, gets, id.
  destruct (bool_decide _) eqn:Hsha; [|done]. apply bool_decide_eq_true in Hsha. cbn [negb].
  destruct (UnmarshalInfo (metadata l)) as [info|] eqn:Hinfo; [|done].
  apply wp_bind. destruct (validateInfo info) eqn:Hv; [done|].
  unfold wp at 1. cbn. apply wp_bind. unfold wp at 1. rewrite (sumSizes_eq 0).
  destruct (forallb _ _) eqn:Hf; [|done]. split; [done|].
  split; try done; [by exists info|]. simpl. rewrite forallb_forall in Hf.
  apply Forall_forall. intros f Hin. apply Z.leb_le, Hf, list_elem_of_In, Hin.
Qed.

(** Once the transfer is over the connection is closed at most once. *)
Record ended (l0 l : Leech) : Prop := {
  en_hash : l_infoHash l = l_infoHash l0;
  en_events : events l = events l0;
  en_allocs : Forall (fun n => n <= MAX_METADATA_SIZE) (allocs l);
  en_closed : connClosed l = false /\ ncloses l = ncloses l0 \/
              connClosed l = true /\ ncloses l = S (ncloses l0) }.

Record fresh (l : Leech) : Prop := {
  fs_hash : length (l_infoHash l) = 20%nat;
  fs_id : length (clientID l) = 20%nat;
  fs_meta : metadata l = [] /\ metadataSize l = 0 /\ metadataReceived l = 0;
  fs_closed : connClosed l = false;
  fs_allocs : allocs l = [] }.

Lemma frame_ended l0 l : fresh l0 -> frame l0 l -> ended l0 l.
Proof.
  intros [? ? ? ? Ha] []. split; try done; [rewrite Ha in *; auto|]. left. split; congruence.
Qed.

Lemma fresh_meta l : fresh l -> meta l.
Proof. intros [? ? (H1 & H2 & H3) ? ?]. split; rewrite ?H1, ?H2, ?H3; unfold MAX_METADATA_SIZE; done. Qed.

Lemma download_ok `{!LeechLibLaws L} l :
  write_contract -> fresh l ->
  wp download l (fun l' r => ended l l' /\
    match r with Ok m => reported (l_infoHash l) (metadata l') m /\
                         len (metadata l') = metadataSize l' | Err _ => True end)
    (closeOk net = false \/ exists l1, frame l l1 /\ meta l1 /\ recvPiece l1 = Crash).
Proof.
  intros Hw Hfr. pose proof (frame_refl l) as F0. pose proof (fresh_meta l Hfr) as M0.
  assert (forall l', frame l l' -> ended l l') as Hend by (intros; by apply frame_ended).
  apply wp_bind, wp_wrap.
  eapply wp_mono; [apply (doBtHandshake_ok l l Hw); [apply Hfr|apply Hfr|done|split; [done|apply Hfr]]| |done].
  intros l1 [[]|e] (F1 & _ & M1); [|by split; [apply Hend|]].
  apply wp_bind, wp_wrap. eapply wp_mono; [by apply (doExHandshake_ok l)| |done].
  intros l2 [[]|e] (F2 & _ & M2); [|by split; [apply Hend|]].
  apply wp_bind, wp_wrap. apply wp_bind. unfold wp at 1, gets, id.
  eapply wp_mono; [by apply (request_loop_ok _ _ Hw l)| |done].
  intros l3 [[]|e] (F3 & _ & M3); [|by split; [apply Hend|]].
  apply wp_bind. eapply wp_mono; [apply (recv_loop_ok (S (length (rx l3))) l l3 F3 M3); lia| |by right].
  intros l4 [[]|e] (F4 & M4); [|by split; [apply Hend|]]. destruct M4 as [M4 _].
  apply wp_bind. unfold wp at 1, closeConn. destruct (frame_ended l l4 Hfr F4) as [E1 E2 E3 _].
  rewrite (fr_closed _ _ F4), (fs_closed _ Hfr).
  destruct (closeOk net) eqn:Hc; [|by left].
  assert (ended l (closed true l4)) as E5.
  { split; try done. right. split; [done|]. simpl. by rewrite (fr_ncloses _ _ F4). }
  eapply wp_mono; [apply checkMetadata_ok; simpl; rewrite (mt_len _ M4); apply M4| |done].
  intros l5 r [-> Hr]. split; [done|]. destruct r as [m|e]; [|done].
  split; [|apply M4]. by rewrite <- E1.
Qed.

Lemma NewLeech_fresh ih id r : length ih = 20%nat -> fresh (NewLeech ih id r).
Proof. intros H. split; try done. apply copy_length. Qed.

(** The connection after [connect]: closed exactly when an error came after
    dialling. *)
Lemma connect_ok l :
  wp connect l (fun l' r =>
    match r with
    | Ok _ => l' = l /\ dialErr net = None
    | Err _ => l' = l /\ dialErr net <> None \/ l' = closed (connClosed l) l /\ dialErr net = None
    end) (closeOk net = false).
Proof.
  unfold connect, wp. cbn. destruct (dialErr net); [by left|]. cbn.
  destruct (lingerErr net); [destruct (closeOk net); [by right|done]|]. cbn.
  destruct (noDelayErr net); [destruct (closeOk net); [by right|done]|]. cbn.
  destruct (deadlineErr net); [destruct (closeOk net); [by right|done]|]. done.
Qed.

(** What Do leaves behind. *)
Record finished (ih : bytes) (l : Leech) : Prop := {
  fin_event : (exists e, events l = [OnError ih e]) \/
              (exists m, events l = [OnSuccess m] /\ reported ih (metadata l) m);
  fin_closes : ncloses l = match dialErr net with None => 1%nat | Some _ => 0%nat end;
  fin_allocs : Forall (fun n => n <= MAX_METADATA_SIZE) (allocs l) }.

Lemma closeConn_ended l0 l e :
  ended l0 l -> ncloses l0 = 0%nat ->
  wp closeConn (emit e l) (fun l' _ => ncloses l' = 1%nat /\ events l' = events l0 ++ [e] /\
    metadata l' = metadata l /\ allocs l' = allocs l) (closeOk net = false).
Proof.
  intros [H1 H2 H3 H4] H0. unfold wp, closeConn. simpl.
  destruct H4 as [[-> Hn]|[-> Hn]].
  - destruct (closeOk net); [|done]. simpl. rewrite Hn, H0, H2. done.
  - simpl. rewrite Hn, H0, H2. done.
Qed.

Lemma Do_ok `{!LeechLibLaws L} ih id r :
  write_contract -> length ih = 20%nat ->
  wp Do (NewLeech ih id r) (fun l' _ => finished ih l')
    (closeOk net = false \/
     exists l1, frame (NewLeech ih id r) l1 /\ meta l1 /\ recvPiece l1 = Crash).
Proof.
  intros Hw Hih. pose proof (NewLeech_fresh ih id r Hih) as Hfr.
  set (l0 := NewLeech ih id r) in *. unfold wp, Do.
  pose proof (connect_ok l0) as Hc. unfold wp in Hc.
  destruct (connect l0) as [l [[]|e]| |]; [| |by left|done].
  - destruct Hc as [-> Hd]. pose proof (download_ok l0 Hw Hfr) as Hdl. unfold wp in Hdl.
    destruct (download l0) as [l1 [m|e]| |]; [| |done|done]; destruct Hdl as [He Hr].
    + pose proof (closeConn_ended l0 l1 (OnSuccess m) He eq_refl) as Hcl. unfold wp in Hcl.
      destruct (closeConn _) as [l2 r2| |]; [|by left|done]. destruct Hcl as (C1 & C2 & C3 & C4).
      split; [right; exists m; split; [done|by rewrite C3; apply Hr]|by rewrite Hd|].
      rewrite C4. apply He.
    + rewrite (en_hash _ _ He).
      pose proof (closeConn_ended l0 l1 (OnError ih e) He eq_refl) as Hcl. unfold wp in Hcl.
      change (l_infoHash l0) with ih.
      destruct (closeConn _) as [l2 r2| |]; [|by left|done]. destruct Hcl as (C1 & C2 & C3 & C4).
      split; [left; by exists e|by rewrite Hd|]. rewrite C4. apply He.
  - destruct Hc as [[-> Hd]|[-> Hd]]; (split; [left; by eexists| |by constructor]).
    + by destruct (dialErr net).
    + by rewrite Hd.
Qed.

Lemma Do_success_reported `{!LeechLibLaws L} ih id r l m :
  write_contract -> length ih = 20%nat ->
  Do (NewLeech ih id r) = Done l (Ok tt) -> In (OnSuccess m) (events l) ->
  reported ih (metadata l) m.
Proof.
  intros Hw Hih HDo Hin. pose proof (Do_ok ih id r Hw Hih) as H. unfold wp in H.
  rewrite HDo in H. destruct (fin_event _ _ H) as [[e E]|(m' & E & Hm)]; rewrite E in Hin;
    destruct Hin as [Hin|[]]; [discriminate|]. injection Hin as <-. exact Hm.
Qed.

End Methods.
