(* ===== verification/LeechProps.v ===== *)
(** Correctness of the metadata download (Leech.v): what any peer can and
    cannot make it do, and that a peer following BEP 9 makes it succeed. *)

From S2P Require Import Prelude GoLib Sha1 Leech Persistence.
From Stdlib Require Import ZArith Lia.
From stdpp Require Import base list.
Local Open Scope Z_scope.

Section Any_peer.
Context `{L : LeechLib} `{!LeechLibLaws L}.
Variable net : Net.
Hypothesis Hwrite : write_contract net.

(** C3. Integrity: metadata is reported only if its SHA-1 is the requested info
    hash, its size is below 10 MiB, and it decodes to an info dictionary that
    passes validateInfo; name and files are those of the dictionary, no file
    size is negative, and the total is their sum modulo 2^64. *)
Theorem Do_integrity ih id r l m :
  length ih = 20%nat -> Do net (NewLeech ih id r) = Done l (Ok tt) -> In (OnSuccess m) (events l) ->
  reported net ih (metadata l) m.
Proof. intros Hih. by apply Do_success_reported. Qed.

(** C10. Whatever the peer sends, a download ends: Do returns after calling
    exactly one of the two handlers exactly once, with the connection closed
    exactly once (never opened if dialling failed), or the process panics. *)
Theorem Do_once ih id r :
  length ih = 20%nat ->
  Do net (NewLeech ih id r) = Crash \/
  exists l e, Do net (NewLeech ih id r) = Done l (Ok tt) /\ events l = [e] /\
    ncloses l = match dialErr net with None => 1%nat | Some _ => 0%nat end.
Proof.
  intros Hih. pose proof (Do_ok net ih id r Hwrite Hih) as H. unfold wp in H.
  destruct (Do net (NewLeech ih id r)) as [l x| |] eqn:E; [|by left|done].
  right. assert (x = Ok tt) as ->.
  { unfold Do, closeConn in E. repeat (case_match; try discriminate E); injection E as _ <-; done. }
  exists l. destruct (fin_event _ _ _ H) as [[e Hv]|(m & Hv & _)];
    eexists; (split_and!; [done|exact Hv|apply H]).
Qed.

(** C30. Memory: no buffer larger than 10 MiB is allocated on the word of a peer. *)
Theorem Do_memory_bounded ih id r l :
  length ih = 20%nat -> Do net (NewLeech ih id r) = Done l (Ok tt) ->
  Forall (fun n => n <= MAX_METADATA_SIZE) (allocs l).
Proof.
  intros Hih HDo. pose proof (Do_ok net ih id r Hwrite Hih) as H. unfold wp in H.
  rewrite HDo in H. apply H.
Qed.

(** In a state [l] of the download that started in [l0], the next message of the
    peer is a data message whose piece lies outside the announced metadata. *)
Definition bad_piece (l0 : Leech) : Prop :=
  exists l l1 d buf piece, frame l0 l /\ meta l /\
    readUmMessage net l = Done l1 (Ok (Byte.x14 :: Byte.x01 :: buf)) /\
    DecodeExt buf = Some (d, piece) /\ MsgType d = 1 /\ len piece <= 16384 /\
    ~ in_range l1 (Piece d) (len piece).

(** The only way a peer can make the download panic is a data message, in
    what it sends after the handshakes, whose piece index points outside the
    announced metadata. *)
Theorem Do_crash_cause ih id r :
  length ih = 20%nat -> closeOk net = true -> Do net (NewLeech ih id r) = Crash ->
  bad_piece (NewLeech ih id r).
Proof.
  intros Hih Hc HDo. pose proof (Do_ok net ih id r Hwrite Hih) as H. unfold wp in H.
  rewrite HDo in H. destruct H as [H|(l1 & Hf & Hm & H)]; [congruence|].
  apply recvPiece_crash in H as (l2 & d & buf & piece & H). by exists l1, l2, d, buf, piece.
Qed.

End Any_peer.

(** ** Streams of BitTorrent messages *)

(** A message with its length prefix. *)
Definition framed (m : bytes) : bytes := be32 (len m) ++ m.
Definition stream (ms : list bytes) : bytes := flat_map framed ms.

Definition is_ext (m : bytes) : bool :=
  match m with b :: _ :: _ => byte_val b =? 20 | _ => false end.
Definition is_um (m : bytes) : bool :=
  is_ext m && match m !! 1%nat with Some b => byte_val b =? 1 | None => false end.

Definition fits (m : bytes) : Prop := len m <= MAX_METADATA_SIZE.

Section Streams.
Context `{L : LeechLib}.
Variable net : Net.

(** The method reads [m] and leaves [rest]. *)
Definition takes (m : bytes) (rest : bytes) (l : Leech) (o : outcome bytes) : Prop :=
  exists l', o = Done l' (Ok m) /\ rx l' = rest /\ keep l l'.

Lemma takes_keep m rest l l1 o : keep l l1 -> takes m rest l1 o -> takes m rest l o.
Proof. intros K (l' & H1 & H2 & H3). exists l'. split_and!; [done|done|by eapply keep_trans]. Qed.

Lemma readExactly_takes b rest l : rx l = b ++ rest -> takes b rest l (readExactly net (len b) l).
Proof.
  intros H. unfold readExactly. cbn [rx alloc with_log]. rewrite H.
  rewrite (proj2 (Z.leb_le _ _)) by (rewrite len_app; pose proof (len_nonneg rest); lia).
  unfold len. rewrite Nat2Z.id, take_app_length, drop_app_length.
  eexists. by split_and!.
Qed.

Lemma readMessage_takes m rest l :
  fits m -> rx l = framed m ++ rest -> takes m rest l (readMessage net l).
Proof.
  intros Hm Hrx. unfold framed in Hrx. rewrite <- app_assoc in Hrx.
  destruct (readExactly_takes _ _ _ Hrx) as (l1 & H1 & Hrx1 & K1).
  destruct (readExactly_takes _ _ _ Hrx1) as (l2 & H2 & Hrx2 & K2).
  pose proof (len_nonneg m) as Hn. unfold fits, MAX_METADATA_SIZE in Hm.
  replace (len (be32 (len m))) with 4 in H1 by (unfold len; by rewrite be32_length).
  unfold readMessage, mbind, M_bind, wrap. rewrite H1.
  rewrite <- (app_nil_r (be32 (len m))), Uint32_be32 by lia. cbn [lift mret M_ret].
  rewrite (proj2 (Z.ltb_ge _ _)) by (unfold MAX_METADATA_SIZE; lia). rewrite H2.
  exists l2. split_and!; [done|done|by eapply keep_trans].
Qed.

Lemma readExMessage_loop_takes js m rest fuel l :
  Forall fits js -> Forall (fun j => is_ext j = false) js -> fits m -> is_ext m = true ->
  rx l = stream js ++ framed m ++ rest -> (length js < fuel)%nat ->
  takes m rest l (readExMessage_loop net fuel l).
Proof.
  intros Hf Hj Hm Hext. revert fuel l.
  induction js as [|j js IH]; intros fuel l Hrx Hfuel; (destruct fuel as [|fuel]; [simpl in Hfuel; lia|]).
  - destruct (readMessage_takes m rest l Hm Hrx) as (l1 & H1 & Hr & K).
    cbn [readExMessage_loop]. unfold mbind, M_bind, wrap. rewrite H1.
    exists l1. split_and!; [|done|done]. destruct m as [|b [|c m]]; [done|done|].
    simpl in Hext. by rewrite Hext.
  - apply Forall_cons in Hf as [Hfj Hf]. apply Forall_cons in Hj as [Hj0 Hj].
    cbn [stream flat_map] in Hrx. rewrite <- app_assoc in Hrx.
    destruct (readMessage_takes j _ l Hfj Hrx) as (l1 & H1 & Hr & K).
    apply (takes_keep _ _ _ l1 _ K).
    specialize (IH Hf Hj fuel l1 Hr ltac:(simpl in Hfuel; lia)).
    cbn [readExMessage_loop]. unfold mbind, M_bind, wrap. rewrite H1.
    destruct j as [|b [|c j]]; [done|done|]. simpl in Hj0. by rewrite Hj0.
Qed.

Lemma stream_length js : (length js <= length (stream js))%nat.
Proof.
  induction js as [|j js IH]; [done|]. cbn [stream flat_map]. rewrite length_app.
  fold (stream js). unfold framed. rewrite length_app, be32_length. cbn [length]. lia.
Qed.

Lemma readExMessage_takes js m rest l :
  Forall fits js -> Forall (fun j => is_ext j = false) js -> fits m -> is_ext m = true ->
  rx l = stream js ++ framed m ++ rest -> takes m rest l (readExMessage net l).
Proof.
  intros Hf Hj Hm Hext Hrx. apply (readExMessage_loop_takes js m rest); try done.
  rewrite Hrx, length_app. pose proof (stream_length js). lia.
Qed.

(** Any list is a run of non-extension messages, or has a first extension
    message. *)
Lemma split_ext (js : list bytes) :
  Forall (fun j => is_ext j = false) js \/
  exists a x b, js = a ++ x :: b /\ Forall (fun j => is_ext j = false) a /\ is_ext x = true.
Proof.
  induction js as [|j js IH]; [by left|]. destruct (is_ext j) eqn:E.
  { right. by exists [], j, js. }
  destruct IH as [IH|(a & x & b & -> & Ha & Hx)]; [left; by constructor|].
  right. exists (j :: a), x, b. split_and!; [done|by constructor|done].
Qed.

Lemma is_ext_shape m : is_ext m = true -> exists b d, m = Byte.x14 :: b :: d.
Proof.
  destruct m as [|a [|b d]]; [done|done|]. simpl. intros E%Z.eqb_eq.
  exists b, d. f_equal. by apply byte_val_inj.
Qed.

Lemma readUmMessage_loop_takes n js m rest fuel l :
  (length js <= n)%nat -> Forall fits js -> Forall (fun j => is_um j = false) js ->
  fits m -> is_um m = true ->
  rx l = stream js ++ framed m ++ rest -> (length js < fuel)%nat ->
  takes m rest l (readUmMessage_loop net fuel l).
Proof.
  intros Hn Hf Hj Hm Hum. revert js fuel l Hn Hf Hj. apply andb_true_iff in Hum as [Hext H1].
  induction n as [|n IH]; intros js fuel l Hn Hf Hj Hrx Hfuel;
    (destruct fuel as [|fuel]; [lia|]); destruct (split_ext js) as [Hne|(a & x & b & -> & Ha & Hx)];
    try (rewrite length_app in Hn; simpl in Hn; lia);
    try (destruct (readExMessage_takes js m rest l) as (l1 & E & Hr & K); try done;
         cbn [readUmMessage_loop]; unfold mbind, M_bind, wrap; rewrite E;
         destruct (m !! 1%nat); [|done]; rewrite H1; by exists l1).
  unfold stream in Hrx. rewrite flat_map_app in Hrx. cbn [flat_map] in Hrx.
  rewrite <- !app_assoc in Hrx. fold (stream a) (stream b) in Hrx.
  apply Forall_app in Hf as [Hfa [Hfx Hfb]%Forall_cons].
  apply Forall_app in Hj as [_ [Hjx Hjb]%Forall_cons].
  destruct (readExMessage_takes a x (stream b ++ framed m ++ rest) l) as (l1 & E & Hr & K); try done.
  apply (takes_keep _ _ _ l1 _ K). cbn [readUmMessage_loop]. unfold mbind, M_bind, wrap. rewrite E.
  unfold is_um in Hjx. rewrite Hx in Hjx. apply is_ext_shape in Hx as (c & d & ->).
  cbn [lookup list_lookup] in Hjx |- *. simpl in Hjx. rewrite Hjx.
  rewrite length_app in Hn, Hfuel. simpl in Hn, Hfuel. apply (IH b); try done; lia.
Qed.

Lemma readUmMessage_takes js m rest l :
  Forall fits js -> Forall (fun j => is_um j = false) js -> fits m -> is_um m = true ->
  rx l = stream js ++ framed m ++ rest -> takes m rest l (readUmMessage net l).
Proof.
  intros Hf Hj Hm Hum Hrx. apply (readUmMessage_loop_takes (length js) js m rest); try done.
  rewrite Hrx, length_app. pose proof (stream_length js). lia.
Qed.

End Streams.

(** ** A peer that follows the protocol *)

Definition pieceLen : nat := Z.to_nat 16384.

Lemma pieceLen_Z : Z.of_nat pieceLen = 16384.
Proof. apply Z2Nat.id. lia. Qed.

#[local] Opaque pieceLen.

Lemma copy_fill (md : bytes) (k n : nat) :
  (k <= length md)%nat ->
  copy_at (take k md ++ make_bytes (length md - k)) k (take n (drop k md)) =
  take (k + n) md ++ make_bytes (length md - (k + n)).
Proof.
  intros Hk. unfold copy_at.
  rewrite take_app_length', drop_app_length' by (rewrite length_take; lia).
  rewrite take_plus, <- app_assoc. f_equal. unfold copy, make_bytes.
  rewrite drop_replicate, length_replicate, length_take, length_drop.
  rewrite (take_ge (take n (drop k md))) by (rewrite length_take, length_drop; lia).
  do 2 f_equal. lia.
Qed.

Section Honest.
Context `{L : LeechLib} `{!LeechLibLaws L}.
Variable net : Net.
Variable md : bytes.
Hypothesis md_size : 0 < len md < MAX_METADATA_SIZE.

(** The messages of a peer from piece [i] on: each piece in order, in a data
    message of its own, among other messages; then anything. *)
Inductive sends : nat -> bytes -> Prop :=
  | sends_end i rest : len md <= Z.of_nat i * 16384 -> sends i rest
  | sends_piece i js buf rest :
      Z.of_nat i * 16384 < len md ->
      Forall fits js -> Forall (fun j => is_um j = false) js ->
      fits (Byte.x14 :: Byte.x01 :: buf) ->
      DecodeExt buf = Some ({| MsgType := 1; Piece := Z.of_nat i |},
                            take pieceLen (drop (i * pieceLen) md)) ->
      sends (S i) rest ->
      sends i (stream js ++ framed (Byte.x14 :: Byte.x01 :: buf) ++ rest).

(** The metadata buffer after the first [i] pieces. *)
Record filled (i : nat) (l : Leech) : Prop := {
  fl_metadata : metadata l = take (i * pieceLen) md ++ make_bytes (length md - i * pieceLen);
  fl_size : metadataSize l = len md;
  fl_received : metadataReceived l = Z.min (Z.of_nat i * 16384) (len md) }.

(** Only the input, the metadata and the allocation log change. *)
Definition receives (l l' : Leech) : Prop :=
  l' = with_log (allocs l') (events l)
         (with_metadata (ut_metadata l) (metadataReceived l') (metadataSize l) (metadata l')
            (set_rx (rx l') l)).

Lemma receives_trans l1 l2 l3 : receives l1 l2 -> receives l2 l3 -> receives l1 l3.
Proof. unfold receives. intros H1 H2. rewrite H2. rewrite H1. done. Qed.

Lemma offset_Z i : Z.of_nat (i * pieceLen) = Z.of_nat i * 16384.
Proof. by rewrite Nat2Z.inj_mul, pieceLen_Z. Qed.

Lemma chunk_length i :
  Z.of_nat i * 16384 < len md ->
  len (take pieceLen (drop (i * pieceLen) md)) = Z.min 16384 (len md - Z.of_nat i * 16384).
Proof.
  intros H. unfold len in *. rewrite length_take, length_drop.
  pose proof pieceLen_Z. pose proof (offset_Z i). lia.
Qed.

Lemma storePiece_fills i l :
  Z.of_nat i * 16384 < len md -> filled i l ->
  exists l', storePiece (Z.of_nat i) (take pieceLen (drop (i * pieceLen) md)) l = Done l' (Ok tt) /\
    filled (S i) l' /\ rx l' = rx l /\ receives l l'.
Proof.
  intros Hi [F1 F2 F3]. pose proof (chunk_length i Hi) as Hc. pose proof (offset_Z i) as Ho.
  set (chunk := take pieceLen _) in *. unfold MAX_METADATA_SIZE in md_size.
  assert (length (metadata l) = length md) as Hlen.
  { rewrite F1, length_app, length_take. unfold make_bytes. rewrite length_replicate. unfold len in Hi. lia. }
  unfold storePiece. rewrite (proj2 (Z.ltb_ge _ _)) by lia.
  unfold mbind, M_bind, gets, id. rewrite !to_i64_id by (rewrite ?to_i64_id by lia; lia).
  replace (Z.of_nat i * 16384 + len chunk) with (Z.of_nat (i * pieceLen + length chunk))
    by (unfold len; lia).
  rewrite <- Ho, slice_nat by (unfold len in *; lia). cbn [lift mret M_ret modify].
  rewrite F2, F3, to_u64_id by lia.
  assert (Z.min (Z.of_nat i * 16384) (len md) + len chunk = Z.min (Z.of_nat (S i) * 16384) (len md))
    as Hr by lia.
  rewrite Hr. replace (_ && _) with false.
  2:{ symmetry. apply andb_false_iff. destruct (Z.ltb_spec (len chunk) (16 * 1024)); [right|by left].
      apply negb_false_iff, Z.eqb_eq. lia. }
  rewrite (proj2 (Z.ltb_ge _ _)) by lia. eexists. split; [done|]. split_and!; [split; simpl|done|].
  - rewrite F1, Nat2Z.id. unfold chunk. rewrite copy_fill by (unfold len in *; lia).
    by rewrite (Nat.add_comm pieceLen (i * pieceLen)).
  - done.
  - done.
  - unfold receives. simpl. rewrite F2. done.
Qed.

Lemma recv_loop_fills i s l fuel :
  sends i s -> filled i l -> rx l = s -> (length s < fuel)%nat ->
  exists l', recv_loop net fuel l = Done l' (Ok tt) /\ metadata l' = md /\ receives l l'.
Proof.
  intros Hs. revert l fuel. induction Hs as [i rest Hi|i js buf rest Hi Hf Hj Hfit Hdec _ IH];
    intros l fuel Hl Hrx Hfuel; (destruct fuel as [|fuel]; [lia|]); cbn [recv_loop].
  - rewrite (fl_received _ _ Hl), (fl_size _ _ Hl), (proj2 (Z.ltb_ge _ _)) by lia.
    exists l. split; [done|]. split; [|by destruct l].
    rewrite (fl_metadata _ _ Hl). pose proof (offset_Z i). unfold len in Hi.
    rewrite take_ge by lia. replace (length md - i * pieceLen)%nat with 0%nat by lia. apply app_nil_r.
  - rewrite (fl_received _ _ Hl), (fl_size _ _ Hl), (proj2 (Z.ltb_lt _ _)) by lia.
    destruct (readUmMessage_takes net js _ rest l Hf Hj Hfit eq_refl Hrx) as (l1 & E & Hr & K).
    assert (filled i l1) as Hl1 by (destruct Hl; unfold keep in K; rewrite K; by split).
    destruct (storePiece_fills i l1 Hi Hl1) as (l2 & E2 & Hl2 & Hr2 & R2).
    destruct (IH l2 fuel Hl2) as (l3 & E3 & Hm & R3).
    { congruence. } { rewrite !length_app in Hfuel. simpl in Hfuel. lia. }
    exists l3. unfold mbind, M_bind, recvPiece, mbind, M_bind, wrap. rewrite E, slice_from_2.
    cbn [lift mret M_ret]. rewrite Hdec. simpl. rewrite E2. split; [done|]. split; [done|].
    eapply receives_trans; [|exact R3]. eapply receives_trans; [|exact R2].
    unfold receives, keep in *. rewrite K. done.
Qed.

(** ** What the leech sends *)

Hypothesis writable : forall k b, write net k b = (length b, None).

Lemma writeAll_writable b l : b <> [] -> writeAll net b l = Done (wrote b l) (Ok tt).
Proof.
  intros Hb. destruct b as [|x b]; [done|]. unfold writeAll. cbn [writeAll_loop].
  unfold mbind, M_bind, connWrite. rewrite writable.
  rewrite slice_from_nat by done. rewrite drop_all, take_ge by done. done.
Qed.

(** The request for one piece: length, extended message, the peer's id for
    ut_metadata, and the dictionary. *)
Definition request (ut : Z) (piece : Z) : bytes :=
  let d := default [] (MarshalExt {| MsgType := 0; Piece := piece |}) in
  be32 (to_u32 (2 + len d)) ++ [Byte.x14] ++ [byte_of ut] ++ d.

Fixpoint requests (ut : Z) (n : nat) (piece : Z) : bytes :=
  match n with O => [] | S n => request ut piece ++ requests ut n (piece + 1) end.

Lemma request_loop_sends n piece l :
  exists l', request_loop net n piece l = Done l' (Ok tt) /\
    writes (requests (ut_metadata l) n piece) l l'.
Proof.
  revert piece l. induction n as [|n IH]; intros piece l.
  { exists l. split; [done|]. unfold writes. destruct l. simpl. by rewrite app_nil_r. }
  cbn [request_loop requests]. unfold request.
  destruct (marshal_ext_total {| MsgType := 0; Piece := piece |}) as [d ->]. simpl default.
  destruct (IH (piece + 1) (wrote (be32 (to_u32 (2 + len d)) ++ [Byte.x14] ++ [byte_of (ut_metadata l)] ++ d) l))
    as (l' & E & W).
  exists l'. unfold mbind, M_bind, gets, id, toBigEndian, wrap. rewrite PutUint32_make.
  replace (len (be32 (to_u32 (2 + len d)))) with 4 by (unfold len; by rewrite be32_length).
  change (len [byte_of (ut_metadata l)]) with 1. cbn [Z.eqb Pos.eqb negb lift mret M_ret].
  rewrite writeAll_writable by done. split; [exact E|].
  unfold writes in *. rewrite W. simpl. by rewrite <- !app_assoc.
Qed.

(** ** Completeness *)

Variable info : Info.
Variables ih cid : bytes.
Hypothesis connected : dialErr net = None /\ lingerErr net = None /\ noDelayErr net = None /\
  deadlineErr net = None /\ closeOk net = true.
Hypothesis ih_length : length ih = 20%nat.
Hypothesis md_hash : sha1_sum md = ih.
Hypothesis md_info : UnmarshalInfo md = Some info.
Hypothesis info_valid : validateInfo info = None.
Hypothesis sizes_ok : forallb (fun f => 0 <=? f_Size f) (filesOf info) = true.

Definition clientHandshake : bytes := protocolHeader ++ reserved ++ ih ++ copy (make_bytes 20) cid.

(** A handshake with the header of the protocol and the extension bit. *)
Definition handshake_ok (h : bytes) : Prop :=
  len h = 68 /\ take (length protocolHeader) h = protocolHeader /\
  exists b, h !! 25%nat = Some b /\ Z.land (byte_val b) 16 <> 0.

Lemma doBtHandshake_completes h rest l :
  handshake_ok h -> l_infoHash l = ih -> clientID l = copy (make_bytes 20) cid -> rx l = h ++ rest ->
  exists l', doBtHandshake net l = Done l' (Ok tt) /\ rx l' = rest /\ keep (wrote clientHandshake l) l'.
Proof.
  intros (Hlen & Hpre & b & Hb & Hbit) Hih Hid Hrx.
  assert (rx (wrote clientHandshake l) = h ++ rest) as Hrx' by done.
  destruct (readExactly_takes net h rest _ Hrx') as (l1 & E & Hr & K). rewrite Hlen in E.
  exists l1. split_and!; [|done|done]. unfold doBtHandshake, mbind, M_bind, gets, wrap, id.
  rewrite Hih, Hid. fold clientHandshake.
  replace (len clientHandshake) with 68
    by (unfold clientHandshake, len; rewrite !length_app, ih_length, copy_length; done).
  cbn [Z.eqb Pos.eqb negb]. rewrite writeAll_writable by done. rewrite E.
  rewrite bool_decide_true by done. cbn [negb]. rewrite Hb.
  by rewrite (proj2 (Z.eqb_neq _ _)).
Qed.

Lemma doExHandshake_completes js root ut rest l :
  Forall fits js -> Forall (fun j => is_ext j = false) js ->
  fits (Byte.x14 :: Byte.x00 :: root) -> 0 < ut < 255 ->
  UnmarshalRoot root = Some {| UTMetadata := ut; MetadataSize := len md |} ->
  metadataReceived l = 0 ->
  rx l = stream js ++ framed (Byte.x14 :: Byte.x00 :: root) ++ rest ->
  exists al, doExHandshake net l =
    Done (with_log al (events l) (with_metadata ut 0 (len md) (make_bytes (length md))
           (set_rx rest (wrote exHandshake l)))) (Ok tt).
Proof using md_size writable.
  clear connected ih_length. intros Hf Hj Hfit Hut Hroot H0 Hrx. set (l0 := wrote exHandshake l).
  destruct (readExMessage_takes net js _ rest l0 Hf Hj Hfit eq_refl Hrx) as (l1 & E & Hr & K).
  exists (allocs l1 ++ [len md]). unfold doExHandshake, mbind, M_bind, wrap.
  rewrite writeAll_writable by done. fold l0. rewrite E. cbn [lookup list_lookup].
  change (byte_val Byte.x00 =? 0) with true. cbn [negb]. rewrite slice_from_2.
  cbn [lift mret M_ret]. rewrite Hroot. cbn [MetadataSize UTMetadata].
  rewrite !(proj2 (Z.ltb_lt _ _)) by lia. cbn [andb negb modify].
  unfold keep in K. rewrite Hr in K. rewrite K. unfold len. rewrite Nat2Z.id.
  unfold modify, alloc, with_metadata, l0. cbn. rewrite H0. reflexivity.
Qed.

Definition success : Metadata :=
  {| md_InfoHash := ih; md_Name := i_Name info; md_TotalSize := to_u64 (total_size (filesOf info));
     md_DiscoveredOn := now net; md_Files := filesOf info |}.

Lemma checkMetadata_completes l :
  metadata l = md -> l_infoHash l = ih -> checkMetadata net l = Done l (Ok success).
Proof.
  intros Hm Hi. unfold checkMetadata, mbind, M_bind, gets, id. rewrite Hm, Hi.
  rewrite bool_decide_true by done. cbn [negb]. rewrite md_info, info_valid. cbn.
  rewrite (sumSizes_eq 0), sizes_ok. done.
Qed.

Lemma Do_completes h js root ut rest :
  handshake_ok h -> Forall fits js -> Forall (fun j => is_ext j = false) js ->
  fits (Byte.x14 :: Byte.x00 :: root) -> 0 < ut < 255 ->
  UnmarshalRoot root = Some {| UTMetadata := ut; MetadataSize := len md |} ->
  sends 0 rest ->
  exists l, Do net (NewLeech ih cid (h ++ stream js ++ framed (Byte.x14 :: Byte.x00 :: root) ++ rest)) =
    Done l (Ok tt) /\
    events l = [OnSuccess success] /\ ncloses l = 1%nat /\
    tx l = clientHandshake ++ exHandshake ++
           requests ut (Z.to_nat (ceil_div_2_14 (len md))) 0.
Proof.
  intros Hh Hf Hj Hfit Hut Hroot Hs. set (l0 := NewLeech ih cid _).
  destruct connected as (D1 & D2 & D3 & D4 & Hclose).
  assert (connect net l0 = Done l0 (Ok tt)) as Ec
    by (unfold connect, mbind, M_bind; rewrite D1, D2, D3, D4; done).
  destruct (doBtHandshake_completes h (stream js ++ framed (Byte.x14 :: Byte.x00 :: root) ++ rest) l0)
    as (l1 & E1 & Hr1 & K1); try done.
  assert (metadataReceived l1 = 0) as H0 by (unfold keep in K1; by rewrite K1).
  destruct (doExHandshake_completes js root ut rest l1) as (al & E2); try done.
  set (l2 := with_log al _ _) in E2.
  destruct (request_loop_sends (Z.to_nat (ceil_div_2_14 (len md))) 0 l2) as (l3 & E3 & W3).
  assert (filled 0 l3) as F3.
  { unfold writes in W3. rewrite W3. split; simpl; [by rewrite Nat.sub_0_r|done|lia]. }
  assert (rx l3 = rest) as Hr3 by (unfold writes in W3; by rewrite W3).
  destruct (recv_loop_fills 0 rest l3 (S (length (rx l3))) Hs F3 Hr3) as (l4 & E4 & Hmd & R4).
  { rewrite Hr3. lia. }
  assert (l_infoHash l4 = ih /\ connClosed l4 = false /\ ncloses l4 = 0%nat /\ events l4 = [] /\
    tx l4 = clientHandshake ++ exHandshake ++ requests ut (Z.to_nat (ceil_div_2_14 (len md))) 0)
    as (Q1 & Q2 & Q3 & Q4 & Q5).
  { unfold receives in R4. rewrite R4. unfold writes in W3. rewrite W3. unfold l2.
    unfold keep in K1. rewrite K1. simpl. by rewrite <- !app_assoc. }
  eexists. unfold Do. rewrite Ec. unfold download, mbind, M_bind, wrap. rewrite E1, E2.
  unfold requestAllPieces, mbind, M_bind, gets, id. change (metadataSize l2) with (len md).
  rewrite E3, E4. unfold closeConn. rewrite Q2, Hclose.
  rewrite (checkMetadata_completes (closed true l4)) by done.
  split; [reflexivity|]. simpl. by rewrite Q3, Q4.
Qed.

(** C9. Completeness for a cooperative peer: one that answers the handshake with
    the extension bit, announces the size of the metadata and its own ut_metadata
    id, and sends every piece, in order and in a data message of its own (other
    messages, but no reject, may come in between, and anything after the last
    piece). Then the download succeeds: OnSuccess is called with the decoded
    metadata, and what was sent is the handshake, the extension handshake and
    one request for each 16 KiB piece. *)
Theorem Do_complete h js root ut rest :
  handshake_ok h -> Forall fits js -> Forall (fun j => is_ext j = false) js ->
  fits (Byte.x14 :: Byte.x00 :: root) -> 0 < ut < 255 ->
  UnmarshalRoot root = Some {| UTMetadata := ut; MetadataSize := len md |} ->
  sends 0 rest ->
  exists l, Do net (NewLeech ih cid (h ++ stream js ++ framed (Byte.x14 :: Byte.x00 :: root) ++ rest)) =
    Done l (Ok tt) /\
    events l = [OnSuccess success] /\ ncloses l = 1%nat /\
    tx l = clientHandshake ++ exHandshake ++
           requests ut (Z.to_nat (ceil_div_2_14 (len md))) 0.
Proof. apply Do_completes. Qed.

(** The whole input of such a download. *)
Inductive serves : bytes -> Prop :=
  | serves_all h js root ut rest :
      handshake_ok h -> Forall fits js -> Forall (fun j => is_ext j = false) js ->
      fits (Byte.x14 :: Byte.x00 :: root) -> 0 < ut < 255 ->
      UnmarshalRoot root = Some {| UTMetadata := ut; MetadataSize := len md |} ->
      sends 0 rest ->
      serves (h ++ stream js ++ framed (Byte.x14 :: Byte.x00 :: root) ++ rest).

Lemma Do_serves r :
  serves r -> exists l, Do net (NewLeech ih cid r) = Done l (Ok tt) /\ events l = [OnSuccess success].
Proof. intros []. edestruct Do_completes as (l & HDo & He & _); eauto. Qed.

End Honest.

(** ** Misbehaving peers *)

Section Misbehaving.
Context `{L : LeechLib} `{!LeechLibLaws L}.
Variable net : Net.
Hypothesis writable : forall k b, write net k b = (length b, None).
Hypothesis connected : dialErr net = None /\ lingerErr net = None /\ noDelayErr net = None /\
  deadlineErr net = None /\ closeOk net = true.
Variables ih cid : bytes.
Hypothesis ih_length : length ih = 20%nat.

Lemma connect_connected l : connect net l = Done l (Ok tt).
Proof.
  destruct connected as (D1 & D2 & D3 & D4 & _).
  unfold connect, mbind, M_bind. by rewrite D1, D2, D3, D4.
Qed.

Lemma recvPiece_out_of_range piece p dump rest l :
  MarshalExt {| MsgType := 1; Piece := p |} = Some dump ->
  fits (Byte.x14 :: Byte.x01 :: dump ++ piece) -> len piece <= 16384 ->
  ~ in_range l p (len piece) ->
  rx l = framed (Byte.x14 :: Byte.x01 :: dump ++ piece) ++ rest ->
  recvPiece net l = Crash.
Proof.
  intros Hd Hfit Hlen Hout Hrx. apply recvPiece_crash.
  destruct (readUmMessage_takes net [] (Byte.x14 :: Byte.x01 :: dump ++ piece) rest l)
    as (l1 & E & _ & K); try done.
  exists l1, {| MsgType := 1; Piece := p |}, (dump ++ piece), piece.
  split_and!; [done|by apply decode_marshal_ext|done|done|].
  unfold keep in K. rewrite K. exact Hout.
Qed.

(** C31. A remote peer can take the process down: after a correct handshake and
    any acceptable announcement of the metadata, one data message for a piece
    beyond the announced size makes the slice expression panic. *)
Theorem Do_remote_crash h root ut size dump :
  handshake_ok h -> fits (Byte.x14 :: Byte.x00 :: root) -> 0 < ut < 255 ->
  0 < size < MAX_METADATA_SIZE ->
  UnmarshalRoot root = Some {| UTMetadata := ut; MetadataSize := size |} ->
  MarshalExt {| MsgType := 1; Piece := size |} = Some dump ->
  fits (Byte.x14 :: Byte.x01 :: dump) ->
  Do net (NewLeech ih cid (h ++ framed (Byte.x14 :: Byte.x00 :: root) ++
                           framed (Byte.x14 :: Byte.x01 :: dump))) = Crash.
Proof.
  intros Hh Hfit Hut Hsz Hroot Hd Hfit2. set (l0 := NewLeech ih cid _).
  set (bad := framed (Byte.x14 :: Byte.x01 :: dump)) in *.
  set (md := make_bytes (Z.to_nat size)).
  assert (len md = size) as Hmd by (unfold md, len, make_bytes; rewrite length_replicate; lia).
  destruct (doBtHandshake_completes net writable ih cid ih_length h
    (framed (Byte.x14 :: Byte.x00 :: root) ++ bad) l0) as (l1 & E1 & Hr1 & K1); try done.
  assert (metadataReceived l1 = 0) as H0 by (unfold keep in K1; by rewrite K1).
  rewrite <- Hmd in Hroot, Hsz.
  destruct (doExHandshake_completes net md Hsz writable [] root ut bad l1) as (al & E2); try done.
  set (l2 := with_log al _ _) in E2.
  destruct (request_loop_sends net writable (Z.to_nat (ceil_div_2_14 (len md))) 0 l2) as (l3 & E3 & W3).
  unfold Do. rewrite connect_connected. unfold download, mbind, M_bind, wrap. rewrite E1, E2.
  unfold requestAllPieces, mbind, M_bind, gets, id. change (metadataSize l2) with (len md).
  rewrite E3. cbn [recv_loop]. unfold writes in W3.
  assert (metadataReceived l3 = 0 /\ metadataSize l3 = len md /\ metadata l3 = make_bytes (length md) /\
    rx l3 = bad) as (Q1 & Q2 & Q3 & Q4) by by rewrite W3.
  rewrite Q1, Q2, (proj2 (Z.ltb_lt _ _)) by lia. unfold mbind, M_bind.
  rewrite (recvPiece_out_of_range [] size dump [] l3); rewrite ?app_nil_r; try done.
  unfold in_range. rewrite Q3. unfold make_bytes, len in *. rewrite length_replicate.
  unfold MAX_METADATA_SIZE in Hsz. simpl. rewrite Z.add_0_r, !to_i64_id by (rewrite ?to_i64_id; lia). lia.
Qed.

(** A first extension message that is not a handshake is not refused:
    errors.Wrap of the nil error is nil, so doExHandshake reports success and
    the download goes on with no metadata to end in an info hash mismatch. *)
Theorem Do_no_handshake h b d :
  handshake_ok h -> byte_val b <> 0 -> fits (Byte.x14 :: b :: d) -> sha1_sum [] <> ih ->
  exists l, Do net (NewLeech ih cid (h ++ framed (Byte.x14 :: b :: d))) = Done l (Ok tt) /\
    events l = [OnError ih (Errorf (str "infohash mismatch"))].
Proof.
  intros Hh Hb Hfit Hsha. set (l0 := NewLeech ih cid _).
  destruct (doBtHandshake_completes net writable ih cid ih_length h (framed (Byte.x14 :: b :: d)) l0)
    as (l1 & E1 & Hr1 & K1); try done.
  set (l2 := wrote exHandshake l1).
  destruct (readExMessage_takes net [] (Byte.x14 :: b :: d) [] l2) as (l3 & E3 & Hr3 & K3); try done.
  { unfold l2. simpl. by rewrite Hr1, app_nil_r. }
  assert (metadata l3 = [] /\ metadataSize l3 = 0 /\ metadataReceived l3 = 0 /\ connClosed l3 = false /\
    l_infoHash l3 = ih /\ events l3 = []) as (Q1 & Q2 & Q3 & Q4 & Q5 & Q6).
  { unfold keep in K3, K1. rewrite K3. unfold l2. rewrite K1. done. }
  eexists. unfold Do. rewrite connect_connected.
  unfold download, doExHandshake, mbind, M_bind, wrap. rewrite E1.
  rewrite writeAll_writable by done. fold l2. rewrite E3. cbn [lookup list_lookup].
  rewrite (proj2 (Z.eqb_neq _ _)) by done. cbn [negb Wrap return_error mret M_ret].
  unfold requestAllPieces, mbind, M_bind, gets, id. rewrite Q2.
  change (Z.to_nat (ceil_div_2_14 0)) with 0%nat. cbn [request_loop mret M_ret recv_loop].
  rewrite Q2, Q3. cbn [Z.ltb Z.compare]. unfold closeConn. rewrite Q4.
  destruct connected as (_ & _ & _ & _ & ->).
  unfold checkMetadata, mbind, M_bind, gets, id. simpl. rewrite Q1, Q5.
  rewrite bool_decide_false by done. cbn. split; [reflexivity|]. simpl. by rewrite Q6, Q5.
Qed.

End Misbehaving.

(** ** A concrete bencode library for the witnesses

    The dictionaries of the metadata exchange in the key order bencode
    prescribes, and info dictionaries with a four-byte name, of one file with
    one piece or of several files without pieces. *)

Fixpoint span_e (s : bytes) : option (bytes * bytes) :=
  match s with
  | [] => None
  | b :: s =>
      if decide (b = Byte.x65) then Some ([], s)
      else match span_e s with Some (a, r) => Some (b :: a, r) | None => None end
  end.

Definition parse_int (s : bytes) : Z :=
  match s with
  | Byte.x2d :: s => - digits_val s
  | _ => digits_val s
  end.

Definition read_int (s : bytes) : option (Z * bytes) :=
  '(a, r) ← span_e s; Some (parse_int a, r).

Definition strip_prefix (p s : bytes) : option bytes :=
  if decide (take (length p) s = p) then Some (drop (length p) s) else None.

(** The files of a multi-file dictionary; one-byte names. [fuel]: the number of
    files is less than that of the bytes. *)
Fixpoint read_files (fuel : nat) (s : bytes) : option (list FileInfo * bytes) :=
  match fuel, strip_prefix (str "e") s with
  | O, _ => None
  | S _, Some r => Some ([], r)
  | S fuel, None =>
      r ← strip_prefix (str "d6:lengthi") s; '(n, r) ← read_int r;
      r ← strip_prefix (str "4:pathl1:") r;
      let name := take 1 r in
      r ← strip_prefix (str "ee") (drop 1 r); '(fs, r) ← read_files fuel r;
      Some ({| fi_Length := n; fi_Path := [name] |} :: fs, r)
  end.

Definition read_single (s : bytes) : option Info :=
  r ← strip_prefix (str "d6:lengthi") s; '(n, r) ← read_int r;
  r ← strip_prefix (str "4:name4:") r;
  let name := take 4 r in
  r ← strip_prefix (str "12:piece lengthi") (drop 4 r); '(pl, r) ← read_int r;
  r ← strip_prefix (str "6:pieces20:") r;
  Some {| i_Name := name; i_Length := n; i_Pieces := take 20 r; i_PieceLength := pl; i_Files := [] |}.

Definition read_multiple (s : bytes) : option Info :=
  r ← strip_prefix (str "d5:filesl") s; '(fs, r) ← read_files (length r) r;
  r ← strip_prefix (str "4:name4:") r;
  let name := take 4 r in
  r ← strip_prefix (str "12:piece lengthi") (drop 4 r); '(pl, r) ← read_int r;
  _ ← strip_prefix (str "6:pieces0:e") r;
  Some {| i_Name := name; i_Length := 0; i_Pieces := []; i_PieceLength := pl; i_Files := fs |}.

Definition bencode_lib : LeechLib := {|
  UnmarshalRoot s :=
    r ← strip_prefix (str "d1:md11:ut_metadatai") s; '(ut, r) ← read_int r;
    r ← strip_prefix (str "e13:metadata_sizei") r; '(n, r) ← read_int r;
    r ← strip_prefix (str "e") r;
    Some {| UTMetadata := ut; MetadataSize := n |};
  DecodeExt s :=
    r ← strip_prefix (str "d8:msg_typei") s; '(t, r) ← read_int r;
    r ← strip_prefix (str "5:piecei") r; '(p, r) ← read_int r;
    r ← strip_prefix (str "e") r;
    Some ({| MsgType := t; Piece := p |}, r);
  MarshalExt d :=
    Some (str "d8:msg_typei" ++ fmt_d (MsgType d) ++ str "e5:piecei" ++ fmt_d (Piece d) ++ str "ee");
  UnmarshalInfo s := match read_single s with Some i => Some i | None => read_multiple s end;
  TotalLength i := if decide (i_Files i = []) then i_Length i
                   else foldr (fun f acc => to_i64 (fi_Length f + acc)) 0 (i_Files i);
  NumPieces i := len (i_Pieces i) / 20;
  DisplayPath f i := concat (fi_Path f) |}.

Lemma span_e_app a r : Byte.x65 ∉ a -> span_e (a ++ Byte.x65 :: r) = Some (a, r).
Proof.
  induction a as [|b a IH]; intros H; cbn [app span_e].
  - by rewrite decide_True.
  - apply not_elem_of_cons in H as [Hb Ha]. rewrite decide_False by done. by rewrite IH.
Qed.

Lemma digits_not (c : byte) s :
  is_digit c = false -> Forall (fun b => is_digit b = true) s -> c ∉ s.
Proof. intros Hc Hs Hin. rewrite Forall_forall in Hs. apply Hs in Hin. congruence. Qed.

Lemma fmt_d_no_e n : Byte.x65 ∉ fmt_d n.
Proof.
  unfold fmt_d. destruct (Z.ltb_spec n 0).
  - apply not_elem_of_cons. split; [done|]. apply digits_not, dec_digits; [done|lia].
  - apply digits_not, dec_digits; [done|lia].
Qed.

Lemma parse_int_fmt_d n : parse_int (fmt_d n) = n.
Proof.
  unfold fmt_d. destruct (Z.ltb_spec n 0) as [H|H].
  - cbn [parse_int]. rewrite digits_val_dec; lia.
  - pose proof (dec_digits n H) as Hd. rewrite <- (digits_val_dec n H) at 2.
    destruct (dec n) as [|b s]; [done|]. apply Forall_cons in Hd as [Hb _].
    apply is_digit_not_sign in Hb as [Hb _]. by destruct b.
Qed.

Lemma read_int_fmt_d n r : read_int (fmt_d n ++ Byte.x65 :: r) = Some (n, r).
Proof.
  unfold read_int. rewrite span_e_app by apply fmt_d_no_e. cbn. by rewrite parse_int_fmt_d.
Qed.

Lemma strip_prefix_app p r : strip_prefix p (p ++ r) = Some r.
Proof. unfold strip_prefix. by rewrite take_app_length, drop_app_length, decide_True. Qed.

#[global] Instance bencode_lib_laws : LeechLibLaws bencode_lib.
Proof.
  split; [by eexists|]. intros [t p] b rest H. cbn [MarshalExt bencode_lib MsgType Piece] in H.
  apply Some_inj in H. subst b. cbn [DecodeExt bencode_lib].
  rewrite <- !app_assoc, strip_prefix_app. cbn [mbind option_bind].
  assert (forall x, str "e5:piecei" ++ x = Byte.x65 :: (str "5:piecei" ++ x)) as H1 by done.
  assert (forall x, str "ee" ++ x = Byte.x65 :: (str "e" ++ x)) as H2 by done.
  rewrite H1, read_int_fmt_d. cbn [mbind option_bind]. rewrite strip_prefix_app.
  cbn [mbind option_bind]. rewrite H2, read_int_fmt_d. cbn [mbind option_bind].
  by rewrite strip_prefix_app.
Qed.

Definition wit_net : Net :=
  {| dialErr := None; lingerErr := None; noDelayErr := None; deadlineErr := None;
     closeOk := true; write := fun _ b => (length b, None); readErr := ErrIO 0; now := 1700000000 |}.

Lemma wit_contract : write_contract wit_net.
Proof. intros k b. by split. Qed.

Lemma wit_writable k b : write wit_net k b = (length b, None).
Proof. done. Qed.

Lemma wit_connected : dialErr wit_net = None /\ lingerErr wit_net = None /\
  noDelayErr wit_net = None /\ deadlineErr wit_net = None /\ closeOk wit_net = true.
Proof. done. Qed.

Definition wit_md : bytes :=
  str "d6:lengthi5e4:name4:test12:piece lengthi16384e6:pieces20:ABCDEFGHIJKLMNOPQRSTe".
Definition wit_ih : bytes := Eval vm_compute in sha1_sum wit_md.
Definition wit_cid : bytes := str "-MC0008-012345678901".
Definition wit_info : Info :=
  {| i_Name := str "test"; i_Length := 5; i_Pieces := str "ABCDEFGHIJKLMNOPQRST";
     i_PieceLength := 16384; i_Files := [] |}.
Definition wit_h : bytes := protocolHeader ++ reserved ++ make_bytes 40.
Definition wit_root : bytes := str "d1:md11:ut_metadatai3ee13:metadata_sizei78ee".
Definition wit_have : bytes := [Byte.x04; Byte.x00; Byte.x00; Byte.x00; Byte.x07].
Definition wit_data : bytes := str "d8:msg_typei1e5:piecei0ee" ++ wit_md.

Lemma wit_h_ok : handshake_ok wit_h.
Proof. split_and!; [done|done|]. exists Byte.x10. by vm_compute. Qed.

Definition wit_rest : bytes :=
  stream [wit_have] ++ framed (Byte.x14 :: Byte.x01 :: wit_data) ++ [].

Lemma wit_sends : sends (L := bencode_lib) wit_md 0 wit_rest.
Proof.
  apply sends_piece; [done|..].
  - constructor; [|constructor]. by vm_compute.
  - constructor; [|constructor]. by vm_compute.
  - by vm_compute.
  - by vm_compute.
  - apply sends_end. by vm_compute.
Qed.

Definition wit_rx : bytes :=
  wit_h ++ stream [[]] ++ framed (Byte.x14 :: Byte.x00 :: wit_root) ++ wit_rest.

Lemma Do_complete_witness :
  exists l, Do (L := bencode_lib) wit_net (NewLeech wit_ih wit_cid wit_rx) = Done l (Ok tt) /\
    events l = [OnSuccess (success (L := bencode_lib) wit_net wit_info wit_ih)].
Proof.
  destruct (Do_complete (L := bencode_lib) wit_net wit_md ltac:(by vm_compute) wit_writable
    wit_info wit_ih wit_cid wit_connected eq_refl ltac:(by vm_compute) ltac:(by vm_compute)
    ltac:(by vm_compute) ltac:(by vm_compute) wit_h [[]] wit_root 3 wit_rest wit_h_ok)
    as (l & H1 & H2 & _ & _);
    [constructor; [by vm_compute|constructor]|constructor; [done|constructor]
    |by vm_compute|lia|by vm_compute|exact wit_sends|].
  exists l. split; [exact H1|exact H2].
Defined.

(** The final state of the download above. *)
Definition wit_final : Leech :=
  match Do (L := bencode_lib) wit_net (NewLeech wit_ih wit_cid wit_rx) with
  | Done l _ => l
  | _ => NewLeech [] [] []
  end.

Lemma wit_final_eq :
  Do (L := bencode_lib) wit_net (NewLeech wit_ih wit_cid wit_rx) = Done wit_final (Ok tt).
Proof. vm_compute. reflexivity. Qed.

Lemma Do_integrity_witness :
  reported (L := bencode_lib) wit_net wit_ih (metadata wit_final)
    (success (L := bencode_lib) wit_net wit_info wit_ih).
Proof.
  apply (Do_integrity (L := bencode_lib) wit_net wit_contract wit_ih wit_cid wit_rx);
    [reflexivity|exact wit_final_eq|]. vm_compute. left. reflexivity.
Defined.

Lemma Do_once_witness :
  exists l e, Do (L := bencode_lib) wit_net (NewLeech wit_ih wit_cid wit_rx) = Done l (Ok tt) /\
    events l = [e] /\ ncloses l = 1%nat.
Proof.
  destruct (Do_once (L := bencode_lib) wit_net wit_contract wit_ih wit_cid wit_rx eq_refl) as [H|H];
    [|exact H]. rewrite wit_final_eq in H. discriminate.
Defined.

Lemma Do_memory_bounded_witness : Forall (fun n => n <= MAX_METADATA_SIZE) (allocs wit_final).
Proof.
  apply (Do_memory_bounded (L := bencode_lib) wit_net wit_contract wit_ih wit_cid wit_rx);
    [reflexivity|exact wit_final_eq].
Defined.

(** A data message for piece 78 of 78 bytes of metadata. *)
Definition wit_bad : bytes := str "d8:msg_typei1e5:piecei78ee".

Lemma Do_remote_crash_witness :
  Do (L := bencode_lib) wit_net (NewLeech wit_ih wit_cid
    (wit_h ++ framed (Byte.x14 :: Byte.x00 :: wit_root) ++
     framed (Byte.x14 :: Byte.x01 :: wit_bad))) = Crash.
Proof.
  apply (Do_remote_crash (L := bencode_lib) wit_net wit_writable wit_connected wit_ih wit_cid eq_refl
    wit_h wit_root 3 78 wit_bad wit_h_ok); first [lia | by vm_compute].
Defined.

Lemma wit_crash :
  Do (L := bencode_lib) wit_net (NewLeech wit_ih wit_cid
    (wit_h ++ framed (Byte.x14 :: Byte.x00 :: wit_root) ++
     framed (Byte.x14 :: Byte.x01 :: wit_bad))) = Crash.
Proof. vm_compute. reflexivity. Qed.

Lemma Do_crash_cause_witness :
  bad_piece (L := bencode_lib) wit_net (NewLeech wit_ih wit_cid
    (wit_h ++ framed (Byte.x14 :: Byte.x00 :: wit_root) ++ framed (Byte.x14 :: Byte.x01 :: wit_bad))).
Proof.
  exact (Do_crash_cause (L := bencode_lib) wit_net wit_contract wit_ih wit_cid _ eq_refl eq_refl
    wit_crash).
Defined.

Lemma Do_no_handshake_witness :
  exists l, Do (L := bencode_lib) wit_net (NewLeech wit_ih wit_cid
      (wit_h ++ framed (Byte.x14 :: Byte.x02 :: str "de"))) = Done l (Ok tt) /\
    events l = [OnError wit_ih (Errorf (str "infohash mismatch"))].
Proof.
  apply (Do_no_handshake (L := bencode_lib) wit_net wit_writable wit_connected wit_ih wit_cid eq_refl
    wit_h Byte.x02 (str "de") wit_h_ok); first [by vm_compute | vm_compute; discriminate].
Defined.
