(* ===== verification/Sink.v ===== *)
(** cmd/magneticod/bittorrent/metadata/sink.go: the metadata sink, which runs
    at most one leech per info hash and a bounded number altogether. The leech
    goroutines and the buffered drain channel are part of the state; what a
    leech may report is a parameter, which Daemon.v instantiates with Leech. *)

From S2P Require Import Prelude GoLib IndexingService Leech.
From Stdlib Require Import ZArith Lia.
From stdpp Require Import base list gmap.
Local Open Scope Z_scope.
Local Open Scope go_scope.

(** ** Peer id *)

(** [r] is what rand.Intn('9' - '0') returns. *)
Definition randomDigit (r : Z) : byte := byte_of (r + 48).

Fixpoint randomID_loop (fuel : nat) (i : Z) (rs : nat -> Z) (rando : bytes) : bytes :=
  match fuel with
  | O => rando
  | S fuel =>
      if 0 <=? i then randomID_loop fuel (i - 1) rs (rando ++ [randomDigit (rs (length rando))])
      else rando
  end.

(** [fuel]: the counter starts at 12, so 14 tests are enough. *)
Definition randomID (rs : nat -> Z) : bytes :=
  let prefix := str "-MC0008-" in
  prefix ++ randomID_loop 14 (20 - len prefix) rs [].

(** ** The sink *)

Record Sink := {
  PeerID : bytes;
  maxNLeeches : Z;
  drain : list Metadata;
  incomingInfoHashes : gmap bytes (list TCPAddr);
  terminated : bool;
  deleted : Z }.

Definition drainCap : nat := 10.

Definition NewSink (id : bytes) (max : Z) : Sink :=
  {| PeerID := id; maxNLeeches := max; drain := []; incomingInfoHashes := ∅;
     terminated := false; deleted := 0 |}.

Definition set_sink (d : list Metadata) (m : gmap bytes (list TCPAddr)) (t : bool) (del : Z)
    (s : Sink) : Sink :=
  {| PeerID := PeerID s; maxNLeeches := maxNLeeches s; drain := d; incomingInfoHashes := m;
     terminated := t; deleted := del |}.
Definition set_incoming (m : gmap bytes (list TCPAddr)) (s : Sink) : Sink :=
  set_sink (drain s) m (terminated s) (deleted s) s.

(** Each operation returns the new sink and the leech it starts, if any: its
    info hash and peer. *)
Definition Sink_Sink (res : IndexingResult) (s : Sink) : go (Sink * option (bytes * TCPAddr)) :=
  if terminated s then Panic
  else if maxNLeeches s <=? Z.of_nat (size (incomingInfoHashes s)) then Ret (s, None)
  else
    let ih := infoHash res in
    match incomingInfoHashes s !! ih with
    | Some _ => Ret (s, None)
    | None =>
        match peerAddrs res with
        | [] => Ret (s, None)
        | peer :: rest =>
            Ret (set_incoming (<[ih := rest]> (incomingInfoHashes s)) s, Some (ih, peer))
        end
    end.

(** The counter is a Go int. *)
Definition onLeechError (ih : bytes) (s : Sink) : Sink * option (bytes * TCPAddr) :=
  match default [] (incomingInfoHashes s !! ih) with
  | peer :: rest => (set_incoming (<[ih := rest]> (incomingInfoHashes s)) s, Some (ih, peer))
  | [] => (set_sink (drain s) (delete ih (incomingInfoHashes s)) (terminated s)
             (to_i64 (deleted s + 1)) s, None)
  end.

(** flush: the test of [terminated], the send, and the deletion that follows. *)
Definition flush_send (md : Metadata) (s : Sink) : go (option Sink) :=
  if terminated s then Panic
  else if (length (drain s) <? drainCap)%nat then
    Ret (Some (set_sink (drain s ++ [md]) (incomingInfoHashes s) (terminated s) (deleted s) s))
  else Ret None.

Definition flush_delete (md : Metadata) (s : Sink) : Sink :=
  set_incoming (delete (copy (make_bytes 20) (md_InfoHash md)) (incomingInfoHashes s)) s.

Definition Drain (s : Sink) : go (list Metadata) := if terminated s then Panic else Ret (drain s).

(** Closing a closed channel panics. *)
Definition Sink_Terminate (s : Sink) : go Sink :=
  if terminated s then Panic
  else Ret (set_sink (drain s) (incomingInfoHashes s) true (deleted s) s).

(** The periodic status report. *)
Definition status_tick (s : Sink) : Sink :=
  set_sink (drain s) (incomingInfoHashes s) (terminated s) 0 s.

(** ** The sink with its goroutines *)

Inductive leechThread : Type :=
  | Leeching (ih : bytes) (peer : TCPAddr)
  | Flushing (ih : bytes) (md : Metadata)
  | Flushed (ih : bytes) (md : Metadata).

Definition thread_ih (t : leechThread) : bytes :=
  match t with Leeching ih _ | Flushing ih _ | Flushed ih _ => ih end.

Record sinkSys := {
  sink : Sink;
  threads : list leechThread;
  drained : list Metadata }.

Definition spawn (o : option (bytes * TCPAddr)) : list leechThread :=
  match o with Some (ih, peer) => [Leeching ih peer] | None => [] end.

Section System.
(** The metadata a leech for an info hash may report. *)
Variable fetched : bytes -> Metadata -> Prop.

(** What the goroutines the sink starts do: a step ends in a new state or in a
    panic. A thread of the list is a leech that has not reported yet, or its
    flush. What a leech does after its report of an error, the deferred close of
    its connection, touches nothing of the sink and is part of [Do] in Leech.v;
    the leech for the next peer, which the report starts, does not wait for it. *)
Inductive leech_step : sinkSys -> go sinkSys -> Prop :=
  | st_error s a ih peer b dr :
      leech_step {| sink := s; threads := a ++ Leeching ih peer :: b; drained := dr |}
        (let (s', o) := onLeechError ih s in
         Ret {| sink := s'; threads := a ++ b ++ spawn o; drained := dr |})
  | st_success s a ih peer b dr md :
      fetched ih md ->
      leech_step {| sink := s; threads := a ++ Leeching ih peer :: b; drained := dr |}
        (Ret {| sink := s; drained := dr;
                threads := a ++ (if terminated s then [] else [Flushing ih md]) ++ b |})
  | st_send s a ih md b dr o :
      flush_send md s = o -> o <> Ret None ->
      leech_step {| sink := s; threads := a ++ Flushing ih md :: b; drained := dr |}
        (match o with
         | Ret (Some s') => Ret {| sink := s'; threads := a ++ Flushed ih md :: b; drained := dr |}
         | _ => Panic
         end)
  | st_delete s a ih md b dr :
      leech_step {| sink := s; threads := a ++ Flushed ih md :: b; drained := dr |}
        (Ret {| sink := flush_delete md s; threads := a ++ b; drained := dr |})
  | st_tick s ts dr :
      leech_step {| sink := s; threads := ts; drained := dr |}
        (Ret {| sink := status_tick s; threads := ts; drained := dr |}).

(** The calls of the sink's owner. *)
Definition sys_sink (res : IndexingResult) (st : sinkSys) : go sinkSys :=
  let! (s', o) := Sink_Sink res (sink st) in
  Ret {| sink := s'; threads := threads st ++ spawn o; drained := drained st |}.

Definition sys_receive (md : Metadata) (ds : list Metadata) (st : sinkSys) : sinkSys :=
  let s := sink st in
  {| sink := set_sink ds (incomingInfoHashes s) (terminated s) (deleted s) s;
     threads := threads st; drained := drained st ++ [md] |}.

Inductive sink_step : sinkSys -> go sinkSys -> Prop :=
  | st_leech st o : leech_step st o -> sink_step st o
  | st_sink st res : length (infoHash res) = 20%nat -> sink_step st (sys_sink res st)
  | st_receive st md ds : drain (sink st) = md :: ds -> sink_step st (Ret (sys_receive md ds st))
  | st_terminate st :
      sink_step st (let! s' := Sink_Terminate (sink st) in
                    Ret {| sink := s'; threads := threads st; drained := drained st |}).

Inductive sink_reachable (id : bytes) (max : Z) : sinkSys -> Prop :=
  | sr_init : sink_reachable id max {| sink := NewSink id max; threads := []; drained := [] |}
  | sr_step st st' :
      sink_reachable id max st -> sink_step st (Ret st') -> sink_reachable id max st'.

(** ** Invariant *)

Hypothesis fetched_hash : forall ih md, fetched ih md -> md_InfoHash md = ih.

Definition thread_ok (t : leechThread) : Prop :=
  length (thread_ih t) = 20%nat /\
  match t with Leeching _ _ => True | Flushing ih md | Flushed ih md => fetched ih md end.

(** The info hashes being downloaded and the keys of the map. *)
Record live (term : bool) (ids : list bytes) (m : gmap bytes (list TCPAddr)) : Prop := {
  lv_nodup : NoDup ids;
  lv_keys ih : ih ∈ ids -> is_Some (m !! ih);
  lv_all ih : term = false -> is_Some (m !! ih) -> ih ∈ ids }.

Record sink_inv (max : Z) (st : sinkSys) : Prop := {
  si_max : maxNLeeches (sink st) = max;
  si_size : Z.of_nat (size (incomingInfoHashes (sink st))) <= Z.max 0 max;
  si_live : live (terminated (sink st)) (map thread_ih (threads st)) (incomingInfoHashes (sink st));
  si_threads : Forall thread_ok (threads st);
  si_drain : (length (drain (sink st)) <= drainCap)%nat;
  si_fetched : Forall (fun md => exists ih, length ih = 20%nat /\ fetched ih md)
                 (drained st ++ drain (sink st)) }.

Lemma live_perm term ids ids' m : ids ≡ₚ ids' -> live term ids m -> live term ids' m.
Proof.
  intros Hp [H1 H2 H3]. split.
  - by rewrite <- Hp.
  - intros ih. rewrite <- Hp. apply H2.
  - intros ih. rewrite <- Hp. apply H3.
Qed.

Lemma live_add term ids m ih v :
  m !! ih = None -> live term ids m -> live term (ih :: ids) (<[ih := v]> m).
Proof.
  intros Hm [H1 H2 H3]. split.
  - constructor; [|done]. intros Hin%H2. rewrite Hm in Hin. by destruct Hin.
  - intros k [->|Hk]%elem_of_cons; [by rewrite lookup_insert_eq|].
    apply lookup_insert_is_Some'. right. by apply H2.
  - intros k Ht [->|Hk]%lookup_insert_is_Some'; [by left|]. right. by apply H3.
Qed.

Lemma live_update term ids m ih v :
  ih ∈ ids -> live term ids m -> live term ids (<[ih := v]> m).
Proof.
  intros Hih [H1 H2 H3]. split; [done| |].
  - intros k Hk. apply lookup_insert_is_Some'. right. by apply H2.
  - intros k Ht [->|Hk]%lookup_insert_is_Some'; [done|]. by apply H3.
Qed.

Lemma live_remove term ids m ih : live term (ih :: ids) m -> live term ids (delete ih m).
Proof.
  intros [H1 H2 H3]. apply NoDup_cons in H1 as [Hn H1]. split; [done| |].
  - intros k Hk. apply lookup_delete_is_Some. split; [by intros ->|]. apply H2. by right.
  - intros k Ht [Hne Hk]%lookup_delete_is_Some. apply H3 in Hk; [|done].
    apply elem_of_cons in Hk as [->|Hk]; done.
Qed.

Lemma live_drop ids m ih : live true (ih :: ids) m -> live true ids m.
Proof.
  intros [H1 H2 H3]. split; [by apply NoDup_cons in H1 as [_ H1]| |done].
  intros k Hk. apply H2. by right.
Qed.

Lemma live_close term ids m : live term ids m -> live true ids m.
Proof. intros [H1 H2 _]. by split. Qed.

(** As many downloads as keys, until termination leaves some keys behind. *)
Lemma live_count term ids m : live term ids m -> (length ids <= size m)%nat.
Proof.
  intros [H1 H2 _]. rewrite <- (size_list_to_set (C := gset bytes) ids H1), <- size_dom.
  apply subseteq_size. intros k Hk%elem_of_list_to_set. by apply elem_of_dom, H2.
Qed.

Lemma ids_middle a t b :
  map thread_ih (a ++ t :: b) ≡ₚ thread_ih t :: map thread_ih (a ++ b).
Proof. rewrite !map_app. simpl. by rewrite Permutation_middle. Qed.

Lemma ids_snoc l t : thread_ih t :: map thread_ih l ≡ₚ map thread_ih (l ++ [t]).
Proof. rewrite map_app. apply Permutation_cons_append. Qed.

Lemma threads_middle a t b :
  Forall thread_ok (a ++ t :: b) -> thread_ok t /\ Forall thread_ok (a ++ b).
Proof.
  intros [Ha [Ht Hb]%Forall_cons]%Forall_app. split; [done|]. by apply Forall_app_2.
Qed.

Lemma onLeechError_inv max s a ih peer b dr :
  sink_inv max {| sink := s; threads := a ++ Leeching ih peer :: b; drained := dr |} ->
  let (s', o) := onLeechError ih s in
  sink_inv max {| sink := s'; threads := a ++ b ++ spawn o; drained := dr |}.
Proof.
  intros [H1 H2 H3 H4 H5 H6]. simpl in *. apply threads_middle in H4 as [[Hih _] H4].
  eapply live_perm in H3; [|apply ids_middle]. unfold onLeechError.
  destruct (lv_keys _ _ _ H3 ih) as [v Hv]; [by left|]. rewrite Hv. simpl.
  destruct v as [|p rest]; split; simpl; try done.
  - rewrite map_size_delete, Hv. simpl. lia.
  - rewrite app_nil_r. by apply live_remove.
  - by rewrite app_nil_r.
  - rewrite map_size_insert, Hv. done.
  - apply live_update with (ih := ih) (v := rest) in H3; [|by left].
    eapply live_perm; [|exact H3]. rewrite app_assoc. apply (ids_snoc _ (Leeching ih p)).
  - rewrite app_assoc. apply Forall_app_2; [done|]. by repeat constructor.
Qed.

(** An outcome that keeps the invariant, or a panic after termination. *)
Definition keeps_inv (max : Z) (st : sinkSys) (o : go sinkSys) : Prop :=
  match o with Ret st' => sink_inv max st' | Panic => terminated (sink st) = true end.

Lemma leech_step_inv max st o : sink_inv max st -> leech_step st o -> keeps_inv max st o.
Proof.
  intros Hinv Hstep. destruct Hstep as [s a ih peer b dr|s a ih peer b dr md Hf
    |s a ih md b dr o Ho Hno|s a ih md b dr|s ts dr].
  - by apply onLeechError_inv with (b := b) in Hinv; destruct (onLeechError ih s).
  - destruct Hinv as [H1 H2 H3 H4 H5 H6]. simpl in *.
    apply threads_middle in H4 as [[Hih _] H4]. eapply live_perm in H3; [|apply ids_middle].
    split; simpl; try done.
    + destruct (terminated s); [by eapply live_drop|].
      eapply live_perm; [|exact H3]. symmetry. apply (ids_middle a (Flushing ih md) b).
    + apply Forall_app in H4 as [Ha Hb]. apply Forall_app_2; [done|]. apply Forall_app_2; [|done].
      destruct (terminated s); [done|]. by repeat constructor.
  - unfold flush_send in Ho. destruct Hinv as [H1 H2 H3 H4 H5 H6]. simpl in *.
    destruct (terminated s) eqn:Ht; [by subst o|].
    destruct (Nat.ltb_spec (length (drain s)) drainCap) as [Hl|Hl]; [|by subst o].
    subst o. apply threads_middle in H4 as Ht4. destruct Ht4 as [[Hih Hmd] _].
    split; simpl; try done.
    + eapply live_perm; [|exact H3]. by rewrite !ids_middle.
    + apply Forall_app in H4 as [Ha [_ Hb]%Forall_cons]. apply Forall_app_2; [done|]. by constructor.
    + rewrite length_app. simpl. lia.
    + rewrite app_assoc. apply Forall_app_2; [done|]. repeat constructor. by exists ih.
  - destruct Hinv as [H1 H2 H3 H4 H5 H6]. simpl in *.
    apply threads_middle in H4 as [[Hih Hmd] H4]. eapply live_perm in H3; [|apply ids_middle].
    unfold flush_delete. rewrite (fetched_hash ih md Hmd), copy_full by done.
    split; simpl; try done; [|by apply live_remove].
    rewrite map_size_delete. destruct (_ !! ih); simpl; lia.
  - destruct Hinv as [H1 H2 H3 H4 H5 H6]. by split.
Qed.

Lemma sys_sink_inv max res st :
  length (infoHash res) = 20%nat -> sink_inv max st -> keeps_inv max st (sys_sink res st).
Proof.
  intros Hres Hinv. unfold sys_sink, Sink_Sink. destruct st as [s ts dr].
  destruct Hinv as [H1 H2 H3 H4 H5 H6]. simpl in *.
  destruct (terminated s) eqn:Ht; [done|]. rewrite H1.
  assert (sink_inv max {| sink := s; threads := ts ++ []; drained := dr |}) as Hs.
  { rewrite app_nil_r. split; simpl; try done. by rewrite Ht. }
  destruct (Z.leb_spec max (Z.of_nat (size (incomingInfoHashes s)))); [done|].
  destruct (incomingInfoHashes s !! infoHash res) eqn:Hi; [done|].
  destruct (peerAddrs res) as [|peer rest]; [done|]. split; simpl; try done.
  - rewrite map_size_insert, Hi. simpl. lia.
  - rewrite Ht. eapply live_perm; [|by apply live_add].
    apply (ids_snoc _ (Leeching (infoHash res) peer)).
  - apply Forall_app_2; [done|]. by repeat constructor.
Qed.

Lemma sys_receive_inv max md ds st :
  drain (sink st) = md :: ds -> sink_inv max st -> sink_inv max (sys_receive md ds st).
Proof.
  intros Hd [H1 H2 H3 H4 H5 H6]. rewrite Hd in *. split; simpl in *; try done; [lia|].
  by rewrite <- app_assoc.
Qed.

(** Only Terminate sets the flag. *)
Lemma leech_step_terminated st st' :
  leech_step st (Ret st') -> terminated (sink st') = terminated (sink st).
Proof.
  intros H. remember (Ret st') as o eqn:E. destruct H as [s a ih peer b dr|s a ih peer b dr md Hf
    |s a ih md b dr o Ho Hno|s a ih md b dr|s ts dr]; simpl in *.
  - unfold onLeechError in E. destruct (default [] _); by injection E as <-.
  - by injection E as <-.
  - unfold flush_send in Ho. destruct (terminated s) eqn:Ht; [by subst o|].
    destruct (_ <? _)%nat; subst o; [by injection E as <-|done].
  - by injection E as <-.
  - by injection E as <-.
Qed.

Lemma sys_sink_terminated res st st' :
  sys_sink res st = Ret st' -> terminated (sink st') = terminated (sink st).
Proof.
  unfold sys_sink, Sink_Sink. destruct (terminated (sink st)) eqn:Ht; [done|].
  repeat case_match; intros [= <-]; simpl; simplify_eq; done.
Qed.

Lemma sink_step_inv max st o : sink_inv max st -> sink_step st o -> keeps_inv max st o.
Proof.
  intros Hinv Hstep. destruct Hstep as [st o H|st res Hres|st md ds Hd|st].
  - by apply leech_step_inv.
  - by apply sys_sink_inv.
  - by apply sys_receive_inv.
  - destruct Hinv as [H1 H2 H3 H4 H5 H6]. unfold Sink_Terminate.
    destruct (terminated (sink st)) eqn:Ht; [done|]. split; simpl; try done. by eapply live_close.
Qed.

Lemma sink_reachable_inv id max st : sink_reachable id max st -> sink_inv max st.
Proof.
  induction 1 as [|st st' _ IH Hstep]; [|exact (sink_step_inv max st (Ret st') IH Hstep)].
  split; simpl; try done; [rewrite map_size_empty; lia| |unfold drainCap; lia].
  split; [constructor| |].
  - intros ih Hih. by apply elem_of_nil in Hih.
  - intros ih _. rewrite lookup_empty. by intros [? ?].
Qed.

(** ** Properties *)

(** C14. In every reachable state of the sink and its goroutines: no two leeches
    work on the same info hash, there are at most maxNLeeches of them (a leech
    that has reported an error only has its connection to close), until
    termination every key of the map belongs to a working leech, the drain
    channel holds at most 10 entries, and all metadata in it or taken from it
    was reported by a leech. *)
Theorem sink_invariant id max st :
  sink_reachable id max st ->
  NoDup (map thread_ih (threads st)) /\
  Z.of_nat (length (threads st)) <= Z.max 0 max /\
  (terminated (sink st) = false ->
   forall ih, is_Some (incomingInfoHashes (sink st) !! ih) <-> ih ∈ map thread_ih (threads st)) /\
  (length (drain (sink st)) <= 10)%nat /\
  Forall (fun md => exists ih, length ih = 20%nat /\ fetched ih md) (drained st ++ drain (sink st)).
Proof.
  intros Hr. destruct (sink_reachable_inv id max st Hr) as [H1 H2 H3 H4 H5 H6].
  pose proof (live_count _ _ _ H3) as Hc. rewrite length_map in Hc.
  split_and!; [apply H3|lia| |exact H5|exact H6].
  intros Ht ih. split; [by apply (lv_all _ _ _ H3)|apply (lv_keys _ _ _ H3)].
Qed.

(** Before Terminate no step of the sink panics. *)
Theorem sink_no_panic id max st o :
  sink_reachable id max st -> sink_step st o -> terminated (sink st) = false -> o <> Panic.
Proof.
  intros Hr Hs Ht ->. pose proof (sink_step_inv max st Panic (sink_reachable_inv id max st Hr) Hs) as H.
  simpl in H. congruence.
Qed.

End System.

(** Terminate races with flush: a leech that has passed the test of
    [terminated] panics when it sends on the channel Terminate has closed. *)
Theorem terminate_race fetched id max res ih md peer rest :
  0 < max -> length ih = 20%nat -> infoHash res = ih -> peerAddrs res = peer :: rest -> fetched ih md ->
  exists st, sink_reachable fetched id max st /\ sink_step fetched st Panic.
Proof.
  intros Hmax Hlen Hih Hp Hf.
  set (s0 := NewSink id max). set (s1 := set_incoming (<[ih := rest]> ∅) s0).
  assert (Sink_Sink res s0 = Ret (s1, Some (ih, peer))) as E1.
  { unfold Sink_Sink. simpl. rewrite map_size_empty, (proj2 (Z.leb_gt _ _)) by (simpl; lia).
    by rewrite Hih, lookup_empty, Hp. }
  set (s2 := set_sink (drain s1) (incomingInfoHashes s1) true (deleted s1) s1).
  exists {| sink := s2; threads := [Flushing ih md]; drained := [] |}. split.
  - eapply sr_step; [eapply sr_step; [eapply sr_step; [apply sr_init|]|]|].
    + pose proof (st_sink fetched {| sink := s0; threads := []; drained := [] |} res) as Hs.
      unfold sys_sink in Hs. simpl sink in Hs. rewrite E1 in Hs. apply Hs. by rewrite Hih.
    + apply st_leech, (st_success fetched s1 [] ih peer [] [] md Hf).
    + apply (st_terminate fetched {| sink := s1; threads := [Flushing ih md]; drained := [] |}).
  - apply st_leech, (st_send fetched s2 [] ih md [] [] Panic); done.
Qed.

Lemma onLeechError_next s ih p r :
  incomingInfoHashes s !! ih = Some (p :: r) ->
  incomingInfoHashes (fst (onLeechError ih s)) = <[ih := r]> (incomingInfoHashes s).
Proof. unfold onLeechError. by intros ->. Qed.

(** Peers are tried one after the other, in order: a sunk result starts a
    leech with its first peer; after [n] failures the leech of the next peer
    runs and the remaining ones are kept, and when the last one fails the
    info hash is forgotten and counted as deleted. *)
Theorem peers_in_order s res s1 peer rest n :
  Sink_Sink res s = Ret (s1, Some (infoHash res, peer)) -> peerAddrs res = peer :: rest ->
  let after := Nat.iter n (fun s => fst (onLeechError (infoHash res) s)) s1 in
  (n <= length rest)%nat ->
  incomingInfoHashes after !! infoHash res = Some (drop n rest) /\
  snd (onLeechError (infoHash res) after) =
    match rest !! n with Some p => Some (infoHash res, p) | None => None end /\
  (n = length rest ->
   incomingInfoHashes (fst (onLeechError (infoHash res) after)) = incomingInfoHashes s /\
   deleted (fst (onLeechError (infoHash res) after)) = to_i64 (deleted after + 1)).
Proof.
  unfold Sink_Sink. destruct (terminated s); [done|]. destruct (_ <=? _); [done|].
  destruct (incomingInfoHashes s !! infoHash res) eqn:Hi; [done|]. intros H Hp. rewrite Hp in H.
  injection H as <-. intros Hn. set (after := Nat.iter n _ _).
  assert (incomingInfoHashes after = <[infoHash res := drop n rest]> (incomingInfoHashes s)) as Ha.
  { unfold after. clear after. induction n as [|n IH]; [done|].
    rewrite Nat.iter_succ. set (st := Nat.iter n _ _) in *. specialize (IH ltac:(lia)).
    destruct (drop n rest) as [|p r] eqn:Ed.
    { apply (f_equal length) in Ed. rewrite length_drop in Ed. simpl in Ed. lia. }
    rewrite (onLeechError_next st _ p r) by (by rewrite IH, lookup_insert_eq).
    rewrite IH, insert_insert_eq. f_equal.
    change (S n) with (1 + n)%nat. by rewrite Nat.add_comm, <- drop_drop, Ed. }
  split; [by rewrite Ha, lookup_insert_eq|].
  unfold onLeechError. rewrite Ha, lookup_insert_eq. simpl. split.
  - rewrite <- (Nat.add_0_r n) at 2. rewrite <- lookup_drop. by destruct (drop n rest).
  - intros ->. rewrite drop_all. simpl. by rewrite delete_insert_id.
Qed.

(** The generated peer id is 21 bytes long, one more than a peer id has; what
    a leech puts on the wire is its first 20 bytes: the Azureus-style prefix
    and twelve digits, none of which is ever 9. *)
Theorem randomID_shape (rs : nat -> Z) (ih r : bytes) :
  (forall n, 0 <= rs n < 57 - 48) ->
  length (randomID rs) = 21%nat /\
  clientID (NewLeech ih (randomID rs) r) = take 20 (randomID rs) /\
  take 8 (randomID rs) = str "-MC0008-" /\
  Forall (fun b => 48 <= byte_val b < 57) (drop 8 (randomID rs)).
Proof.
  intros Hrs. assert (forall n, 48 <= byte_val (randomDigit (rs n)) < 57) as Hd.
  { intros n. unfold randomDigit. specialize (Hrs n). rewrite byte_val_of, Z.mod_small; lia. }
  split_and!; [done|done|done|]. repeat (constructor; [apply Hd|]). constructor.
Qed.

Lemma randomID_shape_witness : length (randomID (fun n => Z.of_nat n mod 9)) = 21%nat.
Proof.
  apply (randomID_shape (fun n => Z.of_nat n mod 9) [] []). intros n. apply Z.mod_pos_bound. lia.
Defined.

(** ** Witnesses *)

Definition wit_sink_ih : bytes := str "AAAAAAAAAAAAAAAAAAAA".
Definition wit_peer (p : Z) : TCPAddr := {| tcp_IP := [Byte.x01; Byte.x02; Byte.x03; Byte.x04]; tcp_Port := p |}.
Definition wit_result : IndexingResult :=
  {| infoHash := wit_sink_ih; peerAddrs := [wit_peer 1; wit_peer 2] |}.
Definition wit_metadata : Metadata :=
  {| md_InfoHash := wit_sink_ih; md_Name := str "x"; md_TotalSize := 0; md_DiscoveredOn := 0;
     md_Files := [] |}.
Definition wit_fetched (ih : bytes) (md : Metadata) : Prop := md_InfoHash md = ih.
Definition wit_sink1 : Sink :=
  set_incoming (<[wit_sink_ih := [wit_peer 2]]> ∅) (NewSink [] 3).
Definition wit_sys : sinkSys :=
  {| sink := wit_sink1; threads := [Leeching wit_sink_ih (wit_peer 1)]; drained := [] |}.

Lemma wit_sink_reachable : sink_reachable wit_fetched [] 3 wit_sys.
Proof. eapply sr_step; [apply sr_init|]. 
  by apply (st_sink wit_fetched {| sink := NewSink [] 3; threads := []; drained := [] |} wit_result).
Qed.

Lemma sink_invariant_witness : NoDup (map thread_ih (threads wit_sys)) /\ length (threads wit_sys) = 1%nat.
Proof.
  split; [|reflexivity].
  apply (sink_invariant wit_fetched (fun ih md H => H) [] 3 wit_sys wit_sink_reachable).
Defined.

Lemma sink_no_panic_witness : sys_sink wit_result wit_sys <> Panic.
Proof.
  apply (sink_no_panic wit_fetched (fun ih md H => H) [] 3 wit_sys);
    [exact wit_sink_reachable|apply st_sink; reflexivity|reflexivity].
Defined.

Lemma terminate_race_witness :
  exists st, sink_reachable wit_fetched [] 3 st /\ sink_step wit_fetched st Panic.
Proof.
  apply (terminate_race wit_fetched [] 3 wit_result wit_sink_ih wit_metadata (wit_peer 1) [wit_peer 2]);
    first [lia | reflexivity].
Defined.

Lemma peers_in_order_witness :
  snd (onLeechError wit_sink_ih wit_sink1) = Some (wit_sink_ih, wit_peer 2).
Proof.
  apply (peers_in_order (NewSink [] 3) wit_result wit_sink1 (wit_peer 1) [wit_peer 2] 0);
    [reflexivity|reflexivity|simpl; lia].
Defined.
