(* ===== verification/Daemon.v ===== *)
(** cmd/magneticod/main.go and cmd/magneticod/dht/managers.go: the DHT manager,
    the command line and the event loop that connects the indexing services,
    the metadata sink and the database. *)

From S2P Require Import Prelude GoLib Sha1 Codec Transport Protocol IndexingService Persistence Leech LeechProps Sink.
From Stdlib Require Import ZArith Lia.
From stdpp Require Import base list gmap.
Local Open Scope Z_scope.
Local Open Scope go_scope.

(** ** The manager *)

Definition outputCap : nat := 20.

(** A full channel drops the result. *)
Definition onIndexingResult (res : IndexingResult) (output : list IndexingResult)
    : list IndexingResult :=
  if (length output <? outputCap)%nat then output ++ [res] else output.

Section Manager.
(** What address resolution, the random source and the sockets answer for the
    [i]-th service. *)
Variable resolveAddr : bytes -> option UDPAddr.
Variable secret : nat -> option bytes.
Variable socket : nat -> option Z.
Variable bind : Z -> bytes -> Z -> bool.

(** The loop of NewManager: each service is created and started. *)
Fixpoint newServices (i : nat) (addrs : list bytes) (ivl maxNeighbors : Z)
    : go (list IndexingService) :=
  match addrs with
  | [] => Ret []
  | addr :: addrs =>
      let! service := NewIndexingService (resolveAddr addr) (secret i) ivl maxNeighbors in
      let! service := IndexingService_Start service (socket i) bind in
      let! services := newServices (S i) addrs ivl maxNeighbors in
      Ret (service :: services)
  end.

Definition NewManager (addrs : list bytes) (ivl maxNeighbors : Z)
    : go (list IndexingResult * list IndexingService) :=
  let! services := newServices 0 addrs ivl maxNeighbors in Ret ([], services).

End Manager.

(** The sockets that are closed. *)
Fixpoint Manager_Terminate (services : list IndexingService) : go (list Z) :=
  match services with
  | [] => Ret []
  | service :: services =>
      let! f := IndexingService_Terminate service in
      let! fs := Manager_Terminate services in
      Ret (f :: fs)
  end.

(** ** The command line *)

Record opFlags := {
  DatabaseURL : bytes;
  IndexerAddrs : list bytes;
  IndexerInterval : Z;
  IndexerMaxNeighbors : Z;
  LeechMaxN : Z;
  Verbosity : Z;
  ProfileFlag : bytes }.

(** The flags as go-flags parses them. *)
Record cmdFlags := {
  cf_DatabaseURL : bytes;
  cf_IndexerAddrs : list bytes;
  cf_IndexerInterval : Z;
  cf_IndexerMaxNeighbors : Z;
  cf_LeechMaxN : Z;
  cf_Verbose : list bool;
  cf_Profile : bytes }.

Section Flags.
(** net.ResolveUDPAddr succeeds, and appdirs.UserDataDir. *)
Variable resolves : bytes -> bool.
Variable userDataDir : bytes.

(** The position, from 1, of the first address that does not resolve. *)
Fixpoint checkAddrs_from (i : Z) (addrs : list bytes) : res Z unit :=
  match addrs with
  | [] => Ok tt
  | addr :: addrs => if resolves addr then checkAddrs_from (i + 1) addrs else Err (i + 1)
  end.

Definition checkAddrs : list bytes -> res Z unit := checkAddrs_from 0.

Definition second : Z := 1000000000.

(** [None]: go-flags reported an error; a bad address is fatal. *)
Definition parseFlags (cmdF : option cmdFlags) : go (option opFlags) :=
  match cmdF with
  | None => Ret None
  | Some c =>
      let url := if decide (cf_DatabaseURL c = [])
                 then str "sqlite3://" ++ userDataDir ++ str "/database.sqlite3" ++
                      str "?_journal_mode=WAL" ++ str "&_busy_timeout=3000" ++ str "&_foreign_keys=true"
                 else cf_DatabaseURL c in
      match checkAddrs (cf_IndexerAddrs c) with
      | Err _ => Panic
      | Ok _ =>
          Ret (Some {| DatabaseURL := url; IndexerAddrs := cf_IndexerAddrs c;
                       IndexerInterval := to_i64 (to_i64 (cf_IndexerInterval c) * second);
                       IndexerMaxNeighbors := cf_IndexerMaxNeighbors c;
                       LeechMaxN := to_i64 (cf_LeechMaxN c);
                       Verbosity := len (cf_Verbose c); ProfileFlag := cf_Profile c |})
      end
  end.

End Flags.

(** ** The event loop *)

Section Loop.
Context `{D : Database} `{L : LeechLib}.

Record daemon := {
  output : list IndexingResult;
  sys : sinkSys;
  database : db;
  stopped : bool }.

(** What a leech of this daemon reports: some peer's bytes over some
    connection led Do to call OnSuccess. *)
Definition leeched (id ih : bytes) (md : Metadata) : Prop :=
  exists net r l, write_contract net /\ length ih = 20%nat /\
    Do net (NewLeech ih id r) = Done l (Ok tt) /\ In (OnSuccess md) (events l).

(** The case of the event loop that receives a trawling result. An error of the
    database ends the process. *)
Definition onTrawled (w : io) (r : IndexingResult) (rest : list IndexingResult) (d : daemon)
    : go daemon :=
  match DoesTorrentExist w (database d) (infoHash r) with
  | Ret (Ok true) =>
      Ret {| output := rest; sys := sys d; database := database d; stopped := stopped d |}
  | Ret (Ok false) =>
      let! sy := sys_sink r (sys d) in
      Ret {| output := rest; sys := sy; database := database d; stopped := stopped d |}
  | _ => Panic
  end.

(** The case that receives fetched metadata. *)
Definition onFetched (w : io) (md : Metadata) (ds : list Metadata) (d : daemon) : go daemon :=
  match AddNewTorrent w (database d) (md_InfoHash md) (md_Name md) (md_Files md) with
  | (d', Ret (Ok tt)) =>
      Ret {| output := output d; sys := sys_receive md ds (sys d); database := d';
             stopped := stopped d |}
  | _ => Panic
  end.

Inductive daemon_step (id : bytes) : daemon -> go daemon -> Prop :=
  | d_result d r :
      action_ok (OnResult r) ->
      daemon_step id d (Ret {| output := onIndexingResult r (output d); sys := sys d;
                               database := database d; stopped := stopped d |})
  | d_trawled d w r rest :
      stopped d = false -> output d = r :: rest -> daemon_step id d (onTrawled w r rest d)
  | d_fetched d w md ds :
      stopped d = false -> drain (sink (sys d)) = md :: ds -> daemon_step id d (onFetched w md ds d)
  | d_interrupt d :
      stopped d = false ->
      daemon_step id d (Ret {| output := output d; sys := sys d; database := database d; stopped := true |})
  | d_leech d o :
      leech_step (leeched id) (sys d) o ->
      daemon_step id d (let! sy := o in
        Ret {| output := output d; sys := sy; database := database d; stopped := stopped d |}).

Inductive daemon_run (id : bytes) (max : Z) (d0 : db) : daemon -> Prop :=
  | dr_init :
      daemon_run id max d0
        {| output := []; sys := {| sink := NewSink id max; threads := []; drained := [] |};
           database := d0; stopped := false |}
  | dr_step d d' : daemon_run id max d0 d -> daemon_step id d (Ret d') -> daemon_run id max d0 d'.

(** ** Invariant *)

Context `{!DatabaseLaws D} `{!LeechLibLaws L}.

(** An entry that a verified download accounts for. *)
Definition authentic (ih : bytes) (entry : bytes * list File) : Prop :=
  exists net md m, reported net ih md m /\ entry = (md_Name m, md_Files m).

Record daemon_inv (id : bytes) (max : Z) (d0 : db) (d : daemon) : Prop := {
  di_output : (length (output d) <= outputCap)%nat;
  di_results : Forall (fun r => action_ok (OnResult r)) (output d);
  di_sink : sink_inv (leeched id) max (sys d);
  di_open : terminated (sink (sys d)) = false;
  di_wf : db_wf (database d);
  di_db ih : torrents (database d) !! ih = torrents d0 !! ih \/
             torrents d0 !! ih = None /\
             exists e, torrents (database d) !! ih = Some e /\ authentic ih e }.

Lemma leeched_reported id ih md : leeched id ih md -> exists net b, reported net ih b md.
Proof.
  intros (net & r & l & Hw & Hih & HDo & Hin). exists net, (metadata l).
  by apply (Do_success_reported net ih id r l md).
Qed.

Lemma leeched_hash id ih md : leeched id ih md -> md_InfoHash md = ih.
Proof. intros (net & b & H)%leeched_reported. apply H. Qed.

Lemma onFetched_inv id max d0 w md ds d d' :
  daemon_inv id max d0 d -> drain (sink (sys d)) = md :: ds -> onFetched w md ds d = Ret d' ->
  daemon_inv id max d0 d'.
Proof.
  intros [H1 H2 H3 H4 Hwf H5] Hd H. unfold onFetched in H.
  pose proof (add_wf w (database d) (md_InfoHash md) (md_Name md) (md_Files md) Hwf) as Hwf'.
  destruct (AddNewTorrent _ _ _ _ _) as [d1 r] eqn:Ha.
  destruct r as [[[]|]|]; [|done..]. injection H as <-.
  split; simpl; [done|done|by apply sys_receive_inv|done|done|]. intros ih.
  destruct (add_spec _ _ _ _ _ _ _ Hwf Ha) as [->|[Hnone ->]]; [done|].
  destruct (decide (md_InfoHash md = ih)) as [<-|Hne].
  - right. split.
    + destruct (H5 (md_InfoHash md)) as [<-|[H _]]; done.
    + exists (md_Name md, md_Files md). split; [apply lookup_insert_eq|].
      pose proof (si_fetched _ _ _ H3) as Hf. rewrite Hd in Hf.
      apply Forall_app in Hf as [_ [(ih & _ & Hl) _]%Forall_cons].
      rewrite (leeched_hash id ih md Hl). apply leeched_reported in Hl as (net & b & Hr).
      by exists net, b, md.
  - rewrite lookup_insert_ne by done. apply H5.
Qed.

Lemma daemon_step_inv id max d0 d d' :
  daemon_inv id max d0 d -> daemon_step id d (Ret d') -> daemon_inv id max d0 d'.
Proof.
  intros Hinv Hstep. remember (Ret d') as o eqn:E.
  destruct Hstep as [d r Hr|d w r rest _ Ho|d w md ds _ Hd|d _|d o Hl].
  - injection E as <-. destruct Hinv as [H1 H2 H3 H4 Hwf H5]. unfold onIndexingResult.
    destruct (Nat.ltb_spec (length (output d)) outputCap); split; simpl; try done.
    + rewrite length_app. simpl. lia.
    + apply Forall_app_2; [done|]. by apply Forall_singleton.
  - unfold onTrawled in E. destruct Hinv as [H1 H2 H3 H4 Hwf H5]. rewrite Ho in *. simpl in H1.
    apply Forall_cons in H2 as [[Hr _] H2].
    destruct (DoesTorrentExist _ _ _) as [[[]|]|];
      [injection E as <-; split; simpl; try done; lia| |done..].
    pose proof (sys_sink_inv (leeched id) max r (sys d) Hr H3) as Hs.
    destruct (sys_sink r (sys d)) as [sy|] eqn:Es; [|done]. injection E as <-.
    apply sys_sink_terminated in Es. split; simpl; try done; [lia|congruence].
  - by eapply onFetched_inv.
  - injection E as <-. by destruct Hinv.
  - destruct Hinv as [H1 H2 H3 H4 Hwf H5]. destruct o as [sy|]; [|done]. injection E as <-.
    apply leech_step_terminated in Hl as Ht.
    apply (leech_step_inv (leeched id) (leeched_hash id) max) in Hl; [|done].
    split; simpl; try done. congruence.
Qed.

Lemma daemon_run_inv id max d0 d :
  db_wf d0 -> daemon_run id max d0 d -> daemon_inv id max d0 d.
Proof.
  intros Hwf. induction 1 as [|d d' _ IH Hs]; [|by eapply daemon_step_inv].
  split; simpl; [unfold outputCap; lia|done| |done|done|by left].
  apply (sink_reachable_inv (leeched id) (leeched_hash id) id max). constructor.
Qed.

(** ** Properties *)

(** Integrity of the whole daemon: however results, downloads, interrupts and
    the event loop interleave, no entry the database started with is changed,
    and every entry added is the name and file list of metadata whose SHA-1
    is the info hash it is stored under and whose info dictionary is valid. *)
Theorem daemon_integrity id max d0 d ih :
  db_wf d0 -> daemon_run id max d0 d ->
  torrents (database d) !! ih = torrents d0 !! ih \/
  torrents d0 !! ih = None /\ exists e, torrents (database d) !! ih = Some e /\ authentic ih e.
Proof. intros Hwf Hr. apply (di_db _ _ _ _ (daemon_run_inv id max d0 d Hwf Hr)). Qed.

(** C32. Resources: the channel of results holds at most 20 entries and the one
    of metadata at most 10, at most maxNLeeches leeches are at work (not counting
    those that have reported an error and are closing their connection), and no
    two of them for the same info hash. *)
Theorem daemon_bounded id max d0 d :
  db_wf d0 -> daemon_run id max d0 d ->
  (length (output d) <= 20)%nat /\ (length (drain (sink (sys d))) <= 10)%nat /\
  Z.of_nat (length (threads (sys d))) <= Z.max 0 max /\
  NoDup (map thread_ih (threads (sys d))).
Proof.
  intros Hwf Hr. destruct (daemon_run_inv id max d0 d Hwf Hr) as [H1 _ [_ H2 H3 _ H5 _] _ _ _].
  pose proof (live_count _ _ _ H3) as Hc. rewrite length_map in Hc.
  split_and!; [exact H1|exact H5|lia|apply H3].
Qed.

(** When the cases of the event loop and the sink's goroutines panic. *)
Lemma onTrawled_panic id max d0 d w r rest :
  daemon_inv id max d0 d -> output d = r :: rest -> onTrawled w r rest d = Panic ->
  forall b, DoesTorrentExist w (database d) (infoHash r) <> Ret (Ok b).
Proof.
  intros [H1 H2 H3 H4 _ H5] Ho E b Hb. unfold onTrawled in E. rewrite Hb in E. destruct b; [done|].
  rewrite Ho in H2. apply Forall_cons in H2 as [[Hr _] _].
  pose proof (sys_sink_inv (leeched id) max r (sys d) Hr H3) as Hs.
  destruct (sys_sink r (sys d)); [done|]. simpl in Hs. congruence.
Qed.

Lemma onFetched_panic d w md ds :
  onFetched w md ds d = Panic ->
  (AddNewTorrent w (database d) (md_InfoHash md) (md_Name md) (md_Files md)).2 <> Ret (Ok tt).
Proof.
  intros E Hb. unfold onFetched in E. destruct (AddNewTorrent _ _ _ _ _) as [d' r']. simpl in Hb.
  by subst r'.
Qed.

Lemma leech_step_no_panic id max d0 d :
  daemon_inv id max d0 d -> ~ leech_step (leeched id) (sys d) Panic.
Proof.
  intros [_ _ H3 H4 _ _] Hl.
  apply (leech_step_inv (leeched id) (leeched_hash id) max) in Hl; [|done]. simpl in Hl. congruence.
Qed.

(** The event loop and the sink's goroutines panic only on an error of the
    database. *)
Theorem daemon_panic_cause id max d0 d :
  db_wf d0 -> daemon_run id max d0 d -> daemon_step id d Panic ->
  (exists w r rest, output d = r :: rest /\
     forall b, DoesTorrentExist w (database d) (infoHash r) <> Ret (Ok b)) \/
  (exists w md ds, drain (sink (sys d)) = md :: ds /\
     (AddNewTorrent w (database d) (md_InfoHash md) (md_Name md) (md_Files md)).2 <> Ret (Ok tt)).
Proof.
  intros Hwf Hr Hstep. apply daemon_run_inv in Hr as Hinv; [|done].
  remember Panic as o eqn:E. destruct Hstep as [d r _|d w r rest _ Ho|d w md ds _ Hd|d _|d o Hl];
    try done.
  - left. exists w, r, rest. split; [done|]. by eapply onTrawled_panic.
  - right. exists w, md, ds. split; [done|]. by eapply onFetched_panic.
  - destruct o; [done|]. by apply (leech_step_no_panic id max d0) in Hl.
Qed.

End Loop.

(** ** Witnesses: an in-memory database and one torrent from result to entry *)

(** An engine that answers no query, like that of PostgreSQL; [fails] is whether
    the call fails. *)
Definition mem_db : Database := {|
  db := gmap bytes (bytes * list File);
  io := bool;
  Engine _ := Stdout;
  DoesTorrentExist fails d ih :=
    if fails then Ret (Err (ErrDriver 1)) else Ret (Ok (bool_decide (is_Some (d !! ih))));
  AddNewTorrent fails d ih name files :=
    if fails then (d, Ret (Err (ErrDriver 1)))
    else match d !! ih with
         | Some _ => (d, Ret (Ok tt))
         | None => (<[ih := (name, files)]> d, Ret (Ok tt))
         end;
  Close fails _ := if fails then Ret (Err (ErrDriver 1)) else Ret (Ok tt);
  GetNumberOfTorrents _ d := Ret (Ok (Z.of_nat (size d)));
  QueryTorrents _ _ _ _ _ _ _ _ _ := Ret (Err NotImplementedError);
  GetTorrent _ _ _ := Ret (Err NotImplementedError);
  GetFiles _ d ih := Ret (Ok (default [] (snd <$> d !! ih)));
  GetStatistics _ _ _ _ := Ret (Err NotImplementedError) |}.

#[global] Instance mem_db_laws : DatabaseLaws mem_db.
Proof.
  refine {| db_wf := fun _ : db (Database := mem_db) => True;
            torrents := fun d : db (Database := mem_db) => d |}.
  - intros [] d ih _ H; [done|].
    change (Ret (Ok (E := error) (bool_decide (is_Some (d !! ih)))) = Ret (Ok true)) in H.
    injection H as H. by apply bool_decide_eq_true in H.
  - done.
  - intros [] d ih name files d' r _ H; cbn in H; [injection H as <- _; by left|].
    revert H. case_match eqn:E; intros H; apply (f_equal fst) in H; cbn in H; subst d';
      [by left|by right].
  - intros [] d; by eexists.
Defined.

Lemma mem_wf d : db_wf (DatabaseLaws := mem_db_laws) d.
Proof. exact I. Qed.

Definition result_of (ih : bytes) : IndexingResult := {| infoHash := ih; peerAddrs := [wit_peer 1] |}.
Definition wit_res : IndexingResult := result_of wit_ih.
Definition wit_success : Metadata := success (L := bencode_lib) wit_net wit_info wit_ih.

Lemma wit_leeched : leeched (L := bencode_lib) wit_cid wit_ih wit_success.
Proof.
  exists wit_net, wit_rx, wit_final. split_and!; [exact wit_contract|done|exact wit_final_eq|].
  vm_compute. by left.
Qed.

Definition sink_of (ih : bytes) (dr : list Metadata) : Sink :=
  set_sink dr (<[ih := []]> ∅) false 0 (NewSink wit_cid 3).
Definition wit_s : list Metadata -> Sink := sink_of wit_ih.

Definition wit_daemon {D : Database} (o : list IndexingResult) (s : Sink) (ts : list leechThread)
    (dr : list Metadata) (d : db) : daemon :=
  {| output := o; sys := {| sink := s; threads := ts; drained := dr |}; database := d; stopped := false |}.

(** A result for which a leech is started. *)
Section Started.
Context {D : Database}.
Variables (ih : bytes) (w : io) (d0 : db).
Hypothesis ih_length : length ih = 20%nat.

Lemma wit_pending_run :
  daemon_run (L := bencode_lib) wit_cid 3 d0 (wit_daemon [result_of ih] (NewSink wit_cid 3) [] [] d0).
Proof.
  apply dr_step with (wit_daemon [] (NewSink wit_cid 3) [] [] d0); [apply dr_init|].
  apply (d_result _ (wit_daemon [] (NewSink wit_cid 3) [] [] d0) (result_of ih)).
  split; [done|]. constructor; [done|constructor].
Qed.

Hypothesis Hnew : DoesTorrentExist w d0 ih = Ret (Ok false).

Lemma wit_onTrawled :
  onTrawled w (result_of ih) [] (wit_daemon [result_of ih] (NewSink wit_cid 3) [] [] d0) =
  Ret (wit_daemon [] (sink_of ih []) [Leeching ih (wit_peer 1)] [] d0).
Proof.
  unfold onTrawled. cbn [database wit_daemon]. change (infoHash (result_of ih)) with ih.
  rewrite Hnew. unfold sys_sink, Sink_Sink.
  cbn [sys sink NewSink terminated maxNLeeches incomingInfoHashes wit_daemon infoHash result_of].
  by rewrite map_size_empty, lookup_empty.
Qed.

Lemma wit_started_run :
  daemon_run (L := bencode_lib) wit_cid 3 d0
    (wit_daemon [] (sink_of ih []) [Leeching ih (wit_peer 1)] [] d0).
Proof.
  eapply dr_step; [apply wit_pending_run|]. rewrite <- wit_onTrawled. by eapply d_trawled.
Qed.
End Started.

(** The run of one torrent, over any database that takes it. *)
Section One_torrent.
Context {D : Database}.
Variables (w : io) (d0 d1 : db).
Hypothesis Hnew : DoesTorrentExist w d0 wit_ih = Ret (Ok false).
Hypothesis Hadd : AddNewTorrent w d0 wit_ih (str "test") (md_Files wit_success) = (d1, Ret (Ok tt)).

Lemma wit_onFetched :
  onFetched w wit_success [] (wit_daemon [] (wit_s [wit_success]) [Flushed wit_ih wit_success] [] d0) =
  Ret (wit_daemon [] (wit_s []) [Flushed wit_ih wit_success] [wit_success] d1).
Proof.
  unfold onFetched. cbn [database wit_daemon].
  change (md_InfoHash wit_success) with wit_ih. change (md_Name wit_success) with (str "test").
  by rewrite Hadd.
Qed.

(** Up to the metadata in the drain. *)
Lemma wit_fetched_run :
  daemon_run (L := bencode_lib) wit_cid 3 d0
    (wit_daemon [] (wit_s [wit_success]) [Flushed wit_ih wit_success] [] d0).
Proof.
  apply dr_step with (wit_daemon [] (wit_s []) [Flushing wit_ih wit_success] [] d0).
  2:{ apply (d_leech _ (wit_daemon [] (wit_s []) [Flushing wit_ih wit_success] [] d0)
        (Ret {| sink := wit_s [wit_success]; threads := [Flushed wit_ih wit_success]; drained := [] |})).
      by apply (st_send _ (wit_s []) [] wit_ih wit_success [] [] (Ret (Some (wit_s [wit_success])))). }
  apply dr_step with (wit_daemon [] (wit_s []) [Leeching wit_ih (wit_peer 1)] [] d0).
  2:{ apply (d_leech _ (wit_daemon [] (wit_s []) [Leeching wit_ih (wit_peer 1)] [] d0)
        (Ret {| sink := wit_s []; threads := [Flushing wit_ih wit_success]; drained := [] |})).
      apply (st_success _ (wit_s []) [] wit_ih (wit_peer 1) [] [] wit_success wit_leeched). }
  by apply wit_started_run with w.
Qed.

Lemma wit_run :
  daemon_run (L := bencode_lib) wit_cid 3 d0
    (wit_daemon [] (wit_s []) [Flushed wit_ih wit_success] [wit_success] d1).
Proof.
  apply dr_step with (wit_daemon [] (wit_s [wit_success]) [Flushed wit_ih wit_success] [] d0);
    [apply wit_fetched_run|].
  rewrite <- wit_onFetched.
  by apply (d_fetched _ (wit_daemon [] (wit_s [wit_success]) [Flushed wit_ih wit_success] [] d0) w wit_success []).
Qed.
End One_torrent.

Definition wit_db : db (Database := mem_db) := <[wit_ih := (str "test", md_Files wit_success)]> ∅.

Lemma mem_add_empty ih name files :
  AddNewTorrent (Database := mem_db) false ∅ ih name files = (<[ih := (name, files)]> ∅, Ret (Ok tt)).
Proof. cbn. by rewrite lookup_empty. Qed.

Lemma mem_exist_empty ih : DoesTorrentExist (Database := mem_db) false ∅ ih = Ret (Ok false).
Proof. reflexivity. Qed.

Lemma mem_run :
  daemon_run (D := mem_db) (L := bencode_lib) wit_cid 3 ∅
    (wit_daemon [] (wit_s []) [Flushed wit_ih wit_success] [wit_success] wit_db).
Proof. apply (wit_run (D := mem_db) false); [apply mem_exist_empty|apply mem_add_empty]. Qed.

Lemma daemon_integrity_witness :
  exists e, wit_db !! wit_ih = Some e /\ authentic (L := bencode_lib) wit_ih e.
Proof.
  destruct (daemon_integrity (D := mem_db) (L := bencode_lib) wit_cid 3 ∅ _ wit_ih (mem_wf ∅) mem_run) as [H|[_ H]];
    [|exact H]. exfalso.
  change ((<[wit_ih := (str "test", md_Files wit_success)]> ∅ : gmap bytes (bytes * list File)) !! wit_ih =
          (∅ : gmap bytes (bytes * list File)) !! wit_ih) in H.
  rewrite lookup_insert_eq, lookup_empty in H. discriminate H.
Defined.

Lemma daemon_bounded_witness : NoDup (map thread_ih [Flushed wit_ih wit_success]).
Proof. apply (daemon_bounded (D := mem_db) (L := bencode_lib) wit_cid 3 ∅ _ (mem_wf ∅) mem_run). Defined.

Definition wit_pending : daemon (D := mem_db) := wit_daemon [wit_res] (NewSink wit_cid 3) [] [] ∅.

Lemma daemon_panic_cause_witness :
  (exists w r rest, output wit_pending = r :: rest /\
     forall b, DoesTorrentExist w (database wit_pending) (infoHash r) <> Ret (Ok b)) \/
  (exists w md ds, drain (sink (sys wit_pending)) = md :: ds /\
     (AddNewTorrent w (database wit_pending) (md_InfoHash md) (md_Name md) (md_Files md)).2
       <> Ret (Ok tt)).
Proof.
  apply (daemon_panic_cause (D := mem_db) (L := bencode_lib) wit_cid 3 ∅ wit_pending (mem_wf ∅)
    (wit_pending_run (D := mem_db) wit_ih ∅ eq_refl)).
  apply (d_trawled _ wit_pending true wit_res []); reflexivity.
Defined.
