(* ===== verification/Process.v ===== *)
(** cmd/magneticod as one process: the indexing services that NewManager starts,
    each with its index loop and the read loop of its transport, the channel
    they fill, the sink with its leeches and the event loop, whose steps
    interleave freely. The process is simulated by the daemon of
    Daemon.v, which takes results from anywhere. *)

From S2P Require Import Prelude GoLib Sha1 Codec Transport Protocol IndexingService Persistence Leech LeechProps Sink Daemon.
From Stdlib Require Import ZArith Lia.
From stdpp Require Import base list gmap.
Local Open Scope Z_scope.
Local Open Scope go_scope.

Section Services.
Variable rand : nat -> option bytes.
Variable resolve : bytes -> option UDPAddr.

(** The ways in which the index loop can panic. *)
Inductive index_panics : IndexingService * phase -> Prop :=
  | ip_bootstrap s :
      0 < interval s -> size (routingTable s) = 0%nat -> bootstrap rand resolve s = Panic ->
      index_panics (s, Waiting)
  | ip_send s p ps target :
      findNeighbors_send rand p target s = Panic -> index_panics (s, Sending (p :: ps) target).

Lemma index_safe max st :
  (forall n, is_Some (rand n)) -> sys_inv max st -> ~ index_panics st.
Proof.
  intros Hrand [Hs Hph] H. destruct H as [s _ _ H|s p ps target H]; simpl in *.
  - destruct (bootstrap_safe rand resolve Hrand max bootstrappingNodes s Hs) as (s' & E & _).
    unfold bootstrap in H. congruence.
  - destruct Hph as [[Hp _]%Forall_cons Ht].
    destruct (findNeighbors_send_safe rand Hrand max p target s Hs Hp Ht) as (t & s' & E & _). congruence.
Qed.
End Services.

(** ** The process *)

(** The results among the actions of a service. *)
Definition results (l : list action) : list IndexingResult :=
  omap (fun a => match a with OnResult r => Some r | Send _ _ => None end) l.

Definition set_protocol (p : Protocol) (s : IndexingService) : IndexingService :=
  {| protocol := p; is_started := is_started s; interval := interval s; nodeID := nodeID s; heap := heap s;
     routingTable := routingTable s; maxNeighbors := maxNeighbors s; counter := counter s;
     getPeersRequests := getPeersRequests s; nrand := nrand s; out := out s |}.

Definition set_transport (t : Transport) (s : IndexingService) : IndexingService :=
  set_protocol {| previousTokenSecret := previousTokenSecret (protocol s);
                  currentTokenSecret := currentTokenSecret (protocol s); transport := t;
                  started := started (protocol s) |} s.

Section Process.
Context `{D : Database} `{L : LeechLib} `{B : MessageCodec} `{N : SockaddrNet}.
(** The random source of the [i]-th service, and net.ResolveUDPAddr. *)
Variable rand : nat -> nat -> option bytes.
Variable resolve : bytes -> option UDPAddr.

(** [p_ended] are the services whose read loop has ended, [p_closed] the sockets
    that have been closed. *)
Record process := {
  p_services : list (IndexingService * phase);
  p_ended : list nat;
  p_core : daemon;
  p_closed : list Z }.

(** The OnResult handler of every service is that of the manager. *)
Definition deliver (rs : list IndexingResult) (d : daemon) : daemon :=
  {| output := foldl (fun o r => onIndexingResult r o) (output d) rs; sys := sys d;
     database := database d; stopped := stopped d |}.

Definition with_core (d : daemon) (p : process) : process :=
  {| p_services := p_services p; p_ended := p_ended p; p_core := d; p_closed := p_closed p |}.

Definition with_service (i : nat) (st : IndexingService * phase) (p : process) : process :=
  {| p_services := <[i := st]> (p_services p); p_ended := p_ended p; p_core := p_core p;
     p_closed := p_closed p |}.

(** The [i]-th service goes from [s] to [st]; its results go to the manager. *)
Definition advance (i : nat) (s : IndexingService) (st : IndexingService * phase) (p : process) : process :=
  with_core (deliver (results (drop (length (out s)) (out st.1))) (p_core p)) (with_service i st p).

(** One iteration of the read loop of the [i]-th service, on a result of
    Recvfrom. The service registers no congestion handler. *)
Definition onRecv (i : nat) (s : IndexingService) (ph : phase) (r : recv) (p : process) : go process :=
  let! l := Transport.readMessage (receive (rand i)) (OnCongestion (serviceHandlers (rand i)))
              (transport (protocol s)) s r in
  Ret match l with
      | Continue t s' => advance i s (set_transport t s', ph) p
      | Break t s' =>
          let p' := advance i s (set_transport t s', ph) p in
          {| p_services := p_services p'; p_ended := i :: p_ended p'; p_core := p_core p';
             p_closed := p_closed p' |}
      end.

(** The case of the event loop that receives the interrupt. *)
Definition onInterrupt (p : process) : go process :=
  let! fds := Manager_Terminate (map fst (p_services p)) in
  Ret {| p_services := p_services p; p_ended := p_ended p; p_closed := fds;
         p_core := {| output := output (p_core p); sys := sys (p_core p);
                      database := database (p_core p); stopped := true |} |}.

(** Who takes a step, with what the outside world answers it: the index loop of
    a service, its read loop with a result of Recvfrom, the writing of a packet
    it has logged, the goroutine that renews a token secret with what
    crypto/rand returns, the cases of the event loop, the goroutines of the
    sink, and a leech that panics on the connection [net] to a peer that sends
    [rx]. *)
Inductive goroutine : Type :=
  | Index (i : nat)
  | Reading (i : nat) (r : recv)
  | Writing (i : nat) (msg : Message) (addr : UDPAddr)
  | TokenSecret (secret : option bytes)
  | Trawled (w : io) (r : IndexingResult)
  | Fetched (w : io) (md : Metadata)
  | Interrupt
  | Leeches
  | Download (net : Net) (ih rx : bytes).

(** A step of any goroutine; a panic in one of them ends them all. *)
Inductive process_step (id : bytes) (p : process) : goroutine -> go process -> Prop :=
  | ps_index i st st' :
      p_services p !! i = Some st -> index_step (rand i) resolve st st' ->
      process_step id p (Index i) (Ret (advance i st.1 st' p))
  | ps_index_panic i st :
      p_services p !! i = Some st -> index_panics (rand i) resolve st -> process_step id p (Index i) Panic
  | ps_read i s ph r :
      p_services p !! i = Some (s, ph) -> i ∉ p_ended p ->
      process_step id p (Reading i r) (onRecv i s ph r p)
  | ps_write i s ph msg addr sendto :
      p_services p !! i = Some (s, ph) -> Send msg addr ∈ out s ->
      process_step id p (Writing i msg addr)
        (let! _ := WriteMessages (OnCongestion (serviceHandlers (rand i))) sendto msg addr s in Ret p)
  | ps_token i s ph secret :
      p_services p !! i = Some (s, ph) ->
      process_step id p (TokenSecret secret) (let! q := updateTokenSecret (protocol s) secret in
        Ret (with_service i (set_protocol q s, ph) p))
  | ps_trawled w r rest :
      stopped (p_core p) = false -> output (p_core p) = r :: rest ->
      process_step id p (Trawled w r) (let! d := onTrawled w r rest (p_core p) in Ret (with_core d p))
  | ps_fetched w md ds :
      stopped (p_core p) = false -> drain (sink (sys (p_core p))) = md :: ds ->
      process_step id p (Fetched w md) (let! d := onFetched w md ds (p_core p) in Ret (with_core d p))
  | ps_interrupt :
      stopped (p_core p) = false -> process_step id p Interrupt (onInterrupt p)
  | ps_leech o :
      leech_step (leeched id) (sys (p_core p)) o ->
      process_step id p Leeches (let! sy := o in
        Ret (with_core {| output := output (p_core p); sys := sy; database := database (p_core p);
                          stopped := stopped (p_core p) |} p))
  | ps_leech_crash ih peer net r :
      Leeching ih peer ∈ threads (sys (p_core p)) -> length ih = 20%nat -> write_contract net ->
      Do net (NewLeech ih id r) = Crash -> process_step id p (Download net ih r) Panic.

(** What NewManager and NewSink leave for the event loop. *)
Definition process_init (id : bytes) (max : Z) (d0 : db) (ss : list IndexingService) : process :=
  {| p_services := map (fun s => (s, Waiting)) ss; p_ended := []; p_closed := [];
     p_core := {| output := []; sys := {| sink := NewSink id max; threads := []; drained := [] |};
                  database := d0; stopped := false |} |}.

Inductive process_run (id : bytes) (max : Z) (d0 : db) (ss : list IndexingService) : process -> Prop :=
  | pr_init : process_run id max d0 ss (process_init id max d0 ss)
  | pr_step p g p' :
      process_run id max d0 ss p -> process_step id p g (Ret p') -> process_run id max d0 ss p'.

(** ** Invariant *)

(** A service as newServices leaves it. *)
Definition ready (maxNeighbors : Z) (s : IndexingService) : Prop :=
  inv maxNeighbors s /\ started (protocol s) = true.

Definition socket_of (s : IndexingService) : Z := fd (transport (protocol s)).

(** A service that still owns the socket and the buffer it was started with. *)
Definition owns (s : IndexingService) (st : IndexingService * phase) : Prop :=
  started (protocol st.1) = true /\ socket_of st.1 = socket_of s /\
  length (buffer (transport (protocol st.1))) = length (buffer (transport (protocol s))).

Record process_inv (id : bytes) (max maxNeighbors : Z) (d0 : db) (ss : list IndexingService)
    (p : process) : Prop := {
  pi_services : Forall (sys_inv maxNeighbors) (p_services p);
  pi_owns : Forall2 owns ss (p_services p);
  pi_closed : p_closed p = if stopped (p_core p) then map socket_of ss else [];
  pi_core : daemon_run id max d0 (p_core p) }.

Lemma Manager_Terminate_owns ss sts :
  Forall2 owns ss sts -> Manager_Terminate (map fst sts) = Ret (map socket_of ss).
Proof.
  induction 1 as [|s [s' ph] ss sts (H1 & H2 & _) _ IH]; [done|]. simpl in *.
  unfold IndexingService_Terminate, Terminate. rewrite H1. simpl. rewrite IH. simpl.
  unfold Transport_Terminate. unfold socket_of in H2. by rewrite H2.
Qed.

Lemma deliver_run id max d0 rs d :
  Forall (fun r => action_ok (OnResult r)) rs -> daemon_run id max d0 d ->
  daemon_run id max d0 (deliver rs d).
Proof.
  revert d. induction rs as [|r rs IH]; intros d; [by destruct d|].
  intros [Hr Hrs]%Forall_cons Hd.
  apply (IH {| output := onIndexingResult r (output d); sys := sys d; database := database d;
               stopped := stopped d |}); [done|].
  eapply dr_step; [exact Hd|]. by apply d_result.
Qed.

Lemma results_ok l : Forall action_ok l -> Forall (fun r => action_ok (OnResult r)) (results l).
Proof.
  induction 1 as [|[msg addr|r] l Ha _ IH]; cbn; [done|done|]. by constructor.
Qed.

Lemma with_service_inv id max n d0 ss p i st :
  process_inv id max n d0 ss p ->
  sys_inv n st -> (forall st0, p_services p !! i = Some st0 ->
    started (protocol st.1) = started (protocol st0.1) /\ socket_of st.1 = socket_of st0.1 /\
    length (buffer (transport (protocol st.1))) = length (buffer (transport (protocol st0.1)))) ->
  process_inv id max n d0 ss (with_service i st p).
Proof.
  intros [H1 H2 H3 H4] Hst Hp. split; simpl; [by apply Forall_insert| |done|done].
  destruct (decide (i < length (p_services p))%nat) as [Hi|Hi].
  2:{ by rewrite list_insert_ge by lia. }
  apply lookup_lt_is_Some in Hi as [st0 Hi]. specialize (Hp st0 Hi).
  destruct (Forall2_lookup_r _ _ _ _ _ H2 Hi) as (s & Hs & Ho1 & Ho2 & Ho3).
  rewrite <- (list_insert_id ss i s Hs). apply Forall2_insert; [done|].
  unfold owns. by destruct Hp as (-> & -> & ->).
Qed.

Context `{!DatabaseLaws D} `{!LeechLibLaws L}.
(** math/rand's Read "always returns len(p) and a nil error". *)
Hypothesis rand_ok : forall i n, is_Some (rand i n).

Lemma process_init_inv id max n d0 ss :
  0 <= n -> Forall (ready n) ss -> process_inv id max n d0 ss (process_init id max d0 ss).
Proof.
  intros Hn Hss. split; simpl; [|clear Hn|done|constructor].
  - apply Forall_fmap. eapply Forall_impl; [exact Hss|]. by intros s [Hs _].
  - induction Hss as [|s ss [_ Hs] _ IH]; constructor; [by split|done].
Qed.

Lemma advance_inv id max n d0 ss p i s ph st :
  process_inv id max n d0 ss p -> p_services p !! i = Some (s, ph) -> sys_inv n st ->
  started (protocol st.1) = started (protocol s) -> socket_of st.1 = socket_of s ->
  length (buffer (transport (protocol st.1))) = length (buffer (transport (protocol s))) ->
  process_inv id max n d0 ss (advance i s st p).
Proof.
  intros Hinv Hi Hst H1 H2 H3. destruct (with_service_inv id max n d0 ss p i st Hinv Hst) as [H5 H6 H7 H8].
  { intros st0 H0. rewrite Hi in H0. by injection H0 as <-. }
  split; [done..|]. apply deliver_run; [|done]. apply results_ok, Forall_drop, Hst.
Qed.

Lemma set_transport_inv n t s ph : sys_inv n (s, ph) -> sys_inv n (set_transport t s, ph).
Proof. intros [Hs Hph]. split; [by destruct Hs|done]. Qed.

Lemma onRecv_inv id max n d0 ss p i s ph r p' :
  process_inv id max n d0 ss p -> p_services p !! i = Some (s, ph) -> onRecv i s ph r p = Ret p' ->
  process_inv id max n d0 ss p'.
Proof.
  intros Hinv Hi. unfold onRecv.
  destruct (Transport.readMessage _ _ _ _ _) as [l|] eqn:El; [|done]. cbn. intros [= <-].
  apply readMessage_keeps in El as (Hfd & Hbuf & Hl); [|done].
  assert (process_inv id max n d0 ss (advance i s (set_transport (loop_transport l) (loop_state l), ph) p))
    as [H1 H2 H3 H4].
  { assert (sys_inv n (s, ph)) as Hs by exact (Forall_lookup_1 _ _ _ _ (pi_services _ _ _ _ _ _ Hinv) Hi).
    destruct Hl as [->|(msg & from & Hm)].
    - eapply advance_inv; [done|exact Hi|by apply set_transport_inv|done|exact Hfd|exact Hbuf].
    - pose proof (receive_extends (rand i) _ _ _ _ Hm) as (Hp & _). eapply advance_inv; [done|exact Hi|..].
      + apply set_transport_inv. by apply (handle_inv (rand i) (rand_ok i) n s _ ph msg from).
      + cbn. by rewrite Hp.
      + exact Hfd.
      + exact Hbuf. }
  by destruct l.
Qed.

Lemma process_step_inv id max n d0 ss p g p' :
  0 <= n -> process_inv id max n d0 ss p -> process_step id p g (Ret p') ->
  process_inv id max n d0 ss p'.
Proof.
  intros Hn Hinv Hstep. pose proof Hinv as [H1 H2 H3 H4]. remember (Ret p') as o eqn:E.
  destruct Hstep as [i [s ph] st' Hi Hst|i st _ _|i s ph r Hi _|i s ph msg addr sendto _ _|i s ph secret Hi
    |w r rest Hs Ho|w md ds Hs Hd|Hs|o Hl|]; try done.
  - injection E as <-. pose proof (index_step_extends _ _ _ _ Hst) as (Hp & _).
    pose proof (index_step_inv _ _ (rand_ok i) n _ st' Hn (Forall_lookup_1 _ _ _ _ H1 Hi) Hst) as Hi'.
    unfold socket_of in *. by eapply advance_inv; [done..| | |]; unfold socket_of; rewrite Hp.
  - by eapply onRecv_inv.
  - destruct (WriteMessages _ _ _ _ _); [|done]. by injection E as <-.
  - destruct (updateTokenSecret (protocol s) secret) as [q|] eqn:Eq; [|done]. injection E as <-.
    unfold updateTokenSecret in Eq. destruct secret; [|done]. injection Eq as <-.
    apply with_service_inv; [done| |intros st0 H0; rewrite Hi in H0; by injection H0 as <-].
    pose proof (Forall_lookup_1 _ _ _ _ H1 Hi) as [Hs Hph]. split; [by destruct Hs|done].
  - destruct (onTrawled w r rest (p_core p)) as [d|] eqn:Et; [|done]. injection E as <-.
    assert (daemon_step id (p_core p) (Ret d)) as Hd by (rewrite <- Et; by apply d_trawled).
    assert (stopped d = false) as Hsd.
    { unfold onTrawled in Et. destruct (DoesTorrentExist _ _ _) as [[[]|]|]; [by injection Et as <-| |done..].
      by destruct (sys_sink r _); [injection Et as <-|]. }
    split; simpl; [done..| |by eapply dr_step]. by rewrite H3, Hs, Hsd.
  - destruct (onFetched w md ds (p_core p)) as [d|] eqn:Et; [|done]. injection E as <-.
    assert (daemon_step id (p_core p) (Ret d)) as Hd' by (rewrite <- Et; by apply d_fetched).
    assert (stopped d = false) as Hsd.
    { unfold onFetched in Et. destruct (AddNewTorrent _ _ _ _ _) as [? [[[]|]|]]; [by injection Et as <-|done..]. }
    split; simpl; [done..| |by eapply dr_step]. by rewrite H3, Hs, Hsd.
  - unfold onInterrupt in E. rewrite (Manager_Terminate_owns ss) in E by done. injection E as <-.
    split; [done..|]. eapply dr_step; [done|]. by apply d_interrupt.
  - destruct o as [sy|]; [|done]. injection E as <-. split; [done..|].
    eapply dr_step; [done|]. by apply (d_leech id (p_core p) (Ret sy)).
Qed.

Lemma process_run_inv id max n d0 ss p :
  0 <= n -> Forall (ready n) ss -> process_run id max d0 ss p -> process_inv id max n d0 ss p.
Proof.
  intros Hn Hss. induction 1 as [|p g p' _ IH Hp]; [by apply process_init_inv|].
  by eapply process_step_inv.
Qed.

(** When the read loop and the writing of a packet panic. *)
Lemma onRecv_panics max n d0 id ss p i s ph r :
  process_inv id max n d0 ss p -> Forall (fun s => wf_transport (transport (protocol s))) ss ->
  p_services p !! i = Some (s, ph) -> recv_contract r -> onRecv i s ph r p = Panic ->
  congested r = true \/ rv_err r = None /\ rv_data r <> [] /\ SockaddrToUDPAddr (rv_from r) = None.
Proof.
  intros [H1 H2 _ _] Hss Hi Hr H. unfold onRecv in H.
  destruct (Transport.readMessage _ _ _ _ _) as [l|] eqn:El; [done|]. clear H.
  destruct (Forall2_lookup_r _ _ _ _ _ H2 Hi) as (s0 & Hs0 & _ & _ & Hb). simpl in Hb.
  pose proof (Forall_lookup_1 _ _ _ _ Hss Hs0) as Hw0. pose proof (Forall_lookup_1 _ _ _ _ H1 Hi) as [Hs _].
  apply readMessage_panics in El as [Hc|[Hf|(msg & from & Hm)]];
    [by left|by right| |done|unfold wf_transport in *; congruence|done].
  destruct (receive_safe (rand i) (rand_ok i) n msg from s Hs) as (s' & E & _). congruence.
Qed.

Lemma WriteMessages_panics {S} sendto msg addr (s : S) p :
  (let! _ := WriteMessages None sendto msg addr s in Ret (A := process) p) = Panic ->
  MarshalMessage msg = None.
Proof.
  unfold WriteMessages. destruct (MarshalMessage msg); [|done]. destruct (NetAddrToSockaddr addr); [|done].
  destruct (sendto _ _) as [e|]; [|done]. by destruct (congestion e).
Qed.

(** ** Properties *)

(** C2. The process is simulated by the daemon: whatever packets reach the
    services and however their goroutines, the leeches and the event loop
    interleave, the channel, the sink and the database go through a run of the
    daemon, so that every entry added to the database is authentic; and an
    interrupt closes the sockets of all the services, once each. *)
Theorem process_simulated id max n d0 ss p :
  0 <= n -> Forall (ready n) ss -> db_wf d0 -> process_run id max d0 ss p ->
  daemon_run id max d0 (p_core p) /\
  (forall ih, torrents (database (p_core p)) !! ih = torrents d0 !! ih \/
     torrents d0 !! ih = None /\
     exists e, torrents (database (p_core p)) !! ih = Some e /\ authentic ih e) /\
  p_closed p = if stopped (p_core p) then map socket_of ss else [].
Proof.
  intros Hn Hss Hwf Hr. destruct (process_run_inv id max n d0 ss p Hn Hss Hr) as [_ _ Hc Hd].
  split_and!; [done| |done]. apply (di_db _ _ _ _ (daemon_run_inv id max d0 _ Hwf Hd)).
Qed.

End Process.
