(* ===== verification/Main.v ===== *)
(** The main functions of cmd/magneticod and cmd/magneticow: what each program
    acquires when it starts, in which order, and what it gives back on each of
    the ways it can end. *)

From S2P Require Import Prelude GoLib Codec Transport Protocol IndexingService Persistence Sql Sqlite3 Sqlite3Laws Sqlite3Props HttpLib Postgres PostgresProps Outputs Dispatch Credentials Web Leech LeechProps Sink Daemon Process.
From Stdlib Require Import ZArith Lia.
From stdpp Require Import base list gmap.
Local Open Scope Z_scope.
Local Open Scope go_scope.

(** ** Programs with deferred calls *)

Inductive level : Type := WarnLevel | InfoLevel | DebugLevel.

(** What a program does to the world around it. *)
Inductive effect : Type :=
  | SetLevel (l : level)
  | StartProfile (memory : bool)
  | StopProfile
  | NotifySighup
  | OpenDatabase (url : bytes)
  | CloseDatabase
  | BindSocket (fd : Z)
  | CloseSocket (fd : Z)
  | MakeTempDir (dir : bytes)
  | RemoveAll (dir : bytes)
  | StartClient
  | CloseClient
  | Serve (addr : bytes)
  | SyncLog.

(** How main ends: by returning, by a panic of its own goroutine, or with the
    process: zap's Fatal calls os.Exit, and a panic in another goroutine does not
    unwind this one. Deferred calls run in the first two cases. *)
Inductive ending : Type := Returned | Panicked | Exited.

(** A part of main: its effects, and its value unless main ends in it. *)
Definition prog (A : Type) : Type := (list effect * (ending + A))%type.

#[global] Instance prog_ret : MRet prog := fun A a => ([], inr a).
#[global] Instance prog_bind : MBind prog := fun A B f m =>
  match m with
  | (es, inl e) => (es, inl e)
  | (es, inr a) => let '(es', r) := f a in (es ++ es', r)
  end.

Definition emit (e : effect) : prog unit := ([e], inr tt).
Definition stop {A} (e : ending) : prog A := ([], inl e).

(** [defer cleanup] followed by [m]. *)
Definition defer {A} (cleanup : list effect) (m : prog A) : prog A :=
  let '(es, r) := m in
  (es ++ match r with inl Exited => [] | _ => cleanup end, r).

(** A call that ends main in [e] when it does not return. *)
Definition call {A} (e : ending) (m : go A) : prog A :=
  match m with Ret a => mret a | Panic => stop e end.

(** The whole of main. *)
Definition run_main (m : prog unit) : list effect * ending :=
  let '(es, r) := m in (es, match r with inl e => e | inr _ => Returned end).

(** A process ends as main does, or by a signal that it does not handle
    (SIGTERM for both programs; SIGINT for magneticow, and for magneticod before
    it asks for it), whose default action kills it at any moment: no deferred
    call runs then. *)
Inductive fate : Type := Ends (e : ending) | Killed.

Inductive execution (m : prog unit) : list effect -> fate -> Prop :=
  | ex_ends es e : run_main m = (es, e) -> execution m es (Ends e)
  | ex_killed es es' e : run_main m = (es ++ es', e) -> execution m es Killed.

(** The directories that have been made and not removed. *)
Definition leftover (es : list effect) : list bytes :=
  foldl (fun dirs e => match e with
                       | MakeTempDir dir => dirs ++ [dir]
                       | RemoveAll dir => filter (fun d => d <> dir) dirs
                       | _ => dirs
                       end) [] es.

Lemma leftover_made es dir : dir ∈ leftover es -> MakeTempDir dir ∈ es.
Proof.
  unfold leftover. induction es as [|e es IH] using rev_ind; [by intros ?%elem_of_nil|].
  rewrite foldl_app. cbn [foldl]. intros H. apply elem_of_app.
  destruct e; try (left; by apply IH).
  - apply elem_of_app in H as [H|H%list_elem_of_singleton]; [left; by apply IH|right].
    rewrite H. apply list_elem_of_singleton. done.
  - apply list_elem_of_filter in H as [_ H]. left. by apply IH.
Qed.

Definition verbosityLevel (verbosity : Z) : level :=
  match verbosity with 0 => WarnLevel | 1 => InfoLevel | _ => DebugLevel end.

(** ** magneticod *)

Section Magneticod.
Context `{D : Database} `{L : LeechLib} `{B : MessageCodec} `{N : SockaddrNet}.

(** How the event loop ends: with the sockets that Terminate closed and the
    database, or with the process. *)
Inductive looped : Type :=
  | Interrupted (fds : list Z) (d : db)
  | Died.

(** appdirs.UserDataDir, net.ResolveUDPAddr, crypto/rand, unix.Socket and
    unix.Bind for the [i]-th service, and what the driver answers to Close. *)
Variable userDataDir : bytes.
Variable resolveAddr : bytes -> option UDPAddr.
Variable secret : nat -> option bytes.
Variable socket : nat -> option Z.
Variable bind : Z -> bytes -> Z -> bool.
Variable closing : io.
(** MakeDatabase, for the engine that the URL names. *)
Variable makeDatabase : bytes -> go (res error db).
(** The event loop. *)
Variable loop : opFlags -> db -> list IndexingService -> looped.

Definition resolves (addr : bytes) : bool := bool_decide (is_Some (resolveAddr addr)).

(** NewManager with the way it ends the program: NewTransport panics, and the
    other failures are fatal. *)
Fixpoint startServices (i : nat) (addrs : list bytes) (ivl maxNeighbors : Z)
    : prog (list IndexingService) :=
  match addrs with
  | [] => mret []
  | addr :: addrs =>
      _ ← call Panicked (NewTransport (resolveAddr addr));
      service ← call Exited (NewIndexingService (resolveAddr addr) (secret i) ivl maxNeighbors);
      service ← call Exited (IndexingService_Start service (socket i) bind);
      _ ← emit (BindSocket (socket_of service));
      services ← startServices (S i) addrs ivl maxNeighbors;
      mret (service :: services)
  end.

(** The effects of starting and of stopping the profile. *)
Definition startProfile (flag : bytes) : list effect :=
  if bool_decide (flag = str "cpu") then [StartProfile false]
  else if bool_decide (flag = str "memory") then [StartProfile true]
  else [].
Definition stopProfile (flag : bytes) : list effect :=
  if bool_decide (flag = str "cpu" \/ flag = str "memory") then [StopProfile] else [].

(** From the database on. *)
Definition magneticod_serve (op : opFlags) : prog unit :=
  opened ← call Panicked (makeDatabase (DatabaseURL op));
  match opened with
  | Err _ => stop Exited
  | Ok d0 =>
      _ ← emit (OpenDatabase (DatabaseURL op));
      services ← startServices 0 (IndexerAddrs op) (IndexerInterval op) (IndexerMaxNeighbors op);
      match loop op d0 services with
      | Died => stop Exited
      | Interrupted fds d =>
          _ ← (map CloseSocket fds, inr tt);
          _ ← call Panicked (Close closing d);
          emit CloseDatabase
      end
  end.

Definition magneticod_main (cmdF : option cmdFlags) : prog unit :=
  defer [SyncLog]
    match parseFlags resolves userDataDir cmdF with
    | Panic => stop Exited
    | Ret None => stop Returned
    | Ret (Some op) =>
        _ ← emit (SetLevel (verbosityLevel (Verbosity op)));
        _ ← (startProfile (ProfileFlag op), inr tt);
        defer (stopProfile (ProfileFlag op)) (magneticod_serve op)
    end.

(** ** What newServices starts *)

Lemma IndexingService_Start_ready n s sock s' :
  inv n s -> IndexingService_Start s sock bind = Ret s' -> ready n s'.
Proof.
  intros Hs H. unfold IndexingService_Start, Start in H. destruct (is_started s); [done|].
  destruct (started (protocol s)); [done|]. destruct (Transport_Start _ _ _); [|done].
  injection H as <-. split; [|done]. by destruct Hs.
Qed.

Lemma newServices_ready i addrs ivl n ss :
  0 <= n -> newServices resolveAddr secret socket bind i addrs ivl n = Ret ss ->
  Forall (ready n) ss /\ length ss = length addrs.
Proof.
  intros Hn. revert i ss. induction addrs as [|addr addrs IH]; cbn [newServices]; intros i ss H.
  { by injection H as <-. }
  unfold NewIndexingService in H. destruct (NewProtocol _ _) as [p|]; [|done]. simpl in H.
  destruct (IndexingService_Start _ _ _) as [s|] eqn:Es; [|done]. simpl in H.
  destruct (newServices _ _ _ _ _ addrs ivl n) as [ss'|] eqn:Er; [|done]. injection H as <-.
  destruct (IH _ _ Er) as [H1 H2]. split; [|simpl; by rewrite H2].
  constructor; [|done]. eapply IndexingService_Start_ready; [|exact Es]. by apply inv_init.
Qed.

(** startServices starts the services of newServices, or tells how the program
    ends. *)
Lemma startServices_spec i addrs ivl n :
  let '(es, r) := startServices i addrs ivl n in
  match r with
  | inr ss => es = map BindSocket (map socket_of ss) /\
              newServices resolveAddr secret socket bind i addrs ivl n = Ret ss
  | inl Panicked => exists addr, addr ∈ addrs /\ NewTransport (resolveAddr addr) = Panic
  | inl Exited => newServices resolveAddr secret socket bind i addrs ivl n = Panic
  | inl Returned => False
  end.
Proof.
  revert i. induction addrs as [|addr addrs IH]; cbn [startServices newServices]; intros i; [done|].
  destruct (NewTransport (resolveAddr addr)) as [t|] eqn:Et; cbn.
  2:{ exists addr. split; [left|done]. }
  destruct (NewIndexingService _ _ _ _) as [s|]; cbn; [|done].
  destruct (IndexingService_Start _ _ _) as [s'|]; cbn; [|done].
  specialize (IH (S i)). destruct (startServices (S i) addrs ivl n) as [es [[]|ss]]; cbn; try done.
  - destruct IH as (a & Ha & HT). exists a. split; [by right|done].
  - by rewrite IH.
  - destruct IH as [-> ->]. cbn. by rewrite app_nil_r.
Qed.

Lemma checkAddrs_all i addrs :
  checkAddrs_from resolves i addrs = Ok tt -> Forall (fun a => is_Some (resolveAddr a)) addrs.
Proof.
  revert i. induction addrs as [|a addrs IH]; cbn [checkAddrs_from]; intros i; [constructor|].
  destruct (resolves a) eqn:E; [|done]. apply bool_decide_eq_true in E. intros H%IH. by constructor.
Qed.

Lemma parseFlags_addrs cmdF op :
  parseFlags resolves userDataDir cmdF = Ret (Some op) ->
  exists c, cmdF = Some c /\ IndexerMaxNeighbors op = cf_IndexerMaxNeighbors c /\
    Forall (fun a => is_Some (resolveAddr a)) (IndexerAddrs op).
Proof.
  unfold parseFlags. destruct cmdF as [c|]; [|done]. unfold checkAddrs.
  destruct (checkAddrs_from _ _ _) as [[]|] eqn:E; [|done]. intros [= <-]. exists c.
  split_and!; [done..|]. simpl. by eapply checkAddrs_all.
Qed.

Lemma NewTransport_ipv4 addr a :
  resolveAddr addr = Some a -> NewTransport (resolveAddr addr) = Panic -> To4 (udp_IP a) = None.
Proof. intros ->. unfold NewTransport. by destruct (To4 _). Qed.

(** ** The event loop of main *)

Variable rand : nat -> nat -> option bytes.
Variable resolve : bytes -> option UDPAddr.
Variable id : bytes.

(** An interrupt ends the loop. Every panic of Process.v ends the process:
    those that would be panics of main's own goroutine, in Sink and Terminate,
    never happen. *)
Inductive event_loop (op : opFlags) (d0 : db) (ss : list IndexingService) : looped -> Prop :=
  | el_interrupted p :
      process_run rand resolve id (LeechMaxN op) d0 ss p -> stopped (p_core p) = true ->
      event_loop op d0 ss (Interrupted (p_closed p) (database (p_core p)))
  | el_died p g :
      process_run rand resolve id (LeechMaxN op) d0 ss p -> process_step rand resolve id p g Panic ->
      event_loop op d0 ss Died.

Context `{!DatabaseLaws D} `{!LeechLibLaws L}.
Hypothesis rand_ok : forall i n, is_Some (rand i n).
Hypothesis loop_ok : forall op d0 ss, event_loop op d0 ss (loop op d0 ss).
(** MakeDatabase does not panic. *)
Hypothesis makes : forall url, exists r, makeDatabase url = Ret r.

(** Every entry of [d] was in [d0] or is authentic, and none of [d0] is lost. *)
Definition honest (d0 d : db) : Prop := forall ih,
  torrents d !! ih = torrents d0 !! ih \/
  torrents d0 !! ih = None /\ exists e, torrents d !! ih = Some e /\ authentic ih e.

(** The effects between the database's opening and its closing. *)
Definition session (url : bytes) (ss : list IndexingService) : list effect :=
  OpenDatabase url :: map BindSocket (map socket_of ss) ++
  map CloseSocket (map socket_of ss) ++ [CloseDatabase].

(** The services that magneticod runs. *)
Definition started_as (op : opFlags) (ss : list IndexingService) : Prop :=
  newServices resolveAddr secret socket bind 0 (IndexerAddrs op) (IndexerInterval op)
    (IndexerMaxNeighbors op) = Ret ss /\ length ss = length (IndexerAddrs op).

(** Why the process ends after its flags have been accepted: the database cannot
    be opened, a service cannot be started, or the event loop dies. *)
Definition failed (op : opFlags) : Prop :=
  (exists e, makeDatabase (DatabaseURL op) = Ret (Err e)) \/
  newServices resolveAddr secret socket bind 0 (IndexerAddrs op) (IndexerInterval op)
    (IndexerMaxNeighbors op) = Panic \/
  exists d0 ss, makeDatabase (DatabaseURL op) = Ret (Ok d0) /\ loop op d0 ss = Died.

Lemma magneticod_serve_spec op :
  0 <= IndexerMaxNeighbors op ->
  let '(es, r) := magneticod_serve op in
  match r with
  | inr tt => exists d0 ss d, makeDatabase (DatabaseURL op) = Ret (Ok d0) /\ started_as op ss /\
      loop op d0 ss = Interrupted (map socket_of ss) d /\ (db_wf d0 -> honest d0 d) /\
      es = session (DatabaseURL op) ss
  | inl Panicked => exists addr, addr ∈ IndexerAddrs op /\ NewTransport (resolveAddr addr) = Panic
  | inl Exited => failed op
  | inl Returned => False
  end.
Proof.
  intros Hn. unfold magneticod_serve. destruct (makes (DatabaseURL op)) as [[d0|e] Ho]; rewrite Ho;
    cbn; [|left; by exists e].
  pose proof (startServices_spec 0 (IndexerAddrs op) (IndexerInterval op) (IndexerMaxNeighbors op)) as Hs.
  destruct (startServices _ _ _ _) as [es [[]|ss]]; cbn; [done|done|by right; left|].
  destruct Hs as [-> Hss].
  pose proof (newServices_ready _ _ _ _ _ Hn Hss) as [Hready Hlen].
  pose proof (loop_ok op d0 ss) as Hl. destruct (loop op d0 ss) as [fds d|] eqn:El; cbn;
    [|right; right; by exists d0, ss].
  inversion Hl as [p Hrun Hstop E1|]; subst fds d.
  pose proof (process_run_inv rand resolve rand_ok id _ _ d0 ss p Hn Hready Hrun) as [_ _ Hc Hd].
  rewrite Hstop in Hc. destruct (close_returns closing (database (p_core p))) as [r ->]. cbn.
  exists d0, ss, (database (p_core p)). rewrite <- Hc. split_and!; [done|by split|done| |].
  2:{ unfold session. by rewrite Hc. }
  - intros Hwf. exact (di_db _ _ _ _ (daemon_run_inv id _ d0 _ Hwf Hd)).
Qed.

(** The theorem below, for any engine. *)
Lemma magneticod_main_spec cmdF :
  (forall c, cmdF = Some c -> 0 <= cf_IndexerMaxNeighbors c) ->
  let '(es, e) := run_main (magneticod_main cmdF) in
  let flags := parseFlags resolves userDataDir cmdF in
  match e with
  | Returned => cmdF = None /\ es = [SyncLog] \/
      exists op d0 ss d, flags = Ret (Some op) /\ makeDatabase (DatabaseURL op) = Ret (Ok d0) /\
        started_as op ss /\ loop op d0 ss = Interrupted (map socket_of ss) d /\ (db_wf d0 -> honest d0 d) /\
        es = SetLevel (verbosityLevel (Verbosity op)) :: startProfile (ProfileFlag op) ++
             session (DatabaseURL op) ss ++ stopProfile (ProfileFlag op) ++ [SyncLog]
  | Panicked => exists op addr a, flags = Ret (Some op) /\ addr ∈ IndexerAddrs op /\
      resolveAddr addr = Some a /\ To4 (udp_IP a) = None
  | Exited => flags = Panic \/ exists op, flags = Ret (Some op) /\ failed op
  end.
Proof.
  intros Hc. unfold magneticod_main.
  destruct (parseFlags resolves userDataDir cmdF) as [[op|]|] eqn:Ef.
  - destruct (parseFlags_addrs _ _ Ef) as (c & -> & Hn & Haddrs). specialize (Hc c eq_refl).
    rewrite <- Hn in Hc. pose proof (magneticod_serve_spec op Hc) as Hs. cbn.
    destruct (magneticod_serve op) as [es [[]|[]]]; cbn; [done| | |].
    + destruct Hs as (addr & Hin & HT). pose proof Hin as Hin'.
      rewrite Forall_forall in Haddrs. destruct (Haddrs addr Hin') as [a Ha].
      exists op, addr, a. split_and!; [done..|]. by eapply NewTransport_ipv4.
    + right. by exists op.
    + destruct Hs as (d0 & ss & d & H1 & H2 & H3 & H4 & ->). right. exists op, d0, ss, d.
      split_and!; [done..|]. unfold session. by repeat (rewrite <- !app_assoc; cbn).
  - left. unfold parseFlags in Ef. destruct cmdF as [c|]; [by destruct (checkAddrs _ _)|done].
  - by left.
Qed.
End Magneticod.

(** ** magneticow *)

Section Magneticow.
Context {O : Outside} `{D : Database}.

(** go-flags, appdirs and os.Open as in parseFlags; ioutil.TempDir,
    torrent.NewClient with its storage in the given directory, whether
    template.Parse accepts a text, and MakeDatabase. *)
Variable parsed : res error Credentials.cmdFlags.
Variables (dataDir configDir : bytes).
Variable open : bytes -> res error credFile.
Variable tempDir : res error bytes.
Variable newClient : bytes -> res error unit.
Variable parses : bytes -> bool.
Variable makeDatabase : bytes -> go (res error db).

Definition flags : opts * go (res error unit) := Credentials.parseFlags parsed dataDir configDir open.

(** The handler is represented by its directory. *)
Definition NewApiReadmeHandler : prog (res error bytes) :=
  match tempDir with
  | Err e => mret (Err e)
  | Ok dir =>
      _ ← emit (MakeTempDir dir);
      match newClient dir with
      | Err e => _ ← emit (RemoveAll dir); mret (Err e)
      | Ok _ => _ ← emit StartClient; mret (Ok dir)
      end
  end.

Definition ApiReadmeHandler_Close (dir : bytes) : list effect := [CloseClient; RemoveAll dir].

(** template.Must and mustAsset panic. *)
Definition loadTemplate (name : bytes) : prog unit :=
  data ← call Panicked (mustAsset name);
  if parses data then mret tt else stop Panicked.

Definition feedAsset : bytes := str "templates/feed.xml".
Definition homepageAsset : bytes := str "templates/homepage.html".

(** From the templates on; ListenAndServe returns an error, which is logged. *)
Definition magneticow_serve (o : opts) : prog unit :=
  _ ← loadTemplate feedAsset;
  _ ← loadTemplate homepageAsset;
  opened ← call Panicked (makeDatabase (o_Database o));
  match opened with
  | Err _ => stop Exited
  | Ok d =>
      _ ← emit (OpenDatabase (o_Database o));
      emit (Serve (Addr o))
  end.

Definition magneticow_main : prog unit :=
  defer [SyncLog]
    match flags with
    | (_, Panic) => stop Panicked
    | (_, Ret (Err _)) => stop Returned
    | (o, Ret (Ok _)) =>
        _ ← emit (SetLevel (verbosityLevel (Z.of_nat (Credentials.Verbosity o))));
        _ ← emit NotifySighup;
        handler ← NewApiReadmeHandler;
        match handler with
        | Err _ => stop Exited
        | Ok dir => defer (ApiReadmeHandler_Close dir) (magneticow_serve o)
        end
    end.

(** MakeDatabase does not panic. *)
Hypothesis opens : forall url, exists r, makeDatabase url = Ret r.

Lemma flags_return : exists r, flags.2 = Ret r.
Proof.
  unfold flags, Credentials.parseFlags. destruct parsed as [f|]; [|by eexists].
  destruct (negb _ && _); [by eexists|]. destruct (fl_NoAuth f); [by eexists|].
  destruct (loadCred_from (fun _ => True) (open (if bool_decide (fl_Cred f = [])
    then Join2 configDir (str "credentials") else fl_Cred f)) ∅ I (from_files_empty _)) as (m & r & -> & _).
  destruct r as [[]|]; by eexists.
Qed.

(** A template that is missing or not understood. *)
Definition bad_template (name : bytes) : Prop :=
  forall data, Asset name = Some data -> parses data = false.

Lemma loadTemplate_spec name :
  loadTemplate name = ([], inr tt) \/ loadTemplate name = ([], inl Panicked) /\ bad_template name.
Proof.
  unfold loadTemplate, mustAsset, bad_template. destruct (Asset name) as [data|]; cbn; [|by right].
  destruct (parses data) eqn:E; [by left|right]. split; [done|]. by intros ? [= <-].
Qed.

Lemma magneticow_serve_spec o :
  let '(es, r) := magneticow_serve o in
  match r with
  | inr _ => es = [OpenDatabase (o_Database o); Serve (Addr o)] /\
             exists d, makeDatabase (o_Database o) = Ret (Ok d)
  | inl Exited => es = [] /\ exists e, makeDatabase (o_Database o) = Ret (Err e)
  | inl Panicked => es = [] /\ (bad_template feedAsset \/ bad_template homepageAsset)
  | inl Returned => False
  end.
Proof.
  unfold magneticow_serve.
  destruct (loadTemplate_spec feedAsset) as [E1|[E1 H1]], (loadTemplate_spec homepageAsset) as [E2|[E2 H2]];
    rewrite E1, ?E2; cbn; [|by auto..].
  destruct (opens (o_Database o)) as [[d|e] ->]; cbn; eauto.
Qed.

(** The theorem below, for any engine. *)
Lemma magneticow_main_spec :
  let '(es, e) := run_main magneticow_main in
  let begin o := [SetLevel (verbosityLevel (Z.of_nat (Credentials.Verbosity o))); NotifySighup] in
  match e with
  | Returned => (exists err, flags.2 = Ret (Err err)) /\ es = [SyncLog] \/
      exists o dir d, flags = (o, Ret (Ok tt)) /\ tempDir = Ok dir /\
        makeDatabase (o_Database o) = Ret (Ok d) /\
        (forall F f, parsed = Ok f -> (forall path, F (open path)) -> fl_NoAuth f = false ->
           server_ok F (start o)) /\
        es = begin o ++ [MakeTempDir dir; StartClient; OpenDatabase (o_Database o); Serve (Addr o);
                         CloseClient; RemoveAll dir; SyncLog]
  | Panicked => exists o dir, flags = (o, Ret (Ok tt)) /\ tempDir = Ok dir /\
      (bad_template feedAsset \/ bad_template homepageAsset) /\
      es = begin o ++ [MakeTempDir dir; StartClient; CloseClient; RemoveAll dir; SyncLog]
  | Exited => exists o, flags = (o, Ret (Ok tt)) /\
      ((exists err, tempDir = Err err) /\ es = begin o \/
       exists dir, tempDir = Ok dir /\
         ((exists err, newClient dir = Err err) /\ es = begin o ++ [MakeTempDir dir; RemoveAll dir] \/
          (exists err, makeDatabase (o_Database o) = Ret (Err err)) /\
          es = begin o ++ [MakeTempDir dir; StartClient]))
  end.
Proof.
  unfold magneticow_main. pose proof magneticow_serve_spec as Hs.
  destruct flags_return as [r Hr]. destruct flags as [o r'] eqn:Ef. specialize (Hs o). cbn in Hr. subst r'. destruct r as [[]|err]; cbn.
  2:{ left. split; [by eexists|done]. }
  unfold NewApiReadmeHandler. destruct tempDir as [dir|err]; cbn.
  2:{ exists o. split; [done|]. left. split; [by eexists|done]. }
  destruct (newClient dir) as [u|err] eqn:Ec; cbn.
  2:{ exists o. split; [done|]. right. exists dir. split; [done|]. left. split; [by eexists|done]. }
  destruct (magneticow_serve o) as [es [[]|[]]]; cbn; [done| | |]; destruct Hs as [-> Hs]; cbn.
  - by exists o, dir.
  - exists o. split; [done|]. right. exists dir. split; [done|]. by right.
  - destruct Hs as [d Hd]. right. exists o, dir, d. split_and!; [done..| |done].
    intros F f Hp HF Hn. unfold flags in Ef. rewrite Hp in Ef. eapply parseFlags_auth; eassumption.
Qed.

(** Which directory it makes. *)
Ltac find_dir Hin :=
  cbn [app] in Hin;
  repeat (apply elem_of_cons in Hin as [Hin|Hin]; [first [discriminate Hin | by injection Hin as ->]|]);
  by apply elem_of_nil in Hin.

Lemma magneticow_made_dir dir :
  MakeTempDir dir ∈ (run_main magneticow_main).1 -> tempDir = Ok dir.
Proof.
  pose proof magneticow_main_spec as H. destruct (run_main magneticow_main) as [es e]. cbn. intros Hin.
  destruct e.
  - destruct H as [[_ ->]|(o & d & x & _ & H & _ & _ & ->)]; find_dir Hin.
  - destruct H as (o & d & _ & H & _ & ->); find_dir Hin.
  - destruct H as (o & _ & [[_ ->]|(d & H & [[_ ->]|[_ ->]])]); find_dir Hin.
Qed.
End Magneticow.

(** ** The programs with the engines of pkg/persistence *)

Section Programs.
Context {RS RP : Driver} `{!SqliteLaws RS} `{!PgLaws RP}.
Local Abbreviation any := (anyDatabase (RS := RS) (RP := RP)).
(** What url.Parse makes of a URL, and what is behind it. *)
Variable parse : bytes -> option URL.
Variable b : backends (RS := RS) (RP := RP).

Definition makeAny (url : bytes) : go (res error (db (Database := any))) :=
  openDatabase (parse url) b url.

Lemma makeAny_returns url : exists r, makeAny url = Ret r.
Proof. apply openDatabase_returns. Qed.

Section Magneticod.
Context `{L : LeechLib} `{!LeechLibLaws L} `{B : MessageCodec} `{N : SockaddrNet}.
Variable userDataDir : bytes.
Variable resolveAddr : bytes -> option UDPAddr.
Variable secret : nat -> option bytes.
Variable socket : nat -> option Z.
Variable bind : Z -> bytes -> Z -> bool.
Variable closing : io (Database := any).
Variable rand : nat -> nat -> option bytes.
Variable resolve : bytes -> option UDPAddr.
Variable id : bytes.
Variable loop : opFlags -> db (Database := any) -> list IndexingService -> looped (D := any).

Definition magneticod : option cmdFlags -> prog unit :=
  magneticod_main (D := any) userDataDir resolveAddr secret socket bind closing makeAny loop.

End Magneticod.

Section Magneticow.
Context {O : Outside}.
Variable parsed : res error Credentials.cmdFlags.
Variables (dataDir configDir : bytes).
Variable open : bytes -> res error credFile.
Variable tempDir : res error bytes.
Variable newClient : bytes -> res error unit.
Variable parses : bytes -> bool.

Definition magneticow : prog unit :=
  magneticow_main (D := any) parsed dataDir configDir open tempDir newClient parses makeAny.

End Magneticow.
End Programs.
