(* ===== verification/System.v ===== *)
(** The programs together: the daemon with an SQLite database, and the web
    interface on the database the daemon has filled. *)

From S2P Require Import Prelude GoLib Sha1 Encoding HttpLib Persistence Sql Keyset TorrentTables Sqlite3 Sqlite3Laws Sqlite3Props Outputs Credentials Web WebProps Leech LeechProps Sink Daemon.
From Stdlib Require Import ZArith Lia.
From stdpp Require Import base list gmap.
Local Open Scope Z_scope.

Section System.
Context {O : Outside} {R : Driver} `{!SqliteLaws R} `{L : LeechLib} `{!LeechLibLaws L}.

(** A row of the table is the entry of its info hash. *)
Lemma row_entry t r :
  wf t -> r ∈ torrent_rows t ->
  sqlite3_torrents t !! tr_info_hash r =
  Some (tr_name r, map file_of (files_of (file_rows t) (tr_id r))).
Proof.
  intros Hw Hr. unfold sqlite3_torrents, torrents_of. apply elem_of_list_to_map_1.
  - change (NoDup (map fst (map (entry (file_rows t)) (torrent_rows t)))). rewrite entry_keys.
    apply (wf_keys t Hw).
  - apply list_elem_of_fmap. by exists r.
Qed.

Lemma filesOf_nonempty info : filesOf info <> [].
Proof.
  unfold filesOf. destruct (i_Files info) as [|f l]; [done|]. rewrite (proj2 (Z.eqb_neq _ _)); [done|].
  rewrite len_cons. pose proof (len_nonneg l). lia.
Qed.

(** The list of files of a row, as the API gives it. *)
Lemma apiFilelist_row c t w row :
  wf t -> row ∈ torrent_rows t -> files_of (file_rows t) (tr_id row) <> [] ->
  exists fs, apiFilelist (D := sqlite3Database) (c, []) t w (infohash_request (tr_info_hash row)) =
      Ret (respondJSON w (json_files fs)) /\
    fs ≡ₚ map file_of (files_of (file_rows t) (tr_id row)).
Proof.
  intros Hw Hr Hne. destruct (GetFiles_row t row Hw Hr) as (fs & Hrun & Hp). exists fs. split; [|done].
  unfold apiFilelist. rewrite decodeInfohash_request. cbn [GetFiles sqlite3Database snd]. rewrite Hrun.
  destruct fs; [|done]. apply Permutation_nil in Hp. by apply fmap_nil_inv in Hp.
Qed.

(** C1. From the network to the page: whatever peers send and however the
    daemon's steps interleave, every torrent that the API lists from a
    database the daemon has filled is named as in metadata whose SHA-1 is the
    info hash shown, and the files that the API gives for it are exactly those
    of the metadata. *)
Theorem site_shows_authentic id max t0 (d : daemon (D := sqlite3Database)) now c w r tq ob on :
  wf t0 -> torrent_rows t0 = [] -> daemon_run (D := sqlite3Database) id max t0 d ->
  paired (ParseQuery (r_RawQuery r)) -> schemaDecode (ParseQuery (r_RawQuery r)) = Ok tq ->
  epoch_ok tq -> order_of tq = Ok ob -> orderOn ob = Ret on -> query_ok (query_of tq) ob ->
  0 <= limit_of tq < 2 ^ 63 -> page_ok tq ->
  exists ms,
    apiTorrents (D := sqlite3Database) now (c, []) (database d) w r =
      Ret (respondJSON w (json_torrents ms)) /\
    Forall (fun m => exists net b md fs, reported net (tm_InfoHash m) b md /\
      tm_Name m = md_Name md /\ tm_NFiles m = len (md_Files md) /\
      apiFilelist (D := sqlite3Database) (c, []) (database d) w (infohash_request (tm_InfoHash m)) =
        Ret (respondJSON w (json_files fs)) /\
      fs ≡ₚ md_Files md) ms.
Proof.
  intros Hw0 He Hrun Hp Hd Hep Ho Hon Hq Hl Hpage.
  pose proof (daemon_run_inv (D := sqlite3Database) id max t0 d Hw0 Hrun) as Hinv.
  assert (wf (database d)) as Hw by apply (di_wf _ _ _ _ Hinv).
  eexists. split; [by eapply apiTorrents_run|].
  apply Forall_forall. intros m Hm. apply list_elem_of_fmap in Hm as (row & -> & Hr%select_subset).
  pose proof (row_entry _ _ Hw Hr) as E.
  destruct (di_db _ _ _ _ Hinv (tr_info_hash row)) as [Hn|[_ (e & Hn & net & b & md & Hrep & ->)]].
  - cbn [torrents sqlite3_laws] in Hn. rewrite E in Hn. exfalso. symmetry in Hn.
    assert (sqlite3_torrents t0 !! tr_info_hash row = None) as Hnone; [|congruence].
    apply torrents_None. rewrite He. apply not_elem_of_nil.
  - cbn [torrents sqlite3_laws] in Hn. rewrite E in Hn. injection Hn as Hname Hfiles.
    destruct (rep_info _ _ _ _ Hrep) as (info & _ & _ & _ & Hf).
    destruct (apiFilelist_row c (database d) w row Hw Hr) as (fs & Hfs & Hperm).
    { intros Hnil. rewrite Hnil in Hfiles. rewrite Hf in Hfiles. by apply (filesOf_nonempty info). }
    exists net, b, md, fs. split_and!; [done..| |done|by rewrite Hperm, Hfiles].
    cbn. unfold n_files, len. by rewrite <- Hfiles, length_map.
Qed.

(** ** A peer that ends the daemon

    validateInfo compares the number of pieces with a total that the metainfo
    package adds up in int64, so sizes that overflow can pass it. *)

(** AddNewTorrent of the SQLite engine fails on a new torrent whose sizes add up
    to 2^63 or more (modulo 2^64), and the event loop ends the process. *)
Lemma onFetched_huge (d : daemon (D := sqlite3Database)) x md ds :
  wf (database d) -> md_InfoHash md ∉ map tr_info_hash (torrent_rows (database d)) ->
  2 ^ 63 <= sum_sizes (md_Files md) mod 2 ^ 64 ->
  onFetched (D := sqlite3Database) x md ds d = Panic.
Proof.
  intros Hw Hih Hsum. unfold onFetched. destruct x as [c o]. cbn [AddNewTorrent sqlite3Database fst snd].
  destruct (run_Add c (md_InfoHash md) (md_Name md) (md_Files md) (database d) o Hw)
    as (t' & c' & r & -> & Hc & Ho).
  change (sum_sizes (md_Files md) mod 2 ^ 64) with (to_u64 (sum_sizes (md_Files md))) in Hsum.
  rewrite <- totalSize_0 in Hsum. destruct Ho as [_ [Hz|Hin]|e _ _|(i & _ & _ & _ & Hlt & _)];
    cbn [committed connect_to] in *; [lia|done|done|lia].
Qed.

(** What a leech reports reaches the event loop, in two steps. *)
Lemma leeched_drained id max t0 (d : daemon (D := sqlite3Database)) a ih peer b md :
  wf t0 -> daemon_run (D := sqlite3Database) id max t0 d ->
  threads (sys d) = a ++ Leeching ih peer :: b -> drain (sink (sys d)) = [] -> leeched id ih md ->
  exists d', daemon_run (D := sqlite3Database) id max t0 d' /\
    rtc (fun d d' => daemon_step (D := sqlite3Database) id d (Ret d')) d d' /\
    drain (sink (sys d')) = [md] /\ database d' = database d /\ stopped d' = stopped d.
Proof.
  intros Hw Hrun Ht Hd Hl.
  pose proof (di_open _ _ _ _ (daemon_run_inv (D := sqlite3Database) id max t0 d Hw Hrun)) as Hopen.
  destruct d as [out [s ts dr] t st]. cbn [sys sink threads] in *. subst ts.
  pose (s' := set_sink [md] (incomingInfoHashes s) (terminated s) (deleted s) s).
  pose (at_ s ts := {| output := out; sys := {| sink := s; threads := ts; drained := dr |};
                       database := t; stopped := st |} : daemon (D := sqlite3Database)).
  change (daemon_run (D := sqlite3Database) id max t0 (at_ s (a ++ Leeching ih peer :: b))) in Hrun.
  assert (daemon_step (D := sqlite3Database) id (at_ s (a ++ Leeching ih peer :: b))
            (Ret (at_ s (a ++ Flushing ih md :: b)))) as H1.
  { pose proof (st_success (leeched id) s a ih peer b dr md Hl) as H. rewrite Hopen in H.
    by apply (d_leech id (at_ s (a ++ Leeching ih peer :: b))) in H. }
  assert (daemon_step (D := sqlite3Database) id (at_ s (a ++ Flushing ih md :: b))
            (Ret (at_ s' (a ++ Flushed ih md :: b)))) as H2.
  { assert (flush_send md s = Ret (Some s')) as Hf by (unfold flush_send, s'; by rewrite Hopen, Hd).
    pose proof (st_send (leeched id) s a ih md b dr _ Hf ltac:(done)) as H.
    by apply (d_leech id (at_ s (a ++ Flushing ih md :: b))) in H. }
  exists (at_ s' (a ++ Flushed ih md :: b)). split; [by eapply dr_step; [eapply dr_step|]|].
  split; [|done]. by eapply rtc_l; [exact H1|]; apply rtc_once.
Qed.

(** C40. A peer can stop the daemon. Let the daemon be running with a leech for an
    info hash that the database does not have, and nothing else waiting to be
    stored. If its peer sends, as in a proper download, metadata with that
    SHA-1 which validateInfo accepts and whose sizes, none of them negative,
    add up to 2^63 or more (modulo 2^64), then the leech reports the metadata,
    they reach the event loop, and the call of AddNewTorrent ends the process. *)
Theorem huge_torrent_fatal id max t0 (d : daemon (D := sqlite3Database)) x a ih peer b net md info r :
  wf t0 -> daemon_run (D := sqlite3Database) id max t0 d -> stopped d = false ->
  threads (sys d) = a ++ Leeching ih peer :: b -> drain (sink (sys d)) = [] ->
  ih ∉ map tr_info_hash (torrent_rows (database d)) ->
  dialErr net = None /\ lingerErr net = None /\ noDelayErr net = None /\ deadlineErr net = None /\
    closeOk net = true ->
  (forall k b, write net k b = (length b, None)) ->
  0 < len md < MAX_METADATA_SIZE -> sha1_sum md = ih -> UnmarshalInfo md = Some info ->
  validateInfo info = None -> forallb (fun f => 0 <=? f_Size f) (filesOf info) = true ->
  2 ^ 63 <= sum_sizes (filesOf info) mod 2 ^ 64 -> serves md r ->
  exists l m d', Do net (NewLeech ih id r) = Done l (Ok tt) /\ events l = [OnSuccess m] /\
    rtc (fun d d' => daemon_step (D := sqlite3Database) id d (Ret d')) d d' /\
    drain (sink (sys d')) = [m] /\ onFetched (D := sqlite3Database) x m [] d' = Panic /\
    daemon_step (D := sqlite3Database) id d' Panic.
Proof.
  intros Hw Hrun Hs Ht Hd Hih Hc Hwr Hsize Hsha Hinfo Hv Hpos Hsum Hr.
  pose proof (daemon_run_inv (D := sqlite3Database) id max t0 d Hw Hrun) as Hinv.
  assert (length ih = 20%nat) as Hlen by (subst ih; apply sha1_sum_length).
  destruct (Do_serves net md Hsize Hwr info ih id Hc Hlen Hsha Hinfo Hv Hpos r Hr) as (l & HDo & He).
  set (m := success net info ih) in *. exists l, m.
  destruct (leeched_drained id max t0 d a ih peer b m Hw Hrun Ht Hd) as (d' & Hrun' & Hsteps & Hdr & Hdb & Hst).
  { exists net, r, l. split_and!; [intros k c; by rewrite Hwr|done|done|]. rewrite He. by left. }
  assert (onFetched (D := sqlite3Database) x m [] d' = Panic) as Hp
    by (apply onFetched_huge; rewrite ?Hdb; [exact (di_wf _ _ _ _ Hinv)|done..]).
  exists d'. split_and!; [done..|]. rewrite <- Hp. apply (d_fetched (D := sqlite3Database) id d' x); [congruence|done].
Qed.
End System.
