(* ===== verification/WebModel.v ===== *)
(** Concrete functions for what the web interface calls outside the repository,
    and the witnesses of the theorems about it. *)

From S2P Require Import Prelude GoLib Sha1 Encoding HttpLib Persistence Sql Keyset TorrentTables GoTime Iso8601 Sqlite3 Sqlite3Laws Sqlite3Props Sqlite3Model Outputs Templates Credentials Web WebProps FeedProps Client Live StatsPage Leech LeechProps Sink Daemon System.
From Stdlib Require Import ZArith Lia.
From Stdlib Require QArith_base.
From stdpp Require Import base list gmap relations.
Local Open Scope Z_scope.

(** ** Numbers: fractions in decimal *)

Definition decimal (s : bytes) : Z :=
  match s with
  | b :: r => if bool_decide (b = Byte.x2d) then - digits_val r else digits_val s
  | [] => 0
  end.

Lemma decimal_of_fmt_d n : decimal (fmt_d n) = n.
Proof.
  unfold fmt_d. destruct (Z.ltb_spec n 0) as [H|H].
  - cbn [decimal]. rewrite bool_decide_eq_true_2 by done. rewrite digits_val_dec; lia.
  - pose proof (dec_digits n H) as Hd. pose proof (dec_nonempty n H) as Hne.
    destruct (dec n) as [|b r] eqn:E; [done|]. cbn [decimal]. rewrite bool_decide_eq_false_2.
    + rewrite <- E. by apply digits_val_dec.
    + intros ->. by apply Forall_cons in Hd as [Hd _].
Qed.

Lemma fmt_d_nonempty n : fmt_d n <> [].
Proof. unfold fmt_d. destruct (Z.ltb_spec n 0); [done|by apply dec_nonempty]. Qed.

Definition fraction_text (v : float64) : bytes :=
  if bool_decide (QArith_base.Qden v = 1%positive) then fmt_d (QArith_base.Qnum v)
  else fmt_d (QArith_base.Qnum v) ++ Byte.x2f :: fmt_d (Z.pos (QArith_base.Qden v)).

Definition parse_fraction (s : bytes) : option float64 :=
  match Cut s Byte.x2f with
  | None => Some (QArith_base.inject_Z (decimal s))
  | Some (a, b) => Some (QArith_base.Qmake (decimal a) (Z.to_pos (decimal b)))
  end.

Lemma parse_fraction_int n : parse_fraction (fmt_d n) = Some (QArith_base.inject_Z n).
Proof.
  unfold parse_fraction. rewrite (proj2 (Cut_None _ _)) by (by apply not_in_fmt_d). by rewrite decimal_of_fmt_d.
Qed.

Lemma parse_fraction_text v : parse_fraction (fraction_text v) = Some v.
Proof.
  destruct v as [n d]. unfold fraction_text. cbn [QArith_base.Qnum QArith_base.Qden].
  case_bool_decide as Hd; [subst; apply parse_fraction_int|].
  unfold parse_fraction. rewrite Cut_app by (by apply not_in_fmt_d). by rewrite !decimal_of_fmt_d.
Qed.

Lemma fraction_text_bytes v : (Byte.x7d ∉ fraction_text v) /\ fraction_text v <> [].
Proof.
  unfold fraction_text. pose proof (fmt_d_nonempty (QArith_base.Qnum v)) as Hn. split.
  - case_bool_decide; [by apply not_in_fmt_d|].
    rewrite elem_of_app, elem_of_cons. intros [H'|[H'|H']]; [|done|];
      revert H'; by apply not_in_fmt_d.
  - case_bool_decide; [done|]. by destruct (fmt_d (QArith_base.Qnum v)).
Qed.

(** ** A decoder of forms *)

Definition field {A} (parse : bytes -> option A) (v : urlValues) (k : bytes) : res error (option A) :=
  match Values_All v k with
  | [] => Ok None
  | [s] => match parse s with Some a => Ok (Some a) | None => Err (ErrText k) end
  | _ => Err (ErrText k)
  end.

Definition res_option {E A} (r : res E A) : option A := match r with Ok a => Some a | Err _ => None end.

Definition parseBool (s : bytes) : option bool :=
  if bool_decide (s = str "true") then Some true
  else if bool_decide (s = str "false") then Some false else None.

Definition model_decode (v : urlValues) : res error torrentsQuery :=
  match field (fun s => res_option (ParseInt10 s 64)) v (str "epoch"), field Some v (str "query"),
        field Some v (str "orderBy"), field parseBool v (str "ascending"),
        field parse_fraction v (str "lastOrderedValue"),
        field (fun s => res_option (ParseUint10 s 64)) v (str "lastID"),
        field (fun s => res_option (ParseUint10 s 64)) v (str "limit") with
  | Ok epoch, Ok query, Ok orderBy, Ok ascending, Ok lov, Ok lid, Ok limit =>
      Ok {| tq_Epoch := epoch; tq_Query := query; tq_OrderBy := orderBy; tq_Ascending := ascending;
            tq_LastOrderedValue := lov; tq_LastID := lid; tq_Limit := limit |}
  | _, _, _, _, _, _, _ => Err (ErrText (str "schema"))
  end.

(** ** A router *)

Definition model_accept (p : pattern) (path : bytes) : option urlValues :=
  match p with
  | Exactly p => if bool_decide (path = p) then Some [] else None
  | Around pre suf =>
      let h := take 40 (drop (length pre) path) in
      if bool_decide (path = pre ++ h ++ suf) && bool_decide (length h = 40%nat) && forallb hash_char h
      then Some [(str "infohash", h)] else None
  | PathPrefix p => if bool_decide (path = p ++ drop (length p) path) then Some [] else None
  end.

Lemma model_accept_ok p path v : model_accept p path = Some v -> accepts p path v.
Proof.
  destruct p as [p|pre suf|p]; cbn [model_accept].
  - case_bool_decide; [|done]. intros [= <-]. subst. constructor.
  - set (h := take 40 _). clearbody h. destruct (bool_decide (path = _)) eqn:E1; [|done].
    destruct (bool_decide (length h = _)) eqn:E2; [|done]. destruct (forallb hash_char h) eqn:E3; [|done].
    intros [= <-]. apply bool_decide_eq_true in E1 as ->. apply bool_decide_eq_true in E2.
    constructor; [done|]. apply Forall_forall. intros b Hb. rewrite forallb_forall in E3.
    by apply E3, list_elem_of_In.
  - case_bool_decide as H; [|done]. intros [= <-]. rewrite H. constructor.
Qed.

Fixpoint model_dispatch (ps : list pattern) (path : bytes) : option (nat * urlValues) :=
  match ps with
  | [] => None
  | p :: ps =>
      match model_accept p path with
      | Some v => Some (0%nat, v)
      | None => '(i, v) ← model_dispatch ps path; Some (S i, v)
      end
  end.

Lemma model_dispatch_ok ps path i v :
  model_dispatch ps path = Some (i, v) -> exists p, ps !! i = Some p /\ accepts p path v.
Proof.
  revert i. induction ps as [|p ps IH]; intros i H; cbn [model_dispatch] in H; [done|].
  destruct (model_accept p path) as [v'|] eqn:E.
  - injection H as <- <-. exists p. split; [done|by apply model_accept_ok].
  - destruct (model_dispatch ps path) as [[j v']|]; [|done]. injection H as <- <-. by apply IH.
Qed.

(** The canonical form of a path. *)
Fixpoint segments (seg s : bytes) : list bytes :=
  match s with
  | [] => [seg]
  | c :: s => if bool_decide (c = Byte.x2f) then seg :: segments [] s else segments (seg ++ [c]) s
  end.

Definition clean_segment (acc : list bytes) (seg : bytes) : list bytes :=
  if bool_decide (seg = [] \/ seg = str ".") then acc
  else if bool_decide (seg = str "..") then removelast acc else acc ++ [seg].

Definition model_redirect (r : Request) : option bytes :=
  if canonical (r_Path r) then None
  else Some (str "/" ++ Client.join Byte.x2f (foldl clean_segment [] (segments [] (r_Path r)))).

Lemma model_redirect_unclean r : is_Some (model_redirect r) <-> canonical (r_Path r) = false.
Proof. unfold model_redirect. destruct (canonical _); split; [by intros [? ?]|done|done|by eexists]. Qed.

Definition model_outside : Outside := {|
  explain _ s := s;
  driverText n := fmt_d n;
  Sprintf f a := f ++ concat a;
  json_float := fraction_text;
  schemaDecode := model_decode;
  redirect := model_redirect;
  redirect_unclean := model_redirect_unclean;
  dispatch := model_dispatch;
  dispatch_accepts := model_dispatch_ok;
  CompareHashAndPassword := wit_compare;
  Asset name := Some name;
  Comma := fmt_d;
  DetectContentType _ := str "text/plain";
  AddMagnet _ := Ok {| m_GotInfo := false; m_Files := [] |};
  CodePage437 s := Ok s |}.

Definition model_js : Js := {| parseNumber := parse_fraction; numberText := fraction_text |}.

Lemma ParseUint10_fmt_d n : 0 <= n < 2 ^ 64 -> ParseUint10 (fmt_d n) 64 = Ok n.
Proof.
  intros Hn. unfold fmt_d. rewrite (proj2 (Z.ltb_ge n 0)) by lia. unfold ParseUint10.
  rewrite bool_decide_eq_false_2 by (apply dec_nonempty; lia).
  assert (forallb is_digit (dec n) = true) as ->.
  { apply forallb_forall. intros x Hx%list_elem_of_In. pose proof (dec_digits n ltac:(lia)) as Hd.
    rewrite Forall_forall in Hd. by apply Hd. }
  rewrite digits_val_dec by lia. cbn. by rewrite (proj2 (Z.ltb_lt _ _)) by lia.
Qed.

#[global] Instance model_js_laws : JsLaws model_outside model_js.
Proof.
  split.
  - intros v _. split; [apply parse_fraction_text|apply fraction_text_bytes].
  - intros n _. apply parse_fraction_int.
  - intros v _. apply fraction_text_bytes.
  - intros q e pos ob asc He Hpos Hob. exists q. split; [done|].
    change (model_decode (present (pageData (J := model_js) q e pos ob asc)) = Ok (pageQuery q e pos ob asc)).
    set (l := present _).
    assert (Values_All l (str "epoch") = [fmt_d e] /\ Values_All l (str "query") = option_list q /\
      Values_All l (str "orderBy") = [ob] /\ Values_All l (str "ascending") = option_list (boolText <$> asc) /\
      Values_All l (str "lastOrderedValue") = option_list ((fun k => fraction_text k.1) <$> pos) /\
      Values_All l (str "lastID") = option_list ((fun k => fmt_d k.2) <$> pos) /\
      Values_All l (str "limit") = []) as (H1 & H2 & H3 & H4 & H5 & H6 & H7)
      by (destruct pos, q, asc; done).
    unfold model_decode, field. rewrite H1, H2, H3, H4, H5, H6, H7, ParseInt10_fmt_d by lia.
    destruct pos as [[v id]|]; cbn [option_list fmap option_fmap option_map fst snd].
    + destruct (Hpos _ eq_refl) as [_ Hid]. cbn [snd] in Hid.
      change (option_list (Some (fraction_text v))) with [fraction_text v].
      change (option_list (Some (fmt_d id))) with [fmt_d id]. cbn iota.
      rewrite parse_fraction_text, ParseUint10_fmt_d by lia. by destruct q, asc as [[]|].
    + by destruct q, asc as [[]|].
Qed.

(** ** Witnesses *)

Definition wit_files (path : res error credFile) : Prop := path = wit_open [].

Lemma site_protected_witness :
  let s := start (wit_opts false) in
  let answer := router_ServeHTTP (O := model_outside) (D := sqlite3Database (R := sqlite_model))
    1600000000 (1600000000, []) one_torrent (creds s) newResponse wit_request in
  answered s wit_request /\
  (answer = Ret (authenticate newResponse (str "magneticow")) \/ answer = Ret (NotFound newResponse) \/
   (canonical (r_Path wit_request) = false /\ exists location, answer = Ret (movedPermanently newResponse location)) \/
   (exists user password hash,
      Request_BasicAuth wit_request = Some (user, password) /\ listed wit_files user hash /\
      wit_compare hash password = true) \/
   (exists h v, length h = 40%nat /\ r_Path wit_request = str "/api/v0.1/torrents/" ++ h ++ str "/readme" /\
      answer = apiReadme (O := model_outside) (D := sqlite3Database (R := sqlite_model))
                 (1600000000, []) one_torrent newResponse (with_vars wit_request v))).
Proof.
  apply (site_protected (O := model_outside) (D := sqlite3Database (R := sqlite_model)) wit_files
    (wit_flags false) (str "/data") (str "/config") wit_open (wit_opts false) (start (wit_opts false))
    1600000000 (1600000000, []) one_torrent newResponse wit_request).
  - reflexivity.
  - exact wit_parsed.
  - reflexivity.
  - apply rtc_refl.
Defined.

Definition wit_get (rawQuery : bytes) : Request :=
  {| r_Path := str "/api/v0.1/torrents"; r_RawQuery := rawQuery; r_Authorization := []; r_Vars := [] |}.

Definition wit_tq (orderBy : option bytes) : torrentsQuery :=
  {| tq_Epoch := None; tq_Query := None; tq_OrderBy := orderBy; tq_Ascending := None;
     tq_LastOrderedValue := None; tq_LastID := None; tq_Limit := None |}.

Lemma apiTorrents_panics_witness :
  apiTorrents (O := model_outside) (D := sqlite3Database (R := sqlite_model)) 1600000000 (1600000000, [])
    one_torrent newResponse (wit_get (str "orderBy=N_SEEDERS")) = Panic.
Proof.
  apply (apiTorrents_panics (O := model_outside) (R := sqlite_model) 1600000000 (1600000000, []) one_torrent
    newResponse (wit_get (str "orderBy=N_SEEDERS")) (wit_tq (Some (str "N_SEEDERS")))).
  - split; reflexivity.
  - vm_compute. reflexivity.
  - intros e. discriminate.
  - reflexivity.
  - left. exists (str "N_SEEDERS"). split; [reflexivity|]. right. left.
Defined.

Lemma one_torrent_wf : wf one_torrent.
Proof.
  destruct (run_Add (R := sqlite_model) 1500000000 hash_a ubuntu files_a (empty_mem 3) [] empty_mem_wf)
    as (t' & c' & r & H & Hc & Ho).
  rewrite one_torrent_run in H. injection H as <- <-.
  inversion Ho as [Hs Hwhy| |Hadd]; subst; cbn [committed connect_to] in *.
  - destruct Hwhy as [Hz|Hin]; [by vm_compute in Hz|inversion Hin].
  - rewrite Hc in Hadd. by eapply added_wf, Hadd; [apply empty_mem_wf].
Qed.

Lemma client_shows_all_witness :
  let page := load_all (J := model_js)
    (site (O := model_outside) (R := sqlite_model) 1600000000 1600000000 one_torrent) 2
    (onload (Some ubuntu) 1600000000) in
  c_more page = false /\ map js_name (c_shown page) = [ubuntu].
Proof.
  destruct (client_shows_all (O := model_outside) (J := model_js) (R := sqlite_model)
    1600000000 1600000000 one_torrent (Some ubuntu) 1600000000 one_torrent_wf) with (n := 2%nat) as [H1 H2].
  - split; reflexivity.
  - reflexivity.
  - assert (results (R := sqlite_model) one_torrent (Some ubuntu) 1600000000 =
      [new_row 1 hash_a ubuntu 10 1500000000]) as -> by (vm_compute; reflexivity).
    apply Forall_singleton. split_and!; [vm_compute; reflexivity|discriminate|discriminate|discriminate|].
    intros _. change (double (QArith_base.inject_Z (-1))). apply double_int. discriminate.
  - vm_compute. lia.
  - split; [exact H1|]. cbv zeta. rewrite H2. vm_compute. reflexivity.
Defined.

Lemma feed_shows_recent_witness :
  exists w, feedHandler (O := model_outside) (D := sqlite3Database (R := sqlite_model)) 1600000000
      (1600000000, []) one_torrent newResponse (wit_get (str "query=ubuntu")) = Ret w /\
    w_status w = Some 200 /\
    readChannel (w_body w) =
    Some (str "`ubuntu` - magneticow", [(ubuntu, hash_a, ubuntu, str "urn:btih:" ++ bytesToHex hash_a)]).
Proof.
  apply (feed_shows_recent (O := model_outside) (R := sqlite_model) 1600000000 1600000000 one_torrent
    (wit_get (str "query=ubuntu")) ubuntu one_torrent_wf).
  - right. reflexivity.
  - right. reflexivity.
Defined.

(** A second torrent arrives between the two requests. *)
Definition two_torrents : tables (Driver := sqlite_model) :=
  (run (R := sqlite_model) (sqlite3_AddNewTorrent 1600000150 (replicate 20 Byte.x62) (str "debian") files_a)
     one_torrent []).1.

Lemma client_live_witness :
  let page := load_live (J := model_js)
    (map (fun m => site (O := model_outside) (R := sqlite_model) m.1 m.1 m.2)
       [(1600000100, one_torrent); (1600000200, two_torrents)]) (onload None 1600000000) in
  c_more page = false /\ map js_name (c_shown page) = [ubuntu].
Proof.
  destruct (client_live (O := model_outside) (J := model_js) (R := sqlite_model) None 1600000000 eq_refl)
    with (t0 := one_torrent) (moments := [(1600000100, one_torrent); (1600000200, two_torrents)]) as [H1 H2].
  - split; reflexivity.
  - apply one_torrent_wf.
  - assert (results (R := sqlite_model) one_torrent None 1600000000 =
      [new_row 1 hash_a ubuntu 10 1500000000]) as -> by (vm_compute; reflexivity).
    apply Forall_singleton. split_and!; [vm_compute; reflexivity|discriminate|discriminate|discriminate|discriminate].
  - cbn [evolves]. split_and!; [apply rtc_refl| |exact I]. apply rtc_once.
    exists 1600000150, (replicate 20 Byte.x62), (str "debian"), files_a, [], (Ret (Ok tt)).
    split; [reflexivity|vm_compute; reflexivity].
  - vm_compute. lia.
  - split; [exact H1|]. cbv zeta. rewrite H2. vm_compute. reflexivity.
Defined.

Lemma stored_then_served_witness :
  apiTorrent (O := model_outside) (D := sqlite3Database (R := sqlite_model)) (1500000000, []) (empty_mem 3)
    newResponse (infohash_request hash_a) =
    Ret (respondError (O := model_outside) newResponse 404 (str "not found") []) /\
  exists t' fs, run (R := sqlite_model) (sqlite3_AddNewTorrent 1500000000 hash_a ubuntu files_a) (empty_mem 3) [] =
      (t', Ret (Ok tt)) /\
    apiFilelist (O := model_outside) (D := sqlite3Database (R := sqlite_model)) (1500000000, []) t'
      newResponse (infohash_request hash_a) = Ret (respondJSON newResponse (json_files fs)) /\
    (fs ≡ₚ files_a).
Proof.
  destruct (stored_then_served (O := model_outside) (R := sqlite_model) 1500000000 hash_a ubuntu files_a
    (empty_mem 3) newResponse empty_mem_wf (not_full_empty 3)) as (H1 & _ & t' & fs & H2 & _ & _ & H3 & H4).
  - intros H. inversion H.
  - vm_compute. split; reflexivity.
  - vm_compute. split; [reflexivity|discriminate].
  - split; [exact H1|]. exists t', fs. split_and!; [exact H2|exact H3|exact H4].
Defined.

(** A torrent with a readme. *)
Definition readme_outside : Outside := {|
  explain := explain (Outside := model_outside);
  driverText := driverText (Outside := model_outside);
  Sprintf := Sprintf (Outside := model_outside);
  json_float := json_float (Outside := model_outside);
  schemaDecode := schemaDecode (Outside := model_outside);
  redirect := model_redirect;
  redirect_unclean := model_redirect_unclean;
  dispatch := dispatch (Outside := model_outside);
  dispatch_accepts := dispatch_accepts (Outside := model_outside);
  CompareHashAndPassword := wit_compare;
  Asset _ := None;
  Comma := fmt_d;
  DetectContentType _ := str "text/plain";
  AddMagnet _ := Ok {| m_GotInfo := true; m_Files :=
    [{| t_Path := str "a.iso"; t_Length := 7; t_Read := Ok (str "1234567") |};
     {| t_Path := str "readme"; t_Length := 3; t_Read := Ok (str "hi" ++ [Byte.x00]) |}] |};
  CodePage437 s := Ok s |}.

Definition readme_files : list File := [{| f_Size := 3; f_Path := str "readme" |}].

Definition readme_db : Database := {|
  db := unit; io := unit; Engine _ := Sqlite3;
  DoesTorrentExist _ _ _ := Ret (Ok true);
  AddNewTorrent _ d _ _ _ := (d, Ret (Ok tt));
  Close _ _ := Ret (Ok tt);
  GetNumberOfTorrents _ _ := Ret (Ok 1);
  QueryTorrents _ _ _ _ _ _ _ _ _ := Ret (Ok []);
  GetTorrent _ _ _ := Ret (Ok None);
  GetFiles _ _ _ := Ret (Ok readme_files);
  GetStatistics _ _ _ _ := Ret (Ok NewStatistics) |}.

Lemma readme_served_witness :
  exists w t f before after,
    apiReadme (O := readme_outside) (D := readme_db) tt tt newResponse (infohash_request hash_a) = Ret w /\
    w_body w = str "hi" /\ m_Files t = before ++ f :: after /\ isReadme (t_Path f) = true /\ t_Length f <= 51200.
Proof.
  set (w := Write (Header_Set newResponse (str "Content-Type") (str "text/plain;charset=UTF-8")) (str "hi")).
  assert (apiReadme (O := readme_outside) (D := readme_db) tt tt newResponse (infohash_request hash_a) = Ret w)
    as H by (vm_compute; reflexivity).
  destruct (readme_served (O := readme_outside) (D := readme_db) tt tt (infohash_request hash_a) w H eq_refl)
    as (ih & files & t & f & content & text & n & _ & _ & _ & Ht & Hf & [_ Hl] & _).
  destruct Hf as [(before & after & E & Hf & _)|[Hall _]].
  - exists w, t, f, before, after. split_and!; [exact H|reflexivity|exact E|exact Hf|exact Hl].
  - exfalso. injection Ht as <-. apply Forall_cons in Hall as [_ Hall]. apply Forall_cons in Hall as [Hf _].
    vm_compute in Hf. discriminate Hf.
Defined.

(** The daemon over SQLite, after the download of LeechProps' witness. *)
Definition filled : tables (Driver := sqlite_model) :=
  (run (R := sqlite_model) (sqlite3_AddNewTorrent 1700000000 wit_ih (str "test") (md_Files wit_success))
     (empty_mem 3) []).1.

Lemma filled_run :
  daemon_run (D := sqlite3Database (R := sqlite_model)) (L := bencode_lib) wit_cid 3 (empty_mem 3)
    (wit_daemon (D := sqlite3Database (R := sqlite_model)) [] (wit_s []) [Flushed wit_ih wit_success] [wit_success] filled).
Proof.
  apply (wit_run (D := sqlite3Database (R := sqlite_model)) (1700000000, []));
    vm_compute; reflexivity.
Qed.

Lemma site_shows_authentic_witness :
  exists ms,
    apiTorrents (O := model_outside) (D := sqlite3Database (R := sqlite_model)) 1800000000 (1800000000, [])
      filled newResponse (wit_get []) =
      Ret (respondJSON newResponse (json_torrents (O := model_outside) ms)) /\
    Forall (fun m => exists net b md fs, reported (L := bencode_lib) net (tm_InfoHash m) b md /\
      tm_Name m = md_Name md /\ tm_NFiles m = len (md_Files md) /\
      apiFilelist (O := model_outside) (D := sqlite3Database (R := sqlite_model)) (1800000000, []) filled newResponse
        (infohash_request (tm_InfoHash m)) = Ret (respondJSON newResponse (json_files fs)) /\
      fs ≡ₚ md_Files md) ms.
Proof.
  apply (site_shows_authentic (O := model_outside) (R := sqlite_model) (L := bencode_lib) wit_cid 3 (empty_mem 3)
    _ 1800000000 1800000000 newResponse (wit_get []) (wit_tq None) ByDiscoveredOn (str "discovered_on")
    empty_mem_wf eq_refl filled_run).
  - split; reflexivity.
  - reflexivity.
  - intros e. discriminate.
  - reflexivity.
  - reflexivity.
  - left. split; [reflexivity|discriminate].
  - split; [discriminate|reflexivity].
  - split; [reflexivity|]. intros id. discriminate.
Defined.

(** Three files of 2^62 bytes and no pieces: the total wraps around to -2^62, and
    a piece length of 2^62 makes that no pieces. *)
Definition huge_md : bytes :=
  str "d5:filesld6:lengthi4611686018427387904e4:pathl1:aeed6:lengthi4611686018427387904e4:pathl1:beed6:lengthi4611686018427387904e4:pathl1:ceee4:name4:huge12:piece lengthi4611686018427387904e6:pieces0:e".
Definition huge_ih : bytes := Eval vm_compute in sha1_sum huge_md.
Definition huge_info : Info :=
  {| i_Name := str "huge"; i_Length := 0; i_Pieces := []; i_PieceLength := 2 ^ 62;
     i_Files := map (fun p => {| fi_Length := 2 ^ 62; fi_Path := [p] |}) [str "a"; str "b"; str "c"] |}.

Definition huge_root : bytes :=
  str "d1:md11:ut_metadatai3ee13:metadata_sizei" ++ fmt_d (len huge_md) ++ str "ee".
Definition huge_rest : bytes :=
  stream [wit_have] ++ framed (Byte.x14 :: Byte.x01 :: str "d8:msg_typei1e5:piecei0ee" ++ huge_md) ++ [].
Definition huge_rx : bytes :=
  wit_h ++ stream [[]] ++ framed (Byte.x14 :: Byte.x00 :: huge_root) ++ huge_rest.

Lemma huge_serves : serves (L := bencode_lib) huge_md huge_rx.
Proof.
  apply (serves_all huge_md wit_h [[]] huge_root 3 huge_rest wit_h_ok);
    [constructor; [by vm_compute|constructor]|constructor; [done|constructor]|by vm_compute|lia|by vm_compute|].
  apply sends_piece; [done|..].
  - constructor; [|constructor]. by vm_compute.
  - constructor; [|constructor]. by vm_compute.
  - by vm_compute.
  - by vm_compute.
  - apply sends_end. by vm_compute.
Qed.

(** The daemon after it has learned of the torrent. *)
Definition huge_daemon : daemon (D := sqlite3Database (R := sqlite_model)) :=
  wit_daemon (D := sqlite3Database (R := sqlite_model)) [] (sink_of huge_ih []) [Leeching huge_ih (wit_peer 1)] []
    (empty_mem 3).

Lemma huge_daemon_run :
  daemon_run (D := sqlite3Database (R := sqlite_model)) (L := bencode_lib) wit_cid 3 (empty_mem 3) huge_daemon.
Proof.
  apply (wit_started_run (D := sqlite3Database (R := sqlite_model)) huge_ih (1700000000, [])); reflexivity.
Qed.

Lemma huge_torrent_fatal_witness :
  exists d', rtc (fun d d' => daemon_step (D := sqlite3Database (R := sqlite_model)) (L := bencode_lib) wit_cid d (Ret d'))
      huge_daemon d' /\
    daemon_step (D := sqlite3Database (R := sqlite_model)) (L := bencode_lib) wit_cid d' Panic.
Proof.
  destruct (huge_torrent_fatal (R := sqlite_model) (L := bencode_lib) wit_cid 3 (empty_mem 3) huge_daemon
    (1700000000, []) [] huge_ih (wit_peer 1) [] wit_net huge_md huge_info huge_rx empty_mem_wf huge_daemon_run)
    as (l & m & d' & _ & _ & Hs & _ & _ & Hp).
  - reflexivity.
  - reflexivity.
  - reflexivity.
  - apply not_elem_of_nil.
  - exact wit_connected.
  - exact wit_writable.
  - split; vm_compute; reflexivity.
  - vm_compute. reflexivity.
  - vm_compute. reflexivity.
  - vm_compute. reflexivity.
  - vm_compute. reflexivity.
  - vm_compute. discriminate.
  - exact huge_serves.
  - exists d'. split; [exact Hs|exact Hp].
Defined.
