(* ===== verification/PageModel.v ===== *)
(** A concrete browser, and the witnesses of the theorems on the page of a
    torrent and on the page of the statistics. *)

From S2P Require Import Prelude GoLib GoTime Iso8601 Encoding HttpLib Persistence Sql TorrentTables Sqlite3 Sqlite3Laws Sqlite3Props Sqlite3Model Outputs Credentials Web WebProps Client StatsPage StatsPlot Dom FileTree Humanise TorrentPage WebModel.
From Stdlib Require Import ZArith Lia.
From Stdlib Require QArith_base.
From stdpp Require Import base list gmap.
Local Open Scope Z_scope.

(** ** Selectors and markup *)

Definition model_query (selector : bytes) (n : node) : option (list position) :=
  match selector with
  | Byte.x5b :: r =>
      '(name, r) ← Cut r Byte.x3d; Some (select_all (has_attr name (take (length r - 3) (drop 1 r))) n)
  | Byte.x2e :: c => Some (select_all (has_class c) n)
  | t => Some (select_all (is_tag t) n)
  end.

Definition model_item (s : bytes) : option (list node) :=
  r ← CutPrefix (str "<li class=" ++ [Byte.x22]) s;
  '(c, r) ← Cut r Byte.x22;
  '(_, r) ← Cut r Byte.x3e;
  '(s, _) ← Cut r Byte.x3c;
  Some [Element (str "li") [(str "class", c)] (text_nodes s)].

Definition model_sized (s : bytes) : option (list node) :=
  '(s, r) ← Cut s Byte.x26;
  '(_, r) ← Cut r Byte.x3e;
  '(t, _) ← Cut r Byte.x3c;
  Some (text_nodes (s ++ emsp) ++ [Element (str "tt") [] (text_nodes t)]).

Definition model_html (s : bytes) : list node :=
  match model_item s with
  | Some l => l
  | None => default (text_nodes s) (model_sized s)
  end.

Definition model_browser : Browser := {|
  querySelectorAll := model_query; parseHTML := model_html; random n := str "0." ++ fmt_d (Z.of_nat n) |}.

Lemma plain_not s b : Forall plain s -> ~ plain b -> b ∉ s.
Proof. rewrite Forall_forall. intros H Hb Hin. by apply Hb, H. Qed.

Lemma no_item s : head s <> Some Byte.x3c -> model_item s = None.
Proof.
  intros H. unfold model_item, CutPrefix. destruct s as [|b s]; [done|].
  change (str "<li class=" ++ [Byte.x22]) with (Byte.x3c :: (str "li class=" ++ [Byte.x22])).
  rewrite bool_decide_eq_false_2; [done|]. intros E. apply (f_equal head) in E. by apply H.
Qed.

#[global] Instance model_browser_laws : BrowserLaws model_browser.
Proof.
  assert (~ plain Byte.x3c /\ ~ plain Byte.x22 /\ ~ plain Byte.x26) as (N1 & N2 & N3) by (split_and!; decide_bytes).
  assert (forall s, Forall plain s -> head s <> Some Byte.x3c) as Hhead.
  { intros [|b s] H; [done|]. apply Forall_cons in H as [Hb _]. intros [= ->]. done. }
  split; cbn [querySelectorAll parseHTML model_browser].
  - intros name value n Hname Hvalue. unfold model_query, attrSelector. change (str "[" ++ ?x) with (Byte.x5b :: x).
    cbn iota. change (str "=" ++ ?x) with (Byte.x3d :: x). rewrite Cut_app.
    + cbn [mbind option_bind]. unfold quoted. do 4 f_equal.
      change (drop 1 (([Byte.x22] ++ value ++ [Byte.x22]) ++ str "]")) with ((value ++ [Byte.x22]) ++ str "]").
      rewrite <- (app_assoc value). apply take_app_length'. rewrite !length_app.
      change (length (str "]")) with 1%nat. cbn [length]. lia.
    + intros H. destruct name as [|b name]; [done|]. apply andb_prop in Hname as [_ Hname].
      rewrite forallb_forall in Hname. by apply list_elem_of_In, Hname in H.
  - intros t n Ht. destruct t as [|b t]; [done|]. apply andb_prop in Ht as [Hb _]. unfold model_query. by destruct b.
  - done.
  - intros s Hs. unfold model_html. rewrite no_item by auto. unfold model_sized.
    by rewrite (proj2 (Cut_None s Byte.x26)) by (by apply plain_not).
  - intros s t Hs Ht. unfold model_html. rewrite no_item.
    + unfold model_sized. change (str "&emsp;<tt>" ++ ?x) with (Byte.x26 :: (str "emsp;<tt" ++ Byte.x3e :: x)).
      rewrite Cut_app by (by apply plain_not). cbn [mbind option_bind]. rewrite Cut_app by decide_bytes.
      cbn [mbind option_bind]. change (str "</tt>") with (Byte.x3c :: str "/tt>").
      by rewrite Cut_app by (by apply plain_not).
    + destruct s as [|b s]; [done|]. by apply (Hhead (b :: s)).
  - intros c s Hc Hs. unfold model_html, model_item, quoted.
    replace (str "<li class=" ++ ([Byte.x22] ++ c ++ [Byte.x22]) ++ str ">" ++ s ++ str "</li>")
      with ((str "<li class=" ++ [Byte.x22]) ++ c ++ Byte.x22 :: ([] ++ Byte.x3e :: (s ++ Byte.x3c :: str "/li>")))
      by (by rewrite <- !app_assoc).
    rewrite CutPrefix_app. cbn [mbind option_bind]. rewrite Cut_app by (by apply plain_not). cbn [mbind option_bind].
    rewrite Cut_app by apply not_elem_of_nil. cbn [mbind option_bind]. by rewrite Cut_app by (by apply plain_not).
Qed.

(** ** The router *)

Lemma model_accept_complete p path v : accepts p path v -> model_accept p path = Some v.
Proof.
  intros [q|pre suf h Hl Hh|q s]; cbn [model_accept].
  - by rewrite bool_decide_eq_true_2.
  - rewrite drop_app_length, take_app_length' by done.
    rewrite !bool_decide_eq_true_2 by done. cbn [andb]. rewrite (proj2 (forallb_forall _ _)); [done|].
    intros b Hb%list_elem_of_In. rewrite Forall_forall in Hh. by apply Hh.
  - by rewrite drop_app_length, bool_decide_eq_true_2.
Qed.

#[global] Instance model_mux : MuxLaws model_outside.
Proof.
  intros ps path i p v. cbn [dispatch model_outside]. revert i. induction ps as [|q ps IH]; intros i Hi Ha Hno; [done|].
  cbn [model_dispatch]. destruct i as [|i].
  - injection Hi as ->. by rewrite (model_accept_complete p path v).
  - destruct (model_accept q path) as [w|] eqn:E.
    + apply model_accept_ok in E. exfalso. by apply (Hno 0%nat q w); [lia| |].
    + rewrite (IH i); [done..|]. intros j r w Hj Hr. apply (Hno (S j) r w); [lia|done].
Qed.

(** ** Witnesses *)

(** A torrent with a directory. *)
Definition files_b : list File :=
  [{| f_Size := 1048576; f_Path := str "disc/a.iso" |}; {| f_Size := 10; f_Path := str "disc/docs/README" |}].

Definition page_b (t : tables (Driver := sqlite_model)) : page :=
  onload (J := model_js) (zone := utc) (B := model_browser)
    (siteFetch (O := model_outside) (R := sqlite_model) 1600000000 1600000000 t None [] (fun _ => []) [])
    (str "/torrents/" ++ EncodeToString hash_a).

Lemma torrent_page_witness :
  exists t' tree,
    run (R := sqlite_model) (sqlite3_AddNewTorrent 1524324600 hash_a ubuntu files_b) (empty_mem 3) [] = (t', Ret (Ok tt)) /\
    p_title (page_b t') = str "ubuntu - magneticow" /\
    v_discoveredOnHumanised <$> p_main (page_b t') = Some (str "21/04/2018") /\
    p_tree (page_b t') = Some (tree, true) /\
    shown tree ≡ₚ
      [([str "disc"; str "disc/a.iso"],
        [Text (str "a.iso" ++ emsp); Element (str "tt") [] [Text (str "1024.0 KiB")]]);
       ([str "disc"; str "disc/docs"; str "disc/docs/README"],
        [Text (str "README" ++ emsp); Element (str "tt") [] [Text (str "0.1 KiB")]]);
       ([str "disc"], [Text (str "disc")]);
       ([str "disc"; str "disc/docs"], [Text (str "docs")])] /\
    p_readme (page_b t') = Some (str "Error: 404").
Proof.
  destruct (torrent_page (O := model_outside) (J := model_js) (R := sqlite_model) (zone := utc) (B := model_browser)
    1524324600 1600000000 hash_a ubuntu files_b (empty_mem 3) None [] (fun _ => []) []
    empty_mem_wf (not_full_empty 3)) as (t' & tree & H1 & H2 & H3 & H4 & H5 & H6).
  - intros H. inversion H.
  - vm_compute. split; [reflexivity|discriminate].
  - reflexivity.
  - reflexivity.
  - vm_compute. split; [reflexivity|discriminate].
  - vm_compute. discriminate.
  - repeat constructor; try discriminate; decide_bytes.
  - split; decide_bytes.
  - exact I.
  - exists t', tree. split_and!; [exact H1|exact H2|unfold page_b; rewrite H3; vm_compute; reflexivity|exact H4| |].
    + etransitivity; [exact H5|]. apply Permutation_refl'. vm_compute. reflexivity.
    + unfold page_b. rewrite H6. vm_compute in H1. injection H1 as <-. vm_compute. reflexivity.
Defined.

Lemma tree_stops_witness :
  (showFiles (B := model_browser) (default {| t_tree := Text []; t_placeholder := []; t_leafs := ∅; t_random := 0 |}
      match newTree (B := model_browser) (str "Loading...") with Ret t => Some t | Panic => None end)
    [viewed {| f_Size := 1; f_Path := str "a<b" |}; viewed {| f_Size := 1; f_Path := str "c" |}]).2 = false.
Proof.
  refine (proj1 (tree_stops (B := model_browser) _ [] (viewed {| f_Size := 1; f_Path := str "a<b" |})
    [viewed {| f_Size := 1; f_Path := str "c" |}] _)).
  decide_bytes.
Defined.

(** One mebibyte. *)
Lemma fileSize_accurate_witness :
  fileSize (QArith_base.inject_Z 1048576) = str "1024.0 KiB" /\
  exists j unit v, byteUnits !! j = Some unit /\
    fileSize (QArith_base.inject_Z 1048576) = fmt_d (v / 10) ++ str "." ++ fmt_d (v mod 10) ++ unit.
Proof.
  split; [vm_compute; reflexivity|].
  destruct (fileSize_accurate 1048576) as (j & unit & v & H1 & H2 & _).
  - split; discriminate.
  - exists j, unit, v. split; [exact H1|exact H2].
Defined.

(** The last 24 hours, asked for at 2018-04-21T15:30:00Z. *)
Lemma statistics_page_witness :
  exists q, statsQuery 1524324600000 (Some 24) (str "hours") = Ret q /\
    exists w p, apiStatistics (O := model_outside) (D := sqlite3Database (R := label_driver))
        (1524324600, []) tt newResponse (stats_request q) = Ret w /\
      onanswer (J := model_js) (default 200 (w_status w)) (w_body w) = (None, Some p) /\
      points (pl_nDiscovered p) ≡ₚ [(str "2018-04-20T16", QArith_base.inject_Z 1)].
Proof.
  destruct (statistics_page (O := model_outside) (J := model_js) (R := label_driver) 1524324600000 24 (str "hours")
    3600 Hour tt) as (q & from & to & Hq & _ & _ & _ & H).
  - left. split_and!; reflexivity.
  - split; reflexivity.
  - intros _. discriminate.
  - split; [discriminate|reflexivity].
  - exists q. split; [exact Hq|].
    destruct (H [(str "2018-04-20T16", 10, 1, 2)]) as (w & p & H1 & H2 & H3 & _).
    + reflexivity.
    + apply NoDup_singleton.
    + apply Forall_singleton. split_and!; (reflexivity || discriminate).
    + exists w, p. split_and!; [exact H1|exact H2|exact H3].
Defined.
