(* ===== verification/MainModel.v ===== *)
(** Closed runs of both programs: an indexing service that finds a torrent and
    is interrupted, magneticod with a new SQLite file, and magneticow with a
    file of credentials. *)

From S2P Require Import Prelude GoLib HttpLib Persistence Credentials Web WebModel Sql TorrentTables Sqlite3 Sqlite3Laws Sqlite3Props Sqlite3Model Postgres PostgresProps Outputs Dispatch Codec Transport Protocol IndexingService Leech LeechProps Sink Daemon Process Main.
From Stdlib Require Import ZArith Lia.
From stdpp Require Import base list gmap.
Local Open Scope Z_scope.

(** ** One service *)

Definition wit_rands (i : nat) : nat -> option bytes := wit_rand.

Lemma wit_rands_ok i n : is_Some (wit_rands i n).
Proof. apply wit_rand_ok. Qed.

(** The two datagrams of the run, and a codec that reads them. *)
Definition wit_two : Message :=
  wit_response (str "aa") [] [] [] (str "0abcdefghijklmnopqrs1ABCDEFGHIJKLMNOPQRS").
Definition wire_two : bytes :=
  str "d1:rd2:id20:CCCCCCCCCCCCCCCCCCCC7:samples40:0abcdefghijklmnopqrs1ABCDEFGHIJKLMNOPQRSe1:t2:aa1:y1:re".
Definition wire_peers : bytes :=
  str "d1:rd2:id20:CCCCCCCCCCCCCCCCCCCC5:token3:tok6:valuesl6:" ++
  [Byte.x09; Byte.x09; Byte.x09; Byte.x09; Byte.xc8; Byte.xd5] ++
  str "ee1:t2:" ++ [Byte.x00; Byte.x01] ++ str "1:y1:re".

Definition wit_codec : MessageCodec := {|
  MarshalMessage m := Some (str "d1:t" ++ fmt_d (len (m_T m)) ++ str ":" ++ m_T m ++ str "e");
  UnmarshalMessage d :=
    if decide (d = wire_two) then Some wit_two
    else if decide (d = wire_peers) then Some wit_peers_msg else None |}.
#[local] Existing Instance wit_codec.
#[local] Existing Instance inet4_net.

Definition wit_from : UDPAddr :=
  {| udp_IP := [Byte.x7f; Byte.x00; Byte.x00; Byte.x01]; udp_Port := 6881; udp_Zone := [] |}.
Definition wit_datagram (d : bytes) : recv :=
  {| rv_n := len d; rv_data := d; rv_from := Some wit_sa; rv_err := None |}.

(** The service once it has read the datagram [d] that holds [msg]. *)
Definition wit_next (d : bytes) (msg : Message) (s : IndexingService) : IndexingService :=
  let t := transport (protocol s) in
  set_transport (set_buffer t (copy (buffer t) d)) (IndexingService.run (receive wit_rand msg wit_from s)).
Definition wit_service : IndexingService := set_transport wit_transport wit_s0.
Definition wit_sampled : IndexingService := wit_next wire_two wit_two wit_service.
Definition wit_found : IndexingService := wit_next wire_peers wit_peers_msg wit_sampled.

Definition wit_p0 : process (D := mem_db) := process_init (D := mem_db) wit_cid 3 ∅ [wit_service].
Definition wit_p1 : process (D := mem_db) := advance 0 wit_service (wit_sampled, Waiting) wit_p0.
Definition wit_p2 : process (D := mem_db) := advance 0 wit_sampled (wit_found, Waiting) wit_p1.

Local Abbreviation runs_to := (process_run (D := mem_db) (L := bencode_lib) wit_rands wit_resolve wit_cid 3 ∅ [wit_service]).

Lemma wit_service_inv : inv 5 wit_service.
Proof. assert (inv 5 wit_s0) as [] by (by apply inv_init). by split. Qed.

Lemma wit_ready : Forall (ready 5) [wit_service].
Proof. constructor; [|constructor]. split; [exact wit_service_inv|done]. Qed.

Lemma wit_buffers : Forall (fun s => wf_transport (transport (protocol s))) [wit_service].
Proof. constructor; [exact wit_transport_wf|constructor]. Qed.

Lemma wit_next_ok d msg s :
  inv 5 s -> wf_transport (transport (protocol s)) ->
  inv 5 (wit_next d msg s) /\ wf_transport (transport (protocol (wit_next d msg s))).
Proof.
  intros Hs Ht. destruct (receive_safe wit_rand wit_rand_ok 5 msg wit_from s Hs) as (s' & E & [] & _).
  unfold wit_next. rewrite E. split; [by split|by apply set_buffer_wf].
Qed.

Lemma wit_read_run p s d msg :
  runs_to p -> p_services p = [(s, Waiting)] -> p_ended p = [] ->
  inv 5 s -> wf_transport (transport (protocol s)) ->
  d <> [] -> len d <= 65507 -> UnmarshalMessage d = Some msg ->
  runs_to (advance 0 s (wit_next d msg s, Waiting) p).
Proof.
  intros Hp Hs He Hinv Ht Hd Hlen Hmsg. eapply pr_step; [exact Hp|].
  replace (Ret (advance 0 s (wit_next d msg s, Waiting) p))
    with (onRecv (D := mem_db) wit_rands 0 s Waiting (wit_datagram d) p).
  - apply ps_read; [by rewrite Hs|rewrite He; apply not_elem_of_nil].
  - unfold onRecv, wit_datagram, wit_rands.
    rewrite (readMessage_delivers _ _ _ _ _ _ wit_from msg) by done.
    destruct (receive_safe wit_rand wit_rand_ok 5 msg wit_from s Hinv) as (s' & E & _).
    unfold wit_next. by rewrite E.
Qed.

Lemma wit_p2_run : runs_to wit_p2.
Proof.
  destruct (wit_next_ok wire_two wit_two wit_service wit_service_inv wit_transport_wf) as [Hi Ht].
  apply wit_read_run; [|reflexivity|reflexivity|exact Hi|exact Ht|discriminate|by vm_compute|by vm_compute].
  apply wit_read_run; [apply pr_init|reflexivity|reflexivity|exact wit_service_inv|exact wit_transport_wf
    |discriminate|by vm_compute|by vm_compute].
Qed.

Definition wit_p3 : process (D := mem_db) :=
  match onInterrupt wit_p2 with Ret p => p | Panic => wit_p2 end.

Lemma wit_p3_eq : onInterrupt wit_p2 = Ret wit_p3.
Proof.
  assert (Manager_Terminate (map fst (p_services wit_p2)) = Ret [3]) as E by reflexivity.
  unfold wit_p3, onInterrupt. by rewrite E.
Qed.

Lemma wit_p3_run : runs_to wit_p3.
Proof.
  eapply pr_step; [exact wit_p2_run|]. rewrite <- wit_p3_eq.
  apply (ps_interrupt (D := mem_db) wit_rands wit_resolve wit_cid wit_p2). reflexivity.
Qed.

Lemma process_simulated_witness :
  length (output (p_core wit_p3)) = 1%nat /\ p_closed wit_p3 = [3] /\
  daemon_run (D := mem_db) (L := bencode_lib) wit_cid 3 ∅ (p_core wit_p3).
Proof.
  split; [reflexivity|].
  destruct (process_simulated (D := mem_db) (L := bencode_lib) wit_rands wit_resolve wit_rands_ok
    wit_cid 3 5 ∅ [wit_service] wit_p3 ltac:(lia) wit_ready (mem_wf ∅) wit_p3_run) as (Hr & _ & Hc).
  split; [exact Hc|exact Hr].
Defined.

Definition wit_result : IndexingResult :=
  {| infoHash := str "abcdefghijklmnopqrs1";
     peerAddrs := [ {| tcp_IP := [Byte.x09; Byte.x09; Byte.x09; Byte.x09]; tcp_Port := 51413 |} ] |}.

Lemma wit_p2_output : output (p_core wit_p2) = [wit_result].
Proof. vm_compute. reflexivity. Qed.


(** ** magneticod *)

Definition wit_any : Database := anyDatabase (RS := sqlite_model) (RP := pg_model).

(** A host without a database: the file of SQLite is empty. *)
Definition wit_backends : backends (RS := sqlite_model) (RP := pg_model) :=
  {| b_mkdir _ := Ok tt; b_open _ := Ok tt; b_sqlite3 := empty_mem 0; b_pgopen _ := Ok tt;
     b_postgres := pg_empty; b_dial _ := Ok tt; b_use _ := Ok tt; b_outcomes := [] |}.
Definition wit_parse (rawURL : bytes) : option URL := Some wit_url.

Lemma wit_sound : sound (empty_mem 0).
Proof. split; [split; [done|discriminate]|split; constructor|constructor|discriminate]. Qed.

Lemma openDatabase_spec_witness :
  exists d, openDatabase (Some wit_url) wit_backends (str "sqlite3:///data/database.sqlite3") = Ret (Ok d) /\
    db_wf (D := wit_any) d /\ torrents (D := wit_any) d = sqlite3_torrents (empty_mem 0).
Proof.
  destruct (openDatabase_spec (RS := sqlite_model) (RP := pg_model) (Some wit_url) wit_backends
    (str "sqlite3:///data/database.sqlite3")) as (r & Hr & _ & H).
  destruct (H wit_url eq_refl) as (_ & _ & Hs).
  assert (has_scheme (str "sqlite3:///data/database.sqlite3") (str "sqlite3")) as Hsch.
  { exists (str "sqlite3"), (str "///data/database.sqlite3"). split; reflexivity. }
  specialize (Hs Hsch wit_sound). destruct r as [d|e].
  - exists d. split; [exact Hr|exact Hs].
  - exfalso. destruct Hs as [Hs|[Hs|Hs]]; [by apply Hs|discriminate|discriminate].
Defined.

(** Interrupted at once. *)
Definition wit_loop (op : opFlags) (d0 : db (Database := wit_any)) (ss : list IndexingService) : looped :=
  match onInterrupt (process_init wit_cid (LeechMaxN op) d0 ss) with
  | Ret p => Interrupted (p_closed p) (database (p_core p))
  | Panic => Died
  end.

Lemma wit_loop_ok op d0 ss :
  event_loop (L := bencode_lib) wit_rands wit_resolve wit_cid op d0 ss (wit_loop op d0 ss).
Proof.
  pose proof (ps_interrupt (D := wit_any) (L := bencode_lib) wit_rands wit_resolve wit_cid
    (process_init wit_cid (LeechMaxN op) d0 ss) eq_refl) as Hi.
  unfold wit_loop. destruct (onInterrupt _) as [p|] eqn:E.
  - apply el_interrupted; [by eapply pr_step; [apply pr_init|]|].
    unfold onInterrupt in E. destruct (Manager_Terminate _); [|done]. by injection E as <-.
  - eapply el_died; [apply pr_init|exact Hi].
Qed.

Definition wit_command : Daemon.cmdFlags :=
  {| cf_DatabaseURL := []; cf_IndexerAddrs := [str "0.0.0.0:0"; str "10.0.0.1:6881"];
     cf_IndexerInterval := 1; cf_IndexerMaxNeighbors := 1000; cf_LeechMaxN := 50;
     cf_Verbose := []; cf_Profile := str "cpu" |}.
Definition wit_addrs (a : bytes) : option UDPAddr := Some wit_addr.
Definition wit_secret (i : nat) : option bytes := Some (str "0123456789abcdefghij").
Definition wit_socket (i : nat) : option Z := Some (3 + Z.of_nat i).
Definition wit_bind (f : Z) (ip : bytes) (port : Z) : bool := true.
Definition wit_answers : io (Database := wit_any) :=
  {| a_sql := (1500000000, []); a_stdout := None; a_put := Ok 1 |}.
Definition wit_magneticod : prog unit :=
  magneticod wit_parse wit_backends (str "/data") wit_addrs wit_secret wit_socket wit_bind wit_answers
    wit_loop (Some wit_command).

Definition wit_trace : list effect :=
  [SetLevel WarnLevel; StartProfile false;
   OpenDatabase (str "sqlite3:///data/database.sqlite3?_journal_mode=WAL&_busy_timeout=3000&_foreign_keys=true");
   BindSocket 3; BindSocket 4; CloseSocket 3; CloseSocket 4; CloseDatabase; StopProfile; SyncLog].

Lemma wit_magneticod_run : run_main wit_magneticod = (wit_trace, Returned).
Proof. vm_compute. reflexivity. Qed.


(** ** magneticow *)

Definition wit_tempdir : bytes := str "/tmp/magneticod_1".
Definition wit_magneticow : prog unit :=
  magneticow (O := model_outside) wit_parse wit_backends (Ok (wit_flags false)) (str "/data") (str "/config")
    wit_open (Ok wit_tempdir) (fun _ => Ok tt) (fun _ => true).

Definition wit_served : list effect :=
  [SetLevel InfoLevel; NotifySighup; MakeTempDir wit_tempdir; StartClient;
   OpenDatabase (str "sqlite3:///data/database.sqlite3?_journal_mode=WAL"); Serve (str ":8080");
   CloseClient; RemoveAll wit_tempdir; SyncLog].

Lemma wit_magneticow_run : run_main wit_magneticow = (wit_served, Returned).
Proof. vm_compute. reflexivity. Qed.

